(* ===== verification/_CoqProject ===== *)
-Q . S2P
Prelude.v
Address.v
Firewall.v
GoStd.v
Transport.v
Handshake.v
Links.v
Listeners.v
Proto.v
Core.v
Ipv6rwc.v
Tun.v
Multicast.v
Jumper.v
Fetcher.v
Autopeer.v
Routing.v
Outproxy.v
Socks.v
Json.v
TcpTransport.v
LinkTransport.v
Config.v
Admin.v
AdminHandlers.v
Controller.v
LocalDNS.v
Daemon.v
Yggctl.v
Tools.v
Web.v
Native.v
Startup.v
WebStatic.v
