(* ===== verification/Prelude.v ===== *)
(** * Verification of ygg: root file and prelude

    ygg is a node of the Yggdrasil overlay network, split into a library
    (src/ygglib) and a daemon (src/yggd).  A node has an ed25519 key; its IPv6
    address and subnet are computed from the key.  The core keeps links to
    peers over pluggable transports and hands packets to the ironwood router;
    above it the IPv6 packet interface turns addresses into keys, and the TUN
    adapter moves packets between an operating-system device and that interface
    through a packet firewall.

    The development is a shallow embedding, one file per part.  A file opens
    with the state and the operations as the Go code has them and closes with
    its theorems and their witnesses on concrete inputs.

    ** Files

    - Prelude: results, machine integers, slices, shared lemmas and tactics
      (this file; nothing in it is specific to a part).
    - GoStd: the functions of Go's standard library that the sources call on
      strings, paths ([path.Match]), URLs, numbers and for stable sorting.
    - Json: encoding/json as the sources use it, on trees.
    - Address: address/address.go.  [AddrForKey], [SubnetForKey], [GetKey] with
      their bit loops.
    - Firewall: tun/firewall.go.  The extension-header parser, the flow table,
      [AllowOutgoing], [AllowIncoming], [SetConfig].
    - Tun: tun/tun.go, iface.go, options.go.  The supervisor, the queue, the
      loops of the attachment sessions and the buffer pool; calls [Firewall].
    - Ipv6rwc: ipv6rwc/ipv6rwc.go, icmpv6.go.  The key store between packets and
      the router; calls [Address].
    - Transport: transport/manager.go.  Networks, transports, mappings, the
      table of resources and its reaction to configuration changes.
    - Handshake: core/version.go.  The metadata message of a new connection.
    - Links: core/link.go, transport_url.go.  URL options, the connection
      handler over [Handshake], and (Modules [Table], [TableTheorems]) the table
      of links with the goroutines that dial and accept.
    - Listeners: core/link.go.  The listening sockets, from listen to the end of
      their goroutines; calls [Links].
    - Proto: core/proto.go, nodeinfo.go, types.go.  The in-band requests.
    - Core: core/core.go, api.go, options.go.  Start-up, options, traffic and
      views over [Links], [Proto] and [Address].
    - Multicast: multicast/multicast.go, advertisement.go, options.go, admin.go.
      The announcements, the beacons and the listeners of the discovery actor;
      calls [Links] and [Transport].
    - Jumper: jumper/manager.go.  Direct links to nodes that traffic goes to.
    - Fetcher, Autopeer: autopeer/fetcher.go, types.go, manager.go.  The lists
      of public peers and the policy that picks from them.
    - Routing, Outproxy, Socks: sockstun/ and outproxy/.  Which network carries
      a connection of the SOCKS servers, TLS interception, and the life of the
      servers.
    - TcpTransport, LinkTransport: transport/tcp_helpers.go, tls.go and
      yggd/linktransport/.  Dialing and listening over TCP with a source
      interface, and over QUIC, WebSockets and Unix sockets.
    - Config: config/, transportcfg/.  Loading, normal form, JSON form.
    - Admin, AdminHandlers: admin/.  The protocol of the admin socket and of the
      web interface, and what each request does; the node behind the requests is
      the class [Node], the libraries around them the class [Externals].
    - Controller, LocalDNS, Daemon: yggd/yggd/.  The TUN controller, the local
      DNS server, and the start and stop of everything.
    - Startup: yggd/yggd/main.go, multicast/options.go.  The state in which the
      daemon leaves autopeering, the jumper and multicast discovery.
    - Native: yggd/tunnative/.  The TUN devices of the operating systems.
    - Yggctl, Tools: yggd/yggctl/, yggd/genkeys/, yggd/yggd/chuser_unix.go.  The
      command-line client against the daemon, the key generator, the change of
      user.
    - WebStatic: admin/web.go.  The pages of the web interface.
    - Web: web/main.go.  The node in the browser.

    Lower files do not know the higher ones: Tun calls Firewall; Links calls
    Handshake; Core calls Links, Proto and Address; Autopeer calls Fetcher and,
    through the class [PeerManager], the core;
    Listeners calls Links; Socks calls Routing and Outproxy; AdminHandlers calls Admin, Config, Jumper,
    Autopeer, Core and Tun; Controller calls Firewall, Socks and Config; Daemon
    and Startup call all of these; Yggctl calls Admin and Daemon; Web calls
    Autopeer.

    ** How code becomes definitions

    A [byte] is a [Z] in [0, 256) ([wf_byte]) and operations that wrap use [u8],
    [u16], [u64] or [i64].  A slice of bytes is a list.  A Go map is a [gmap],
    a set of ports or keys a [gset]; where the code ranges over a map, the
    order is an argument, and the theorems hold for every order.  A pointer is a
    [Z] or an index into a heap of the state, so that aliasing and pointer
    comparisons are those of the code.  [(value, error)] is [result], an error
    that nobody tells apart is [option].  A panic is a value of its own where
    the code can panic ([Config.outcome], the results of Admin, the reasons of
    Daemon).  float64 is [SpecFloat] with the rounding of 53 bits.

    Concurrency: every section that holds a mutex, every message handled by an
    actor or by the supervisor goroutine, and every action of a goroutine
    between two blocking points is one step; [World.step] of Transport,
    [Table.exec_out] and [Table.exec_in] of Links, [step] of Ipv6rwc and [exec]
    of Tun and Fetcher interleave them freely, timers included.  In Jumper a
    goroutine is a tree of instructions, and [exec] lets any goroutine take its
    next one; in Socks the accept loop, the sessions and [Close] are three kinds
    of steps.  Where the code gives up a mutex in the middle of an operation,
    the model has two steps; the races that this admits are theorems
    ([accept_race], [duplicate_forgets_link], [restart_race],
    [late_connection_not_closed]).

    Parameters, with their hypotheses where a theorem needs them: ed25519
    ([Sign], [Verify]: signatures have 64 bytes and verify under the matching
    key), blake2b (a 64-byte hash that rejects keys over 64 bytes), the ironwood
    packet connection (its MTU is large enough for a message), the text of JSON
    values, HJSON, PEM, durations and the file system (class [Platform]), the
    ICMP marshaller of golang.org/x/net, gonnect's networks and devices, the
    SOCKS clients and filters of socksgo, the resolvers of mnlib, net/url and
    the parsing of floats.  A call of the system that can fail is an outcome, an
    argument of the operation.  A witness instantiates each of them.

    ** Theorems

    - Address: the address is the packed run length and the bits after it for
      every key, and the partial key recovered from it has the same address.
    - Firewall: replies get in, nothing unsolicited does, FIN and RST close a
      flow, pruning lets nothing more in and is unobservable while the times of
      the packets do not decrease, the parser is equivalent to a declarative
      header chain.
    - Tun: packets reach the device in order and unchanged although buffers are
      reused; status, current session and MTU agree in every interleaving; a
      detached device is silent; Stop is final.
    - Ipv6rwc: packets go only to the owner of their destination and are
      accepted only from the owner of their source; a buffered packet is
      delivered unless one of the steps named in the theorem comes first.
    - Transport: no resource survives on a network that the configuration does
      not select, apart from the accepted-connection race that is exhibited.
    - Handshake and Links: a connection reaches the router exactly when it
      authenticates and passes the configured checks; honest nodes agree; which
      options a URL gives a link; the link table has no stale entries, apart from
      the exhibited cases; no dial begins for a peer that was removed.
    - Proto and Core: callbacks run at most once and never for a stale timer,
      answers fit the MTU and are read back, traffic arrives unchanged, options
      are applied before the first peer.
    - Multicast: a node that announces itself with the right password is called
      with its key pinned; every call answers a datagram that was received and
      proves the password; announcements go on, listeners are never forgotten
      before Stop.
    - Jumper: every dial and every removal is justified, at most one loop runs,
      what an undisturbed check of a target does, and what a node advertises is
      read back.
    - Fetcher and Autopeer: the aggregate is that of the configured sources in
      every interleaving; a check adds the best eligible peer or says why not;
      against a peer manager that obeys the laws of [PeerManagerLaws], which the
      core does ([Startup.core_peers_laws]), all eligible peers are added in the
      end.
    - Routing, Outproxy, Socks: protected names are not resolved, apart from the
      exhibited zone; the own network never goes through the default proxy, a
      name is resolved once; Close waits for every session, apart from the
      exhibited race.
    - Config: loading is idempotent and leaves a key with its certificate; the
      JSON form is read back; exactly a key of the wrong length panics.
    - Admin and AdminHandlers: every request gets one answer, over the socket
      and over HTTP the same; listings are sorted; the process ends exactly for
      null arguments of some handlers and when an operation of the node panics.
    - Controller, LocalDNS, Daemon: a request to attach is carried out or
      refused as a whole, the start asks for what is configured, DNS answers
      name only what was asked, the default networks hide overlay names, and
      start and shutdown respect what the components need.
    - Listeners: a core that was stopped has no registered listener left, nor
      the goroutine of one; a listener that is being opened meanwhile survives.
    - TcpTransport, LinkTransport: from which addresses of a source interface a
      connection may come, and when it does; a
      QUIC connection waits, was accepted or was closed; which WebSocket origins
      are let in.
    - Startup: the components are configured as the file says.
    - Native: a device that is returned is all that is open, and has the address
      of the node; what an error or a panic leaves open.
    - Yggctl, Tools: a request that the client sends is answered and shown as
      the daemon meant it; the client finds the socket of the daemon; the best
      key is found.
    - WebStatic: no request leaves the root; which pages fall back to the start
      page, and which are redirected without end.
    - Web: every session is accounted for in every interleaving of the calls
      that the page makes, apart from the exhibited overlap; what is left open of
      a node is what its failed start left; passwords are not shown.

    ** Bounds and fuel

    [parse_headers] has fuel for one header per byte, and never runs out
    ([transport_packet_spec] has no fuel); the path matcher has fuel for the
    length of the pattern; [format_digits] has fuel for 20 digits, enough for 64
    bits ([ParseUint_format]); the retry loop of [dial_or_listen] runs over the
    list of attempts it is given, and [dial_listen_spec] says when it stops.
    Everything else is structural.

    ** Not modelled

    The ironwood router, the texts of JSON and HJSON, socket options, most C
    structures of the system calls, the bindings of the web page to JavaScript
    and its static server (web/server), the examples, parsing of flags, drawing
    of tables, logging, and the accessors of a network that only call the one
    they wrap: they are I/O or only call libraries. *)

From Stdlib Require Export ZArith Lia.
From stdpp Require Export base tactics list numbers strings gmap sets fin_maps sorting.

(** ** Scope and results *)

Declare Scope go_scope.
Delimit Scope go_scope with go.

(** A Go call that returns [(value, error)]: exactly one of the two is
    meaningful. *)
Inductive result (E A : Type) : Type :=
| Ok (a : A)
| Err (e : E).
Arguments Ok {E A} a.
Arguments Err {E A} e.

Definition rbind {E A B} (m : result E A) (k : A -> result E B) : result E B :=
  match m with Ok a => k a | Err e => Err e end.

Definition is_ok {E A} (m : result E A) : bool :=
  match m with Ok _ => true | Err _ => false end.

Notation "'let?' x ':=' m 'in' k" := (rbind m (fun x => k))
  (at level 10, x pattern, m at level 100, k at level 200) : go_scope.

Open Scope Z_scope.
Open Scope go_scope.

(** ** Machine integers and bytes

    A Go [byte] is a [Z] in [0, 256); [wf_byte] says so.  Operations that
    wrap are written with the wrapping function of their width. *)

Abbreviation bytes := (list Z).

Definition u8 (z : Z) : Z := z mod 2 ^ 8.
Definition u16 (z : Z) : Z := z mod 2 ^ 16.
Definition u64 (z : Z) : Z := z mod 2 ^ 64.

(** [int64] two's complement wrap. *)
Definition i64 (z : Z) : Z := (z + 2 ^ 63) mod 2 ^ 64 - 2 ^ 63.

Definition wf_byte (b : Z) : Prop := 0 <= b < 256.
Definition wf_bytes (bs : bytes) : Prop := Forall wf_byte bs.

Global Instance wf_byte_dec b : Decision (wf_byte b).
Proof. unfold wf_byte. apply _. Defined.
Global Instance wf_bytes_dec bs : Decision (wf_bytes bs).
Proof. unfold wf_bytes. apply _. Defined.

(** [^b] on a byte. *)
Definition bnot (b : Z) : Z := Z.lxor b 0xff.

(** ** Slices

    [copy(dst, src)] of Go: overwrites the common prefix. *)
Definition copy {A} (dst src : list A) : list A :=
  take (length dst) src ++ drop (length src) dst.

(** [bs[lo:hi]] for [lo <= hi <= len bs]. *)
Definition slice {A} (lo hi : nat) (bs : list A) : list A :=
  take (hi - lo) (drop lo bs).

(** [binary.BigEndian]: [be16_put] appends a [uint16], [be16] reads one. *)
Definition be16_put (v : Z) : bytes := [u8 (Z.shiftr v 8); u8 v].
Definition be16 (bs : bytes) : Z := Z.lor (bs !!! 1%nat) (Z.shiftl (bs !!! 0%nat) 8).

Lemma length_be16_put v : length (be16_put v) = 2%nat.
Proof. done. Qed.

(** ** Tactics *)

(** Destructs the first [match] or [if] of the goal or of a hypothesis. *)
Ltac split_match :=
  match goal with
  | |- context [match ?x with _ => _ end] =>
      lazymatch x with context [match _ with _ => _ end] => fail | _ => idtac end;
      let H := fresh "E" in destruct x eqn:H
  | H : context [match ?x with _ => _ end] |- _ =>
      lazymatch x with context [match _ with _ => _ end] => fail | _ => idtac end;
      let H' := fresh "E" in destruct x eqn:H'
  end.
Ltac split_matches := repeat (split_match; simplify_eq/=).

(** Turns the boolean tests of the code into propositions. *)
Ltac bool_props :=
  repeat match goal with
  | H : andb _ _ = true |- _ => apply andb_true_iff in H as [? ?]
  | H : orb _ _ = false |- _ => apply orb_false_iff in H as [? ?]
  | H : negb _ = true |- _ => apply negb_true_iff in H
  | H : negb _ = false |- _ => apply negb_false_iff in H
  | H : (_ =? _)%Z = true |- _ => apply Z.eqb_eq in H
  | H : (_ =? _)%Z = false |- _ => apply Z.eqb_neq in H
  | H : (_ <? _)%Z = true |- _ => apply Z.ltb_lt in H
  | H : (_ <? _)%Z = false |- _ => apply Z.ltb_ge in H
  | H : (_ <=? _)%Z = true |- _ => apply Z.leb_le in H
  | H : (_ <=? _)%Z = false |- _ => apply Z.leb_gt in H
  | H : (_ =? _)%nat = true |- _ => apply Nat.eqb_eq in H
  | H : (_ =? _)%nat = false |- _ => apply Nat.eqb_neq in H
  | H : (_ <? _)%nat = true |- _ => apply Nat.ltb_lt in H
  | H : (_ <? _)%nat = false |- _ => apply Nat.ltb_ge in H
  | H : (_ <=? _)%nat = true |- _ => apply Nat.leb_le in H
  | H : (_ <=? _)%nat = false |- _ => apply Nat.leb_gt in H
  | H : bool_decide _ = true |- _ => apply bool_decide_eq_true in H
  | H : bool_decide _ = false |- _ => apply bool_decide_eq_false in H
  end.

(** ** Byte facts *)

(** Closes a decidable goal on concrete data. *)
Ltac by_computation :=
  match goal with |- ?P => apply (bool_decide_eq_true_1 P); vm_compute; reflexivity end.

Create HintDb ygg discriminated.

(** A decidable fact about bytes is proved by evaluating it on all 256. *)
Lemma byte_forall (P : Z -> bool) :
  forallb P (seqZ 0 256) = true -> forall b, wf_byte b -> P b = true.
Proof.
  intros HP b [??]. rewrite forallb_forall in HP.
  apply HP, list_elem_of_In, elem_of_seqZ. lia.
Qed.

Lemma i64_small z : - 2 ^ 63 <= z < 2 ^ 63 -> i64 z = z.
Proof. intros. unfold i64. rewrite Z.mod_small; lia. Qed.

Lemma u8_wf z : wf_byte (u8 z).
Proof. apply Z.mod_pos_bound. lia. Qed.

Lemma u8_small z : wf_byte z -> u8 z = z.
Proof. intros. apply Z.mod_small. assumption. Qed.

Lemma bnot_wf b : wf_byte b -> wf_byte (bnot b).
Proof.
  intros Hb. apply (bool_decide_eq_true_1 (wf_byte (bnot b))).
  revert b Hb. apply byte_forall. vm_compute. reflexivity.
Qed.

Lemma bnot_involutive b : wf_byte b -> bnot (bnot b) = b.
Proof.
  intros _. unfold bnot. rewrite Z.lxor_assoc, Z.lxor_nilpotent. apply Z.lxor_0_r.
Qed.

Lemma wf_bytes_app l k : wf_bytes (l ++ k) <-> wf_bytes l /\ wf_bytes k.
Proof. apply Forall_app. Qed.

Lemma wf_bytes_take n l : wf_bytes l -> wf_bytes (take n l).
Proof. apply Forall_take. Qed.

Lemma wf_bytes_drop n l : wf_bytes l -> wf_bytes (drop n l).
Proof. apply Forall_drop. Qed.

Lemma wf_bytes_replicate n : wf_bytes (replicate n 0).
Proof. apply Forall_replicate. unfold wf_byte. lia. Qed.

Lemma wf_bytes_lookup_total l i : wf_bytes l -> wf_byte (l !!! i).
Proof.
  intros H. rewrite list_lookup_total_alt. destruct (l !! i) eqn:E; simpl.
  - eapply Forall_lookup_1; eauto.
  - unfold wf_byte. simpl. lia.
Qed.

#[export] Hint Resolve u8_wf bnot_wf wf_bytes_take wf_bytes_drop wf_bytes_replicate
  wf_bytes_lookup_total : ygg.

Lemma be16_put_wf v : wf_bytes (be16_put v).
Proof. repeat constructor; apply u8_wf. Qed.

Lemma lor_shiftl_bytes hi lo : wf_byte lo -> Z.lor lo (Z.shiftl hi 8) = lo + 256 * hi.
Proof.
  intros [? ?]. rewrite Z.shiftl_mul_pow2 by lia.
  pose proof (Z.add_lor_land lo (hi * 2 ^ 8)).
  enough (Z.land lo (hi * 2 ^ 8) = 0) by lia.
  apply Z.bits_inj'. intros n Hn. rewrite Z.land_spec, Z.bits_0.
  destruct (decide (n < 8)).
  - rewrite Z.mul_pow2_bits_low by lia. apply andb_false_r.
  - replace lo with (lo mod 2 ^ 8) by (apply Z.mod_small; lia).
    rewrite Z.mod_pow2_bits_high by lia. reflexivity.
Qed.

(** The two halves of a [uint16] reassemble to it. *)
Lemma be16_put_get v rest : 0 <= v < 65536 -> be16 (be16_put v ++ rest) = v.
Proof.
  intros Hv. unfold be16, be16_put. simpl.
  rewrite lor_shiftl_bytes by apply u8_wf. unfold u8.
  rewrite Z.shiftr_div_pow2 by lia. change (2 ^ 8) with 256.
  rewrite (Z.mod_small (v / 256)) by (split; [apply Z.div_pos; lia | apply Z.div_lt_upper_bound; lia]).
  pose proof (Z.div_mod v 256). lia.
Qed.

(** ... and what is read is what was written. *)
Lemma be16_put_be16 x y l : wf_byte x -> wf_byte y -> be16_put (be16 (x :: y :: l)) = [x; y].
Proof.
  intros Hx Hy. unfold be16, be16_put. cbn. rewrite lor_shiftl_bytes by done.
  unfold u8, wf_byte in *. rewrite Z.shiftr_div_pow2 by lia. change (2 ^ 8) with 256.
  rewrite Z.add_comm, Z.mul_comm, Z.div_add_l, (Z.div_small y), Z.add_0_r by lia.
  rewrite Z.add_comm, Z.mod_add by lia. rewrite !Z.mod_small by lia. done.
Qed.

Lemma be16_range bs : wf_bytes bs -> 0 <= be16 bs < 65536.
Proof.
  intros H. unfold be16.
  pose proof (wf_bytes_lookup_total bs 0 H) as [? ?].
  pose proof (wf_bytes_lookup_total bs 1 H) as [? ?].
  rewrite lor_shiftl_bytes by (split; assumption). lia.
Qed.

#[export] Hint Resolve be16_put_wf be16_range : ygg.

(** ** Slices: lengths and identities *)

Lemma length_copy {A} (dst src : list A) : length (copy dst src) = length dst.
Proof. unfold copy. rewrite length_app, length_take, length_drop. lia. Qed.

Lemma copy_all {A} (dst src : list A) : length dst = length src -> copy dst src = src.
Proof.
  intros E. unfold copy. rewrite E, firstn_all, <- E, drop_all. apply app_nil_r.
Qed.

Lemma length_slice {A} lo hi (bs : list A) :
  (lo <= hi <= length bs)%nat -> length (slice lo hi bs) = (hi - lo)%nat.
Proof. intros. unfold slice. rewrite length_take, length_drop. lia. Qed.

Lemma wf_bytes_slice lo hi bs : wf_bytes bs -> wf_bytes (slice lo hi bs).
Proof. unfold slice. auto with ygg. Qed.

Lemma wf_bytes_copy dst src : wf_bytes dst -> wf_bytes src -> wf_bytes (copy dst src).
Proof. intros. apply wf_bytes_app. auto with ygg. Qed.

#[export] Hint Resolve wf_bytes_slice wf_bytes_copy : ygg.
