(* ===== verification/Address.v ===== *)
(** * Address: ygglib/address/address.go

    Derivation of IPv6 addresses and /64 subnets from ed25519 public keys, and
    the partial key an address determines.  A key, an [Address] and a [Subnet]
    are byte lists (of length 32, 16 and 8).  The definitions follow the loops
    of the source; [key_bits]-style specifications on lists of bits follow, and
    the theorems relate the two. *)

From S2P Require Import Prelude.

(** ed25519.PublicKeySize *)
Definition PublicKeySize : nat := 32.

Definition GetPrefix : bytes := [0x02].

Definition Address_IsValid (a : bytes) : bool :=
  forallb (fun idx => a !!! idx =? GetPrefix !!! idx) (seq 0 (length GetPrefix)).

Definition Subnet_IsValid (s : bytes) : bool :=
  let l := length GetPrefix in
  forallb (fun idx => s !!! idx =? GetPrefix !!! idx) (seq 0 (l - 1)) &&
  (s !!! (l - 1)%nat =? Z.lor (GetPrefix !!! (l - 1)%nat) 0x01).

(** The loop of AddrForKey: one iteration per bit of the inverted key. *)
Record addr_loop := AddrLoop {
  al_temp : bytes;
  al_done : bool;
  al_ones : Z;   (* byte: wraps at 256 *)
  al_bits : Z;   (* byte *)
  al_nBits : Z
}.

Definition addr_bit (buf : bytes) (idx : nat) : Z :=
  Z.shiftr (Z.land (buf !!! (idx / 8)%nat) (Z.shiftr 0x80 (Z.of_nat (idx mod 8))))
    (7 - Z.of_nat (idx mod 8)).

Definition addr_step (s : addr_loop) (bit : Z) : addr_loop :=
  if negb (al_done s) && negb (bit =? 0) then
    AddrLoop (al_temp s) (al_done s) (u8 (al_ones s + 1)) (al_bits s) (al_nBits s)
  else if negb (al_done s) && (bit =? 0) then
    AddrLoop (al_temp s) true (al_ones s) (al_bits s) (al_nBits s)
  else
    let bits := Z.lor (u8 (Z.shiftl (al_bits s) 1)) bit in
    let nBits := al_nBits s + 1 in
    if nBits =? 8
    then AddrLoop (al_temp s ++ [bits]) (al_done s) (al_ones s) bits 0
    else AddrLoop (al_temp s) (al_done s) (al_ones s) bits nBits.

Definition addr_loop_run (buf : bytes) : addr_loop :=
  fold_left (fun s idx => addr_step s (addr_bit buf idx)) (seq 0 (8 * length buf))
    (AddrLoop [] false 0 0 0).

(** [None] is the nil result for a key of the wrong length. *)
Definition AddrForKey (publicKey : bytes) : option bytes :=
  if negb (length publicKey =? PublicKeySize)%nat then None
  else
    let buf := map bnot (copy (replicate PublicKeySize 0) publicKey) in
    let s := addr_loop_run buf in
    let addr := copy (replicate 16 0) GetPrefix in
    let addr := <[length GetPrefix := al_ones s]> addr in
    Some (take (length GetPrefix + 1) addr ++
          copy (drop (length GetPrefix + 1) addr) (al_temp s)).

Definition SubnetForKey (publicKey : bytes) : option bytes :=
  match AddrForKey publicKey with
  | None => None
  | Some addr =>
      let snet := copy (replicate 8 0) addr in
      Some (alter (fun b => Z.lor b 0x01) (length GetPrefix - 1)%nat snet)
  end.

(** GetKey: [key[idx/8] |= bits] in two loops; the second one stops when the
    key is full. *)
Definition or_byte (key : bytes) (i : nat) (bits : Z) : bytes :=
  alter (fun b => Z.lor b bits) i key.

Definition getkey_ones (ones : nat) (key : bytes) : bytes :=
  fold_left (fun key idx => or_byte key (idx / 8) (Z.shiftr 0x80 (Z.of_nat (idx mod 8))))
    (seq 0 ones) key.

Fixpoint getkey_tail (a : bytes) (keyOffset addrOffset : nat) (idxs : list nat)
    (key : bytes) : bytes :=
  match idxs with
  | [] => key
  | idx :: idxs =>
      let bits := Z.land (a !!! (idx / 8)%nat) (Z.shiftr 0x80 (Z.of_nat (idx mod 8))) in
      let bits := u8 (Z.shiftl bits (Z.of_nat (idx mod 8))) in
      let keyIdx := (keyOffset + (idx - addrOffset))%nat in
      let bits := Z.shiftr bits (Z.of_nat (keyIdx mod 8)) in
      let i := (keyIdx / 8)%nat in
      if (length key <=? i)%nat then key
      else getkey_tail a keyOffset addrOffset idxs (or_byte key i bits)
  end.

Definition GetKey (a : bytes) : bytes :=
  let ones := Z.to_nat (a !!! length GetPrefix) in
  let key := getkey_ones ones (replicate PublicKeySize 0) in
  let addrOffset := (8 * length GetPrefix + 8)%nat in
  let key := getkey_tail a (ones + 1) addrOffset
    (seq addrOffset (8 * length a - addrOffset)) key in
  map bnot key.

Definition Subnet_GetKey (s : bytes) : bytes := GetKey (copy (replicate 16 0) s).

(** ** Specification on bits, most significant first *)

Definition byte_bit (b : Z) (r : nat) : bool := Z.testbit b (7 - Z.of_nat r).
Definition byte_bits (b : Z) : list bool := map (byte_bit b) (seq 0 8).
Definition to_bits (bs : bytes) : list bool := concat (map byte_bits bs).

Definition bits_val (l : list bool) : Z := fold_left (fun v b => 2 * v + Z.b2z b) l 0.

(** Packs complete groups of eight bits; a shorter rest is dropped. *)
Fixpoint of_bits (l : list bool) : bytes :=
  match l with
  | a :: b :: c :: d :: e :: f :: g :: h :: l =>
      bits_val [a; b; c; d; e; f; g; h] :: of_bits l
  | _ => []
  end.

Fixpoint leading_ones (l : list bool) : nat :=
  match l with
  | true :: l => S (leading_ones l)
  | _ => 0
  end.

(** [n] elements of [l], filled up with [d]. *)
Definition pad {A} (d : A) (n : nat) (l : list A) : list A :=
  take n (l ++ replicate n d).

(** The address of a key whose inverted bits are [nb]. *)
Definition spec_addr (nb : list bool) : bytes :=
  [0x02; u8 (Z.of_nat (leading_ones nb))] ++ pad 0 14 (of_bits (drop (S (leading_ones nb)) nb)).

(** The inverted bits of the partial key of an address. *)
Definition spec_partial (a : bytes) : list bool :=
  pad false 256 (replicate (Z.to_nat (a !!! 1%nat)) true ++ false :: to_bits (drop 2 a)).

(** ** Bits of bytes *)

Lemma length_byte_bits b : length (byte_bits b) = 8%nat.
Proof. reflexivity. Qed.

Lemma to_bits_cons b bs : to_bits (b :: bs) = byte_bits b ++ to_bits bs.
Proof. reflexivity. Qed.

Lemma length_to_bits bs : length (to_bits bs) = (8 * length bs)%nat.
Proof.
  induction bs as [|b bs IH]; [reflexivity|].
  rewrite to_bits_cons, length_app, IH, length_byte_bits. simpl length. lia.
Qed.

Lemma take_to_bits q l : to_bits (take q l) = take (8 * q) (to_bits l).
Proof.
  revert l. induction q as [|q IH]; intros [|b l]; [reflexivity..|].
  replace (8 * S q)%nat with (length (byte_bits b) + 8 * q)%nat by (rewrite length_byte_bits; lia).
  cbn [take]. rewrite !to_bits_cons, take_app_add, IH. reflexivity.
Qed.

Lemma to_bits_app l k : to_bits (l ++ k) = to_bits l ++ to_bits k.
Proof. unfold to_bits. rewrite map_app. apply concat_app. Qed.

(** [(b & (0x80 >> r)) >> (7 - r)] is bit [r] of [b]. *)
Lemma bit_extract b r : wf_byte b -> (r < 8)%nat ->
  Z.shiftr (Z.land b (Z.shiftr 0x80 (Z.of_nat r))) (7 - Z.of_nat r) = Z.b2z (byte_bit b r).
Proof.
  intros Hb Hr. apply Z.eqb_eq.
  assert (forallb (fun r => Z.shiftr (Z.land b (Z.shiftr 0x80 (Z.of_nat r))) (7 - Z.of_nat r)
            =? Z.b2z (byte_bit b r)) (seq 0 8) = true) as H.
  { revert b Hb. apply byte_forall. vm_compute. reflexivity. }
  rewrite forallb_forall in H. apply H. apply in_seq. lia.
Qed.

(** [((b & (0x80 >> r)) << r) >> s], the moved bit of GetKey. *)
Lemma bit_move b r s : wf_byte b -> (r < 8)%nat ->
  Z.shiftr (u8 (Z.shiftl (Z.land b (Z.shiftr 0x80 (Z.of_nat r))) (Z.of_nat r))) s =
  if byte_bit b r then Z.shiftr 0x80 s else 0.
Proof.
  intros Hb Hr.
  transitivity (Z.shiftr (if byte_bit b r then 0x80 else 0) s).
  2: { destruct (byte_bit b r); [reflexivity|apply Z.shiftr_0_l]. }
  f_equal. apply Z.eqb_eq.
  assert (forallb (fun r => u8 (Z.shiftl (Z.land b (Z.shiftr 0x80 (Z.of_nat r))) (Z.of_nat r))
            =? if byte_bit b r then 0x80 else 0) (seq 0 8) = true) as H.
  { revert b Hb. apply byte_forall. vm_compute. reflexivity. }
  rewrite forallb_forall in H. apply H. apply in_seq. lia.
Qed.

(** Setting one bit of a byte. *)
Lemma byte_bits_or b r (v : bool) : wf_byte b -> (r < 8)%nat ->
  byte_bits (Z.lor b (if v then Z.shiftr 0x80 (Z.of_nat r) else 0)) =
  alter (orb v) r (byte_bits b).
Proof.
  intros Hb Hr. apply (bool_decide_eq_true_1 (byte_bits _ = _)).
  assert (forallb (fun r => bool_decide (byte_bits (Z.lor b (if v then Z.shiftr 0x80 (Z.of_nat r) else 0)) =
    alter (orb v) r (byte_bits b))) (seq 0 8) = true) as H.
  { revert b Hb. destruct v; apply byte_forall; vm_compute; reflexivity. }
  rewrite forallb_forall in H. apply H. apply in_seq. lia.
Qed.

Lemma or_byte_wf b r (v : bool) : wf_byte b -> (r < 8)%nat ->
  wf_byte (Z.lor b (if v then Z.shiftr 0x80 (Z.of_nat r) else 0)).
Proof.
  intros Hb Hr. apply (bool_decide_eq_true_1 (wf_byte _)).
  assert (forallb (fun r => bool_decide (wf_byte (Z.lor b (if v then Z.shiftr 0x80 (Z.of_nat r) else 0))))
    (seq 0 8) = true) as H.
  { revert b Hb. destruct v; apply byte_forall; vm_compute; reflexivity. }
  rewrite forallb_forall in H. apply H. apply in_seq. lia.
Qed.

Lemma byte_bits_bnot b : wf_byte b -> byte_bits (bnot b) = map negb (byte_bits b).
Proof.
  intros Hb. apply (bool_decide_eq_true_1 (byte_bits _ = _)).
  revert b Hb. apply byte_forall. vm_compute. reflexivity.
Qed.

Lemma bits_val_byte_bits b : wf_byte b -> bits_val (byte_bits b) = b.
Proof. intros Hb. apply Z.eqb_eq. revert b Hb. apply byte_forall. vm_compute. reflexivity. Qed.

Lemma to_bits_bnot bs : wf_bytes bs -> to_bits (map bnot bs) = map negb (to_bits bs).
Proof.
  induction 1 as [|b bs Hb Hbs IH]; [reflexivity|].
  change (map bnot (b :: bs)) with (bnot b :: map bnot bs).
  rewrite !to_bits_cons, map_app, IH, byte_bits_bnot by assumption. reflexivity.
Qed.

Lemma wf_bnot bs : wf_bytes bs -> wf_bytes (map bnot bs).
Proof. intros H. apply Forall_fmap. eapply Forall_impl; [exact H|]. auto with ygg. Qed.

Lemma of_bits_to_bits bs : wf_bytes bs -> of_bits (to_bits bs) = bs.
Proof.
  induction 1 as [|b bs Hb Hbs IH]; [reflexivity|].
  rewrite to_bits_cons. rewrite <- (bits_val_byte_bits b Hb) at 2. rewrite <- IH at 2.
  reflexivity.
Qed.

(** Induction in steps of eight elements. *)
Lemma eight_ind {A} (P : list A -> Prop) :
  (forall l, (length l < 8)%nat -> P l) ->
  (forall l k, length l = 8%nat -> P k -> P (l ++ k)) ->
  forall l, P l.
Proof.
  intros H1 H2 l. remember (length l) as n eqn:E. revert l E.
  induction (lt_wf n) as [n _ IH']. intros l ->.
  destruct (decide (length l < 8)%nat); [auto|].
  rewrite <- (take_drop 8 l). apply H2; [rewrite length_take; lia|].
  eapply IH'; [|reflexivity]. rewrite length_drop. lia.
Qed.

Lemma list_8 {A} (l : list A) : length l = 8%nat ->
  exists a b c d e f g h, l = [a; b; c; d; e; f; g; h].
Proof.
  intros H. do 8 (destruct l as [|? l]; [discriminate H|]).
  destruct l; [|discriminate H]. eauto 10.
Qed.

Lemma of_bits_short l : (length l < 8)%nat -> of_bits l = [].
Proof. intros H. do 8 (destruct l as [|? l]; [reflexivity|]). simpl in H. lia. Qed.

Lemma of_bits_cons l k : length l = 8%nat -> of_bits (l ++ k) = bits_val l :: of_bits k.
Proof. intros H. destruct (list_8 l H) as (?&?&?&?&?&?&?&?&->). reflexivity. Qed.

Lemma length_of_bits l : length (of_bits l) = (length l / 8)%nat.
Proof.
  induction l as [l H|l k H IH] using eight_ind.
  - rewrite of_bits_short, Nat.div_small by assumption. reflexivity.
  - rewrite of_bits_cons, length_app, H by assumption. simpl length. rewrite IH.
    replace (8 + length k)%nat with (length k + 1 * 8)%nat by lia.
    rewrite Nat.div_add by lia. lia.
Qed.

Lemma bits_val_wf l : length l = 8%nat -> wf_byte (bits_val l).
Proof.
  intros H. destruct (list_8 l H) as (a&b&c&d&e&f&g&h&->).
  unfold bits_val, wf_byte. simpl.
  destruct a, b, c, d, e, f, g, h; simpl; lia.
Qed.

Lemma byte_bits_bits_val l : length l = 8%nat -> byte_bits (bits_val l) = l.
Proof.
  intros H. destruct (list_8 l H) as (a&b&c&d&e&f&g&h&->).
  destruct a, b, c, d, e, f, g, h; reflexivity.
Qed.

Lemma of_bits_wf l : wf_bytes (of_bits l).
Proof.
  induction l as [l H|l k H IH] using eight_ind.
  - rewrite of_bits_short by assumption. constructor.
  - rewrite of_bits_cons by assumption. constructor; [apply bits_val_wf; assumption|exact IH].
Qed.

Lemma to_bits_of_bits l : to_bits (of_bits l) = take (8 * (length l / 8)) l.
Proof.
  induction l as [l H|l k H IH] using eight_ind.
  - rewrite of_bits_short, Nat.div_small by assumption. reflexivity.
  - rewrite of_bits_cons, to_bits_cons, IH, byte_bits_bits_val, length_app, H by assumption.
    replace (8 + length k)%nat with (length k + 1 * 8)%nat by lia.
    rewrite Nat.div_add by lia.
    replace (8 * (length k / 8 + 1))%nat with (length l + 8 * (length k / 8))%nat by lia.
    rewrite take_app_add. reflexivity.
Qed.

(** ** The loop of AddrForKey computes [spec_addr] *)

Lemma addr_bit_head b buf i : wf_byte b -> (i < 8)%nat ->
  addr_bit (b :: buf) i = Z.b2z (byte_bit b i).
Proof.
  intros Hb Hi. unfold addr_bit. rewrite Nat.div_small, Nat.mod_small by assumption.
  apply bit_extract; assumption.
Qed.

Lemma addr_bit_tail b buf i : addr_bit (b :: buf) (8 + i) = addr_bit buf i.
Proof.
  unfold addr_bit. replace (8 + i)%nat with (i + 1 * 8)%nat by lia.
  rewrite Nat.div_add, Nat.Div0.mod_add by lia.
  replace (i / 8 + 1)%nat with (S (i / 8)) by lia. reflexivity.
Qed.

Lemma seq_add j : forall n i, seq (j + i) n = map (Nat.add j) (seq i n).
Proof. induction n as [|n IH]; intros i; simpl; [reflexivity|]. rewrite <- IH. do 2 f_equal. lia. Qed.

Lemma addr_bits_eq buf : wf_bytes buf ->
  map (addr_bit buf) (seq 0 (8 * length buf)) = map Z.b2z (to_bits buf).
Proof.
  induction 1 as [|b buf Hb Hbuf IH]; [reflexivity|].
  replace (8 * length (b :: buf))%nat with (8 + 8 * length buf)%nat by (simpl; lia).
  rewrite seq_app, map_app, to_bits_cons, map_app, <- IH. f_equal.
  - unfold byte_bits. rewrite map_map. apply map_ext_in. intros i Hi%in_seq.
    apply addr_bit_head; [assumption|lia].
  - change (0 + 8)%nat with (8 + 0)%nat. rewrite seq_add, map_map. apply map_ext. intros i. apply addr_bit_tail.
Qed.

Definition addr_fold (s : addr_loop) (bs : list bool) : addr_loop :=
  fold_left (fun s b => addr_step s (Z.b2z b)) bs s.

Lemma addr_loop_run_bits buf : wf_bytes buf ->
  addr_loop_run buf = addr_fold (AddrLoop [] false 0 0 0) (to_bits buf).
Proof.
  intros H. unfold addr_loop_run, addr_fold.
  assert (forall (f : nat -> Z) l s, fold_left (fun s i => addr_step s (f i)) l s =
            fold_left addr_step (map f l) s) as Hmap.
  { intros f l. induction l as [|i l IHl]; intros s; [reflexivity|]. apply IHl. }
  rewrite Hmap, addr_bits_eq by assumption.
  generalize (AddrLoop [] false 0 0 0). generalize (to_bits buf).
  induction l as [|b l IHl]; intros s; [reflexivity|]. apply IHl.
Qed.

(** Shifting one bit in, modulo 256. *)
Lemma shift_in v (b : bool) : Z.lor (u8 (Z.shiftl (u8 v) 1)) (Z.b2z b) = u8 (2 * v + Z.b2z b).
Proof.
  assert (H : forall w, wf_byte w -> Z.lor (u8 (Z.shiftl w 1)) (Z.b2z b) = u8 (2 * w + Z.b2z b)).
  { intros w Hw. apply Z.eqb_eq. revert w Hw.
    destruct b; apply byte_forall; vm_compute; reflexivity. }
  rewrite H by apply u8_wf. unfold u8.
  rewrite Z.add_mod, Z.mul_mod, Z.mod_mod, <- Z.mul_mod, <- Z.add_mod by lia. reflexivity.
Qed.

Definition done_state (t : bytes) (o v n : Z) : addr_loop := AddrLoop t true o (u8 v) n.

Lemma done_step t o v n b : n <> 7 ->
  addr_step (done_state t o v n) (Z.b2z b) = done_state t o (2 * v + Z.b2z b) (n + 1).
Proof.
  intros Hn. unfold addr_step, done_state. simpl.
  rewrite shift_in. destruct (Z.eqb_spec (n + 1) 8); [lia|reflexivity].
Qed.

Lemma done_step_last t o v b :
  addr_step (done_state t o v 7) (Z.b2z b) =
  done_state (t ++ [u8 (2 * v + Z.b2z b)]) o (2 * v + Z.b2z b) 0.
Proof. unfold addr_step, done_state. simpl. rewrite shift_in. reflexivity. Qed.

(** Eight bits push exactly one byte: what was in [bits] before is shifted out. *)
Lemma done_eight t o v l : length l = 8%nat ->
  exists v', addr_fold (done_state t o v 0) l = done_state (t ++ [bits_val l]) o v' 0.
Proof.
  intros H. destruct (list_8 l H) as (a&b&c&d&e&f&g&h&->).
  unfold addr_fold. simpl fold_left.
  rewrite !done_step by lia. rewrite done_step_last. eexists. f_equal. f_equal. f_equal.
  unfold bits_val. simpl fold_left. unfold u8.
  match goal with |- ?x mod _ = ?y => replace x with (y + v * 2 ^ 8) by lia end.
  rewrite Z.mod_add by lia. apply Z.mod_small.
  apply (bits_val_wf [a; b; c; d; e; f; g; h]). reflexivity.
Qed.

Lemma done_short t o v n l : (n + Z.of_nat (length l) < 8) ->
  exists v' n', addr_fold (done_state t o v n) l = done_state t o v' n'.
Proof.
  revert v n. induction l as [|b l IH]; intros v n Hn; [eauto|].
  unfold addr_fold in *. simpl. simpl in Hn. rewrite done_step by lia. apply IH. lia.
Qed.

Lemma done_fold l : forall t o v,
  exists v' n', addr_fold (done_state t o v 0) l = done_state (t ++ of_bits l) o v' n'.
Proof.
  induction l as [l H|l k H IH] using eight_ind; intros t o v.
  - rewrite of_bits_short, app_nil_r by assumption. apply done_short. lia.
  - unfold addr_fold. rewrite fold_left_app.
    destruct (done_eight t o v l H) as [v' E]. unfold addr_fold in E. rewrite E.
    destruct (IH (t ++ [bits_val l]) o v') as (v''&n''&E'). unfold addr_fold in E'.
    exists v'', n''. rewrite E', of_bits_cons, <- app_assoc by assumption. reflexivity.
Qed.

Lemma addr_fold_spec l : forall o, wf_byte o ->
  exists d v n, addr_fold (AddrLoop [] false o 0 0) l =
    AddrLoop (of_bits (drop (S (leading_ones l)) l)) d (u8 (o + Z.of_nat (leading_ones l))) v n.
Proof.
  induction l as [|b l IH]; intros o Ho.
  - exists false, 0, 0. simpl. rewrite Z.add_0_r, u8_small by assumption. reflexivity.
  - destruct b.
    + destruct (IH (u8 (o + 1)) (u8_wf _)) as (d&v&n&E). exists d, v, n.
      simpl leading_ones. rewrite skipn_cons. unfold addr_fold in *. simpl fold_left.
      unfold addr_step at 2. simpl. rewrite E. f_equal.
      unfold u8. rewrite Zplus_mod_idemp_l. f_equal. lia.
    + destruct (done_fold l [] o 0) as (v&n&E). exists true, (u8 v), n.
      simpl leading_ones. rewrite skipn_cons, drop_0, Z.add_0_r, u8_small by assumption.
      unfold addr_fold in *. simpl fold_left. exact E.
Qed.

Lemma length_pad {A} (d : A) n l : length (pad d n l) = n.
Proof. unfold pad. rewrite length_take, length_app, length_replicate. lia. Qed.

Lemma pad_copy n l : copy (replicate n 0) l = pad 0 n l.
Proof.
  unfold copy, pad. rewrite length_replicate, take_app. f_equal.
  rewrite drop_replicate, take_replicate. f_equal. lia.
Qed.

(** AddrForKey computes the specified address for every key of 32 bytes. *)
Lemma AddrForKey_spec_addr k : wf_bytes k -> length k = PublicKeySize ->
  AddrForKey k = Some (spec_addr (map negb (to_bits k))).
Proof.
  intros Hwf Hlen. unfold AddrForKey. rewrite Hlen. simpl negb. cbv iota.
  rewrite copy_all by (rewrite length_replicate; auto).
  rewrite addr_loop_run_bits by auto using wf_bnot.
  rewrite to_bits_bnot by assumption.
  destruct (addr_fold_spec (map negb (to_bits k)) 0) as (d&v&n&E); [by unfold wf_byte|].
  rewrite E, Z.add_0_l. unfold spec_addr. simpl al_ones. simpl al_temp.
  rewrite <- pad_copy. reflexivity.
Qed.

Lemma AddrForKey_None k : AddrForKey k = None <-> length k <> PublicKeySize.
Proof.
  unfold AddrForKey. destruct (Nat.eqb_spec (length k) PublicKeySize); simpl; split; congruence.
Qed.

Lemma length_spec_addr nb : length (spec_addr nb) = 16%nat.
Proof. unfold spec_addr. rewrite length_app, length_pad. reflexivity. Qed.

Lemma spec_addr_wf nb : wf_bytes (spec_addr nb).
Proof.
  unfold spec_addr. constructor; [by unfold wf_byte|]. constructor; [apply u8_wf|].
  unfold pad. apply wf_bytes_take, wf_bytes_app. auto using of_bits_wf with ygg.
Qed.

Lemma AddrForKey_Some k a : wf_bytes k -> AddrForKey k = Some a ->
  length k = PublicKeySize /\ a = spec_addr (map negb (to_bits k)) /\
  length a = 16%nat /\ wf_bytes a.
Proof.
  intros Hwf E. destruct (decide (length k = PublicKeySize)) as [Hl|Hl].
  - rewrite AddrForKey_spec_addr in E by assumption. simplify_eq.
    auto using length_spec_addr, spec_addr_wf.
  - apply AddrForKey_None in Hl. congruence.
Qed.

(** ** GetKey computes [spec_partial] *)

Lemma length_or_byte key i v : length (or_byte key i v) = length key.
Proof. apply length_alter. Qed.

(** Or-ing bit [i] into a byte array is or-ing it into its list of bits. *)
Lemma to_bits_or_byte key i (v : bool) : wf_bytes key -> (i < 8 * length key)%nat ->
  to_bits (or_byte key (i / 8) (if v then Z.shiftr 0x80 (Z.of_nat (i mod 8)) else 0)) =
  alter (orb v) i (to_bits key).
Proof.
  intros H. revert i. induction H as [|b key Hb Hkey IH]; intros i Hi; [simpl in Hi; lia|].
  rewrite to_bits_cons. unfold or_byte in *.
  destruct (decide (i < 8)%nat) as [Hi8|Hi8].
  - rewrite Nat.div_small, Nat.mod_small by assumption.
    rewrite alter_app_l by (rewrite length_byte_bits; assumption).
    simpl alter. rewrite to_bits_cons, byte_bits_or by assumption. reflexivity.
  - rewrite (alter_app_r_alt _ (byte_bits b)), length_byte_bits by (rewrite length_byte_bits; lia).
    rewrite <- IH by (simpl in Hi; lia).
    remember (i - 8)%nat as j eqn:Ej. assert (i = (j + 1 * 8)%nat) as -> by lia.
    rewrite Nat.div_add, Nat.Div0.mod_add by lia.
    replace (j / 8 + 1)%nat with (S (j / 8)) by lia. reflexivity.
Qed.

Lemma wf_or_byte key i (v : bool) q r : wf_bytes key -> (r < 8)%nat -> q = i ->
  wf_bytes (or_byte key q (if v then Z.shiftr 0x80 (Z.of_nat r) else 0)).
Proof.
  intros H Hr ->. unfold or_byte. revert i.
  induction H as [|b key Hb Hkey IH]; intros [|i]; simpl; constructor; auto using or_byte_wf.
  apply IH.
Qed.

(** Setting the first unset position. *)
Lemma alter_next (pre : list bool) m (v : bool) :
  alter (orb v) (length pre) (pre ++ replicate (S m) false) = (pre ++ [v]) ++ replicate m false.
Proof.
  replace (length pre) with (length pre + 0)%nat by lia.
  rewrite alter_app_r, <- app_assoc. simpl. rewrite orb_false_r. reflexivity.
Qed.

Lemma or_byte_next key pre m (v : bool) i : wf_bytes key -> i = length pre ->
  to_bits key = pre ++ replicate (S m) false ->
  let key' := or_byte key (i / 8) (if v then Z.shiftr 0x80 (Z.of_nat (i mod 8)) else 0) in
  wf_bytes key' /\ length key' = length key /\ to_bits key' = (pre ++ [v]) ++ replicate m false.
Proof.
  intros Hwf -> E key'. unfold key'.
  assert (Hlen : (length pre < 8 * length key)%nat).
  { rewrite <- length_to_bits, E, length_app, length_replicate. lia. }
  split; [eapply wf_or_byte; eauto using Nat.mod_upper_bound|].
  split; [apply length_or_byte|].
  rewrite to_bits_or_byte, E by assumption. apply alter_next.
Qed.

Lemma getkey_ones_spec n key m : wf_bytes key -> to_bits key = replicate (n + m) false ->
  let key' := getkey_ones n key in
  wf_bytes key' /\ length key' = length key /\
  to_bits key' = replicate n true ++ replicate m false.
Proof.
  intros Hwf. revert m. induction n as [|n IH]; intros m E; [auto|].
  destruct (IH (S m)) as (IHwf & IHlen & IHbits).
  { rewrite E. f_equal. lia. }
  unfold getkey_ones in *. rewrite seq_S, fold_left_app. simpl fold_left.
  rewrite replicate_S_end, <- IHlen.
  apply (or_byte_next _ (replicate n true) m true n); auto.
  rewrite length_replicate. reflexivity.
Qed.

(** The bits GetKey reads, position by position. *)
Definition addr_bits_at (a : bytes) (idxs : list nat) : list bool :=
  map (fun idx => byte_bit (a !!! (idx / 8)%nat) (idx mod 8)) idxs.

Lemma addr_bits_at_all a : addr_bits_at a (seq 0 (8 * length a)) = to_bits a.
Proof.
  induction a as [|b a IH]; [reflexivity|].
  replace (8 * length (b :: a))%nat with (8 + 8 * length a)%nat by (simpl; lia).
  unfold addr_bits_at in *. rewrite seq_app, map_app, to_bits_cons, <- IH. f_equal.
  change (0 + 8)%nat with (8 + 0)%nat. rewrite seq_add, map_map.
  apply map_ext. intros i. replace (8 + i)%nat with (i + 1 * 8)%nat by lia.
  rewrite Nat.div_add, Nat.Div0.mod_add by lia.
  replace (i / 8 + 1)%nat with (S (i / 8)) by lia. reflexivity.
Qed.

Lemma pad_enough {A} (d : A) n l k : (n <= length l + k)%nat ->
  take n (l ++ replicate k d) = pad d n l.
Proof.
  intros H. unfold pad. rewrite !take_app. f_equal. rewrite !take_replicate. f_equal. lia.
Qed.

Lemma getkey_tail_spec a ko ao n : wf_bytes a -> forall s key pre m,
  wf_bytes key -> (ao <= s)%nat -> length pre = (ko + (s - ao))%nat ->
  to_bits key = pre ++ replicate m false ->
  let key' := getkey_tail a ko ao (seq s n) key in
  wf_bytes key' /\ length key' = length key /\
  to_bits key' = pad false (8 * length key) (pre ++ addr_bits_at a (seq s n)).
Proof.
  intros Ha. induction n as [|n IH]; intros s key pre m Hwf Hs Hpre E;
    assert (Hl : (8 * length key)%nat = (length pre + m)%nat)
      by (rewrite <- length_to_bits, E, length_app, length_replicate; lia).
  { split_and!; auto. unfold addr_bits_at. cbn [seq getkey_tail map]. rewrite app_nil_r, <- (pad_enough _ _ _ m), <- E by lia.
    rewrite <- length_to_bits, firstn_all. reflexivity. }
  cbn [seq getkey_tail].
  rewrite bit_move by auto using Nat.mod_upper_bound with ygg.
  rewrite <- Hpre.
  destruct (Nat.leb_spec (length key) (length pre / 8)) as [Hfull|Hroom].
  - split_and!; auto. pose proof (Nat.div_mod_eq (length pre) 8).
    assert (m = 0%nat) as -> by lia. rewrite E, app_nil_r. unfold pad.
    rewrite <- app_assoc, take_app_le, take_ge by lia. reflexivity.
  - destruct m as [|m].
    { exfalso. rewrite Nat.add_0_r in Hl. rewrite <- Hl, Nat.mul_comm, Nat.div_mul in Hroom; lia. }
    destruct (or_byte_next key pre m (byte_bit (a !!! (s / 8)%nat) (s mod 8)) (length pre))
      as (Hwf'&Hlen'&E'); auto.
    edestruct (IH (S s)) as (H1&H2&H3); [exact Hwf'|lia| |exact E'|].
    { rewrite length_app. simpl. lia. }
    split_and!; [exact H1|congruence|]. rewrite H3, Hlen', <- app_assoc. reflexivity.
Qed.

Lemma GetKey_spec_partial a : wf_bytes a -> length a = 16%nat ->
  wf_bytes (GetKey a) /\ length (GetKey a) = PublicKeySize /\
  to_bits (GetKey a) = map negb (spec_partial a).
Proof.
  intros Ha Hlen. unfold GetKey. simpl length.
  set (ones := Z.to_nat (a !!! 1%nat)).
  pose proof (wf_bytes_lookup_total a 1 Ha) as [? ?].
  assert (Hones : (ones < 256)%nat) by (unfold ones; lia).
  destruct (getkey_ones_spec ones (replicate PublicKeySize 0) (256 - ones))
    as (H1&H2&H3); [auto with ygg| |].
  { replace (ones + (256 - ones))%nat with 256%nat by lia. reflexivity. }
  rewrite length_replicate in H2.
  edestruct (getkey_tail_spec a (ones + 1) 16 112 Ha 16) as (K1&K2&K3);
    [exact H1|lia| | |].
  { instantiate (1 := replicate ones true ++ [false]).
    rewrite length_app, length_replicate. simpl. lia. }
  { instantiate (1 := (256 - ones - 1)%nat). rewrite H3, <- app_assoc. f_equal.
    replace (256 - ones)%nat with (S (256 - ones - 1)) at 1 by lia. reflexivity. }
  rewrite H2 in *. change (8 * 1 + 8)%nat with 16%nat.
  rewrite Hlen. change (8 * 16 - 16)%nat with 112%nat.
  split_and!; [apply wf_bnot, K1|rewrite length_map; exact K2|].
  rewrite to_bits_bnot, K3 by exact K1. f_equal. unfold spec_partial. f_equal.
  rewrite <- app_assoc. simpl. do 2 f_equal.
  rewrite <- (addr_bits_at_all (drop 2 a)), length_drop, Hlen.
  clear -Hlen. do 16 (destruct a as [|? a]; [discriminate Hlen|]).
  destruct a; [reflexivity|discriminate Hlen].
Qed.

(** ** From the specification to the claims *)

Lemma of_bits_replicate m : of_bits (replicate m false) = replicate (m / 8) 0.
Proof.
  induction (lt_wf m) as [m _ IH].
  destruct (decide (m < 8)%nat) as [Hm|Hm].
  - rewrite of_bits_short, Nat.div_small by (rewrite ?length_replicate; assumption). reflexivity.
  - replace m with (8 + (m - 8))%nat at 1 by lia.
    rewrite replicate_add, of_bits_cons, IH by (rewrite ?length_replicate; lia).
    replace (m / 8)%nat with (S ((m - 8) / 8)); [reflexivity|].
    replace m with (m - 8 + 1 * 8)%nat at 2 by lia. rewrite Nat.div_add; lia.
Qed.

Lemma of_bits_app bs l : wf_bytes bs -> of_bits (to_bits bs ++ l) = bs ++ of_bits l.
Proof.
  induction 1 as [|b bs Hb Hbs IH]; [reflexivity|].
  rewrite to_bits_cons, <- app_assoc, of_bits_cons by reflexivity.
  rewrite bits_val_byte_bits, IH by assumption. reflexivity.
Qed.

Lemma of_bits_take m l : of_bits (take m l) = take (m / 8) (of_bits l).
Proof.
  revert m. induction l as [l H|l k H IH] using eight_ind; intros m.
  - rewrite (of_bits_short l), take_nil by assumption.
    apply of_bits_short. rewrite length_take. lia.
  - destruct (decide (m < 8)%nat) as [Hm|Hm].
    + rewrite (Nat.div_small m) by assumption. rewrite take_0. apply of_bits_short.
      rewrite length_take. lia.
    + rewrite of_bits_cons by assumption.
      replace m with (length l + (m - 8))%nat at 1 by lia.
      rewrite take_app_add, of_bits_cons, IH by assumption.
      replace (m / 8)%nat with (S ((m - 8) / 8)); [reflexivity|].
      replace m with (m - 8 + 1 * 8)%nat at 2 by lia. rewrite Nat.div_add; lia.
Qed.

Lemma pad_replicate {A} (d : A) n l k : pad d n (l ++ replicate k d) = pad d n l.
Proof.
  unfold pad. rewrite <- app_assoc, <- replicate_add. apply pad_enough. lia.
Qed.

Lemma take_app_replicate {A} (d : A) q l k :
  exists k', take q (l ++ replicate k d) = take q l ++ replicate k' d.
Proof. rewrite take_app, take_replicate. eauto. Qed.

Lemma pad_id {A} (d : A) n l : length l = n -> pad d n l = l.
Proof. intros <-. unfold pad. rewrite take_app_le by lia. apply firstn_all. Qed.

Lemma lookup_pad {A} (d : A) n l i :
  pad d n l !! i = if decide (i < n)%nat then Some (default d (l !! i)) else None.
Proof.
  unfold pad. case_decide as Hi; [|apply lookup_take_ge; lia].
  rewrite lookup_take_lt by assumption.
  destruct (l !! i) as [x|] eqn:E; simpl.
  - rewrite lookup_app, E. reflexivity.
  - rewrite lookup_app_r by (apply lookup_ge_None; assumption).
    apply lookup_replicate_2. lia.
Qed.

(** Cutting a padded list where the padding starts loses nothing. *)
Lemma pad_take_pad {A} (d : A) n q l : (length l <= q)%nat ->
  pad d n (take q (pad d n l)) = pad d n l.
Proof.
  intros Hq. apply list_eq. intros i. rewrite !lookup_pad. case_decide as Hi; [|reflexivity].
  f_equal. destruct (decide (i < q)%nat).
  - rewrite lookup_take_lt, lookup_pad, decide_True by assumption. reflexivity.
  - rewrite lookup_take_ge, (lookup_ge_None_2 l) by lia. reflexivity.
Qed.

Lemma leading_ones_app n l : leading_ones (replicate n true ++ false :: l) = n.
Proof. induction n; simpl; congruence. Qed.

Lemma drop_ones {A} (x y : A) n l : drop (S n) (replicate n x ++ y :: l) = l.
Proof. induction n; simpl; auto. Qed.

Lemma leading_ones_split l : (leading_ones l < length l)%nat ->
  l = replicate (leading_ones l) true ++ false :: drop (S (leading_ones l)) l.
Proof.
  induction l as [|[] l IH]; simpl; intros H; [lia| |reflexivity].
  f_equal. apply IH. lia.
Qed.

Lemma leading_ones_le l : (leading_ones l <= length l)%nat.
Proof. induction l as [|[] l IH]; simpl; lia. Qed.

Lemma pad_app {A} (d : A) n l k : (length l <= n)%nat ->
  pad d n (l ++ k) = l ++ pad d (n - length l) k.
Proof.
  intros H. rewrite <- (pad_enough d n (l ++ k) (n - length l)) by (rewrite length_app; lia).
  rewrite <- app_assoc, take_app_ge by lia. reflexivity.
Qed.

(** The bytes of an address after the prefix and the count are recovered from
    its partial key when those the key has no room for are zero. *)
Lemma partial_roundtrip n tail : (n <= 255)%nat -> length tail = 14%nat -> wf_bytes tail ->
  pad 0 14 (take ((255 - n) / 8) tail) = tail ->
  spec_addr (pad false 256 (replicate n true ++ false :: to_bits tail)) =
  [0x02; Z.of_nat n] ++ tail.
Proof.
  intros Hn Hlen Hwf Htail.
  assert (E : pad false 256 (replicate n true ++ false :: to_bits tail) =
          replicate n true ++ false :: pad false (255 - n) (to_bits tail)).
  { rewrite pad_app, length_replicate by (rewrite length_replicate; lia). f_equal.
    change (false :: to_bits tail) with ([false] ++ to_bits tail).
    rewrite pad_app by (simpl; lia). simpl. do 2 f_equal. lia. }
  unfold spec_addr. rewrite E, leading_ones_app.
  rewrite u8_small by (unfold wf_byte; lia). f_equal.
  rewrite drop_ones. unfold pad at 2. rewrite of_bits_take, of_bits_app, of_bits_replicate by assumption.
  edestruct (take_app_replicate 0 ((255 - n) / 8) tail) as [k' ->].
  rewrite pad_replicate. exact Htail.
Qed.

Lemma spec_partial_eq b n tail : spec_partial (b :: n :: tail) =
  pad false 256 (replicate (Z.to_nat n) true ++ false :: to_bits tail).
Proof. unfold spec_partial. cbn [drop]. rewrite drop_0. reflexivity. Qed.

Lemma AddrForKey_GetKey a b n tail :
  a = b :: Z.of_nat n :: tail -> wf_byte b -> (n <= 255)%nat -> length tail = 14%nat ->
  wf_bytes tail -> pad 0 14 (take ((255 - n) / 8) tail) = tail ->
  AddrForKey (GetKey a) = Some (0x02 :: Z.of_nat n :: tail).
Proof.
  intros -> Hb Hn Hlen Hwf Htail.
  destruct (GetKey_spec_partial (b :: Z.of_nat n :: tail)) as (H1&H2&H3).
  { constructor; [assumption|constructor; [unfold wf_byte; lia|assumption]]. }
  { simpl. lia. }
  rewrite AddrForKey_spec_addr, H3 by assumption. f_equal.
  rewrite map_map, (map_ext _ (fun x => x)), map_id, spec_partial_eq, Nat2Z.id by apply negb_involutive.
  apply partial_roundtrip; assumption.
Qed.

(** The shape of the address of a key. *)
Lemma AddrForKey_shape k a : wf_bytes k -> AddrForKey k = Some a ->
  exists n tail, a = 0x02 :: Z.of_nat n :: tail /\ (n <= 255)%nat /\ length tail = 14%nat /\
    wf_bytes tail /\ pad 0 14 (take ((255 - n) / 8) tail) = tail.
Proof.
  intros Hwf Ha. destruct (AddrForKey_Some k a Hwf Ha) as (Hk&->&Hl&Hw).
  set (nb := map negb (to_bits k)) in *.
  assert (Hnb : length nb = 256%nat).
  { unfold nb. rewrite length_map, length_to_bits, Hk. reflexivity. }
  pose proof (leading_ones_le nb) as Hle. rewrite Hnb in Hle.
  set (n := leading_ones nb) in *.
  exists (Z.to_nat (u8 (Z.of_nat n))), (pad 0 14 (of_bits (drop (S n) nb))).
  pose proof (u8_wf (Z.of_nat n)) as [? ?].
  split_and!; [unfold spec_addr; rewrite Z2Nat.id by lia; reflexivity|lia|apply length_pad| |].
  - unfold pad. apply wf_bytes_take, wf_bytes_app. auto using of_bits_wf with ygg.
  - destruct (decide (n = 256%nat)) as [->|Hn].
    + change (Z.to_nat (u8 (Z.of_nat 256))) with 0%nat.
      rewrite take_ge by (rewrite length_pad; simpl; lia).
      apply pad_id, length_pad.
    + rewrite u8_small, Nat2Z.id by (unfold wf_byte; lia).
      assert (Ho : length (of_bits (drop (S n) nb)) = ((255 - n) / 8)%nat).
      { rewrite length_of_bits, length_drop, Hnb. reflexivity. }
      apply pad_take_pad. lia.
Qed.

(** The partial key of the address of [k] agrees with [k] on the leading run,
    the bit that ends it, and every whole byte the address has room for. *)
Lemma partial_prefix nb n : length nb = 256%nat -> leading_ones nb = n -> (n <= 255)%nat ->
  let m := (n + 1 + 8 * Nat.min 14 ((255 - n) / 8))%nat in
  take m (spec_partial (spec_addr nb)) = take m nb.
Proof.
  intros Hnb Hn Hle m.
  set (X := drop (S n) nb).
  assert (HX : length X = (255 - n)%nat) by (unfold X; rewrite length_drop; lia).
  assert (E1 : nb = replicate n true ++ false :: X).
  { rewrite (leading_ones_split nb) at 1 by lia. rewrite Hn. reflexivity. }
  unfold spec_addr. rewrite Hn. fold X. rewrite u8_small by (unfold wf_byte; lia).
  cbn [app]. rewrite spec_partial_eq, Nat2Z.id.
  assert (Hq : (8 * ((255 - n) / 8) <= 255 - n)%nat) by (pose proof (Nat.div_mod_eq (255 - n) 8); lia).
  unfold pad at 1. rewrite take_take, Nat.min_l by (unfold m; lia).
  rewrite E1. rewrite take_app_le by (rewrite length_app, length_replicate; simpl;
    rewrite length_to_bits, length_pad; unfold m; lia).
  replace m with (length (replicate n true) + S (8 * Nat.min 14 ((255 - n) / 8)))%nat
    by (rewrite length_replicate; unfold m; lia).
  rewrite !take_app_add. f_equal. cbn [take]. f_equal.
  set (q := Nat.min 14 ((255 - n) / 8)) in *.
  rewrite <- take_to_bits. unfold pad. rewrite take_take, Nat.min_l by (unfold q; lia).
  rewrite take_app_le by (rewrite length_of_bits, HX; unfold q; lia).
  rewrite take_to_bits, to_bits_of_bits, take_take, Nat.min_l; [reflexivity|].
  rewrite HX. unfold q. lia.
Qed.

(** The subnet of a key: its address with the last prefix bit set, cut to 8 bytes. *)
Lemma SubnetForKey_shape k s : wf_bytes k -> SubnetForKey k = Some s ->
  exists n tail, AddrForKey k = Some (0x02 :: Z.of_nat n :: tail) /\
    s = 0x03 :: Z.of_nat n :: take 6 tail /\ (n <= 255)%nat /\ length tail = 14%nat /\
    wf_bytes tail /\ pad 0 14 (take ((255 - n) / 8) tail) = tail.
Proof.
  intros Hwf Hs. unfold SubnetForKey in Hs. destruct (AddrForKey k) as [a|] eqn:Ea; [|discriminate].
  destruct (AddrForKey_shape k a Hwf Ea) as (n&tail&->&Hn&Hl&Hw&Hp).
  exists n, tail. split_and!; auto. simplify_eq. unfold copy.
  cbn [length replicate take]. rewrite drop_ge by (simpl; lia). rewrite app_nil_r. reflexivity.
Qed.

Lemma key_addr_some k : length k = PublicKeySize -> exists a s,
  AddrForKey k = Some a /\ SubnetForKey k = Some s.
Proof.
  intros Hk. unfold SubnetForKey. destruct (AddrForKey k) as [a|] eqn:E; [eauto|].
  apply AddrForKey_None in E. contradiction.
Qed.

Lemma address_roundtrip k a : wf_bytes k -> AddrForKey k = Some a ->
  AddrForKey (GetKey a) = Some a.
Proof.
  intros Hwf Ha. destruct (AddrForKey_shape k a Hwf Ha) as (n&tail&->&Hn&Hl&Hw&Hp).
  apply (AddrForKey_GetKey _ 0x02); auto. by unfold wf_byte.
Qed.

Lemma pad_zeros_cut n q tail : (q <= n)%nat -> length tail = n ->
  pad 0 n (take q tail) = tail -> forall j, pad 0 n (take q (pad 0 n (take j tail))) = pad 0 n (take j tail).
Proof.
  intros Hq Hl Hp j. apply list_eq. intros i. rewrite !lookup_pad. case_decide as Hi; [|reflexivity].
  f_equal. destruct (decide (i < q)%nat).
  - rewrite lookup_take_lt, lookup_pad, decide_True by assumption. reflexivity.
  - rewrite lookup_take_ge by lia. simpl.
    assert (tail !! i = Some 0) as Ht.
    { rewrite <- Hp, lookup_pad, decide_True, lookup_take_ge by (assumption || lia). reflexivity. }
    rewrite lookup_take. case_decide; [rewrite Ht|]; reflexivity.
Qed.

Lemma subnet_roundtrip k s : wf_bytes k -> SubnetForKey k = Some s ->
  SubnetForKey (Subnet_GetKey s) = Some s.
Proof.
  intros Hwf Hs. destruct (SubnetForKey_shape k s Hwf Hs) as (n&tail&Ha&->&Hn&Hl&Hw&Hp).
  unfold SubnetForKey, Subnet_GetKey.
  rewrite (AddrForKey_GetKey _ 0x03 n (pad 0 14 (take 6 tail))); auto.
  - unfold pad. destruct tail as [|t0 [|t1 [|t2 [|t3 [|t4 [|t5 tail]]]]]]; try discriminate Hl.
    reflexivity.
  - rewrite <- pad_copy. unfold copy. destruct tail as [|t0 [|t1 [|t2 [|t3 [|t4 [|t5 tail]]]]]];
      try discriminate Hl. reflexivity.
  - by unfold wf_byte.
  - apply length_pad.
  - unfold pad. apply wf_bytes_take, wf_bytes_app. auto with ygg.
  - destruct (decide ((255 - n) / 8 <= 14)%nat).
    + apply pad_zeros_cut; auto.
    + rewrite take_ge by (rewrite length_pad; lia). apply pad_id, length_pad.
Qed.

(** ** Claims *)

(** AddrForKey returns nil exactly for keys that are not 32 bytes long;
    for every 32-byte key it returns the prefix byte 0x02, the number of leading
    one bits of the inverted key (modulo 256), and the inverted key bits after
    that run and the bit that ends it, packed into whole bytes, cut or
    zero-filled to 14 bytes. *)
Theorem AddrForKey_correct k : wf_bytes k ->
  AddrForKey k =
    if decide (length k = PublicKeySize)
    then Some (spec_addr (map negb (to_bits k))) else None.
Proof.
  intros Hwf. case_decide as Hl.
  - apply AddrForKey_spec_addr; assumption.
  - apply AddrForKey_None. assumption.
Qed.

Definition sample_key : bytes :=
  [0x00; 0x07; 0xb3; 0x41; 0xff; 0x20; 0x9c; 0x05; 0xd8; 0x6e; 0x11; 0x83; 0x4a; 0xf0; 0x37; 0xc9;
   0x5b; 0x62; 0x10; 0xee; 0x91; 0x2d; 0x78; 0x00; 0x43; 0xa6; 0x1f; 0xbc; 0x59; 0x04; 0xe7; 0x3a].

Example AddrForKey_correct_witness :
  AddrForKey sample_key =
    Some [2; 13; 19; 47; 128; 55; 216; 254; 137; 228; 123; 159; 45; 67; 242; 13].
Proof.
  rewrite AddrForKey_correct by (apply (bool_decide_unpack _); vm_compute; exact I).
  reflexivity.
Defined.

(** C9: the lookup key of an address leads back to it: for every key, the
    partial key of its address (GetKey) has the same address, and the partial
    key of its subnet has the same subnet.  This is what makes the
    SubnetForKey(key).GetKey() transform of the routing filters and
    SendLookup(addr.GetKey()) find the owner of an address. *)
Theorem lookup_key_roundtrip k : wf_bytes k -> length k = PublicKeySize ->
  exists a s, AddrForKey k = Some a /\ SubnetForKey k = Some s /\
    length (GetKey a) = PublicKeySize /\
    AddrForKey (GetKey a) = Some a /\ SubnetForKey (Subnet_GetKey s) = Some s.
Proof.
  intros Hwf Hl. destruct (key_addr_some k Hl) as (a&s&Ha&Hs).
  exists a, s. destruct (AddrForKey_Some k a Hwf Ha) as (_&_&Hla&Hwa).
  split_and!; eauto using address_roundtrip, subnet_roundtrip.
  apply GetKey_spec_partial; assumption.
Qed.

Example lookup_key_roundtrip_witness :
  exists a s, AddrForKey sample_key = Some a /\ SubnetForKey sample_key = Some s /\
    length (GetKey a) = PublicKeySize /\
    AddrForKey (GetKey a) = Some a /\ SubnetForKey (Subnet_GetKey s) = Some s.
Proof.
  apply (lookup_key_roundtrip sample_key); [|reflexivity].
  apply (bool_decide_unpack _). vm_compute. exact I.
Defined.

(** The partial key of the address of [k] agrees with [k] bit for bit on the
    leading run of zeros, the one that ends it, and every whole byte that fits
    (14 bytes at most), unless the key is all zero (whose count of 256 wraps). *)
Theorem partial_key_prefix k a n : wf_bytes k -> AddrForKey k = Some a ->
  n = leading_ones (map negb (to_bits k)) -> (n <= 255)%nat ->
  let m := (n + 1 + 8 * Nat.min 14 ((255 - n) / 8))%nat in
  take m (to_bits (GetKey a)) = take m (to_bits k).
Proof.
  intros Hwf Ha Hn Hle m. destruct (AddrForKey_Some k a Hwf Ha) as (Hl&->&Hla&Hwa).
  destruct (GetKey_spec_partial _ Hwa Hla) as (_&_&->).
  assert (Hnb : length (map negb (to_bits k)) = 256%nat).
  { rewrite length_map, length_to_bits, Hl. reflexivity. }
  pose proof (partial_prefix _ n Hnb (eq_sym Hn) Hle) as E. cbv zeta in E. fold m in E.
  rewrite firstn_map, E, <- firstn_map, map_map.
  rewrite (map_ext _ (fun x => x)), map_id by apply negb_involutive. reflexivity.
Qed.

Example partial_key_prefix_witness : exists a, AddrForKey sample_key = Some a /\
  take 126 (to_bits (GetKey a)) = take 126 (to_bits sample_key).
Proof.
  destruct (AddrForKey sample_key) as [a|] eqn:E; [|discriminate E].
  exists a. split; [reflexivity|].
  refine (partial_key_prefix sample_key a 13 _ E _ _); [|reflexivity|lia].
  apply (bool_decide_unpack _). vm_compute. exact I.
Defined.

(** The address of a key is in the node range and its subnet in the routed
    range, with the same bytes after the prefix; and no address is in both
    ranges. *)
Theorem derived_addresses_valid k a s : wf_bytes k -> AddrForKey k = Some a ->
  SubnetForKey k = Some s ->
  Address_IsValid a = true /\ Subnet_IsValid s = true /\
  length a = 16%nat /\ length s = 8%nat /\ drop 1 s = slice 1 8 a /\
  Subnet_IsValid (take 8 a) = false /\ Address_IsValid (copy (replicate 16 0) s) = false.
Proof.
  intros Hwf Ha Hs. destruct (SubnetForKey_shape k s Hwf Hs) as (n&tail&Ha'&->&Hn&Hl&Hw&Hp).
  rewrite Ha in Ha'. simplify_eq. unfold slice.
  destruct tail as [|t0 [|t1 [|t2 [|t3 [|t4 [|t5 tail]]]]]]; try discriminate Hl.
  simpl in Hl. split_and!; try reflexivity. simpl. lia.
Qed.

Example derived_addresses_valid_witness : exists a s,
  AddrForKey sample_key = Some a /\ SubnetForKey sample_key = Some s /\
  Address_IsValid a = true /\ Subnet_IsValid s = true.
Proof.
  destruct (AddrForKey sample_key) as [a|] eqn:E; [|discriminate E].
  destruct (SubnetForKey sample_key) as [s|] eqn:E'; [|discriminate E'].
  exists a, s. split; [reflexivity|]. split; [reflexivity|].
  edestruct (derived_addresses_valid sample_key a s) as (H1&H2&_); [|exact E|exact E'|split; assumption].
  apply (bool_decide_unpack _). vm_compute. exact I.
Defined.
