(* ===== verification/Firewall.v ===== *)
(** * Firewall: ygglib/tun/firewall.go

    The stateful packet filter between the TUN device and the overlay: the
    parser of IPv6 packets with their extension headers, the flow table, and the
    decisions for outgoing and incoming packets.  Times are nanoseconds; an
    address is its 16 bytes; a nil [*Firewall] is [None]. *)

From S2P Require Import Prelude.

Definition ipProtoHopByHop : Z := 0.
Definition ipProtoTCP : Z := 6.
Definition ipProtoUDP : Z := 17.
Definition ipProtoRouting : Z := 43.
Definition ipProtoFragment : Z := 44.
Definition ipProtoESP : Z := 50.
Definition ipProtoAH : Z := 51.
Definition ipProtoNoNextHeader : Z := 59.
Definition ipProtoICMPv6 : Z := 58.
Definition ipProtoDstOpts : Z := 60.

Definition Minute : Z := 60 * 1000000000.
Definition udpFlowTTL : Z := 2 * Minute.
Definition tcpFlowTTL : Z := 10 * Minute.

Record FirewallConfig := {
  cfg_Enabled : bool;
  cfg_AllowedTCPPorts : list Z;
  cfg_AllowedUDPPorts : list Z
}.

Record FirewallStatus := {
  fs_Enabled : bool;
  fs_AllowedTCPPorts : list Z;
  fs_AllowedUDPPorts : list Z;
  fs_TrackedFlows : nat
}.

Record flowKey := FlowKey {
  fk_proto : Z;
  fk_src : bytes;
  fk_dst : bytes;
  fk_srcPort : Z;
  fk_dstPort : Z
}.

Global Instance flowKey_eq_dec : EqDecision flowKey.
Proof. solve_decision. Defined.
Global Instance flowKey_countable : Countable flowKey.
Proof.
  refine (inj_countable' (fun k => (fk_proto k, fk_src k, fk_dst k, fk_srcPort k, fk_dstPort k))
    (fun '(p, s, d, sp, dp) => FlowKey p s d sp dp) _).
  intros []. reflexivity.
Defined.

Record parsedPacket := ParsedPacket {
  pp_src : bytes;
  pp_dst : bytes;
  pp_proto : Z;
  pp_srcPort : Z;
  pp_dstPort : Z;
  pp_tcpFlags : Z;
  pp_hasPorts : bool;
  pp_allowICMP : bool
}.

Record Firewall := MkFirewall {
  fw_enabled : bool;
  fw_allowedTCPPorts : gset Z;
  fw_allowedUDPPorts : gset Z;
  fw_flows : gmap flowKey Z
}.

(** ** Parsing

    [Panics] is an index out of range; [OutOfFuel] is the model's own bound on
    the number of extension headers.  Neither is ever returned
    ([parseIPv6Packet_total]). *)
Inductive parse_outcome :=
| Parsed (p : parsedPacket)
| Malformed
| Panics
| OutOfFuel.

(** Read of [packet[i]] and of a big-endian [packet[i:i+2]]. *)
Definition with_byte (packet : bytes) (i : Z) (k : Z -> parse_outcome) : parse_outcome :=
  match packet !! Z.to_nat i with
  | Some b => if i <? 0 then Panics else k b
  | None => Panics
  end.
Definition with_u16 (packet : bytes) (i : Z) (k : Z -> parse_outcome) : parse_outcome :=
  with_byte packet i (fun hi => with_byte packet (i + 1) (fun lo =>
    k (Z.lor lo (Z.shiftl hi 8)))).

Definition set_proto (p : parsedPacket) (proto : Z) : parsedPacket :=
  ParsedPacket (pp_src p) (pp_dst p) proto (pp_srcPort p) (pp_dstPort p) (pp_tcpFlags p)
    (pp_hasPorts p) (pp_allowICMP p).
Definition set_icmp (p : parsedPacket) : parsedPacket :=
  ParsedPacket (pp_src p) (pp_dst p) (pp_proto p) (pp_srcPort p) (pp_dstPort p) (pp_tcpFlags p)
    (pp_hasPorts p) true.
Definition set_ports (p : parsedPacket) (sp dp flags : Z) : parsedPacket :=
  ParsedPacket (pp_src p) (pp_dst p) (pp_proto p) sp dp flags true (pp_allowICMP p).

(** The [for] loop over the extension headers. *)
Fixpoint parse_headers (fuel : nat) (packet : bytes) (limit : Z) (p : parsedPacket)
    (offset : Z) : parse_outcome :=
  match fuel with
  | O => OutOfFuel
  | S fuel =>
      let proto := pp_proto p in
      if proto =? ipProtoICMPv6 then Parsed (set_icmp p)
      else if proto =? ipProtoTCP then
        if limit - offset <? 20 then Malformed
        else with_u16 packet offset (fun sp => with_u16 packet (offset + 2) (fun dp =>
          with_byte packet (offset + 13) (fun flags => Parsed (set_ports p sp dp flags))))
      else if proto =? ipProtoUDP then
        if limit - offset <? 8 then Malformed
        else with_u16 packet offset (fun sp => with_u16 packet (offset + 2) (fun dp =>
          Parsed (set_ports p sp dp (pp_tcpFlags p))))
      else if (proto =? ipProtoHopByHop) || (proto =? ipProtoRouting) || (proto =? ipProtoDstOpts) then
        if limit - offset <? 2 then Malformed
        else with_byte packet offset (fun next => with_byte packet (offset + 1) (fun len =>
          let headerLen := (len + 1) * 8 in
          if (headerLen <=? 0) || (limit - offset <? headerLen) then Malformed
          else parse_headers fuel packet limit (set_proto p next) (offset + headerLen)))
      else if proto =? ipProtoFragment then
        if limit - offset <? 8 then Malformed
        else with_byte packet offset (fun next => with_u16 packet (offset + 2) (fun fragment =>
          let fragmentOffset := Z.shiftr fragment 3 in
          let moreFragments := negb (Z.land fragment 1 =? 0) in
          if negb (fragmentOffset =? 0) || moreFragments then Malformed
          else parse_headers fuel packet limit (set_proto p next) (offset + 8)))
      else if proto =? ipProtoAH then
        if limit - offset <? 2 then Malformed
        else with_byte packet offset (fun next => with_byte packet (offset + 1) (fun len =>
          let headerLen := (len + 2) * 4 in
          if (headerLen <=? 0) || (limit - offset <? headerLen) then Malformed
          else parse_headers fuel packet limit (set_proto p next) (offset + headerLen)))
      else Parsed p
  end.

Definition parseIPv6Packet (packet : bytes) : parse_outcome :=
  let len := Z.of_nat (length packet) in
  if len <? 40 then Malformed
  else with_byte packet 0 (fun b0 =>
    if negb (Z.land b0 0xf0 =? 0x60) then Malformed
    else with_u16 packet 4 (fun payloadLen =>
      if len - 40 <? payloadLen then Malformed
      else with_byte packet 6 (fun proto =>
        let p := ParsedPacket (slice 8 24 packet) (slice 24 40 packet) proto 0 0 0 false false in
        parse_headers (S (length packet)) packet (40 + payloadLen) p 40))).

(** ** Flow table *)

Definition reverseFlow (p : parsedPacket) : flowKey :=
  FlowKey (pp_proto p) (pp_dst p) (pp_src p) (pp_dstPort p) (pp_srcPort p).

Definition packetFlow (p : parsedPacket) : flowKey :=
  FlowKey (pp_proto p) (pp_src p) (pp_dst p) (pp_srcPort p) (pp_dstPort p).

Definition flowTTL (p : parsedPacket) : Z :=
  if pp_proto p =? ipProtoUDP then udpFlowTTL else tcpFlowTTL.

Definition portsToSet (ports : list Z) : gset Z := list_to_set ports.

Definition sortedPorts (ports : gset Z) : list Z := merge_sort Z.le (elements ports).

Definition pruneLocked (fw : Firewall) (now : Z) : Firewall :=
  MkFirewall (fw_enabled fw) (fw_allowedTCPPorts fw) (fw_allowedUDPPorts fw)
    (filter (fun kv => now < kv.2) (fw_flows fw)).

Definition set_flows (fw : Firewall) (flows : gmap flowKey Z) : Firewall :=
  MkFirewall (fw_enabled fw) (fw_allowedTCPPorts fw) (fw_allowedUDPPorts fw) flows.

(** ** Operations *)

Definition SetConfig (fw : option Firewall) (cfg : FirewallConfig) : option Firewall :=
  match fw with
  | None => None
  | Some fw =>
      Some (MkFirewall (cfg_Enabled cfg) (portsToSet (cfg_AllowedTCPPorts cfg))
              (portsToSet (cfg_AllowedUDPPorts cfg)) ∅)
  end.

Definition NewFirewall (cfg : FirewallConfig) : option Firewall :=
  SetConfig (Some (MkFirewall false ∅ ∅ ∅)) cfg.

Definition Config (fw : option Firewall) : FirewallConfig :=
  match fw with
  | None => {| cfg_Enabled := false; cfg_AllowedTCPPorts := []; cfg_AllowedUDPPorts := [] |}
  | Some fw => {| cfg_Enabled := fw_enabled fw;
                  cfg_AllowedTCPPorts := sortedPorts (fw_allowedTCPPorts fw);
                  cfg_AllowedUDPPorts := sortedPorts (fw_allowedUDPPorts fw) |}
  end.

Definition Status (fw : option Firewall) : FirewallStatus :=
  match fw with
  | None => {| fs_Enabled := false; fs_AllowedTCPPorts := []; fs_AllowedUDPPorts := [];
               fs_TrackedFlows := 0 |}
  | Some fw => {| fs_Enabled := fw_enabled fw;
                  fs_AllowedTCPPorts := sortedPorts (fw_allowedTCPPorts fw);
                  fs_AllowedUDPPorts := sortedPorts (fw_allowedUDPPorts fw);
                  fs_TrackedFlows := size (fw_flows fw) |}
  end.

Definition isEnabled (fw : Firewall) : bool := fw_enabled fw.

(** [!parsed.hasPorts || (proto != TCP && proto != UDP)] *)
Definition not_transport (p : parsedPacket) : bool :=
  negb (pp_hasPorts p) || (negb (pp_proto p =? ipProtoTCP) && negb (pp_proto p =? ipProtoUDP)).

(** The critical sections of AllowOutgoing and AllowIncoming. *)
Definition outgoing_locked (fw : Firewall) (parsed : parsedPacket) (now : Z) : Firewall * bool :=
  if negb (fw_enabled fw) then (fw, true)
  else
    let fw := pruneLocked fw now in
    (set_flows fw (<[reverseFlow parsed := now + flowTTL parsed]> (fw_flows fw)), true).

Definition incoming_locked (fw : Firewall) (parsed : parsedPacket) (now : Z) : Firewall * bool :=
  if negb (fw_enabled fw) then (fw, true)
  else
    let fw := pruneLocked fw now in
    let key := packetFlow parsed in
    let by_port :=
      if pp_proto parsed =? ipProtoTCP then bool_decide (pp_dstPort parsed ∈ fw_allowedTCPPorts fw)
      else if pp_proto parsed =? ipProtoUDP then bool_decide (pp_dstPort parsed ∈ fw_allowedUDPPorts fw)
      else false in
    match fw_flows fw !! key with
    | Some expires =>
        if now <? expires then
          if (pp_proto parsed =? ipProtoTCP) && negb (Z.land (pp_tcpFlags parsed) 0x05 =? 0)
          then (set_flows fw (delete key (fw_flows fw)), true)
          else (set_flows fw (<[key := now + flowTTL parsed]> (fw_flows fw)), true)
        else (fw, by_port)
    | None => (fw, by_port)
    end.

Definition AllowOutgoing (fw : option Firewall) (packet : bytes) (now : Z) : option Firewall * bool :=
  match fw with
  | None => (None, true)
  | Some f =>
      if negb (isEnabled f) then (fw, true)
      else match parseIPv6Packet packet with
      | Parsed parsed =>
          if pp_allowICMP parsed then (fw, true)
          else if not_transport parsed then (fw, false)
          else let '(f, ok) := outgoing_locked f parsed now in (Some f, ok)
      | _ => (fw, false)
      end
  end.

Definition AllowIncoming (fw : option Firewall) (packet : bytes) (now : Z) : option Firewall * bool :=
  match fw with
  | None => (None, true)
  | Some f =>
      if negb (isEnabled f) then (fw, true)
      else match parseIPv6Packet packet with
      | Parsed parsed =>
          if pp_allowICMP parsed then (fw, true)
          else if not_transport parsed then (fw, false)
          else let '(f, ok) := incoming_locked f parsed now in (Some f, ok)
      | _ => (fw, false)
      end
  end.

(** ** Traffic: a sequence of packets with the times they are seen at *)

Inductive traffic :=
| TOut (packet : bytes) (now : Z)
| TIn (packet : bytes) (now : Z).

Definition traffic_time (e : traffic) : Z := match e with TOut _ t | TIn _ t => t end.

Definition fw_event (fw : option Firewall) (e : traffic) : option Firewall * bool :=
  match e with
  | TOut packet now => AllowOutgoing fw packet now
  | TIn packet now => AllowIncoming fw packet now
  end.

Definition fw_run (fw : option Firewall) (es : list traffic) : option Firewall :=
  fold_left (fun fw e => (fw_event fw e).1) es fw.

(** The flow an outgoing packet opens, and the flow an incoming packet uses. *)
Definition transport_packet (packet : bytes) : option parsedPacket :=
  match parseIPv6Packet packet with
  | Parsed p => if pp_allowICMP p || not_transport p then None else Some p
  | _ => None
  end.

Definition opens (k : flowKey) (e : traffic) : bool :=
  match e with
  | TOut packet _ =>
      match transport_packet packet with
      | Some p => bool_decide (FlowKey (pp_proto p) (pp_dst p) (pp_src p) (pp_dstPort p) (pp_srcPort p) = k)
      | None => false
      end
  | TIn _ _ => false
  end.

(** [q] answers [p]: same protocol, ends exchanged. *)
Definition is_reply (q p : parsedPacket) : Prop :=
  pp_proto q = pp_proto p /\ pp_src q = pp_dst p /\ pp_dst q = pp_src p /\
  pp_srcPort q = pp_dstPort p /\ pp_dstPort q = pp_srcPort p.

(** An incoming TCP packet of the flow that carries FIN or RST. *)
Definition closes (k : flowKey) (e : traffic) : bool :=
  match e with
  | TIn packet _ =>
      match transport_packet packet with
      | Some p => bool_decide (packetFlow p = k) && (pp_proto p =? ipProtoTCP) &&
                  negb (Z.land (pp_tcpFlags p) 0x05 =? 0)
      | None => false
      end
  | TOut _ _ => false
  end.

Definition port_allowed (fw : Firewall) (p : parsedPacket) : bool :=
  if pp_proto p =? ipProtoTCP then bool_decide (pp_dstPort p ∈ fw_allowedTCPPorts fw)
  else if pp_proto p =? ipProtoUDP then bool_decide (pp_dstPort p ∈ fw_allowedUDPPorts fw)
  else false.

(** ** Specification of the decisions without pruning: the table is a function
    from flows to expiry times and nothing is ever dropped from it for age. *)
Definition spec_table := flowKey -> option Z.

Definition spec_set (t : spec_table) (k : flowKey) (v : option Z) : spec_table :=
  fun k' => if decide (k = k') then v else t k'.

Definition spec_event (fw : Firewall) (t : spec_table) (e : traffic) : spec_table * bool :=
  match e with
  | TOut packet now =>
      match parseIPv6Packet packet with
      | Parsed p =>
          if pp_allowICMP p then (t, true)
          else if not_transport p then (t, false)
          else (spec_set t (reverseFlow p) (Some (now + flowTTL p)), true)
      | _ => (t, false)
      end
  | TIn packet now =>
      match parseIPv6Packet packet with
      | Parsed p =>
          if pp_allowICMP p then (t, true)
          else if not_transport p then (t, false)
          else
            match t (packetFlow p) with
            | Some e => if now <? e
                        then if (pp_proto p =? ipProtoTCP) && negb (Z.land (pp_tcpFlags p) 0x05 =? 0)
                             then (spec_set t (packetFlow p) None, true)
                             else (spec_set t (packetFlow p) (Some (now + flowTTL p)), true)
                        else (t, port_allowed fw p)
            | None => (t, port_allowed fw p)
            end
      | _ => (t, false)
      end
  end.

Fixpoint decisions {S} (step : S -> traffic -> S * bool) (s : S) (es : list traffic) : list bool :=
  match es with
  | [] => []
  | e :: es => let '(s', ok) := step s e in ok :: decisions step s' es
  end.

(** ** The parser is total *)

Definition regular (o : parse_outcome) : Prop := o <> Panics /\ o <> OutOfFuel.

Lemma regular_Parsed p : regular (Parsed p).
Proof. split; discriminate. Qed.
Lemma regular_Malformed : regular Malformed.
Proof. split; discriminate. Qed.
#[export] Hint Resolve regular_Parsed regular_Malformed : ygg.

Lemma with_byte_regular packet i k : 0 <= i < Z.of_nat (length packet) ->
  (forall b, regular (k b)) -> regular (with_byte packet i k).
Proof.
  intros Hi Hk. unfold with_byte.
  destruct (lookup_lt_is_Some_2 packet (Z.to_nat i)) as [b ->]; [lia|].
  destruct (Z.ltb_spec i 0); [lia|]. apply Hk.
Qed.

Lemma with_u16_regular packet i k : 0 <= i -> i + 1 < Z.of_nat (length packet) ->
  (forall v, regular (k v)) -> regular (with_u16 packet i k).
Proof. intros ? ? Hk. unfold with_u16. do 2 (apply with_byte_regular; [lia|intros ?]). apply Hk. Qed.

Ltac regular_steps IH :=
  repeat match goal with
  | |- regular (if ?b then _ else _) =>
      let E := fresh "E" in destruct b eqn:E; auto with ygg; bool_props
  | |- regular (with_byte _ _ _) => apply with_byte_regular; [lia|intros ?]
  | |- regular (with_u16 _ _ _) => apply with_u16_regular; [lia|lia|intros ?]
  | |- regular (parse_headers _ _ _ _ _) => apply IH; lia
  end; auto with ygg.

Lemma parse_headers_regular packet limit : limit <= Z.of_nat (length packet) ->
  forall fuel p offset, 0 <= offset -> limit - offset < Z.of_nat fuel -> (0 < fuel)%nat ->
  regular (parse_headers fuel packet limit p offset).
Proof.
  intros Hlim. induction fuel as [|fuel IH]; intros p offset Hoff Hfuel Hpos; [lia|].
  cbn [parse_headers]. regular_steps IH.
Qed.

Lemma parse_regular packet : regular (parseIPv6Packet packet).
Proof.
  unfold parseIPv6Packet. cbv zeta.
  pose proof (fun lim H => parse_headers_regular packet lim H) as IH.
  regular_steps IH.
Qed.

(** What the parser returns determines which of the last three lines of the
    decision functions is reached. *)
Lemma AllowOutgoing_enabled f packet now : fw_enabled f = true ->
  AllowOutgoing (Some f) packet now =
  match parseIPv6Packet packet with
  | Parsed p =>
      if pp_allowICMP p then (Some f, true)
      else match transport_packet packet with
      | Some p => (Some (set_flows (pruneLocked f now)
                    (<[reverseFlow p := now + flowTTL p]> (fw_flows (pruneLocked f now)))), true)
      | None => (Some f, false)
      end
  | _ => (Some f, false)
  end.
Proof.
  intros He. unfold AllowOutgoing, isEnabled, transport_packet, outgoing_locked. rewrite He. simpl.
  destruct (parseIPv6Packet packet) as [p| | |]; try reflexivity.
  destruct (pp_allowICMP p); [reflexivity|]. simpl.
  destruct (not_transport p); [reflexivity|]. reflexivity.
Qed.

Definition closing (p : parsedPacket) : bool :=
  (pp_proto p =? ipProtoTCP) && negb (Z.land (pp_tcpFlags p) 0x05 =? 0).

Lemma AllowIncoming_enabled f packet now : fw_enabled f = true ->
  AllowIncoming (Some f) packet now =
  match parseIPv6Packet packet with
  | Parsed p =>
      if pp_allowICMP p then (Some f, true)
      else match transport_packet packet with
      | Some p =>
          let g := pruneLocked f now in
          match fw_flows g !! packetFlow p with
          | Some _ =>
              (Some (set_flows g (if closing p then delete (packetFlow p) (fw_flows g)
                                  else <[packetFlow p := now + flowTTL p]> (fw_flows g))), true)
          | None => (Some g, port_allowed f p)
          end
      | None => (Some f, false)
      end
  | _ => (Some f, false)
  end.
Proof.
  intros He. unfold AllowIncoming, isEnabled, transport_packet, incoming_locked. rewrite He. simpl.
  destruct (parseIPv6Packet packet) as [p| | |]; try reflexivity.
  destruct (pp_allowICMP p); [reflexivity|]. simpl.
  destruct (not_transport p); [reflexivity|].
  destruct (filter _ (fw_flows f) !! packetFlow p) as [e|] eqn:E; [|reflexivity].
  apply map_lookup_filter_Some in E as [_ E]. simpl in E.
  destruct (Z.ltb_spec now e); [|lia]. unfold closing.
  destruct (_ && _); reflexivity.
Qed.

Arguments pruneLocked : simpl never.

Lemma lookup_prune f now k : fw_flows (pruneLocked f now) !! k =
  match fw_flows f !! k with Some e => if decide (now < e) then Some e else None | None => None end.
Proof.
  unfold pruneLocked. cbn [fw_flows]. destruct (fw_flows f !! k) as [e|] eqn:E.
  - case_decide; [apply map_lookup_filter_Some_2|apply map_lookup_filter_None_2; right]; auto.
    intros e' E'. simplify_eq. assumption.
  - apply map_lookup_filter_None_2. left. exact E.
Qed.

(** Nothing but SetConfig changes the switch and the ports. *)
Definition same_config (f g : Firewall) : Prop :=
  fw_enabled g = fw_enabled f /\ fw_allowedTCPPorts g = fw_allowedTCPPorts f /\
  fw_allowedUDPPorts g = fw_allowedUDPPorts f.

Lemma fw_event_config f e : fw_enabled f = true ->
  exists g, (fw_event (Some f) e).1 = Some g /\ same_config f g.
Proof.
  intros He. destruct e as [packet now|packet now]; cbn [fw_event];
    [rewrite AllowOutgoing_enabled by assumption|rewrite AllowIncoming_enabled by assumption];
    cbv zeta; repeat split_match; cbn [fst]; eexists; (split; [reflexivity|]); repeat split.
Qed.

Lemma fw_run_config f es : fw_enabled f = true ->
  exists g, fw_run (Some f) es = Some g /\ same_config f g.
Proof.
  revert f. induction es as [|e es IH]; intros f He.
  - exists f. repeat split.
  - destruct (fw_event_config f e He) as (g&Eg&Hg1&Hg2&Hg3).
    destruct (IH g) as (h&Eh&Hh1&Hh2&Hh3); [congruence|].
    exists h. split; [|unfold same_config; split_and!; congruence].
    unfold fw_run in *. simpl. rewrite Eg. exact Eh.
Qed.

(** ** The flow table, event by event *)

Lemma fw_flows_set f m : fw_flows (set_flows f m) = m.
Proof. reflexivity. Qed.

(** An event does not change an unexpired entry for the worse unless it closes
    the flow. *)
Lemma fw_event_keeps f e k exp now ttl :
  fw_enabled f = true -> (forall p, packetFlow p = k \/ reverseFlow p = k -> ttl <= flowTTL p) ->
  fw_flows f !! k = Some exp -> now <= traffic_time e < exp -> now + ttl <= exp ->
  closes k e = false ->
  exists g exp', (fw_event (Some f) e).1 = Some g /\ fw_flows g !! k = Some exp' /\
    now + ttl <= exp'.
Proof.
  intros He Httl Hk Ht Hexp Hc. destruct e as [packet t|packet t]; cbn [fw_event traffic_time] in *.
  - rewrite AllowOutgoing_enabled by assumption.
    destruct (parseIPv6Packet packet) as [p| | |]; cbn [fst]; eauto.
    destruct (pp_allowICMP p); cbn [fst]; eauto.
    destruct (transport_packet packet) as [q|]; cbn [fst]; eauto.
    destruct (decide (reverseFlow q = k)) as [<-|Hne];
      (eexists _, _; split; [reflexivity|]; rewrite fw_flows_set).
    + rewrite lookup_insert_eq. split; [reflexivity|].
      pose proof (Httl q (or_intror eq_refl)). lia.
    + rewrite lookup_insert_ne, lookup_prune, Hk, decide_True by (assumption || lia). eauto.
  - rewrite AllowIncoming_enabled by assumption.
    unfold closes in Hc.
    destruct (parseIPv6Packet packet) as [p| | |]; cbn [fst]; eauto.
    destruct (pp_allowICMP p); cbn [fst]; eauto.
    destruct (transport_packet packet) as [q|]; cbn [fst]; eauto.
    assert (Hprune : fw_flows (pruneLocked f t) !! k = Some exp).
    { rewrite lookup_prune, Hk, decide_True by lia. reflexivity. }
    rewrite <- andb_assoc in Hc. fold (closing q) in Hc.
    destruct (decide (packetFlow q = k)) as [<-|Hne].
    + rewrite bool_decide_true in Hc by reflexivity. simpl in Hc. rewrite Hprune, Hc.
      eexists _, _. split; [reflexivity|]. rewrite fw_flows_set.
      rewrite lookup_insert_eq. split; [reflexivity|].
      pose proof (Httl q (or_introl eq_refl)). lia.
    + destruct (fw_flows (pruneLocked f t) !! packetFlow q); cbn [fst]; [|eauto].
      eexists _, exp. split_and!; [reflexivity| |assumption].
      rewrite fw_flows_set. destruct (closing q); rewrite ?lookup_delete_ne, ?lookup_insert_ne by assumption; exact Hprune.
Qed.

(** An event that neither opens the flow nor finds it open leaves it closed. *)
Lemma fw_event_absent f e k : fw_enabled f = true -> fw_flows f !! k = None ->
  opens k e = false ->
  exists g, (fw_event (Some f) e).1 = Some g /\ fw_flows g !! k = None.
Proof.
  intros He Hk Ho. destruct e as [packet t|packet t]; cbn [fw_event] in *.
  - rewrite AllowOutgoing_enabled by assumption. unfold opens in Ho.
    destruct (parseIPv6Packet packet) as [p| | |]; cbn [fst]; eauto.
    destruct (pp_allowICMP p); cbn [fst]; eauto.
    destruct (transport_packet packet) as [q|]; cbn [fst]; eauto.
    apply bool_decide_eq_false in Ho. eexists. split; [reflexivity|]. rewrite fw_flows_set.
    rewrite lookup_insert_ne, lookup_prune, Hk by assumption. reflexivity.
  - rewrite AllowIncoming_enabled by assumption.
    destruct (parseIPv6Packet packet) as [p| | |]; cbn [fst]; eauto.
    destruct (pp_allowICMP p); cbn [fst]; eauto.
    destruct (transport_packet packet) as [q|]; cbn [fst]; eauto.
    assert (Hprune : fw_flows (pruneLocked f t) !! k = None) by (rewrite lookup_prune, Hk; reflexivity).
    destruct (fw_flows (pruneLocked f t) !! packetFlow q) eqn:E; cbn [fst]; [|eauto].
    assert (packetFlow q <> k) by congruence.
    eexists. split; [reflexivity|].
    rewrite fw_flows_set. destruct (closing q); rewrite ?lookup_delete_ne, ?lookup_insert_ne by assumption; exact Hprune.
Qed.

Lemma fw_run_absent es : forall f k, fw_enabled f = true -> fw_flows f !! k = None ->
  Forall (fun e => opens k e = false) es ->
  exists g, fw_run (Some f) es = Some g /\ fw_flows g !! k = None.
Proof.
  induction es as [|e es IH]; intros f k He Hk Hes; [exists f; auto|].
  inversion_clear Hes as [|?? Ho Hes'].
  destruct (fw_event_absent f e k He Hk Ho) as (g&Eg&Hg).
  destruct (fw_event_config f e He) as (g'&Eg'&Hcfg&_). rewrite Eg in Eg'. simplify_eq.
  destruct (IH g' k) as (h&Eh&Hh); [congruence|assumption..|].
  exists h. split; [|assumption]. unfold fw_run in *. simpl. rewrite Eg. exact Eh.
Qed.

Lemma fw_run_keeps k now ttl es : forall f exp, fw_enabled f = true ->
  (forall p, packetFlow p = k \/ reverseFlow p = k -> ttl <= flowTTL p) ->
  fw_flows f !! k = Some exp -> now + ttl <= exp ->
  Forall (fun e => now <= traffic_time e < now + ttl /\ closes k e = false) es ->
  exists g exp', fw_run (Some f) es = Some g /\ fw_flows g !! k = Some exp' /\ now + ttl <= exp'.
Proof.
  induction es as [|e es IH]; intros f exp He Httl Hk Hexp Hes; [exists f, exp; auto|].
  inversion_clear Hes as [|?? [Ht Hc] Hes'].
  destruct (fw_event_keeps f e k exp now ttl) as (g&exp'&Eg&Hg&Hexp'); auto; [lia|].
  destruct (fw_event_config f e He) as (g'&Eg'&Hcfg&_). rewrite Eg in Eg'. simplify_eq.
  destruct (IH g' exp') as (h&exp''&Eh&Hh&Hexp''); auto; [congruence|].
  exists h, exp''. split_and!; auto. unfold fw_run in *. simpl. rewrite Eg. exact Eh.
Qed.

(** ** Pruning is not observable *)

Definition agrees (now : Z) (f : Firewall) (t : spec_table) : Prop :=
  forall k e, now < e -> (fw_flows f !! k = Some e <-> t k = Some e).

Lemma agrees_prune now now' f t : agrees now f t -> now <= now' ->
  agrees now' (pruneLocked f now') t /\
  (forall k, fw_flows (pruneLocked f now') !! k =
    match t k with Some e => if decide (now' < e) then Some e else None | None => None end).
Proof.
  intros HR Hle.
  assert (H : forall k, fw_flows (pruneLocked f now') !! k =
    match t k with Some e => if decide (now' < e) then Some e else None | None => None end).
  { intros k. rewrite lookup_prune.
    assert (Hrev : forall e', now' < e' -> t k = Some e' -> fw_flows f !! k = Some e').
    { intros e' He' Ht. apply HR; [lia|exact Ht]. }
    destruct (fw_flows f !! k) as [e|] eqn:Ef.
    - case_decide as He.
      + rewrite (proj1 (HR k e ltac:(lia)) Ef), decide_True by assumption. reflexivity.
      + destruct (t k) as [e'|]; [|reflexivity]. case_decide as He'; [|reflexivity].
        specialize (Hrev e' He' eq_refl). simplify_eq. contradiction.
    - destruct (t k) as [e'|]; [|reflexivity]. case_decide as He'; [|reflexivity].
      specialize (Hrev e' He' eq_refl). discriminate. }
  split; [|exact H]. intros k e He. rewrite H.
  destruct (t k) as [e'|]; [|reflexivity]. case_decide; split; intros ?; simplify_eq; lia || auto.
Qed.

Lemma agrees_set now f t k v : agrees now f t ->
  agrees now (set_flows f (<[k := v]> (fw_flows f))) (spec_set t k (Some v)).
Proof.
  intros HR k' e He. rewrite fw_flows_set. unfold spec_set. rewrite lookup_insert.
  repeat case_decide; try contradiction; [reflexivity|]. apply HR. assumption.
Qed.

Lemma agrees_delete now f t k : agrees now f t ->
  agrees now (set_flows f (delete k (fw_flows f))) (spec_set t k None).
Proof.
  intros HR k' e He. rewrite fw_flows_set. unfold spec_set. rewrite lookup_delete.
  repeat case_decide; try contradiction; [reflexivity|]. apply HR. assumption.
Qed.

Lemma agrees_later now now' f t : agrees now f t -> now <= now' -> agrees now' f t.
Proof. intros HR Hle k e He. apply HR. lia. Qed.

Lemma agrees_event now f t e : fw_enabled f = true -> agrees now f t -> now <= traffic_time e ->
  exists g, fw_event (Some f) e = (Some g, (spec_event f t e).2) /\
    agrees (traffic_time e) g (spec_event f t e).1.
Proof.
  intros He HR Hle.
  destruct e as [packet now'|packet now']; cbn [fw_event traffic_time spec_event] in *;
    [rewrite AllowOutgoing_enabled by assumption|rewrite AllowIncoming_enabled by assumption];
    unfold transport_packet; destruct (parseIPv6Packet packet) as [p| | |];
    try (eexists; split; [reflexivity|eauto using agrees_later]; fail);
    destruct (pp_allowICMP p); try (eexists; split; [reflexivity|eauto using agrees_later]; fail);
    cbn [orb]; destruct (not_transport p);
    try (eexists; split; [reflexivity|eauto using agrees_later]; fail);
    destruct (agrees_prune now now' f t HR Hle) as [HR' Hlook].
  - eexists. split; [reflexivity|]. apply agrees_set. exact HR'.
  - cbv zeta. rewrite Hlook. fold (closing p). destruct (t (packetFlow p)) as [ex|].
    + destruct (Z.ltb_spec now' ex); case_decide; try lia.
      * destruct (closing p); (eexists; split; [reflexivity|]);
          [apply agrees_delete|apply agrees_set]; exact HR'.
      * eexists. split; [reflexivity|]. exact HR'.
    + eexists. split; [reflexivity|]. exact HR'.
Qed.

(** Whatever the times are: the specification has every entry of the firewall. *)
Definition covered (f : Firewall) (t : spec_table) : Prop :=
  forall k e, fw_flows f !! k = Some e -> t k = Some e.

Lemma covered_prune f t now : covered f t -> covered (pruneLocked f now) t.
Proof. intros H k e. rewrite lookup_prune. repeat split_match; try done. intros [= <-]. by apply H. Qed.

Lemma covered_update f t k v : covered f t ->
  covered (set_flows f (partial_alter (fun _ => v) k (fw_flows f))) (spec_set t k v).
Proof.
  intros H k' e. rewrite fw_flows_set. unfold spec_set. destruct (decide (k = k')) as [<-|Hne].
  - by rewrite lookup_partial_alter_eq.
  - rewrite lookup_partial_alter_ne by done. apply H.
Qed.

Lemma covered_absent f t k v : covered f t -> fw_flows f !! k = None -> covered f (spec_set t k v).
Proof. intros H Hk k' e He. unfold spec_set. case_decide; [congruence|by apply H]. Qed.

Lemma covered_event f t e : fw_enabled f = true -> covered f t ->
  exists g ok, fw_event (Some f) e = (Some g, ok) /\ (ok = true -> (spec_event f t e).2 = true) /\
    covered g (spec_event f t e).1.
Proof.
  intros He H. destruct e as [packet now|packet now]; cbn [fw_event spec_event];
    [rewrite AllowOutgoing_enabled by assumption|rewrite AllowIncoming_enabled by assumption];
    unfold transport_packet; destruct (parseIPv6Packet packet) as [p| | |]; try (by repeat eexists);
    destruct (pp_allowICMP p); try (by repeat eexists);
    cbn [orb]; destruct (not_transport p); try (by repeat eexists);
    pose proof (covered_prune _ _ now H) as H'.
  - do 2 eexists. split; [reflexivity|]. split; [done|]. apply (covered_update _ _ _ (Some _)), H'.
  - cbv zeta. fold (closing p). destruct (fw_flows (pruneLocked f now) !! packetFlow p) as [x|] eqn:Ex.
    + do 2 eexists. split; [reflexivity|]. rewrite (H' _ _ Ex). rewrite lookup_prune in Ex.
      destruct (fw_flows f !! _); [|done]. case_decide; [|done]. injection Ex as ->.
      destruct (Z.ltb_spec now x); [|lia]. split; [by destruct (closing p)|].
      destruct (closing p); [apply (covered_update _ _ _ None), H'|apply (covered_update _ _ _ (Some _)), H'].
    + do 2 eexists. split; [reflexivity|]. destruct (t (packetFlow p)) as [x|]; [|by split].
      destruct (now <? x); [|by split]. split; [by destruct (closing p)|].
      destruct (closing p); by apply covered_absent.
Qed.

Lemma port_allowed_config f g p : same_config f g -> port_allowed g p = port_allowed f p.
Proof. intros (_&H1&H2). unfold port_allowed. rewrite H1, H2. reflexivity. Qed.

Lemma spec_event_config f g t e : same_config f g -> spec_event g t e = spec_event f t e.
Proof.
  intros H. destruct e; [reflexivity|]. unfold spec_event.
  repeat (split_match; try reflexivity); rewrite (port_allowed_config f g) by assumption; reflexivity.
Qed.

Lemma decisions_agree es : forall f0 f now t, fw_enabled f = true -> same_config f0 f ->
  agrees now f t -> Sorted Z.le (now :: map traffic_time es) ->
  decisions fw_event (Some f) es = decisions (spec_event f0) t es.
Proof.
  induction es as [|e es IH]; intros f0 f now t He Hc HR Hs; [reflexivity|].
  apply Sorted_inv in Hs as [Hs Hhd]. apply HdRel_inv in Hhd.
  destruct (agrees_event now f t e He HR Hhd) as (g&Eg&HR').
  destruct (fw_event_config f e He) as (g'&Eg'&Hg'). rewrite Eg in Eg'. cbn [fst] in Eg'.
  injection Eg' as <-. cbn [decisions]. rewrite Eg.
  rewrite (spec_event_config f0 f) in * by exact Hc.
  destruct (spec_event f0 t e) as [t' ok] eqn:Et. cbn [fst snd] in *. f_equal.
  destruct Hg' as (G1&G2&G3), Hc as (C1&C2&C3).
  eapply IH; [congruence| |exact HR'|exact Hs].
  unfold same_config. split_and!; congruence.
Qed.

Lemma decisions_covered es : forall f0 f t, fw_enabled f = true -> same_config f0 f -> covered f t ->
  Forall2 (fun ok spec_ok => ok = true -> spec_ok = true)
    (decisions fw_event (Some f) es) (decisions (spec_event f0) t es).
Proof.
  induction es as [|e es IH]; intros f0 f t He Hcfg H; [constructor|].
  destruct (covered_event f t e He H) as (g & ok & E & Hok & Hg).
  destruct (fw_event_config f e He) as (g' & Eg' & Hcfg'). rewrite E in Eg'. injection Eg' as <-.
  cbn [decisions]. rewrite <- (spec_event_config f0 f) by assumption. rewrite E.
  destruct (spec_event f t e) as [t' ok']. cbn [fst snd] in *. constructor; [done|].
  destruct Hcfg as (C1 & C2 & C3), Hcfg' as (D1 & D2 & D3).
  apply IH; [congruence|unfold same_config; split_and!; congruence|done].
Qed.

(** ** Sorted ports *)

Lemma sortedPorts_perm ports : sortedPorts ports ≡ₚ elements ports.
Proof. apply merge_sort_Permutation. Qed.

Lemma portsToSet_sorted ports : portsToSet (sortedPorts ports) = ports.
Proof.
  apply set_eq. intros p. unfold portsToSet.
  rewrite elem_of_list_to_set, sortedPorts_perm. apply elem_of_elements.
Qed.

(** ** Header chains: the declarative reading of the extension headers *)

Section chain.
Context (packet : bytes) (limit : Z).

Definition byte_at (i v : Z) : Prop := 0 <= i /\ packet !! Z.to_nat i = Some v.

(** [header_chain proto off proto' off']: from a header of type [proto] at
    [off], skipping well-formed extension headers within [limit] leads to one
    of type [proto'] at [off']. *)
Inductive header_chain : Z -> Z -> Z -> Z -> Prop :=
| chain_here proto off : header_chain proto off proto off
| chain_options proto off next len proto' off' :
    proto ∈ [ipProtoHopByHop; ipProtoRouting; ipProtoDstOpts] ->
    byte_at off next -> byte_at (off + 1) len ->
    off + 2 <= limit -> 0 < (len + 1) * 8 -> off + (len + 1) * 8 <= limit ->
    header_chain next (off + (len + 1) * 8) proto' off' ->
    header_chain proto off proto' off'
| chain_fragment off next hi lo proto' off' :
    byte_at off next -> byte_at (off + 2) hi -> byte_at (off + 2 + 1) lo ->
    off + 8 <= limit ->
    Z.shiftr (Z.lor lo (Z.shiftl hi 8)) 3 = 0 -> Z.land (Z.lor lo (Z.shiftl hi 8)) 1 = 0 ->
    header_chain next (off + 8) proto' off' ->
    header_chain ipProtoFragment off proto' off'
| chain_auth off next len proto' off' :
    byte_at off next -> byte_at (off + 1) len ->
    off + 2 <= limit -> 0 < (len + 2) * 4 -> off + (len + 2) * 4 <= limit ->
    header_chain next (off + (len + 2) * 4) proto' off' ->
    header_chain ipProtoAH off proto' off'.

(** Ports (and, for TCP, flags) of the transport header at [off]. *)
Definition transport_at (proto off sp dp flags : Z) : Prop :=
  exists h1 l1 h2 l2, byte_at off h1 /\ byte_at (off + 1) l1 /\
    byte_at (off + 2) h2 /\ byte_at (off + 2 + 1) l2 /\
    sp = Z.lor l1 (Z.shiftl h1 8) /\ dp = Z.lor l2 (Z.shiftl h2 8) /\
    (proto = ipProtoTCP /\ off + 20 <= limit /\ byte_at (off + 13) flags \/
     proto = ipProtoUDP /\ off + 8 <= limit /\ flags = 0).
End chain.

Lemma with_byte_Parsed packet i k p : with_byte packet i k = Parsed p ->
  exists b, byte_at packet i b /\ k b = Parsed p.
Proof.
  unfold with_byte, byte_at. destruct (packet !! Z.to_nat i) as [b|]; [|discriminate].
  destruct (Z.ltb_spec i 0); [discriminate|]. eauto.
Qed.

Lemma with_byte_at packet i b k : byte_at packet i b -> with_byte packet i k = k b.
Proof.
  intros [Hi Hb]. unfold with_byte. rewrite Hb. destruct (Z.ltb_spec i 0); [lia|reflexivity].
Qed.

Lemma with_u16_Parsed packet i k p : with_u16 packet i k = Parsed p ->
  exists hi lo, byte_at packet i hi /\ byte_at packet (i + 1) lo /\
    k (Z.lor lo (Z.shiftl hi 8)) = Parsed p.
Proof.
  intros (hi&Hhi&(lo&Hlo&H)%with_byte_Parsed)%with_byte_Parsed. eauto.
Qed.

Lemma with_u16_at packet i hi lo k : byte_at packet i hi -> byte_at packet (i + 1) lo ->
  with_u16 packet i k = k (Z.lor lo (Z.shiftl hi 8)).
Proof. intros H1 H2. unfold with_u16. erewrite !with_byte_at by eassumption. reflexivity. Qed.

(** What the end of the loop returns for a transport header. *)
Definition final_packet (p : parsedPacket) (proto sp dp flags : Z) : parsedPacket :=
  ParsedPacket (pp_src p) (pp_dst p) proto sp dp
    (if proto =? ipProtoTCP then flags else pp_tcpFlags p) true (pp_allowICMP p).

Ltac parsed_steps :=
  repeat match goal with
  | H : (if ?b then _ else _) = Parsed _ |- _ =>
      let E := fresh "E" in destruct b eqn:E; try discriminate H
  | H : with_byte _ _ _ = Parsed _ |- _ => apply with_byte_Parsed in H as (?&?&H)
  | H : with_u16 _ _ _ = Parsed _ |- _ => apply with_u16_Parsed in H as (?&?&?&?&H)
  end.

Lemma parse_headers_sound packet limit fuel : forall p off q,
  parse_headers fuel packet limit p off = Parsed q ->
  pp_hasPorts p = false -> pp_tcpFlags p = 0 -> pp_hasPorts q = true -> pp_allowICMP q = false ->
  exists proto off' sp dp flags, header_chain packet limit (pp_proto p) off proto off' /\
    transport_at packet limit proto off' sp dp flags /\ q = final_packet p proto sp dp flags.
Proof.
  induction fuel as [|fuel IH]; intros p off q H Hp Hf Hq Hi; [discriminate H|].
  cbn [parse_headers] in H. parsed_steps; bool_props.
  - simplify_eq.
  - simplify_eq. eexists ipProtoTCP, off, _, _, _.
    split; [rewrite E0; constructor|]. split.
    + do 4 eexists. do 4 (split; [eassumption|]). split; [reflexivity|]. split; [reflexivity|].
      left. split_and!; [reflexivity|lia|eassumption].
    + unfold final_packet, set_ports. rewrite E0. reflexivity.
  - simplify_eq. eexists ipProtoUDP, off, _, _, 0.
    split; [rewrite E1; constructor|]. split.
    + do 4 eexists. do 4 (split; [eassumption|]). split; [reflexivity|]. split; [reflexivity|].
      right. split_and!; [reflexivity|lia|reflexivity].
    + unfold final_packet, set_ports. rewrite E1. reflexivity.
  - destruct (IH _ _ _ H Hp Hf Hq Hi) as (proto&off'&sp&dp&fl&Hc&Ht&->).
    exists proto, off', sp, dp, fl. split_and!; [|exact Ht|reflexivity].
    eapply chain_options; try eassumption; [|lia..].
    rewrite !orb_true_iff, !Z.eqb_eq in E2. destruct E2 as [[-> | ->] | ->]; repeat constructor.
  - destruct (IH _ _ _ H Hp Hf Hq Hi) as (proto&off'&sp&dp&fl&Hc&Ht&->).
    exists proto, off', sp, dp, fl. split_and!; [|exact Ht|reflexivity].
    rewrite E3. eapply chain_fragment; try eassumption; lia.
  - destruct (IH _ _ _ H Hp Hf Hq Hi) as (proto&off'&sp&dp&fl&Hc&Ht&->).
    exists proto, off', sp, dp, fl. split_and!; [|exact Ht|reflexivity].
    rewrite E4. eapply chain_auth; try eassumption; lia.
  - simplify_eq. congruence.
Qed.

Lemma parse_headers_complete packet limit proto off proto' off' :
  header_chain packet limit proto off proto' off' ->
  forall fuel p sp dp flags, pp_proto p = proto -> (0 < fuel)%nat -> limit - off < Z.of_nat fuel ->
  transport_at packet limit proto' off' sp dp flags ->
  parse_headers fuel packet limit p off = Parsed (final_packet p proto' sp dp flags).
Proof.
  induction 1 as [proto off|proto off next len proto' off' Hin Hb1 Hb2 Hl1 Hl2 Hl3 Hc IH
                 |off next hi lo proto' off' Hb1 Hb2 Hb3 Hl Hfo Hmf Hc IH
                 |off next len proto' off' Hb1 Hb2 Hl1 Hl2 Hl3 Hc IH];
    intros [|fuel] p sp dp flags Hp Hpos Hfuel Ht; try lia; cbn [parse_headers].
  - destruct Ht as (h1&l1&h2&l2&H1&H2&H3&H4&->&->&[(->&Hl&Hf)|(->&Hl&->)]); rewrite Hp; simpl.
    + destruct (Z.ltb_spec (limit - off) 20); [lia|].
      erewrite !with_u16_at by eassumption. erewrite with_byte_at by eassumption.
      unfold set_ports. rewrite Hp. reflexivity.
    + destruct (Z.ltb_spec (limit - off) 8); [lia|].
      erewrite !with_u16_at by eassumption.
      unfold set_ports. rewrite Hp. reflexivity.
  - assert (proto = ipProtoHopByHop \/ proto = ipProtoRouting \/ proto = ipProtoDstOpts)
      as Hproto.
    { repeat (apply elem_of_cons in Hin as [->|Hin]; auto). apply elem_of_nil in Hin. contradiction. }
    destruct Hproto as [-> | [-> | ->]]; rewrite Hp; simpl;
      (destruct (Z.ltb_spec (limit - off) 2); [lia|];
       erewrite !with_byte_at by eassumption;
       destruct (Z.leb_spec ((len + 1) * 8) 0); [lia|];
       destruct (Z.ltb_spec (limit - off) ((len + 1) * 8)); [lia|]; simpl;
       erewrite IH; [reflexivity|reflexivity|lia|lia|exact Ht]).
  - rewrite Hp. simpl.
    destruct (Z.ltb_spec (limit - off) 8); [lia|].
    erewrite with_byte_at, with_u16_at, Hfo, Hmf by eassumption. simpl.
    erewrite IH; [reflexivity|reflexivity|lia|lia|exact Ht].
  - rewrite Hp. simpl.
    destruct (Z.ltb_spec (limit - off) 2); [lia|].
    erewrite !with_byte_at by eassumption.
    destruct (Z.leb_spec ((len + 2) * 4) 0); [lia|].
    destruct (Z.ltb_spec (limit - off) ((len + 2) * 4)); [lia|]. simpl.
    erewrite IH; [reflexivity|reflexivity|lia|lia|exact Ht].
Qed.

(** ** Sample traffic *)

Definition addr_a : bytes := 0x02 :: replicate 15 0xaa.
Definition addr_b : bytes := 0x02 :: replicate 15 0xbb.

Definition tcp_packet (src dst : bytes) (sp dp flags : Z) : bytes :=
  [0x60; 0; 0; 0; 0; 20; 6; 64] ++ src ++ dst ++ be16_put sp ++ be16_put dp ++
  replicate 8 0 ++ [0x50; flags] ++ replicate 6 0.

Definition tcp_parsed (src dst : bytes) (sp dp flags : Z) : parsedPacket :=
  ParsedPacket src dst ipProtoTCP sp dp flags true false.

Definition sample_cfg : FirewallConfig :=
  {| cfg_Enabled := true; cfg_AllowedTCPPorts := [443; 22; 443]; cfg_AllowedUDPPorts := [53] |}.
Definition sample_fw : Firewall := default (MkFirewall false ∅ ∅ ∅) (NewFirewall sample_cfg).

(** ** Claims *)

(** The packet parser returns for every byte string: it never indexes out of
    range and the loop over the extension headers ends within as many
    iterations as the packet has bytes. *)
Theorem parseIPv6Packet_total packet :
  parseIPv6Packet packet = Malformed \/ exists p, parseIPv6Packet packet = Parsed p.
Proof.
  destruct (parse_regular packet) as [H1 H2].
  destruct (parseIPv6Packet packet); eauto; contradiction.
Qed.

(** A packet counts as TCP or UDP traffic with ports exactly when it is an
    IPv6 packet whose payload length fits, whose chain of hop-by-hop, routing,
    destination-options, authentication and unfragmented fragment headers leads
    to a TCP header of 20 or a UDP header of 8 bytes inside the payload; the
    flow's addresses, protocol, ports and flags are then the ones of those
    headers. *)
Theorem transport_packet_spec packet p :
  transport_packet packet = Some p <->
  exists b0 hi lo first proto off sp dp flags,
    (40 <= length packet)%nat /\ byte_at packet 0 b0 /\ Z.land b0 0xf0 = 0x60 /\
    byte_at packet 4 hi /\ byte_at packet 5 lo /\
    let plen := Z.lor lo (Z.shiftl hi 8) in
    plen <= Z.of_nat (length packet) - 40 /\ byte_at packet 6 first /\
    header_chain packet (40 + plen) first 40 proto off /\
    transport_at packet (40 + plen) proto off sp dp flags /\
    p = ParsedPacket (slice 8 24 packet) (slice 24 40 packet) proto sp dp flags true false.
Proof.
  unfold transport_packet. split.
  - intros H. destruct (parseIPv6Packet packet) as [p0| | |] eqn:E; try discriminate.
    destruct (pp_allowICMP p0) eqn:Ei; [discriminate|]. simpl in H.
    destruct (not_transport p0) eqn:Ep; [discriminate|]. injection H as ->.
    unfold parseIPv6Packet in E. parsed_steps; bool_props.
    unfold not_transport in Ep. apply orb_false_iff in Ep as [Ep _]. bool_props.
    destruct (parse_headers_sound _ _ _ _ _ _ E eq_refl eq_refl Ep Ei)
      as (proto&off&sp&dp&fl&Hc&Ht&->).
    do 9 eexists. split; [lia|]. do 4 (split; [eassumption|]). split; [lia|].
    split; [eassumption|]. split; [exact Hc|]. split; [exact Ht|].
    destruct Ht as (?&?&?&?&?&?&?&?&?&?&[(->&_)|(->&_&->)]); reflexivity.
  - unfold parseIPv6Packet.
    intros (b0&hi&lo&first&proto&off&sp&dp&fl&Hl&Hb0&Hv&Hhi&Hlo&Hplen&Hfirst&Hc&Ht&->).
    destruct (Z.ltb_spec (Z.of_nat (length packet)) 40); [lia|].
    erewrite with_byte_at, Hv by eassumption. simpl negb. cbv iota.
    erewrite with_u16_at by eassumption.
    destruct (Z.ltb_spec (Z.of_nat (length packet) - 40) (Z.lor lo (Z.shiftl hi 8))); [lia|].
    erewrite with_byte_at by eassumption. cbv zeta.
    erewrite parse_headers_complete; [|exact Hc|reflexivity|lia|lia|exact Ht].
    destruct Ht as (?&?&?&?&?&?&?&?&?&?&[(->&_)|(->&_&->)]); reflexivity.
Qed.



(** C6: unsolicited traffic stays out.  After SetConfig has enabled the
    firewall, an incoming TCP or UDP packet whose destination port is not
    allowed is dropped, unless an outgoing packet of its flow was seen before. *)
Theorem unsolicited_denied f0 cfg es in_pkt q now :
  cfg_Enabled cfg = true -> transport_packet in_pkt = Some q ->
  Forall (fun e => opens (packetFlow q) e = false) es ->
  (pp_proto q = ipProtoTCP -> pp_dstPort q ∉ cfg_AllowedTCPPorts cfg) ->
  (pp_proto q = ipProtoUDP -> pp_dstPort q ∉ cfg_AllowedUDPPorts cfg) ->
  (AllowIncoming (fw_run (SetConfig (Some f0) cfg) es) in_pkt now).2 = false.
Proof.
  intros He Hin Hes Htcp Hudp. cbn [SetConfig].
  match goal with |- context [fw_run (Some ?f)] => set (f1 := f) end.
  destruct (fw_run_absent es f1 (packetFlow q)) as (g&Eg&Hg); auto.
  destruct (fw_run_config f1 es He) as (g'&Eg'&Hcfg). rewrite Eg in Eg'. injection Eg' as <-.
  rewrite Eg, AllowIncoming_enabled, Hin by (destruct Hcfg as [-> _]; exact He).
  unfold transport_packet in Hin. destruct (parseIPv6Packet in_pkt) as [q0| | |]; try discriminate.
  destruct (pp_allowICMP q0); [discriminate|]. cbv zeta. rewrite lookup_prune, Hg. cbn [snd].
  rewrite (port_allowed_config f1) by exact Hcfg. unfold port_allowed.
  destruct (Z.eqb_spec (pp_proto q) ipProtoTCP); [|destruct (Z.eqb_spec (pp_proto q) ipProtoUDP)];
    [apply bool_decide_eq_false; simpl; unfold portsToSet; rewrite elem_of_list_to_set; auto..|reflexivity].
Qed.

Example unsolicited_denied_witness :
  (AllowIncoming (fw_run (SetConfig (Some sample_fw) sample_cfg)
     [TOut (tcp_packet addr_a addr_b 50000 80 2) 0])
     (tcp_packet addr_b addr_a 80 50001 0x10) 5).2 = false.
Proof.
  apply (unsolicited_denied sample_fw sample_cfg [TOut (tcp_packet addr_a addr_b 50000 80 2) 0]
    (tcp_packet addr_b addr_a 80 50001 0x10) (tcp_parsed addr_b addr_a 80 50001 0x10));
    try reflexivity.
  - repeat constructor.
  - intros _. apply (bool_decide_unpack _). exact I.
  - intros H. discriminate H.
Defined.

(** A closed TCP flow is closed.  When an incoming packet of a tracked flow
    carries FIN or RST, it is still accepted, and from then on a packet of that
    flow is accepted only if its port is allowed, until an outgoing packet
    reopens the flow. *)
Theorem closing_packet_ends_flow f fin_pkt next_pkt p q exp now now' es :
  fw_enabled f = true -> transport_packet fin_pkt = Some p -> closing p = true ->
  fw_flows f !! packetFlow p = Some exp -> now < exp ->
  transport_packet next_pkt = Some q -> packetFlow q = packetFlow p ->
  Forall (fun e => opens (packetFlow p) e = false) es ->
  (AllowIncoming (Some f) fin_pkt now).2 = true /\
  (AllowIncoming (fw_run (Some f) (TIn fin_pkt now :: es)) next_pkt now').2 = port_allowed f q.
Proof.
  intros He Hp Hcl Hk Hexp Hq Hflow Hes.
  assert (E : AllowIncoming (Some f) fin_pkt now =
    (Some (set_flows (pruneLocked f now) (delete (packetFlow p) (fw_flows (pruneLocked f now)))), true)).
  { rewrite AllowIncoming_enabled, Hp by assumption.
    unfold transport_packet in Hp. destruct (parseIPv6Packet fin_pkt) as [p0| | |]; try discriminate.
    destruct (pp_allowICMP p0); [discriminate|]. cbv zeta.
    rewrite lookup_prune, Hk, decide_True, Hcl by assumption. reflexivity. }
  rewrite E. split; [reflexivity|].
  unfold fw_run. cbn [fold_left fw_event]. rewrite E. cbn [fst].
  match goal with |- context [fold_left _ es (Some ?f)] => set (f1 := f); fold (fw_run (Some f1) es) end.
  assert (He1 : fw_enabled f1 = true) by exact He.
  destruct (fw_run_absent es f1 (packetFlow p)) as (g&Eg&Hg); auto.
  { unfold f1. rewrite fw_flows_set. apply lookup_delete_eq. }
  destruct (fw_run_config f1 es He1) as (g'&Eg'&Hcfg). rewrite Eg in Eg'. injection Eg' as <-.
  rewrite Eg, AllowIncoming_enabled, Hq by (destruct Hcfg as [-> _]; exact He1).
  unfold transport_packet in Hq. destruct (parseIPv6Packet next_pkt) as [q0| | |]; try discriminate.
  destruct (pp_allowICMP q0); [discriminate|]. cbv zeta. rewrite Hflow, lookup_prune, Hg. cbn [snd].
  rewrite (port_allowed_config f1) by exact Hcfg. reflexivity.
Qed.

Example closing_packet_ends_flow_witness :
  let f := default sample_fw (fw_run (Some sample_fw) [TOut (tcp_packet addr_a addr_b 50000 80 2) 0]) in
  (AllowIncoming (Some f) (tcp_packet addr_b addr_a 80 50000 0x11) 7).2 = true /\
  (AllowIncoming (fw_run (Some f) [TIn (tcp_packet addr_b addr_a 80 50000 0x11) 7])
     (tcp_packet addr_b addr_a 80 50000 0x10) 9).2 = false.
Proof.
  intros f.
  apply (closing_packet_ends_flow f (tcp_packet addr_b addr_a 80 50000 0x11)
    (tcp_packet addr_b addr_a 80 50000 0x10) (tcp_parsed addr_b addr_a 80 50000 0x11)
    (tcp_parsed addr_b addr_a 80 50000 0x10) tcpFlowTTL 7 9 []);
    try reflexivity. constructor.
Defined.

(** C15: pruning against the specification that keeps all flow entries for ever
    and only compares expiry times.  Whatever the times of the packets are, the
    firewall never accepts a packet that the specification denies; when the
    times never decrease, both take the same decision on every packet. *)
Theorem pruning_unobservable f t0 es : fw_enabled f = true ->
  Forall2 (fun ok spec_ok => ok = true -> spec_ok = true)
    (decisions fw_event (Some f) es) (decisions (spec_event f) (fun k => fw_flows f !! k) es) /\
  (Sorted Z.le (t0 :: map traffic_time es) ->
   decisions fw_event (Some f) es = decisions (spec_event f) (fun k => fw_flows f !! k) es).
Proof.
  intros He. split.
  - apply (decisions_covered es f f); [done|by repeat split|by intros k e].
  - intros Hs. apply (decisions_agree es f f t0); auto; [repeat split|]. intros k e _. reflexivity.
Qed.

Example pruning_unobservable_witness :
  decisions (spec_event sample_fw) (fun k => fw_flows sample_fw !! k)
    [TOut (tcp_packet addr_a addr_b 50000 80 2) 0;
     TIn (tcp_packet addr_b addr_a 80 50000 0x10) tcpFlowTTL] = [true; false].
Proof.
  rewrite <- (proj2 (pruning_unobservable sample_fw 0 _ eq_refl)); [vm_compute; reflexivity|].
  repeat constructor; vm_compute; discriminate.
Defined.

(** [time.Now] is read before the mutex is taken, so the packets of the read
    loop and of the queue can reach the flow table in another order than their
    times: then a packet that came in time is denied. *)
Example pruning_observable_out_of_order :
  let es := [TOut (tcp_packet addr_a addr_b 50000 80 2) 0; TOut (tcp_packet addr_a addr_b 50001 80 2) tcpFlowTTL;
             TIn (tcp_packet addr_b addr_a 80 50000 0x10) (tcpFlowTTL - 1)] in
  decisions fw_event (Some sample_fw) es = [true; true; false] /\
  decisions (spec_event sample_fw) (fun k => fw_flows sample_fw !! k) es = [true; true; true].
Proof. split; vm_compute; reflexivity. Qed.

(** The configuration read back is the one set: the switch, and each port
    list sorted without duplicates; setting what was read back changes nothing,
    and every SetConfig empties the flow table. *)
Theorem Config_SetConfig f cfg :
  let fw := SetConfig (Some f) cfg in
  cfg_Enabled (Config fw) = cfg_Enabled cfg /\
  StronglySorted Z.lt (cfg_AllowedTCPPorts (Config fw)) /\
  StronglySorted Z.lt (cfg_AllowedUDPPorts (Config fw)) /\
  (forall p, p ∈ cfg_AllowedTCPPorts (Config fw) <-> p ∈ cfg_AllowedTCPPorts cfg) /\
  (forall p, p ∈ cfg_AllowedUDPPorts (Config fw) <-> p ∈ cfg_AllowedUDPPorts cfg) /\
  SetConfig fw (Config fw) = fw /\ fs_TrackedFlows (Status fw) = 0%nat.
Proof.
  assert (Hs : forall s : gset Z, StronglySorted Z.lt (sortedPorts s)).
  { intros s. assert (Hnd : NoDup (sortedPorts s)).
    { rewrite sortedPorts_perm. apply NoDup_elements. }
    assert (Hle : StronglySorted Z.le (sortedPorts s)) by (apply (StronglySorted_merge_sort Z.le); apply _).
    induction Hle as [|x l Hl IH Hx]; [constructor|]. apply NoDup_cons in Hnd as [Hn Hnd].
    constructor; [auto|]. rewrite Forall_forall in Hx |- *. intros y Hy. specialize (Hx y Hy).
    assert (x <> y) by (intros ->; contradiction). lia. }
  assert (Hm : forall l p, p ∈ sortedPorts (portsToSet l) <-> p ∈ l).
  { intros l p. rewrite sortedPorts_perm, elem_of_elements. apply elem_of_list_to_set. }
  simpl. split_and!; auto. rewrite !portsToSet_sorted. reflexivity.
Qed.
