(* ===== verification/GoStd.v ===== *)
(** * GoStd: the parts of Go's standard library the sources call

    [strings], [path.Match] and the accessors of [net/url] on already parsed
    URLs.  Strings are byte strings; case folding and white space are those of
    ASCII, which is what host names, URL schemes and configuration keywords of
    the program consist of. *)

From Stdlib Require Import Ascii.
From S2P Require Import Prelude.

Abbreviation chars := (list ascii).
Definition to_chars (s : string) : chars := String.list_ascii_of_string s.
Definition of_chars (l : chars) : string := String.string_of_list_ascii l.

(** ** strings *)

Definition is_space (c : ascii) : bool :=
  let n := nat_of_ascii c in ((9 <=? n) && (n <=? 13))%nat || (n =? 32)%nat.

Definition lower_ascii (c : ascii) : ascii :=
  let n := nat_of_ascii c in
  if ((65 <=? n) && (n <=? 90))%nat then ascii_of_nat (n + 32) else c.
Definition upper_ascii (c : ascii) : ascii :=
  let n := nat_of_ascii c in
  if ((97 <=? n) && (n <=? 122))%nat then ascii_of_nat (n - 32) else c.

Fixpoint drop_while {A} (p : A -> bool) (l : list A) : list A :=
  match l with
  | [] => []
  | x :: k => if p x then drop_while p k else l
  end.

Definition trim_by {A} (p : A -> bool) (l : list A) : list A :=
  rev (drop_while p (rev (drop_while p l))).

Fixpoint prefix_of (p l : chars) : option chars :=
  match p, l with
  | [], _ => Some l
  | a :: p, b :: l => if decide (a = b) then prefix_of p l else None
  | _, [] => None
  end.

Definition ToLower (s : string) : string := of_chars (map lower_ascii (to_chars s)).
Definition ToUpper (s : string) : string := of_chars (map upper_ascii (to_chars s)).
Definition TrimSpace (s : string) : string := of_chars (trim_by is_space (to_chars s)).
(** strings.Trim with a cutset *)
Definition Trim (s cutset : string) : string :=
  of_chars (trim_by (fun c => bool_decide (c ∈ to_chars cutset)) (to_chars s)).
Definition HasPrefix (s p : string) : bool :=
  match prefix_of (to_chars p) (to_chars s) with Some _ => true | None => false end.
Definition HasSuffix (s p : string) : bool :=
  match prefix_of (rev (to_chars p)) (rev (to_chars s)) with Some _ => true | None => false end.
Definition TrimPrefix (s p : string) : string :=
  match prefix_of (to_chars p) (to_chars s) with Some r => of_chars r | None => s end.
Definition TrimSuffix (s p : string) : string :=
  match prefix_of (rev (to_chars p)) (rev (to_chars s)) with
  | Some r => of_chars (rev r)
  | None => s
  end.
Definition EqualFold (a b : string) : bool := bool_decide (ToLower a = ToLower b).

(** strings.Cut at a one-byte separator *)
Fixpoint cut_chars (l : chars) (sep : ascii) : option (chars * chars) :=
  match l with
  | [] => None
  | c :: l =>
      if decide (c = sep) then Some ([], l)
      else match cut_chars l sep with Some (a, b) => Some (c :: a, b) | None => None end
  end.
Definition Cut (s : string) (sep : ascii) : string * string * bool :=
  match cut_chars (to_chars s) sep with
  | Some (a, b) => (of_chars a, of_chars b, true)
  | None => (s, EmptyString, false)
  end.
Definition ContainsByte (s : string) (c : ascii) : bool := bool_decide (c ∈ to_chars s).
(** strings.Count of a one-byte string *)
Definition CountByte (s : string) (c : ascii) : nat :=
  length (filter (fun x => x = c) (to_chars s)).

(** ** path.Match *)

Module PathMatch.

(** scanChunk: the leading stars, the chunk up to the next star outside of a
    character class, and the rest. *)
Fixpoint skip_stars (pattern : chars) : bool * chars :=
  match pattern with
  | "*"%char :: pattern => (true, (skip_stars pattern).2)
  | _ => (false, pattern)
  end.

Fixpoint scan (inrange : bool) (pattern : chars) : chars * chars :=
  match pattern with
  | [] => ([], [])
  | "\"%char :: c :: pattern =>
      let '(chunk, rest) := scan inrange pattern in ("\"%char :: c :: chunk, rest)
  | c :: pattern' =>
      if decide (c = "*"%char) then
        if inrange then let '(chunk, rest) := scan inrange pattern' in (c :: chunk, rest)
        else ([], pattern)
      else
        let inrange :=
          if decide (c = "["%char) then true
          else if decide (c = "]"%char) then false else inrange in
        let '(chunk, rest) := scan inrange pattern' in (c :: chunk, rest)
  end.

Definition scanChunk (pattern : chars) : bool * chars * chars :=
  let '(star, pattern) := skip_stars pattern in
  let '(chunk, rest) := scan false pattern in
  (star, chunk, rest).

(** getEsc: [None] is ErrBadPattern. *)
Definition getEsc (chunk : chars) : option (ascii * chars) :=
  match chunk with
  | [] => None
  | "-"%char :: _ | "]"%char :: _ => None
  | "\"%char :: [] => None
  | "\"%char :: c :: rest => match rest with [] => None | _ => Some (c, rest) end
  | c :: rest => match rest with [] => None | _ => Some (c, rest) end
  end.

(** The ranges of a character class: whether one contains [r], and the rest. *)
Fixpoint class_ranges (fuel nrange : nat) (r : option ascii) (matched : bool) (chunk : chars)
    : option (bool * chars) :=
  match fuel with
  | O => None
  | S fuel =>
      match chunk, nrange with
      | "]"%char :: rest, S _ => Some (matched, rest)
      | _, _ =>
          match getEsc chunk with
          | None => None
          | Some (lo, rest) =>
              let continue hi rest :=
                let inside :=
                  match r with
                  | Some r => (nat_of_ascii lo <=? nat_of_ascii r)%nat &&
                              (nat_of_ascii r <=? nat_of_ascii hi)%nat
                  | None => (nat_of_ascii lo =? 0)%nat   (* the zero rune of a failed match *)
                  end in
                class_ranges fuel (S nrange) r (matched || inside) rest in
              match rest with
              | "-"%char :: rest =>
                  match getEsc rest with
                  | None => None
                  | Some (hi, rest) => continue hi rest
                  end
              | _ => continue lo rest
              end
          end
      end
  end.

(** matchChunk: [None] is ErrBadPattern, [Some None] no match. *)
Fixpoint matchChunk (fuel : nat) (failed : bool) (chunk s : chars) : option (option chars) :=
  match fuel with
  | O => None
  | S fuel =>
      match chunk with
      | [] => Some (if failed then None else Some s)
      | c :: chunk' =>
          let failed := failed || match s with [] => true | _ => false end in
          let literal c chunk :=
            match s with
            | x :: s' =>
                if failed then matchChunk fuel failed chunk s
                else matchChunk fuel (bool_decide (c <> x)) chunk s'
            | [] => matchChunk fuel failed chunk s
            end in
          if decide (c = "["%char) then
            let r := if failed then None else head s in
            let s := if failed then s else tail s in
            let '(negated, chunk') :=
              match chunk' with "^"%char :: rest => (true, rest) | _ => (false, chunk') end in
            match class_ranges (S (length chunk')) 0 r false chunk' with
            | None => None
            | Some (matched, rest) =>
                matchChunk fuel (failed || Bool.eqb matched negated) rest s
            end
          else if decide (c = "?"%char) then
            match s with
            | x :: s' =>
                if failed then matchChunk fuel failed chunk' s
                else matchChunk fuel (bool_decide (x = "/"%char)) chunk' s'
            | [] => matchChunk fuel failed chunk' s
            end
          else if decide (c = "\"%char) then
            match chunk' with
            | [] => None
            | c' :: chunk'' => literal c' chunk''
            end
          else literal c chunk'
      end
  end.

Definition match_chunk (chunk s : chars) : option (option chars) :=
  matchChunk (S (length chunk)) false chunk s.

(** The scan for a match of the chunk after a star, skipping [i+1] bytes. *)
Fixpoint star_scan (chunk name : chars) (last : bool) : option (option chars) :=
  match name with
  | [] => Some None
  | c :: name' =>
      if decide (c = "/"%char) then Some None
      else match match_chunk chunk name' with
      | None => None
      | Some (Some t) =>
          match t, last with
          | _ :: _, true => star_scan chunk name' last
          | _, _ => Some (Some t)
          end
      | Some None => star_scan chunk name' last
      end
  end.

(** The check that the rest of a failed pattern is well formed. *)
Fixpoint check_rest (fuel : nat) (pattern : chars) : bool :=
  match fuel with
  | O => true
  | S fuel =>
      match pattern with
      | [] => true
      | _ => let '(_, chunk, rest) := scanChunk pattern in
             match match_chunk chunk [] with None => false | Some _ => check_rest fuel rest end
      end
  end.

Fixpoint match_loop (fuel : nat) (pattern name : chars) : option bool :=
  match fuel with
  | O => None
  | S fuel =>
      match pattern with
      | [] => Some (match name with [] => true | _ => false end)
      | _ =>
          let '(star, chunk, rest) := scanChunk pattern in
          match star, chunk with
          | true, [] => Some (negb (bool_decide ("/"%char ∈ name)))
          | _, _ =>
              let last := match rest with [] => true | _ => false end in
              let fail := if check_rest fuel rest then Some false else None in
              let after_star :=
                if star then
                  match star_scan chunk name last with
                  | None => None
                  | Some (Some t) => match_loop fuel rest t
                  | Some None => fail
                  end
                else fail in
              match match_chunk chunk name with
              | None => None
              | Some (Some t) =>
                  match t, last with
                  | _ :: _, true => after_star
                  | _, _ => match_loop fuel rest t
                  end
              | Some None => after_star
              end
          end
      end
  end.

End PathMatch.

(** path.Match(pattern, name): [None] is ErrBadPattern. *)
Definition Match (pattern name : string) : option bool :=
  PathMatch.match_loop (S (length (to_chars pattern))) (to_chars pattern) (to_chars name).

Example Match_1 : Match "*.onion" "abc.onion" = Some true. Proof. reflexivity. Qed.
Example Match_2 : Match "*.onion" "abc.onion.x" = Some false. Proof. reflexivity. Qed.
Example Match_3 : Match "a[b-d]?\*" "acx*" = Some true. Proof. reflexivity. Qed.
Example Match_4 : Match "a[" "example" = None. Proof. reflexivity. Qed.
Example Match_5 : Match "*a*b" "xxayyb" = Some true. Proof. reflexivity. Qed.

(** ** Patterns of a star and a plain suffix *)

Section Suffix.
Import PathMatch.

Definition plain (c : ascii) : bool := negb (bool_decide (c ∈ ["*"; "?"; "["; "]"; "\"]%char)).

Lemma plain_scan suf : forallb plain suf = true -> skip_stars suf = (false, suf) /\ scan false suf = (suf, []).
Proof.
  induction suf as [|c suf IH]; cbn [forallb]; [done|]. intros [Hc Hs]%andb_true_iff. destruct (IH Hs) as [_ H2].
  assert (Hne : forall x, x ∈ ["*"; "?"; "["; "]"; "\"]%char -> c <> x).
  { intros x Hx ->. unfold plain in Hc. apply negb_true_iff, bool_decide_eq_false in Hc. done. }
  split.
  - cbn. destruct c as [[] [] [] [] [] [] [] []]; try reflexivity. by destruct (Hne "*"%char); [set_solver|].
  - assert (scan false (c :: suf) = if decide (c = "*"%char) then ([], c :: suf) else
      let '(chunk, rest) := scan (if decide (c = "["%char) then true else if decide (c = "]"%char) then false else false) suf in (c :: chunk, rest)) as ->.
    { destruct c as [[] [] [] [] [] [] [] []]; try reflexivity. by destruct (Hne "\"%char); [set_solver|]. }
    rewrite !decide_False by (apply Hne; set_solver). by rewrite H2.
Qed.

Lemma plain_matchChunk suf fuel failed s : (length suf < fuel)%nat -> forallb plain suf = true ->
  matchChunk fuel failed suf s = Some (if failed then None else prefix_of suf s).
Proof.
  revert fuel failed s. induction suf as [|c suf IH]; intros [|fuel] failed s Hf; cbn [length] in Hf; try lia; cbn [forallb].
  { intros _. cbn. by destruct failed. }
  intros [Hc Hs]%andb_true_iff. unfold plain in Hc. apply negb_true_iff, bool_decide_eq_false in Hc.
  cbn [matchChunk prefix_of].
  rewrite !decide_False by (intros ->; apply Hc; set_solver).
  destruct s as [|x s]; [rewrite orb_true_r, IH by (done || lia); by destruct failed|]. rewrite orb_false_r. destruct failed.
  - by rewrite IH by (done || lia).
  - rewrite IH by (done || lia). destruct (decide (c = x)) as [->|Hx]; [by rewrite bool_decide_false by tauto|by rewrite bool_decide_true].
Qed.

Lemma prefix_of_app p l r : prefix_of p l = Some r <-> l = p ++ r.
Proof.
  revert l. induction p as [|a p IH]; intros l; cbn; [naive_solver|]. destruct l as [|b l]; [done|].
  case_decide as H; [subst; rewrite IH; naive_solver|]. naive_solver.
Qed.

Lemma plain_star_scan suf name : suf <> [] -> forallb plain suf = true ->
  exists b : bool, star_scan suf name true = Some (if b then Some [] else None) /\
    (b = true <-> exists pre, pre <> [] /\ ("/"%char ∉ pre) /\ name = pre ++ suf).
Proof.
  intros Hne Hs. induction name as [|c name (b & Hb & Hiff)]; cbn [star_scan].
  { exists false. split; [done|]. split; [done|]. intros (pre & H1 & _ & H2). by destruct pre. }
  case_decide as Hc.
  { exists false. split; [done|]. split; [done|]. intros (pre & H1 & H2 & H3). destruct pre as [|x pre]; [done|].
    injection H3 as -> ->. subst x. exfalso. apply H2. left. }
  unfold match_chunk. rewrite plain_matchChunk by (done || lia).
  assert (Hstep : (exists pre, pre <> [] /\ ("/"%char ∉ pre) /\ c :: name = pre ++ suf) <->
    name = suf \/ exists pre, pre <> [] /\ ("/"%char ∉ pre) /\ name = pre ++ suf).
  { split.
    - intros (pre & H1 & H2 & H3). destruct pre as [|x pre]; [done|]. injection H3 as -> ->.
      destruct pre as [|y pre]; [by left|]. right. exists (y :: pre). split_and!; [done| |done]. intros Hin. apply H2. by right.
    - intros [->|(pre & H1 & H2 & ->)]; [exists [c]|exists (c :: pre)]; split_and!; try done; rewrite ?elem_of_cons, ?elem_of_nil; naive_solver. }
  destruct (prefix_of suf name) as [t|] eqn:Ep.
  - apply prefix_of_app in Ep. destruct t as [|x t].
    + exists true. split; [done|]. rewrite Hstep, app_nil_r in *. split; [by left|done].
    + exists b. split; [exact Hb|]. rewrite Hstep, Hiff. split; [by right|]. intros [E|?]; [|done]. exfalso. subst name.
      apply (f_equal length) in E. rewrite length_app in E. cbn in E. lia.
  - exists b. split; [exact Hb|]. rewrite Hstep, Hiff. split; [by right|]. intros [E|?]; [|done]. exfalso. subst name.
    assert (prefix_of suf suf = Some []) as E2 by (apply prefix_of_app; by rewrite app_nil_r). congruence.
Qed.

(** A name matches when it ends in the suffix, with no slash before it. *)
Lemma Match_suffix suf name : to_chars suf <> [] -> forallb plain (to_chars suf) = true ->
  exists b : bool, Match (String "*" suf) name = Some b /\
    (b = true <-> exists pre, ("/"%char ∉ pre) /\ to_chars name = pre ++ to_chars suf).
Proof.
  intros Hne Hs. unfold Match. change (to_chars (String "*" suf)) with ("*"%char :: to_chars suf). set (l := to_chars suf) in *.
  destruct (plain_scan l Hs) as [Hk Hsc]. cbn [length match_loop].
  assert (scanChunk ("*"%char :: l) = (true, l, [])) as ->.
  { unfold scanChunk. cbn [skip_stars]. rewrite Hk. cbn [snd]. by rewrite Hsc. }
  destruct (plain_star_scan l (to_chars name) Hne Hs) as (b & Hb & Hiff).
  assert (Hm : match_chunk l (to_chars name) = Some (prefix_of l (to_chars name))) by (unfold match_chunk; by rewrite plain_matchChunk by (done || lia)).
  assert (Hall : (exists pre, ("/"%char ∉ pre) /\ to_chars name = pre ++ l) <-> to_chars name = l \/ b = true).
  { rewrite Hiff. split.
    - intros ([|x pre] & H1 & H2); [by left|]. right. by exists (x :: pre).
    - intros [E|(pre & _ & H1 & H2)]; [exists []; split; [by apply not_elem_of_nil|done]|by exists pre]. }
  setoid_rewrite Hall. clear Hall. clearbody l. destruct l as [|c l]; [done|]. rewrite Hm, Hb.
  destruct (prefix_of (c :: l) (to_chars name)) as [[|x t]|] eqn:Ep.
  - apply prefix_of_app in Ep. rewrite app_nil_r in Ep. exists true. split; [done|]. split; [by left|done].
  - apply prefix_of_app in Ep. exists b. split; [by destruct b|]. split; [by right|]. intros [E|?]; [|done]. exfalso. rewrite Ep in E.
    apply (f_equal length) in E. rewrite length_app in E. cbn in E. lia.
  - exists b. split; [by destruct b|]. split; [by right|]. intros [E|?]; [|done]. exfalso. rewrite E in Ep.
    assert (prefix_of (c :: l) (c :: l) = Some []) as E2 by (apply prefix_of_app; by rewrite app_nil_r). congruence.
Qed.
End Suffix.

(** ** net/url

    A parsed URL.  [Query] holds the decoded pairs of the raw query in order,
    so [RawQuery = ""] is [Query = []]. *)
Record URL := mkURL {
  Scheme : string;
  Host : string;
  Path : string;
  RawPath : string;
  Query : list (string * string)
}.

Global Instance URL_eq_dec : EqDecision URL.
Proof. solve_decision. Defined.

Definition is_digit (c : ascii) : bool :=
  let n := nat_of_ascii c in ((48 <=? n) && (n <=? 57))%nat.

(** strings.LastIndexByte at ':' as a split: what is before and after it. *)
Fixpoint cut_last (l : chars) (sep : ascii) : option (chars * chars) :=
  match l with
  | [] => None
  | c :: l =>
      match cut_last l sep with
      | Some (a, b) => Some (c :: a, b)
      | None => if decide (c = sep) then Some ([], l) else None
      end
  end.

(** u.Hostname() *)
Definition Hostname (u : URL) : string :=
  let hostport := to_chars (Host u) in
  let host :=
    match cut_last hostport ":"%char with
    | Some (host, port) => if forallb is_digit port then host else hostport
    | None => hostport
    end in
  match host with
  | "["%char :: rest =>
      match rev rest with
      | "]"%char :: inner => of_chars (rev inner)
      | _ => of_chars host
      end
  | _ => of_chars host
  end.

Example Hostname_1 : Hostname (mkURL "tls" "[fe80::1]:9001" "" "" []) = "fe80::1"%string.
Proof. reflexivity. Qed.
Example Hostname_2 : Hostname (mkURL "tls" "peer.Example:https" "" "" []) = "peer.Example:https"%string.
Proof. reflexivity. Qed.
Example Hostname_3 : Hostname (mkURL "tls" "a.b:80" "" "" []) = "a.b"%string.
Proof. reflexivity. Qed.

(** u.Query().Has(key), u.Query()[key] and u.Query().Get(key) *)
Definition query_has (q : list (string * string)) (key : string) : bool :=
  existsb (fun kv => bool_decide (kv.1 = key)) q.
Definition query_all (q : list (string * string)) (key : string) : list string :=
  map snd (filter (fun kv => kv.1 = key) q).
Definition query_get (q : list (string * string)) (key : string) : string :=
  match query_all q key with [] => EmptyString | v :: _ => v end.

(** ** Lemmas *)

Lemma to_of_chars l : to_chars (of_chars l) = l.
Proof. apply String.list_ascii_of_string_of_list_ascii. Qed.

Lemma of_to_chars s : of_chars (to_chars s) = s.
Proof. apply String.string_of_list_ascii_of_string. Qed.

Lemma to_chars_app s t : to_chars (String.append s t) = to_chars s ++ to_chars t.
Proof. induction s as [|c s IH]; [done|]. exact (f_equal (cons c) IH). Qed.
Lemma to_chars_inj s t : to_chars s = to_chars t -> s = t.
Proof. intros E. by rewrite <-(of_to_chars s), E, of_to_chars. Qed.
Lemma to_chars_nil s : to_chars s = [] <-> s = EmptyString.
Proof. by destruct s. Qed.

Lemma lower_ascii_idem c : lower_ascii (lower_ascii c) = lower_ascii c.
Proof. destruct c as [[] [] [] [] [] [] [] []]; reflexivity. Qed.

Lemma lower_ascii_space c : is_space (lower_ascii c) = is_space c.
Proof. destruct c as [[] [] [] [] [] [] [] []]; reflexivity. Qed.

Lemma ToLower_idem s : ToLower (ToLower s) = ToLower s.
Proof.
  unfold ToLower. rewrite to_of_chars, map_map. f_equal.
  apply map_ext, lower_ascii_idem.
Qed.

Lemma drop_while_head {A} (p : A -> bool) l x k :
  drop_while p l = x :: k -> p x = false.
Proof. induction l as [|y l IH]; simpl; [done|]. destruct (p y) eqn:E; [auto|]. by intros [= <- _]. Qed.

Lemma drop_while_idem {A} (p : A -> bool) l : drop_while p (drop_while p l) = drop_while p l.
Proof.
  destruct (drop_while p l) eqn:E; [done|]. simpl. by rewrite (drop_while_head _ _ _ _ E).
Qed.

Lemma drop_while_suffix {A} (p : A -> bool) l : exists k, l = k ++ drop_while p l.
Proof.
  induction l as [|x l [k IH]]; simpl; [by exists []|].
  destruct (p x); [exists (x :: k); simpl; congruence | by exists []].
Qed.

(** A trimmed list is trimmed: no end satisfies the predicate. *)
Lemma trim_by_idem {A} (p : A -> bool) l : trim_by p (trim_by p l) = trim_by p l.
Proof.
  unfold trim_by. set (m := drop_while p l).
  assert (Hm : drop_while p (rev (drop_while p (rev m))) = rev (drop_while p (rev m))).
  { destruct (drop_while_suffix p (rev m)) as [k Hk].
    assert (Em : m = rev (drop_while p (rev m)) ++ rev k).
    { rewrite <- rev_app_distr, <- Hk. by rewrite rev_involutive. }
    destruct (rev (drop_while p (rev m))) as [|x r] eqn:Er; [done|].
    simpl. rewrite (drop_while_head p l x (r ++ rev k)); [done|]. exact Em. }
  by rewrite Hm, rev_involutive, drop_while_idem.
Qed.

Lemma TrimSpace_idem s : TrimSpace (TrimSpace s) = TrimSpace s.
Proof. unfold TrimSpace. by rewrite to_of_chars, trim_by_idem. Qed.

Lemma drop_while_map {A} (p : A -> bool) f l :
  (forall x, p (f x) = p x) -> drop_while p (map f l) = map f (drop_while p l).
Proof. intros H. induction l as [|x l IH]; simpl; [done|]. rewrite H. by destruct (p x). Qed.

Lemma TrimSpace_ToLower s : TrimSpace (ToLower s) = ToLower (TrimSpace s).
Proof.
  unfold TrimSpace, ToLower, trim_by. rewrite !to_of_chars. f_equal.
  rewrite drop_while_map, <- !map_rev, drop_while_map, <- map_rev by apply lower_ascii_space.
  done.
Qed.

(** Normalising a scheme, host or pattern twice is normalising it once. *)
Lemma lower_trim_idem s :
  ToLower (TrimSpace (ToLower (TrimSpace s))) = ToLower (TrimSpace s).
Proof. by rewrite TrimSpace_ToLower, TrimSpace_idem, ToLower_idem. Qed.

Lemma prefix_of_Some p l r : prefix_of p l = Some r <-> l = p ++ r.
Proof.
  revert l. induction p as [|a p IH]; intros [|b l]; simpl.
  - split; congruence.
  - split; congruence.
  - split; [congruence | done].
  - destruct (decide (a = b)) as [->|Hn]; [rewrite IH|]; split; intros; congruence.
Qed.

Lemma HasPrefix_spec s p : HasPrefix s p = true <-> exists r, to_chars s = to_chars p ++ r.
Proof.
  unfold HasPrefix. destruct (prefix_of _ _) as [r|] eqn:E.
  - apply prefix_of_Some in E. split; [by exists r | done].
  - split; [done|]. intros [r Hr]. apply prefix_of_Some in Hr. congruence.
Qed.

Lemma EqualFold_refl s : EqualFold s s = true.
Proof. by apply bool_decide_eq_true. Qed.

Lemma EqualFold_sym a b : EqualFold a b = EqualFold b a.
Proof. unfold EqualFold. apply bool_decide_ext. split; congruence. Qed.

(** ** encoding/hex, strconv *)

Definition hex_digit (c : ascii) : option Z :=
  let n := Z.of_nat (nat_of_ascii c) in
  if (48 <=? n) && (n <=? 57) then Some (n - 48)
  else if (97 <=? n) && (n <=? 102) then Some (n - 87)
  else if (65 <=? n) && (n <=? 70) then Some (n - 55)
  else None.

Fixpoint hex_pairs (l : chars) : option bytes :=
  match l with
  | [] => Some []
  | [_] => None
  | a :: b :: l =>
      match hex_digit a, hex_digit b, hex_pairs l with
      | Some x, Some y, Some r => Some (16 * x + y :: r)
      | _, _, _ => None
      end
  end.

(** hex.DecodeString: [None] is an error. *)
Definition hex_DecodeString (s : string) : option bytes := hex_pairs (to_chars s).

Fixpoint digits_value (l : chars) (acc : Z) : option Z :=
  match l with
  | [] => Some acc
  | c :: l =>
      if is_digit c then digits_value l (10 * acc + (Z.of_nat (nat_of_ascii c) - 48)) else None
  end.

(** strconv.ParseUint(s, 10, bits): [None] is a syntax or range error. *)
Definition ParseUint (bits : Z) (s : string) : option Z :=
  match to_chars s with
  | [] => None
  | l => match digits_value l 0 with
         | Some v => if v <? 2 ^ bits then Some v else None
         | None => None
         end
  end.

Example ParseUint_1 : ParseUint 8 "255" = Some 255. Proof. reflexivity. Qed.
Example ParseUint_2 : ParseUint 8 "256" = None. Proof. reflexivity. Qed.
Example hex_1 : hex_DecodeString "00fF" = Some [0; 255]. Proof. reflexivity. Qed.

Lemma digits_value_nonneg l acc v : 0 <= acc -> digits_value l acc = Some v -> 0 <= v.
Proof.
  revert acc. induction l as [|c l IH]; simpl; intros acc Hacc; [by intros [= <-]|].
  unfold is_digit. destruct ((48 <=? _) && _)%nat eqn:E; [|done]. apply IH.
  bool_props. lia.
Qed.

Lemma ParseUint_range bits s v : ParseUint bits s = Some v -> 0 <= v < 2 ^ bits.
Proof.
  unfold ParseUint. destruct (to_chars s) as [|c l]; [done|].
  destruct (digits_value (c :: l) 0) as [w|] eqn:E; [|done].
  destruct (w <? 2 ^ bits) eqn:Ew; intros [= ->]. bool_props.
  split; [|done]. eapply digits_value_nonneg; [|exact E]. lia.
Qed.

(** hex.EncodeToString, and the decimal form that fmt's %d gives a [uint8]. *)
Definition hex_char (n : Z) : ascii :=
  if n <? 10 then ascii_of_nat (Z.to_nat (48 + n)) else ascii_of_nat (Z.to_nat (87 + n)).
Definition hex_EncodeToString (bs : bytes) : string :=
  of_chars (concat (map (fun b => [hex_char (Z.shiftr b 4); hex_char (Z.land b 15)]) bs)).

Definition digit_char (n : Z) : ascii := ascii_of_nat (Z.to_nat (48 + n)).
Definition format_uint8 (v : Z) : string :=
  of_chars (if v <? 10 then [digit_char v]
            else if v <? 100 then [digit_char (v / 10); digit_char (v mod 10)]
            else [digit_char (v / 100); digit_char (v / 10 mod 10); digit_char (v mod 10)]).

Lemma hex_pair_roundtrip b : wf_byte b ->
  hex_digit (hex_char (Z.shiftr b 4)) = Some (Z.shiftr b 4) /\
  hex_digit (hex_char (Z.land b 15)) = Some (Z.land b 15) /\ 16 * Z.shiftr b 4 + Z.land b 15 = b.
Proof.
  intros Hb.
  assert (H : bool_decide (hex_digit (hex_char (Z.shiftr b 4)) = Some (Z.shiftr b 4) /\
    hex_digit (hex_char (Z.land b 15)) = Some (Z.land b 15) /\ 16 * Z.shiftr b 4 + Z.land b 15 = b) = true).
  { revert b Hb. apply byte_forall. vm_compute. reflexivity. }
  by apply bool_decide_eq_true in H.
Qed.

Lemma hex_roundtrip bs : wf_bytes bs -> hex_DecodeString (hex_EncodeToString bs) = Some bs.
Proof.
  unfold hex_DecodeString, hex_EncodeToString. rewrite to_of_chars.
  induction 1 as [|b bs Hb Hbs IH]; [done|]. simpl.
  destruct (hex_pair_roundtrip b Hb) as (-> & -> & E). rewrite IH. by rewrite E.
Qed.

Lemma uint8_roundtrip v : wf_byte v -> ParseUint 8 (format_uint8 v) = Some v /\ format_uint8 v <> EmptyString.
Proof.
  intros Hv.
  assert (H : bool_decide (ParseUint 8 (format_uint8 v) = Some v /\ format_uint8 v <> EmptyString) = true).
  { revert v Hv. apply byte_forall. vm_compute. reflexivity. }
  by apply bool_decide_eq_true in H.
Qed.

(** ** net.SplitHostPort and net.JoinHostPort *)

Definition SplitHostPort (hostport : string) : option (string * string) :=
  let l := to_chars hostport in
  match cut_last l ":"%char with
  | None => None                                        (* missing port *)
  | Some (before, port) =>
      if bool_decide (head l = Some "["%char) then
        match cut_chars l "]"%char with
        | None => None                                  (* missing ']' *)
        | Some (bracket_host, rest) =>
            (* the first ']' has to be just before the last colon *)
            if negb (length bracket_host + 1 =? length before)%nat then None
            else if bool_decide ("["%char ∈ tail l) then None
            else if bool_decide ("]"%char ∈ rest) then None
            else Some (of_chars (tail bracket_host), of_chars port)
        end
      else if bool_decide (":"%char ∈ before) then None (* too many colons *)
      else if bool_decide ("["%char ∈ l) then None
      else if bool_decide ("]"%char ∈ l) then None
      else Some (of_chars before, of_chars port)
  end.

Definition JoinHostPort (host port : string) : string :=
  if ContainsByte host ":" then String.append "[" (String.append host (String.append "]:" port))
  else String.append host (String.append ":" port).

Example SplitHostPort_1 : SplitHostPort "[200::1]:80" = Some ("200::1", "80")%string.
Proof. reflexivity. Qed.
Example SplitHostPort_2 : SplitHostPort "h.onion:80" = Some ("h.onion", "80")%string.
Proof. reflexivity. Qed.
Example SplitHostPort_3 : map SplitHostPort ["200::1"; "h"; "[h]"; "[h]x:1"; "a]:1"; "[[h]:1"]%string = replicate 6 None.
Proof. reflexivity. Qed.

(** ** net.IP: 4 or 16 bytes *)

Definition v4InV6Prefix : bytes := [0; 0; 0; 0; 0; 0; 0; 0; 0; 0; 255; 255].

Definition To4 (ip : bytes) : option bytes :=
  if (length ip =? 4)%nat then Some ip
  else if (length ip =? 16)%nat && bool_decide (take 12 ip = v4InV6Prefix) then Some (drop 12 ip)
  else None.

Definition IP_Equal (ip x : bytes) : bool :=
  if (length ip =? length x)%nat then bool_decide (ip = x)
  else if (length ip =? 4)%nat && (length x =? 16)%nat then
    bool_decide (take 12 x = v4InV6Prefix) && bool_decide (ip = drop 12 x)
  else if (length ip =? 16)%nat && (length x =? 4)%nat then
    bool_decide (take 12 ip = v4InV6Prefix) && bool_decide (drop 12 ip = x)
  else false.

Definition To16 (ip : bytes) : option bytes :=
  if (length ip =? 4)%nat then Some (v4InV6Prefix ++ ip) else if (length ip =? 16)%nat then Some ip else None.

Definition IsLinkLocalUnicast (ip : bytes) : bool :=
  match To4 ip with
  | Some ip4 => (ip4 !!! 0%nat =? 169) && (ip4 !!! 1%nat =? 254)
  | None => (length ip =? 16)%nat && (ip !!! 0%nat =? 0xfe) && (Z.land (ip !!! 1%nat) 0xc0 =? 0x80)
  end.

Definition IsLinkLocalMulticast (ip : bytes) : bool :=
  match To4 ip with
  | Some ip4 => (ip4 !!! 0%nat =? 224) && (ip4 !!! 1%nat =? 0) && (ip4 !!! 2%nat =? 0)
  | None => (length ip =? 16)%nat && (ip !!! 0%nat =? 0xff) && (Z.land (ip !!! 1%nat) 0x0f =? 0x02)
  end.

Definition IPv4zero : bytes := replicate 4 0.
Definition IPv4bcast : bytes := replicate 4 255.
Definition IPv6unspecified : bytes := replicate 16 0.
Definition IPv6loopback : bytes := replicate 15 0 ++ [1].

Definition IsUnspecified (ip : bytes) : bool := IP_Equal ip IPv4zero || IP_Equal ip IPv6unspecified.
Definition IsLoopback (ip : bytes) : bool :=
  match To4 ip with Some ip4 => ip4 !!! 0%nat =? 127 | None => IP_Equal ip IPv6loopback end.
Definition IsMulticast (ip : bytes) : bool :=
  match To4 ip with
  | Some ip4 => Z.land (ip4 !!! 0%nat) 0xf0 =? 0xe0
  | None => (length ip =? 16)%nat && (ip !!! 0%nat =? 0xff)
  end.
Definition IsGlobalUnicast (ip : bytes) : bool :=
  ((length ip =? 4)%nat || (length ip =? 16)%nat) && negb (IP_Equal ip IPv4bcast) && negb (IsUnspecified ip) &&
  negb (IsLoopback ip) && negb (IsMulticast ip) && negb (IsLinkLocalUnicast ip).

Lemma IP_Equal_refl ip : IP_Equal ip ip = true.
Proof. unfold IP_Equal. rewrite Nat.eqb_refl. by apply bool_decide_eq_true. Qed.

(** ** strings.Compare and slices.SortStableFunc *)

Definition Compare (a b : string) : Z :=
  match String.compare a b with Lt => -1 | Eq => 0 | Gt => 1 end.

(** slices.SortStableFunc, as the insertion sort that it is on short slices. *)
Fixpoint insert_rev {A} (cmp : A -> A -> Z) (x : A) (acc : list A) : list A :=
  match acc with
  | [] => [x]
  | y :: rest => if cmp x y <? 0 then y :: insert_rev cmp x rest else x :: acc
  end.
Definition SortStableFunc {A} (cmp : A -> A -> Z) (l : list A) : list A :=
  rev (fold_left (fun acc x => insert_rev cmp x acc) l []).


Section Sorting.
Context {A : Type} (cmp : A -> A -> Z) (P : A -> A -> Prop) (Q : A -> Prop).
Context (Hlt : forall x y, Q x -> Q y -> cmp x y < 0 -> P x y) (Hge : forall x y, Q x -> Q y -> 0 <= cmp x y -> P y x) (Htrans : forall x y z, P x y -> P y z -> P x z).

Lemma insert_rev_permutation x acc : Permutation (insert_rev cmp x acc) (x :: acc).
Proof.
  induction acc as [|y acc IH]; cbn; [done|]. case_match; [|done]. rewrite IH. apply Permutation_swap.
Qed.
Lemma sort_loop_permutation l acc : Permutation (fold_left (fun acc x => insert_rev cmp x acc) l acc) (l ++ acc).
Proof.
  revert acc. induction l as [|x l IH]; intros acc; cbn; [done|]. rewrite IH, insert_rev_permutation. symmetry. apply Permutation_middle.
Qed.
Lemma SortStableFunc_permutation l : Permutation (SortStableFunc cmp l) l.
Proof. unfold SortStableFunc. rewrite <-Permutation_rev, sort_loop_permutation. by rewrite app_nil_r. Qed.

Lemma insert_rev_sorted x acc : Q x -> Forall Q acc -> StronglySorted (flip P) acc -> StronglySorted (flip P) (insert_rev cmp x acc).
Proof using Hlt Hge Htrans.
  intros Hx Hacc. induction 1 as [|y acc Hs IH Hy]; cbn; [by repeat constructor|].
  apply Forall_cons in Hacc as [Hqy Hacc]. case_match eqn:E.
  - constructor; [by apply IH|]. rewrite (insert_rev_permutation x acc). constructor; [by apply Hlt, Z.ltb_lt|done].
  - apply Z.ltb_ge in E. constructor; [by constructor|]. constructor; [by apply Hge|].
    eapply Forall_impl; [exact Hy|]. intros z Hz. eapply Htrans; [exact Hz|]. by apply Hge.
Qed.

Lemma StronglySorted_app_inv (R : A -> A -> Prop) l x : StronglySorted R l -> Forall (fun y => R y x) l -> StronglySorted R (l ++ [x]).
Proof.
  induction 1 as [|y l Hs IH Hy]; cbn; intros Hx; [by repeat constructor|].
  apply Forall_cons in Hx as [H1 H2]. constructor; [by apply IH|]. apply Forall_app. by repeat constructor.
Qed.
Lemma StronglySorted_rev (R : A -> A -> Prop) l : StronglySorted (flip R) l -> StronglySorted R (rev l).
Proof.
  induction 1 as [|y l Hs IH Hy]; cbn; [constructor|]. apply StronglySorted_app_inv; [done|]. by rewrite <-Permutation_rev.
Qed.

(** A comparison that decides a transitive relation sorts by it. *)
Lemma SortStableFunc_sorted l : Forall Q l -> StronglySorted P (SortStableFunc cmp l).
Proof using Hlt Hge Htrans.
  intros Hl. apply StronglySorted_rev. assert (StronglySorted (flip P) []) as H by constructor.
  assert (Forall Q []) as Hq by constructor. revert H Hq. generalize (@nil A) as acc.
  induction Hl as [|x l Hx Hl IH]; intros acc Hs Hq; cbn; [done|]. apply IH; [by apply insert_rev_sorted|].
  rewrite insert_rev_permutation. by constructor.
Qed.
End Sorting.

Lemma Compare_lt a b : Compare a b < 0 -> String.le a b.
Proof. unfold Compare, String.le, String.leb. by destruct (String.compare a b) eqn:E. Qed.
Lemma Compare_ge a b : 0 <= Compare a b -> String.le b a.
Proof.
  unfold Compare, String.le, String.leb. rewrite (String.compare_antisym b a). by destruct (String.compare a b).
Qed.
Lemma Compare_eq a b : Compare a b = 0 <-> a = b.
Proof. unfold Compare. destruct (String.compare a b) eqn:E; split; try done; [by intros _; apply String.compare_eq_iff|..];
  intros ->; pose proof (String.compare_antisym b b) as Ha; by rewrite E in Ha. Qed.

(** ** fmt's %d and strconv.FormatInt *)

Fixpoint format_digits (fuel : nat) (v : Z) (acc : chars) : chars :=
  match fuel with
  | O => acc
  | S fuel => if v <? 10 then digit_char v :: acc else format_digits fuel (v / 10) (digit_char (v mod 10) :: acc)
  end.
(** 20 digits are enough for 64 bits. *)
Definition format_uint (v : Z) : string := of_chars (format_digits 20 v []).
Definition format_int (v : Z) : string := if v <? 0 then String.append "-" (format_uint (- v)) else format_uint v.

Example format_int_1 : map format_int [0; -120; 18446744073709551615] = ["0"; "-120"; "18446744073709551615"]%string.
Proof. reflexivity. Qed.

Lemma digit_char_value n : 0 <= n < 10 -> is_digit (digit_char n) = true /\ Z.of_nat (nat_of_ascii (digit_char n)) - 48 = n.
Proof.
  intros Hn. assert (H : Forall (fun i => is_digit (digit_char i) = true /\ Z.of_nat (nat_of_ascii (digit_char i)) - 48 = i) (seqZ 0 10)).
  { by_computation. }
  rewrite Forall_forall in H. apply H, elem_of_seqZ. lia.
Qed.

Lemma format_digits_length fuel v acc : (length acc <= length (format_digits fuel v acc))%nat.
Proof.
  revert v acc. induction fuel as [|fuel IH]; intros v acc; cbn [format_digits]; [done|].
  case_match; cbn [length]; [lia|]. specialize (IH (v / 10) (digit_char (v mod 10) :: acc)). cbn [length] in IH. lia.
Qed.
Lemma format_digits_nonempty fuel v : format_digits (S fuel) v [] <> [].
Proof.
  cbn [format_digits]. case_match; [done|]. pose proof (format_digits_length fuel (v / 10) [digit_char (v mod 10)]) as Hl.
  intros E. rewrite E in Hl. cbn in Hl. lia.
Qed.

Lemma format_digits_value fuel v acc x : 0 <= v < 10 ^ Z.of_nat fuel ->
  digits_value (format_digits fuel v acc) x = digits_value acc (x * 10 ^ Z.of_nat (length (format_digits fuel v acc) - length acc) + v).
Proof.
  revert v acc. induction fuel as [|fuel IH]; intros v acc Hv; cbn [format_digits].
  { assert (v = 0) as -> by lia. rewrite Nat.sub_diag. f_equal. lia. }
  assert (Hdm : v = 10 * (v / 10) + v mod 10) by (apply Z.div_mod; lia).
  assert (Hm : 0 <= v mod 10 < 10) by (apply Z.mod_pos_bound; lia).
  destruct (v <? 10) eqn:E; bool_props.
  - destruct (digit_char_value v) as [Hd Hd2]; [lia|]. cbn [digits_value length]. rewrite Hd, Hd2.
    replace (S (length acc) - length acc)%nat with 1%nat by lia. f_equal. change (10 ^ Z.of_nat 1) with 10. lia.
  - assert (Hq : 0 <= v / 10 < 10 ^ Z.of_nat fuel).
    { split; [apply Z.div_pos; lia|]. apply Z.div_lt_upper_bound; [lia|]. rewrite Nat2Z.inj_succ, Z.pow_succ_r in Hv by lia. lia. }
    pose proof (format_digits_length fuel (v / 10) (digit_char (v mod 10) :: acc)) as H2. cbn [length] in H2.
    rewrite (IH (v / 10) (digit_char (v mod 10) :: acc) Hq). cbn [digits_value length]. destruct (digit_char_value (v mod 10) Hm) as [-> ->]. f_equal.
    set (n := length (format_digits fuel (v / 10) _)) in *.
    replace (n - length acc)%nat with (S (n - S (length acc))) by lia. rewrite Nat2Z.inj_succ, Z.pow_succ_r by lia. lia.
Qed.

(** Reading back what %d writes. *)
Lemma ParseUint_format bits v : 0 <= v < 2 ^ bits -> bits <= 64 -> ParseUint bits (format_uint v) = Some v.
Proof.
  intros Hv Hb. assert (Hv' : 0 <= v < 10 ^ Z.of_nat 20).
  { assert (2 ^ bits <= 2 ^ 64) by (apply Z.pow_le_mono_r; lia). change (10 ^ Z.of_nat 20) with 100000000000000000000. lia. }
  unfold ParseUint, format_uint. pose proof (format_digits_value 20 v [] 0 Hv') as H1.
  rewrite to_of_chars. destruct (format_digits 20 v []) as [|c l] eqn:E.
  - by apply format_digits_nonempty in E.
  - rewrite H1. cbn [digits_value length]. replace (0 * _ + v) with v by lia. destruct Hv as [_ Hv]. apply Z.ltb_lt in Hv. by rewrite Hv.
Qed.

(** ** Sorting by a key *)

Lemma sorted_keys_unique {A} (key : A -> string) l k :
  StronglySorted (fun x y => String.le (key x) (key y)) l -> StronglySorted (fun x y => String.le (key x) (key y)) k ->
  NoDup (map key l) -> Permutation l k -> l = k.
Proof.
  intros Hl Hk Hn Hp. revert k Hk Hn Hp. induction Hl as [|x l Hl IH Hx]; intros k Hk Hn Hp.
  { by apply Permutation_nil_l in Hp as ->. }
  destruct Hk as [|y k Hk Hy]; [by apply Permutation_nil_r in Hp|].
  assert (x = y) as ->.
  { assert (Hxy : x ∈ y :: k) by (rewrite <-Hp; left). assert (Hyx : y ∈ x :: l) by (rewrite Hp; left).
    apply elem_of_cons in Hxy as [|Hxk]; [done|]. apply elem_of_cons in Hyx as [|Hyl]; [done|].
    rewrite Forall_forall in Hx, Hy. specialize (Hx _ Hyl). specialize (Hy _ Hxk).
    assert (key x = key y) as Ec by (by apply (anti_symm String.le)).
    exfalso. cbn in Hn. apply NoDup_cons in Hn as [Hn _]. apply Hn. rewrite Ec.
    rewrite list_elem_of_In, in_map_iff. exists y. split; [done|]. by apply list_elem_of_In. }
  f_equal. apply Permutation_cons_inv in Hp. cbn in Hn. apply NoDup_cons in Hn as [_ Hn]. by apply IH.
Qed.

Definition by_string {A} (key : A -> string) (a b : A) : Z := Compare (key a) (key b).

Lemma by_string_sorted {A} (key : A -> string) l :
  StronglySorted (fun x y => String.le (key x) (key y)) (SortStableFunc (by_string key) l).
Proof.
  apply (SortStableFunc_sorted _ _ (fun _ => True)); unfold by_string.
  - intros x y _ _. apply Compare_lt.
  - intros x y _ _. apply Compare_ge.
  - intros x y z. apply transitivity.
  - by apply Forall_true.
Qed.

(** Sorting the elements of a map by distinct keys does not depend on the order
    in which the map is walked. *)
Lemma by_string_unique {A} (key : A -> string) l k :
  NoDup (map key l) -> Permutation l k -> SortStableFunc (by_string key) l = SortStableFunc (by_string key) k.
Proof.
  intros Hn Hp. apply (sorted_keys_unique key); [apply by_string_sorted..| |by rewrite !SortStableFunc_permutation].
  by rewrite (Permutation_map key (SortStableFunc_permutation _ l)).
Qed.

(** ** What cutting and suffixes say *)

Lemma cut_last_None l sep : cut_last l sep = None <-> sep ∉ l.
Proof.
  induction l as [|c l IH]; cbn; [set_solver|].
  rewrite not_elem_of_cons. destruct (cut_last l sep) as [[]|].
  - split; [done|]. intros [_ H]. by apply IH in H.
  - case_decide; naive_solver.
Qed.
Lemma cut_last_Some l sep a b : cut_last l sep = Some (a, b) <-> l = a ++ sep :: b /\ sep ∉ b.
Proof.
  revert a b. induction l as [|c l IH]; intros a b; cbn; [split; [done|]; intros [E _]; by destruct a|].
  destruct (cut_last l sep) as [[a' b']|] eqn:E.
  - destruct (proj1 (IH a' b') eq_refl) as [-> Hb]. split.
    + by intros [= <- <-].
    + destruct a as [|? a]; cbn; intros [[= -> E2] Hb2].
      * subst b. exfalso. apply Hb2. set_solver.
      * assert (Some (a', b') = Some (a, b)) by (by apply IH). by simplify_eq.
  - apply cut_last_None in E. split.
    + case_decide; [|done]. by intros [= <- <-]; subst.
    + destruct a as [|? a]; cbn; intros [[= -> E2] Hb2]; [subst; by rewrite decide_True|].
      exfalso. apply E. subst l. set_solver.
Qed.
Lemma cut_chars_None l sep : cut_chars l sep = None <-> sep ∉ l.
Proof.
  induction l as [|c l IH]; cbn; [set_solver|]. rewrite not_elem_of_cons.
  case_decide as Hc; [subst; naive_solver|]. destruct (cut_chars l sep) as [[]|]; naive_solver.
Qed.
Lemma cut_chars_Some l sep a b : cut_chars l sep = Some (a, b) <-> l = a ++ sep :: b /\ sep ∉ a.
Proof.
  revert a b. induction l as [|c l IH]; intros a b; cbn; [split; [done|]; intros [E _]; by destruct a|].
  case_decide as Hc.
  - subst c. split; [by intros [= <- <-]; set_solver|].
    destruct a as [|? a]; cbn; [intros [[= ->] _]; done|intros [[= <- E] H]; set_solver].
  - destruct (cut_chars l sep) as [[a' b']|] eqn:E.
    + destruct (proj1 (IH a' b') eq_refl) as [-> Ha]. split; [intros [= <- <-]; set_solver|].
      destruct a as [|? a]; cbn; [intros [[= -> _] _]; done|intros [[= -> E2] H]].
      assert (Some (a', b') = Some (a, b)) by (apply IH; set_solver). by simplify_eq.
    + apply cut_chars_None in E. split; [done|].
      destruct a as [|? a]; cbn; [intros [[= -> _] _]; done|intros [[= -> ->] H]]. set_solver.
Qed.

Lemma HasSuffix_spec s p : HasSuffix s p = true <-> exists r, to_chars s = r ++ to_chars p.
Proof.
  unfold HasSuffix. destruct (prefix_of _ _) as [r|] eqn:E.
  - apply prefix_of_Some in E. split; [|done]. intros _. exists (rev r).
    by rewrite <-(rev_involutive (to_chars s)), E, rev_app_distr, rev_involutive.
  - split; [done|]. intros [r Hr]. assert (prefix_of (rev (to_chars p)) (rev (to_chars s)) = Some (rev r)) as E2.
    { apply prefix_of_Some. by rewrite Hr, rev_app_distr. }
    by rewrite E2 in E.
Qed.
