(* ===== verification/Transport.v ===== *)
(** * Transport: the transport manager (ygglib/transport/manager.go)

    The manager picks, for each dialed or listened URL, the registered
    transport of its scheme and the network that the default network and the
    host-pattern mappings select, tracks every resource it hands out, and
    closes those that a configuration change leaves on the wrong network.

    Each section under [m.mu] is one atomic function on [Manager]; what
    happens between two sections is interleaved by the step relation of
    module [World].  Go iterates over maps in an unspecified order, so the
    functions that range over one take the order as an argument. *)

From Stdlib Require Import Ascii.
From S2P Require Import Prelude GoStd.

(** ** Data *)

(** [Network], [Transport] and connection values are interfaces: they are
    compared by identity, and the code never looks inside a network. *)
Definition Network := Z.
Definition Conn := Z.

Record Transport := mkTransport { transport_id : Z; Schemes : list string }.

Inductive terror :=
| ErrClosed
| ErrNoNetwork (host : string)
| ErrUnsupportedScheme (scheme : string)
| ErrTransportAlreadyRegistered (scheme : string)
| ErrNilTransport
| ErrInvalidPattern (why : string)
| ErrNilURL
| ErrNetClosed
| ErrContext
| ErrOther (e : Z).

Global Instance terror_eq_dec : EqDecision terror.
Proof. solve_decision. Defined.

Definition defaultMappingKey : string := "".

Inductive resourceKind := resourceConn | resourceListener.

Global Instance resourceKind_eq_dec : EqDecision resourceKind.
Proof. solve_decision. Defined.

(** A [trackedConn] or [trackedListener]: the value it wraps and the id its
    [done] callback unregisters. *)
Record closer := mkCloser { inner : Conn; done_id : Z }.

Record resource := mkResource {
  res_id : Z;
  kind : resourceKind;
  host : string;
  mapping : string;
  parentID : Z;
  res_closer : closer;
  children : option (gset Z)      (* a nil map is [None] *)
}.

Record Manager := mkManager {
  closed : bool;
  version : Z;
  nextID : Z;
  defaultNet : option Network;
  transports : gmap string Transport;
  mappings : gmap string (option Network);
  resources : gmap Z resource
}.

Record snapshot := mkSnapshot {
  ss_version : Z;
  ss_transport : Transport;
  ss_network : Network;
  ss_mapping : string;
  ss_host : string
}.

Definition set_closed (b : bool) (m : Manager) : Manager :=
  mkManager b (version m) (nextID m) (defaultNet m) (transports m) (mappings m) (resources m).
Definition bump (m : Manager) : Manager :=
  mkManager (closed m) (u64 (version m + 1)) (nextID m) (defaultNet m) (transports m)
    (mappings m) (resources m).
Definition set_nextID (i : Z) (m : Manager) : Manager :=
  mkManager (closed m) (version m) i (defaultNet m) (transports m) (mappings m) (resources m).
Definition set_default (n : option Network) (m : Manager) : Manager :=
  mkManager (closed m) (version m) (nextID m) n (transports m) (mappings m) (resources m).
Definition set_transports t (m : Manager) : Manager :=
  mkManager (closed m) (version m) (nextID m) (defaultNet m) t (mappings m) (resources m).
Definition set_mappings p (m : Manager) : Manager :=
  mkManager (closed m) (version m) (nextID m) (defaultNet m) (transports m) p (resources m).
Definition set_resources r (m : Manager) : Manager :=
  mkManager (closed m) (version m) (nextID m) (defaultNet m) (transports m) (mappings m) r.

Definition NewManager (defaultNet : option Network) : Manager :=
  mkManager false 0 0 defaultNet ∅ ∅ ∅.

(** ** Normalisation and pattern matching *)

Definition normalizeScheme (scheme : string) : string := ToLower (TrimSpace scheme).

Definition normalizeHost (u : option URL) : string :=
  match u with
  | None => ""
  | Some u =>
      let host := Hostname u in
      let host := if bool_decide (host = ""%string) then Host u else host in
      ToLower (TrimSpace host)
  end.

Definition normalizePattern (pattern : string) : result terror string :=
  let pattern := ToLower (TrimSpace pattern) in
  if bool_decide (pattern = ""%string) then Err (ErrInvalidPattern "")
  else match Match pattern "example" with
  | None => Err (ErrInvalidPattern "syntax error in pattern")
  | Some _ => Ok pattern
  end.

Definition hostMatches (pattern host : string) : bool :=
  match Match pattern host with Some ok => ok | None => false end.

Definition is_wildcard (c : ascii) : bool :=
  bool_decide (c ∈ ["*"; "?"; "["; "]"]%char).

Fixpoint patternScore_loop (rs : chars) (score wildcards : Z) : Z * Z :=
  match rs with
  | [] => (score, wildcards)
  | r :: rs =>
      if is_wildcard r then patternScore_loop rs score (wildcards + 1)
      else patternScore_loop rs (score + 1) wildcards
  end.

Definition patternScore (pattern : string) : Z * Z :=
  patternScore_loop (to_chars pattern) 0 0.

(** ** Network selection *)

(** One iteration of the loop over [m.mappings]. *)
Definition resolve_step (host : string) (best : string * Z * Z) (pattern : string)
    : string * Z * Z :=
  if negb (hostMatches pattern host) then best
  else
    let '(bestPattern, bestScore, bestWildcards) := best in
    let '(score, wildcards) := patternScore pattern in
    if (bestScore <? score) || ((score =? bestScore) && (wildcards <? bestWildcards)) then
      (pattern, score, wildcards)
    else best.

Definition resolveNetworkLocked (order : list string) (m : Manager) (host : string)
    : option Network * string :=
  let '(bestPattern, bestScore, _) := fold_left (resolve_step host) order (""%string, -1, 0) in
  if 0 <=? bestScore then (default None (mappings m !! bestPattern), bestPattern)
  else (defaultNet m, defaultMappingKey).

(** ** Registration of transports *)

(** The validation loop: the first offending scheme decides. *)
Fixpoint check_schemes (registered : gmap string Transport) (schemes : list string)
    : option terror :=
  match schemes with
  | [] => None
  | scheme :: schemes =>
      let scheme := normalizeScheme scheme in
      if bool_decide (scheme = ""%string) then Some (ErrInvalidPattern "empty scheme")
      else if bool_decide (is_Some (registered !! scheme)) then
        Some (ErrTransportAlreadyRegistered scheme)
      else check_schemes registered schemes
  end.

Definition add_schemes (t : Transport) (registered : gmap string Transport)
    (schemes : list string) : gmap string Transport :=
  fold_left (fun ts scheme => <[normalizeScheme scheme := t]> ts) schemes registered.

Definition RegisterTransport (t : option Transport) (m : Manager) : option terror * Manager :=
  match t with
  | None => (Some ErrNilTransport, m)
  | Some t =>
      match Schemes t with
      | [] => (Some (ErrInvalidPattern "no schemes"), m)
      | schemes =>
          if closed m then (Some ErrClosed, m)
          else match check_schemes (transports m) schemes with
          | Some err => (Some err, m)
          | None => (None, bump (set_transports (add_schemes t (transports m) schemes) m))
          end
      end
  end.

Definition UnregisterTransport (scheme : string) (m : Manager) : Manager :=
  if closed m then m
  else
    let scheme := normalizeScheme scheme in
    match transports m !! scheme with
    | Some _ => bump (set_transports (delete scheme (transports m)) m)
    | None => m
    end.

Definition HasTransport (scheme : string) (m : Manager) : bool :=
  if closed m then false
  else bool_decide (is_Some (transports m !! normalizeScheme scheme)).

Definition DefaultNetwork (m : Manager) : option Network := defaultNet m.
Definition NetworkMappings (m : Manager) : gmap string (option Network) := mappings m.

(** ** The closers of a set of resources *)

(** [for childID := range res.children { collect(childID) }] with the
    recursive call given: [acc] is the pair of [closers] and [seen]. *)
Definition collect_children (rec : Z -> list closer * gset Z -> list closer * gset Z)
    (ids : list Z) (acc : list closer * gset Z) : list closer * gset Z :=
  fold_left (fun acc id => rec id acc) ids acc.

Fixpoint collectResourceTreeLocked (fuel : nat) (order : gset Z -> list Z) (m : Manager)
    (id : Z) (acc : list closer * gset Z) : list closer * gset Z :=
  match fuel with
  | O => acc
  | S fuel =>
      let '(closers, seen) := acc in
      if decide (id ∈ seen) then acc
      else match resources m !! id with
      | None => acc
      | Some res =>
          collect_children (collectResourceTreeLocked fuel order m)
            (order (default ∅ (children res)))
            (closers ++ [res_closer res], {[id]} ∪ seen)
      end
  end.

Definition collect_root (order : gset Z -> list Z) (m : Manager) (matches : resource -> bool)
    (acc : list closer * gset Z) (id : Z) : list closer * gset Z :=
  match resources m !! id with
  | Some res =>
      if matches res then collectResourceTreeLocked (S (size (resources m))) order m id acc
      else acc
  | None => acc
  end.

Definition collectClosersLocked (order : gset Z -> list Z) (m : Manager)
    (matches : resource -> bool) : list closer :=
  (fold_left (collect_root order m matches) (order (dom (resources m))) ([], ∅)).1.

(** ** Configuration: the locked part of each method, with the closers that
    [closeAll] then closes *)

Definition SetDefaultNetwork (order : gset Z -> list Z) (network : option Network) (m : Manager)
    : Manager * list closer :=
  if closed m then (m, [])
  else
    let m := bump (set_default network m) in
    (m, collectClosersLocked order m (fun res => bool_decide (mapping res = defaultMappingKey))).

Definition MapNetwork (order : gset Z -> list Z) (pattern : string) (network : option Network)
    (m : Manager) : result terror (Manager * list closer) :=
  let? pattern := normalizePattern pattern in
  if closed m then Err ErrClosed
  else
    let m := bump (set_mappings (<[pattern := network]> (mappings m)) m) in
    Ok (m, collectClosersLocked order m (fun res => hostMatches pattern (host res))).

Definition UnmapNetwork (order : gset Z -> list Z) (pattern : string) (m : Manager)
    : result terror (Manager * list closer) :=
  let? pattern := normalizePattern pattern in
  if closed m then Err ErrClosed
  else match mappings m !! pattern with
  | None => Ok (m, [])
  | Some _ =>
      let m := bump (set_mappings (delete pattern (mappings m)) m) in
      Ok (m, collectClosersLocked order m (fun res => bool_decide (mapping res = pattern)))
  end.

Definition Close (order : gset Z -> list Z) (m : Manager) : Manager * list closer :=
  if closed m then (m, [])
  else
    let m := bump (set_closed true m) in
    (m, collectClosersLocked order m (fun _ => true)).

(** ** Resources *)

Definition nextResourceIDLocked (m : Manager) : Z * Manager :=
  let i := u64 (nextID m + 1) in (i, set_nextID i m).

Definition snapshotFor (order : list string) (u : URL) (m : Manager) : result terror snapshot :=
  if closed m then Err ErrClosed
  else
    let scheme := normalizeScheme (Scheme u) in
    match transports m !! scheme with
    | None => Err (ErrUnsupportedScheme scheme)
    | Some transport =>
        let host := normalizeHost (Some u) in
        match resolveNetworkLocked order m host with
        | (None, _) => Err (ErrNoNetwork host)
        | (Some network, mapping) => Ok (mkSnapshot (version m) transport network mapping host)
        end
    end.

(** [commit] answers [None] for "retry". *)
Definition commit_kind (k : resourceKind) (ss : snapshot) (conn : Conn) (m : Manager)
    : option closer * Manager :=
  if closed m || negb (version m =? ss_version ss) then (None, m)
  else
    let '(id, m) := nextResourceIDLocked m in
    let wrapped := mkCloser conn id in
    (Some wrapped,
     set_resources
       (<[id := mkResource id k (ss_host ss) (ss_mapping ss) 0 wrapped
                 (match k with resourceConn => None | resourceListener => Some ∅ end)]>
          (resources m)) m).

Definition commitConn := commit_kind resourceConn.
Definition commitListener := commit_kind resourceListener.

(** An update of [parent.children], through the pointer in the table. *)
Definition update_children (f : option (gset Z) -> option (gset Z)) (id : Z)
    (R : gmap Z resource) : gmap Z resource :=
  alter (fun p => mkResource (res_id p) (kind p) (host p) (mapping p) (parentID p)
                    (res_closer p) (f (children p))) id R.

Definition registerAcceptedConn (parent_id : Z) (conn : Conn) (m : Manager)
    : result terror closer * Manager :=
  match resources m !! parent_id with
  | None => (Err ErrNetClosed, m)              (* conn.Close() *)
  | Some parent =>
      match kind parent with
      | resourceConn => (Err ErrNetClosed, m)  (* conn.Close() *)
      | resourceListener =>
          let '(id, m) := nextResourceIDLocked m in
          let wrapped := mkCloser conn id in
          let m := set_resources
            (<[id := mkResource id resourceConn (host parent) (mapping parent) parent_id
                       wrapped None]> (resources m)) m in
          (Ok wrapped,
           set_resources (update_children (fmap (union {[id]})) parent_id (resources m)) m)
      end
  end.

Definition unregister (id : Z) (m : Manager) : Manager :=
  match resources m !! id with
  | None => m
  | Some res =>
      let m := set_resources (delete id (resources m)) m in
      if parentID res =? 0 then m
      else
        set_resources (update_children (fmap (.∖ {[id]})) (parentID res) (resources m)) m
  end.

(** ** Dial and Listen

    What one pass of the loop meets outside of the manager: the result of
    [transport.Dial] (or [Listen]), what other goroutines did to the manager
    until the commit, and whether the context is done after a retry. *)
Record attempt := mkAttempt {
  at_dial : Transport -> Network -> URL -> result terror Conn;
  at_meanwhile : Manager -> Manager;
  at_ctx_done : bool
}.

(** [DialWithOptions] ([resourceConn]) and [ListenWithOptions]
    ([resourceListener]).  The loop takes one attempt per pass; [None] means
    that it is still running when the attempts are used up.  The last
    component lists the connections it closed because of a retry. *)
Fixpoint dial_loop (k : resourceKind) (order : Manager -> list string) (u : URL)
    (attempts : list attempt) (m : Manager)
    : option (result terror closer) * Manager * list Conn :=
  match attempts with
  | [] => (None, m, [])
  | a :: attempts =>
      match snapshotFor (order m) u m with
      | Err err => (Some (Err err), m, [])
      | Ok ss =>
          let m := at_meanwhile a m in
          match at_dial a (ss_transport ss) (ss_network ss) u with
          | Err err => (Some (Err err), m, [])
          | Ok conn =>
              match commit_kind k ss conn m with
              | (None, m) =>
                  if at_ctx_done a then (Some (Err ErrContext), m, [conn])
                  else
                    let '(r, m, closed_conns) := dial_loop k order u attempts m in
                    (r, m, conn :: closed_conns)
              | (Some tracked, m) => (Some (Ok tracked), m, [])
              end
          end
      end
  end.

Definition dial_or_listen (k : resourceKind) (order : Manager -> list string) (u : option URL)
    (attempts : list attempt) (m : Manager)
    : option (result terror closer) * Manager * list Conn :=
  match u with
  | None => (Some (Err ErrNilURL), m, [])
  | Some u => dial_loop k order u attempts m
  end.

Definition DialWithOptions := dial_or_listen resourceConn.
Definition ListenWithOptions := dial_or_listen resourceListener.

(** ** Interleavings *)

Module World.

(** [pending]: resources a configuration change has collected and whose
    [Close] has not begun.  [fired]: the [sync.Once] of the wrapper has run
    its first part ([done]); [inner_closed]: and its second one.  Ghost
    state: [handed], every wrapper ever handed out with the network it was
    created on, and [raced], the connections that a listener accepted between
    being collected and being closed. *)
Record world := mkWorld {
  mgr : Manager;
  flights : list (resourceKind * snapshot);
  pending : gset Z;
  fired : gset Z;
  inner_closed : gset Z;
  handed : gmap Z (closer * Network);
  raced : gset Z
}.

Definition init (defaultNet : option Network) : world :=
  mkWorld (NewManager defaultNet) [] ∅ ∅ ∅ ∅ ∅.

Definition ids (cs : list closer) : gset Z := list_to_set (done_id <$> cs).

Inductive event :=
| ERegister (t : option Transport)
| EUnregister (scheme : string)
| ESetDefault (order : gset Z -> list Z) (network : option Network)
| EMap (order : gset Z -> list Z) (pattern : string) (network : option Network)
| EUnmap (order : gset Z -> list Z) (pattern : string)
| ECloseManager (order : gset Z -> list Z)
| ESnapshot (order : list string) (k : resourceKind) (u : URL)
| ECommit (i : nat) (conn : Conn)
| EAccept (listener : Z) (conn : Conn)
| ECloseBegin (id : Z)
| ECloseEnd (id : Z).

(** A configuration method: its locked part, then the closers wait for
    [closeAll]. *)
Definition configured (w : world) (r : Manager * list closer) : world :=
  mkWorld r.1 (flights w) (pending w ∪ ids r.2) (fired w) (inner_closed w) (handed w) (raced w).
Definition with_mgr (w : world) (m : Manager) : world :=
  mkWorld m (flights w) (pending w) (fired w) (inner_closed w) (handed w) (raced w).

Definition exec (e : event) (w : world) : option world :=
  match e with
  | ERegister t => Some (with_mgr w (RegisterTransport t (mgr w)).2)
  | EUnregister scheme => Some (with_mgr w (UnregisterTransport scheme (mgr w)))
  | ESetDefault order n => Some (configured w (SetDefaultNetwork order n (mgr w)))
  | EMap order p n =>
      Some (match MapNetwork order p n (mgr w) with Ok r => configured w r | Err _ => w end)
  | EUnmap order p =>
      Some (match UnmapNetwork order p (mgr w) with Ok r => configured w r | Err _ => w end)
  | ECloseManager order => Some (configured w (Close order (mgr w)))
  | ESnapshot order k u =>
      match snapshotFor order u (mgr w) with
      | Err _ => Some w
      | Ok ss => Some (mkWorld (mgr w) ((k, ss) :: flights w) (pending w) (fired w)
                         (inner_closed w) (handed w) (raced w))
      end
  | ECommit i conn =>
      match flights w !! i with
      | None => None
      | Some (k, ss) =>
          match commit_kind k ss conn (mgr w) with
          | (None, m) =>
              Some (mkWorld m (delete i (flights w)) (pending w) (fired w) (inner_closed w)
                      (handed w) (raced w))
          | (Some c, m) =>
              Some (mkWorld m (delete i (flights w)) (pending w) (fired w) (inner_closed w)
                      (<[done_id c := (c, ss_network ss)]> (handed w)) (raced w))
          end
      end
  | EAccept l conn =>
      match handed w !! l with
      | None => None
      | Some (_, network) =>
          (* a closed listener accepts nothing *)
          if decide (l ∈ inner_closed w) then None
          else match registerAcceptedConn l conn (mgr w) with
          | (Err _, m) => Some (with_mgr w m)
          | (Ok c, m) =>
              Some (mkWorld m (flights w) (pending w) (fired w) (inner_closed w)
                      (<[done_id c := (c, network)]> (handed w))
                      (if decide (l ∈ pending w) then {[done_id c]} ∪ raced w else raced w))
          end
      end
  | ECloseBegin id =>
      match handed w !! id with
      | None => None
      | Some _ =>
          if decide (id ∈ fired w) then Some w      (* the once has run *)
          else Some (mkWorld (unregister id (mgr w)) (flights w) (pending w ∖ {[id]})
                       ({[id]} ∪ fired w) (inner_closed w) (handed w) (raced w))
      end
  | ECloseEnd id =>
      if decide (id ∈ fired w) then
        Some (mkWorld (mgr w) (flights w) (pending w) (fired w) ({[id]} ∪ inner_closed w)
                (handed w) (raced w))
      else None
  end.

(** Go's map iteration visits every key once, in some order. *)
Definition enumerates (order : gset Z -> list Z) : Prop := forall X, order X ≡ₚ elements X.

Definition order_ok (e : event) (w : world) : Prop :=
  match e with
  | ESetDefault order _ | EMap order _ _ | EUnmap order _ | ECloseManager order =>
      enumerates order
  | ESnapshot order _ _ => order ≡ₚ elements (dom (mappings (mgr w)))
  | _ => True
  end.

(** The worlds reached from a new manager in [n] events. *)
Inductive reach : nat -> world -> Prop :=
| reach_init n : reach 0 (init n)
| reach_step n w e w' :
    reach n w -> order_ok e w -> exec e w = Some w' -> reach (S n) w'.

End World.

(** ** The specification of the network selection *)

(** [q] is a better match than [p]: more literal characters, then fewer
    wildcards. *)
Definition better (q p : string) : Prop :=
  let '(sq, wq) := patternScore q in
  let '(sp, wp) := patternScore p in
  sp < sq \/ (sq = sp /\ wq < wp).

Global Instance better_dec q p : Decision (better q p).
Proof. unfold better. destruct (patternScore q), (patternScore p). apply _. Defined.

(** The network and mapping that the configuration selects for a host. *)
Definition selects (m : Manager) (h : string) (n : option Network) (p : string) : Prop :=
  (p = defaultMappingKey /\ n = defaultNet m /\
   forall q, q ∈ dom (mappings m) -> hostMatches q h = false) \/
  (mappings m !! p = Some n /\ hostMatches p h = true /\
   forall q, q ∈ dom (mappings m) -> hostMatches q h = true -> ~ better q p).

(** ** Lemmas: network selection *)

Lemma patternScore_loop_bounds rs s w s' w' :
  patternScore_loop rs s w = (s', w') -> s <= s' /\ w <= w'.
Proof.
  revert s w. induction rs as [|r rs IH]; simpl; intros s w H; [simplify_eq; lia|].
  destruct (is_wildcard r); apply IH in H; lia.
Qed.

Lemma patternScore_nonneg p : 0 <= (patternScore p).1 /\ 0 <= (patternScore p).2.
Proof.
  destruct (patternScore p) as [s w] eqn:E. by apply patternScore_loop_bounds in E.
Qed.

Lemma better_irrefl p : ~ better p p.
Proof. unfold better. destruct (patternScore p). lia. Qed.

Lemma not_better_trans p q r : ~ better q p -> better p r -> ~ better q r \/ better q r.
Proof. destruct (decide (better q r)); tauto. Qed.

(** What the loop has found after the patterns [l]. *)
Definition best_of (h : string) (l : list string) (best : string * Z * Z) : Prop :=
  (best = (""%string, -1, 0) /\ forall q, q ∈ l -> hostMatches q h = false) \/
  (exists p, p ∈ l /\ hostMatches p h = true /\ best = (p, (patternScore p).1, (patternScore p).2) /\
     forall q, q ∈ l -> hostMatches q h = true -> ~ better q p).

Lemma resolve_step_best h l best p :
  best_of h l best -> best_of h (l ++ [p]) (resolve_step h best p).
Proof.
  intros H. unfold resolve_step. destruct (hostMatches p h) eqn:Hp; simpl.
  2: { destruct H as [[-> H]|(p' & ? & ? & -> & H)]; [left|right; exists p'];
       (repeat split; [set_solver..|]); intros q [Hq | ->%list_elem_of_singleton]%elem_of_app;
       auto; congruence. }
  destruct (patternScore p) as [s w] eqn:Es. pose proof (patternScore_nonneg p) as Hn.
  rewrite Es in Hn. simpl in Hn.
  destruct H as [[-> H]|(p' & Hp' & Hm & -> & H)].
  - replace (-1 <? s) with true by (symmetry; apply Z.ltb_lt; lia). simpl.
    right. exists p. rewrite Es. repeat split; [set_solver|done|].
    intros q [Hq | ->%list_elem_of_singleton]%elem_of_app Hqm; [|apply better_irrefl].
    by rewrite H in Hqm.
  - destruct (patternScore p') as [s' w'] eqn:Es'. simpl.
    destruct ((s' <? s) || (s =? s') && (w <? w')) eqn:Ec; right.
    + exists p. rewrite Es. repeat split; [set_solver|done|].
      intros q [Hq | ->%list_elem_of_singleton]%elem_of_app Hqm; [|apply better_irrefl].
      specialize (H q Hq Hqm). unfold better in *. rewrite Es, Es' in *.
      destruct (patternScore q). lia.
    + exists p'. rewrite Es'. repeat split; [set_solver|done|].
      intros q [Hq | ->%list_elem_of_singleton]%elem_of_app Hqm; [by apply H|].
      unfold better. rewrite Es, Es'. lia.
Qed.

Lemma resolve_fold_best h l : best_of h l (fold_left (resolve_step h) l (""%string, -1, 0)).
Proof.
  induction l as [|p l IH] using rev_ind; simpl.
  - left. split; [done|]. set_solver.
  - rewrite fold_left_app. by apply resolve_step_best.
Qed.

Lemma resolve_selects order m h n p :
  order ≡ₚ elements (dom (mappings m)) ->
  resolveNetworkLocked order m h = (n, p) -> selects m h n p.
Proof.
  intros Ho. unfold resolveNetworkLocked.
  assert (Hin : forall q, q ∈ order <-> q ∈ dom (mappings m)).
  { intros q. by rewrite Ho, elem_of_elements. }
  destruct (resolve_fold_best h order) as [[-> H]|(p' & Hp' & Hm & -> & H)]; simpl.
  - intros [= <- <-]. left. repeat split. intros q Hq. apply H. by apply Hin.
  - rewrite (proj2 (Z.leb_le _ _)) by apply patternScore_nonneg.
    intros [= <- <-]. right. apply Hin, elem_of_dom in Hp' as [n' Hn'].
    rewrite Hn'. repeat split; [done|]. intros q Hq. apply H. by apply Hin.
Qed.

Lemma selects_functional m h n p n' p' :
  "" ∉ dom (mappings m) ->
  (forall q q', q ∈ dom (mappings m) -> q' ∈ dom (mappings m) ->
     hostMatches q h = true -> hostMatches q' h = true -> patternScore q = patternScore q' -> q = q') ->
  selects m h n p -> selects m h n' p' -> n = n' /\ p = p'.
Proof.
  intros Hne Htie [(-> & -> & H1)|(H1 & H2 & H3)] [(-> & -> & H1')|(H1' & H2' & H3')]; [done|..].
  - rewrite H1 in H2'; [done|]. by apply elem_of_dom_2 in H1'.
  - rewrite H1' in H2; [done|]. by apply elem_of_dom_2 in H1.
  - pose proof (elem_of_dom_2 _ _ _ H1) as D. pose proof (elem_of_dom_2 _ _ _ H1') as D'.
    assert (p = p') as <-; [|split; congruence].
    apply Htie; auto. specialize (H3 p' D' H2'). specialize (H3' p D H2).
    unfold better in *. destruct (patternScore p), (patternScore p'). f_equal; lia.
Qed.

Lemma normalizePattern_ok p q :
  normalizePattern p = Ok q ->
  q = ToLower (TrimSpace p) /\ q <> ""%string /\ is_Some (Match q "example").
Proof.
  unfold normalizePattern. intros H. split_matches; bool_props; eauto.
Qed.

(** ** Lemmas: the closers of a set of resources *)

Lemma enumerates_empty order : World.enumerates order -> order ∅ = [].
Proof. intros H. specialize (H ∅). rewrite elements_empty in H. by apply Permutation_nil_r in H. Qed.

Definition kids (r : resource) : gset Z := default ∅ (children r).

(** The shape of the resource table: wrappers unregister their own entry and
    children are leaves of the table. *)
Definition leafy (m : Manager) : Prop :=
  forall i r, resources m !! i = Some r ->
    done_id (res_closer r) = i /\
    forall c, c ∈ kids r -> exists rc, resources m !! c = Some rc /\ children rc = None.

Section Collect.
Context (order : gset Z -> list Z) (m : Manager).
Hypothesis Horder : World.enumerates order.
Hypothesis Hm : leafy m.

Definition acc_ok (acc : list closer * gset Z) : Prop :=
  NoDup (done_id <$> acc.1) /\ World.ids acc.1 = acc.2 /\
  forall c, c ∈ acc.1 -> exists r, resources m !! done_id c = Some r /\ c = res_closer r.

Definition acc_closed (acc : list closer * gset Z) : Prop :=
  acc_ok acc /\ forall i r, i ∈ acc.2 -> resources m !! i = Some r -> kids r ⊆ acc.2.

Lemma collect_unfold fuel i acc :
  collectResourceTreeLocked (S fuel) order m i acc =
    if decide (i ∈ acc.2) then acc
    else match resources m !! i with
    | None => acc
    | Some res =>
        collect_children (collectResourceTreeLocked fuel order m) (order (kids res))
          (acc.1 ++ [res_closer res], {[i]} ∪ acc.2)
    end.
Proof. by destruct acc. Qed.

Lemma acc_add i r acc :
  acc_ok acc -> resources m !! i = Some r -> i ∉ acc.2 ->
  acc_ok (acc.1 ++ [res_closer r], {[i]} ∪ acc.2).
Proof.
  intros (H1 & H2 & H3) Hr Hi. destruct (Hm _ _ Hr) as [Hd _]. unfold acc_ok, World.ids in *. simpl.
  rewrite fmap_app, list_to_set_app_L. simpl. repeat split.
  - apply NoDup_app. repeat split; [done| |apply NoDup_singleton].
    intros x Hx ->%list_elem_of_singleton. rewrite Hd in Hx. apply Hi. rewrite <- H2. set_solver.
  - rewrite Hd, <- H2. set_solver.
  - intros c [Hc| ->%list_elem_of_singleton]%elem_of_app; [auto|]. rewrite Hd. eauto.
Qed.

Lemma collect_leaf fuel c rc acc :
  resources m !! c = Some rc -> children rc = None ->
  collectResourceTreeLocked (S fuel) order m c acc =
    if decide (c ∈ acc.2) then acc else (acc.1 ++ [res_closer rc], {[c]} ∪ acc.2).
Proof.
  intros Hc Hk. rewrite collect_unfold, Hc. unfold kids. rewrite Hk. cbn [default].
  unfold collect_children. by rewrite enumerates_empty.
Qed.

Lemma collect_children_spec fuel l acc :
  (forall c, c ∈ l -> exists rc, resources m !! c = Some rc /\ children rc = None) ->
  acc_ok acc ->
  let acc' := collect_children (collectResourceTreeLocked (S fuel) order m) l acc in
  acc_ok acc' /\ acc'.2 = acc.2 ∪ list_to_set l.
Proof.
  revert acc. induction l as [|c l IH]; intros acc Hl Hacc.
  - split; [done|]. set_solver.
  - unfold collect_children in *. cbn [fold_left]. destruct (Hl c) as (rc & Hc & Hk); [set_solver|].
    rewrite (collect_leaf _ _ rc) by done.
    destruct (decide (c ∈ acc.2)) as [Hin|Hin].
    + destruct (IH acc) as [H1 H2]; [set_solver|done|]. split; [done|]. rewrite H2. set_solver.
    + destruct (IH (acc.1 ++ [res_closer rc], {[c]} ∪ acc.2)) as [H1 H2]; [set_solver|by apply acc_add|].
      split; [done|]. rewrite H2. simpl. set_solver.
Qed.

Lemma collect_tree_spec i r acc :
  resources m !! i = Some r -> acc_closed acc ->
  let acc' := collectResourceTreeLocked (S (size (resources m))) order m i acc in
  acc_closed acc' /\ acc'.2 = acc.2 ∪ ({[i]} ∪ kids r).
Proof.
  intros Hr [Hok Hcl]. rewrite collect_unfold, Hr.
  destruct (size (resources m)) as [|f] eqn:Hs.
  { apply map_size_empty_inv in Hs. rewrite Hs in Hr. by rewrite lookup_empty in Hr. }
  destruct (decide (i ∈ acc.2)) as [Hi|Hi]; cbn zeta.
  { split; [done|]. specialize (Hcl i r Hi Hr). set_solver. }
  destruct (Hm _ _ Hr) as [_ Hkids].
  assert (Ho : forall c, c ∈ order (kids r) <-> c ∈ kids r).
  { intros c. by rewrite (Horder _), elem_of_elements. }
  destruct (collect_children_spec f (order (kids r)) (acc.1 ++ [res_closer r], {[i]} ∪ acc.2))
    as [H1 H2].
  { intros c Hc. apply Hkids. by apply Ho. }
  { by apply acc_add. }
  cbv zeta in H1, H2. cbn [snd] in H2.
  assert (Hset : (list_to_set (order (kids r)) : gset Z) = kids r) by (apply set_eq; set_solver).
  rewrite Hset in H2. split; [split; [done|]|].
  - intros j rj. rewrite H2. intros [[->%elem_of_singleton|Hj]%elem_of_union|Hj]%elem_of_union Hrj.
    + rewrite Hr in Hrj. injection Hrj as <-. set_solver.
    + specialize (Hcl j rj Hj Hrj). set_solver.
    + destruct (Hkids j Hj) as (rc & Hc & Hk). rewrite Hc in Hrj. injection Hrj as <-.
      unfold kids at 1. rewrite Hk. simpl. set_solver.
  - rewrite H2. set_solver.
Qed.

(** [i] is a matching resource or the child of one. *)
Definition affected (matches : resource -> bool) (i : Z) : Prop :=
  exists p r, resources m !! p = Some r /\ matches r = true /\ (i = p \/ i ∈ kids r).

Lemma collect_roots_spec matches l acc :
  (forall i, i ∈ l -> i ∈ dom (resources m)) -> acc_closed acc ->
  let acc' := fold_left (collect_root order m matches) l acc in
  acc_closed acc' /\
  forall i, i ∈ acc'.2 <-> i ∈ acc.2 \/
    exists p r, p ∈ l /\ resources m !! p = Some r /\ matches r = true /\ (i = p \/ i ∈ kids r).
Proof.
  revert acc. induction l as [|p l IH]; intros acc Hl Hacc; [set_solver|].
  cbn [fold_left]. destruct (proj1 (elem_of_dom (resources m) p) (Hl p ltac:(set_solver))) as [r Hr].
  unfold collect_root at 2 4. rewrite Hr.
  destruct (matches r) eqn:Em.
  - destruct (collect_tree_spec p r acc Hr Hacc) as [H1 H2].
    destruct (IH _ ltac:(set_solver) H1) as [H3 H4]. split; [done|].
    intros i. rewrite H4, H2. split.
    + intros [Hi|(p' & r' & ? & ? & ? & ?)]; [|right; exists p', r'; set_solver].
      apply elem_of_union in Hi as [?|Hi]; [by left|]. right. exists p, r. set_solver.
    + intros [Hi|(p' & r' & Hp' & Hr' & Hm' & Hi)]; [set_solver|].
      apply elem_of_cons in Hp' as [->|Hp'].
      * left. replace r with r' by congruence. set_solver.
      * right. by exists p', r'.
  - destruct (IH _ ltac:(set_solver) Hacc) as [H3 H4]. split; [done|].
    intros i. rewrite H4. split.
    + intros [Hi|(p' & r' & ? & ? & ? & ?)]; [by left|right; exists p', r'; set_solver].
    + intros [Hi|(p' & r' & Hp' & Hr' & Hm' & Hi)]; [by left|]. right.
      apply elem_of_cons in Hp' as [->|Hp']; [congruence|]. by exists p', r'.
Qed.

Lemma collectClosers_spec matches :
  let cs := collectClosersLocked order m matches in
  NoDup (done_id <$> cs) /\
  (forall c, c ∈ cs -> exists r, resources m !! done_id c = Some r /\ c = res_closer r) /\
  forall i, i ∈ World.ids cs <-> affected matches i.
Proof.
  destruct (collect_roots_spec matches (order (dom (resources m))) ([], ∅)) as [[(H1 & H2 & H3) _] H4].
  { intros i. by rewrite (Horder _), elem_of_elements. }
  { split; [split; [constructor|split; [done|]]|]; set_solver. }
  unfold collectClosersLocked. cbn zeta. split; [done|]. split; [done|].
  intros i. rewrite H2, H4. unfold affected. split.
  - intros [?|(p & r & ? & ? & ? & ?)]; [set_solver|]. by exists p, r.
  - intros (p & r & Hp & ? & ?). right. exists p, r. split; [|done].
    rewrite (Horder _), elem_of_elements. by apply elem_of_dom_2 in Hp.
Qed.

End Collect.

(** ** Lemmas: the resource table *)

Definition same_but_children (r r' : resource) : Prop :=
  res_id r = res_id r' /\ kind r = kind r' /\ host r = host r' /\ mapping r = mapping r' /\
  parentID r = parentID r' /\ res_closer r = res_closer r'.

(** Entries are keyed by their ids, ids are never reused, a connection has no
    children, and a listener that is registered lists exactly its registered
    children. *)
Record wf_entry (next : Z) (R : gmap Z resource) (i : Z) (r : resource) : Prop := {
  we_id : 1 <= i <= next /\ res_id r = i /\ done_id (res_closer r) = i;
  we_conn : kind r = resourceConn -> children r = None;
  we_listener : kind r = resourceListener -> is_Some (children r) /\ parentID r = 0;
  we_parent : 0 <= parentID r < i;
  we_kids : forall c, c ∈ kids r ->
    exists rc, R !! c = Some rc /\ kind rc = resourceConn /\ parentID rc = i;
  we_back : forall p, R !! parentID r = Some p -> kind p = resourceListener /\ i ∈ kids p
}.

Definition wf_table (next : Z) (R : gmap Z resource) : Prop :=
  forall i r, R !! i = Some r -> wf_entry next R i r.

Lemma wf_table_leafy m : wf_table (nextID m) (resources m) -> leafy m.
Proof.
  intros H i r Hr. destruct (H i r Hr) as [(? & ? & ?) _ _ _ Hk _]. split; [done|].
  intros c Hc. destruct (Hk c Hc) as (rc & Hrc & Hconn & _).
  exists rc. split; [done|]. by apply (we_conn _ _ _ _ (H c rc Hrc)).
Qed.

Lemma wf_table_fresh next R i : wf_table next R -> next < i -> R !! i = None.
Proof.
  intros H Hi. destruct (R !! i) eqn:E; [|done]. destruct (H _ _ E) as [[? _] _ _ _ _ _]. lia.
Qed.

Lemma wf_table_zero next R : wf_table next R -> R !! 0 = None.
Proof. intros H. destruct (R !! 0) eqn:E; [|done]. destruct (H _ _ E) as [[? _] _ _ _ _ _]. lia. Qed.

Definition new_resource (k : resourceKind) (id : Z) (h mp : string) (parent : Z) (c : Conn)
    : resource :=
  mkResource id k h mp parent (mkCloser c id)
    (match k with resourceConn => None | resourceListener => Some ∅ end).

Lemma wf_table_commit next R k h mp c :
  0 <= next -> wf_table next R ->
  wf_table (next + 1) (<[next + 1 := new_resource k (next + 1) h mp 0 c]> R).
Proof.
  intros Hn H i r. pose proof (wf_table_fresh next R (next + 1) H ltac:(lia)) as Hf.
  pose proof (wf_table_zero _ _ H) as H0.
  intros [[<- <-]|[Hi Hr]]%lookup_insert_Some.
  - constructor; simpl; try (repeat split; lia).
    + by intros ->.
    + intros ->. split; [by eexists|done].
    + unfold kids. destruct k; simpl; set_solver.
    + intros p. rewrite lookup_insert_ne by lia. congruence.
  - destruct (H i r Hr) as [(? & ? & ?) Hc Hl Hp Hk Hb]. constructor; auto; try (repeat split; lia).
    + intros c' Hc'. destruct (Hk c' Hc') as (rc & Hrc & ?). exists rc.
      rewrite lookup_insert_ne by congruence. done.
    + intros p. rewrite lookup_insert_ne by lia. apply Hb.
Qed.

Lemma alter_children_lookup f l (R : gmap Z resource) (i : Z) r' :
  update_children f l R !! i = Some r' ->
  exists r, R !! i = Some r /\ same_but_children r r' /\
    children r' = (if decide (i = l) then f (children r) else children r).
Proof.
  unfold update_children. intros H. destruct (decide (i = l)) as [->|Hne].
  - rewrite lookup_alter_eq in H. apply fmap_Some in H as (r & Hr & ->). exists r. by repeat split.
  - rewrite lookup_alter_ne in H by done. exists r'. by repeat split.
Qed.

Lemma alter_children_lookup_inv f l (R : gmap Z resource) (i : Z) r :
  R !! i = Some r ->
  exists r', update_children f l R !! i = Some r' /\ same_but_children r r' /\
    children r' = (if decide (i = l) then f (children r) else children r).
Proof.
  unfold update_children. intros H. destruct (decide (i = l)) as [->|Hne].
  - rewrite lookup_alter_eq, H. eexists. by repeat split.
  - rewrite lookup_alter_ne by done. exists r. by repeat split.
Qed.

Lemma kids_union id r r' :
  is_Some (children r) -> children r' = union {[id]} <$> children r -> kids r' = {[id]} ∪ kids r.
Proof. intros [s Hs]. unfold kids. rewrite Hs. by intros ->. Qed.

Lemma kids_difference id r r' :
  children r' = (.∖ {[id]}) <$> children r -> kids r' = kids r ∖ {[id]}.
Proof. unfold kids. intros ->. destruct (children r); simpl; [done|]. set_solver. Qed.

Lemma wf_table_accept next R l p h mp c :
  0 <= next -> wf_table next R -> R !! l = Some p -> kind p = resourceListener ->
  wf_table (next + 1)
    (update_children (fmap (union {[next + 1]})) l
       (<[next + 1 := new_resource resourceConn (next + 1) h mp l c]> R)).
Proof.
  intros Hn H Hl Hkl. set (R1 := <[next + 1 := _]> R).
  pose proof (wf_table_fresh next R (next + 1) H ltac:(lia)) as Hf.
  destruct (H l p Hl) as [(Hlr & _) _ Hlk _ _ _]. destruct (Hlk Hkl) as [Hsome _].
  intros i r' Hr'. apply alter_children_lookup in Hr' as (r & Hr & Hsame & Hch).
  unfold same_but_children in Hsame. destruct Hsame as (S1 & S2 & S3 & S4 & S5 & S6).
  assert (Hsub : forall j rj, R !! j = Some rj -> exists rj',
       update_children (fmap (union {[next + 1]})) l R1 !! j = Some rj' /\
       same_but_children rj rj' /\
       children rj' = (if decide (j = l) then union {[next + 1]} <$> children rj else children rj)).
  { intros j rj Hj. apply (alter_children_lookup_inv (fmap (union {[next + 1]}))).
    unfold R1. by rewrite lookup_insert_ne by congruence. }
  unfold R1 in Hr. apply lookup_insert_Some in Hr as [[<- <-]|[Hi Hr]].
  - (* the accepted connection *)
    rewrite decide_False in Hch by lia. simpl in *. constructor.
    + repeat split; [lia|lia|by rewrite <- S1|by rewrite <- S6].
    + by rewrite Hch.
    + by rewrite <- S2.
    + rewrite <- S5. lia.
    + unfold kids. rewrite Hch. simpl. set_solver.
    + rewrite <- S5. intros p' Hp'. destruct (Hsub l p Hl) as (p'' & Hp'' & (_ & E2 & _) & Hc).
      rewrite Hp'' in Hp'. injection Hp' as <-. rewrite decide_True in Hc by done.
      rewrite <- E2. split; [done|]. rewrite (kids_union _ _ _ Hsome Hc). set_solver.
  - destruct (H i r Hr) as [(? & ? & ?) Hc Hli Hp Hk Hb]. constructor.
    + repeat split; [lia|lia|congruence|congruence].
    + rewrite Hch, <- S2. intros Hcn. rewrite decide_False; [auto|]. intros ->. congruence.
    + rewrite Hch, <- S2, <- S5. intros E. destruct (Hli E) as [[s Hs] ?]. rewrite Hs.
      destruct (decide (i = l)); simpl; eauto.
    + congruence.
    + intros c' Hc'. assert (c' ∈ kids r \/ (c' = next + 1 /\ i = l)) as [Hin|[-> ->]].
      { destruct (decide (i = l)) as [->|]; [|left; unfold kids in *; by rewrite Hch in Hc'].
        rewrite (kids_union _ _ _ (proj1 (Hli ltac:(congruence))) Hch) in Hc'. set_solver. }
      * destruct (Hk c' Hin) as (rc & Hrc & Hrk & Hrp).
        destruct (Hsub c' rc Hrc) as (rc' & Hrc' & (_ & E2 & _ & _ & E5 & _) & _).
        exists rc'. split; [done|]. split; congruence.
      * destruct (alter_children_lookup_inv (fmap (union {[next + 1]})) l R1 (next + 1)
          (new_resource resourceConn (next + 1) h mp l c)) as (rc' & Hrc' & (_ & E2 & _ & _ & E5 & _) & _).
        { apply lookup_insert_eq. }
        exists rc'. split; [done|]. by rewrite <- E2, <- E5.
    + intros p' Hp'. apply alter_children_lookup in Hp' as (pp & Hpp & (_ & E2 & _) & Hcp).
      unfold R1 in Hpp. rewrite lookup_insert_ne in Hpp by lia. rewrite <- S5 in Hpp.
      destruct (Hb pp Hpp) as [Hkp Hin]. rewrite <- E2. split; [done|].
      destruct (decide (parentID r' = l)); [|unfold kids in *; by rewrite Hcp].
      rewrite (kids_union (next + 1) pp p'); [set_solver| |done].
      apply (H _ _ Hpp). done.
Qed.

Lemma unregister_lookup id m i r' :
  resources (unregister id m) !! i = Some r' ->
  exists r, resources m !! i = Some r /\ i <> id /\ same_but_children r r' /\
    children r' = match resources m !! id with
                  | Some res => if decide (parentID res <> 0 /\ i = parentID res)
                                then (.∖ {[id]}) <$> children r else children r
                  | None => children r
                  end.
Proof.
  unfold unregister. destruct (resources m !! id) as [res|] eqn:Hres.
  2: { intros H. exists r'. repeat split; [done|]. intros ->. congruence. }
  destruct (parentID res =? 0) eqn:Ep; simpl; intros H; bool_props.
  - apply lookup_delete_Some in H as [Hi H]. exists r'. rewrite decide_False by tauto. by repeat split.
  - apply alter_children_lookup in H as (r & [Hi Hr]%lookup_delete_Some & Hs & Hc).
    exists r. split; [done|]. split; [done|]. split; [done|]. rewrite Hc.
    destruct (decide (i = parentID res)); [rewrite decide_True by done | rewrite decide_False by tauto]; done.
Qed.

Lemma unregister_lookup_inv id m i r :
  resources m !! i = Some r -> i <> id ->
  exists r', resources (unregister id m) !! i = Some r' /\ same_but_children r r'.
Proof.
  unfold unregister. intros Hr Hi. destruct (resources m !! id) as [res|]; [|by exists r].
  assert (Hd : delete id (resources m) !! i = Some r) by (by rewrite lookup_delete_ne).
  destruct (parentID res =? 0); simpl; [by exists r|].
  apply (alter_children_lookup_inv (fmap (.∖ {[id]})) (parentID res)) in Hd as (r' & ? & ? & ?).
  by exists r'.
Qed.

Lemma unregister_gone id m : resources (unregister id m) !! id = None.
Proof.
  destruct (resources (unregister id m) !! id) as [r|] eqn:E; [|done].
  by apply unregister_lookup in E as (? & ? & ? & ?).
Qed.

Lemma unregister_fields id m :
  closed (unregister id m) = closed m /\ version (unregister id m) = version m /\
  nextID (unregister id m) = nextID m /\ defaultNet (unregister id m) = defaultNet m /\
  transports (unregister id m) = transports m /\ mappings (unregister id m) = mappings m.
Proof. unfold unregister. split_matches; done. Qed.

Lemma wf_table_unregister m id :
  wf_table (nextID m) (resources m) ->
  wf_table (nextID m) (resources (unregister id m)).
Proof.
  intros H i r' Hr'. apply unregister_lookup in Hr' as (r & Hr & Hi & Hs & Hch).
  destruct Hs as (S1 & S2 & S3 & S4 & S5 & S6).
  destruct (H i r Hr) as [(? & ? & ?) Hc Hli Hp Hk Hb].
  assert (Hkids : kids r' ⊆ kids r /\ id ∉ kids r').
  { destruct (resources m !! id) as [res|] eqn:Hres.
    - destruct (decide (parentID res <> 0 /\ i = parentID res)) as [[Hp0 ->]|Hn].
      + rewrite (kids_difference _ _ _ Hch). set_solver.
      + assert (kids r' = kids r) as -> by (unfold kids; by rewrite Hch).
        split; [done|]. intros Hid. destruct (Hk id Hid) as (rc & Hrc & _ & Hpc).
        rewrite Hres in Hrc. injection Hrc as <-. apply Hn. split; [lia|done].
    - assert (kids r' = kids r) as -> by (unfold kids; by rewrite Hch).
      split; [done|]. intros Hid. destruct (Hk id Hid) as (rc & Hrc & _). congruence. }
  constructor.
  - repeat split; [lia|lia|congruence|congruence].
  - rewrite <- S2. intros E. specialize (Hc E). rewrite Hch, Hc. by repeat case_match.
  - rewrite <- S2, <- S5. intros E. destruct (Hli E) as [[s Hs] ?]. split; [|done].
    rewrite Hch, Hs. repeat case_match; eauto.
  - congruence.
  - intros c Hcin. destruct (Hk c ltac:(set_solver)) as (rc & Hrc & Hrk & Hrp).
    destruct (unregister_lookup_inv id m c rc Hrc) as (rc' & ? & (? & ? & ? & ? & ? & ?));
      [set_solver|]. exists rc'. split; [done|]. split; congruence.
  - rewrite <- S5. intros p Hpar. apply unregister_lookup in Hpar as (pp & Hpp & Hpid & HS & Hcp).
    destruct HS as (? & HS2 & _). destruct (Hb pp Hpp) as [? Hin]. split; [congruence|].
    destruct (resources m !! id) as [res|]; [|unfold kids in *; by rewrite Hcp].
    case_decide; [|unfold kids in *; by rewrite Hcp].
    rewrite (kids_difference _ _ _ Hcp). set_solver.
Qed.

(** ** The invariant of the interleaved manager *)

Import World.

(** The resource is where the configuration wants it. *)
Definition well_placed (w : world) (i : Z) (r : resource) : Prop :=
  closed (mgr w) = false /\
  exists n, handed w !! i = Some (res_closer r, n) /\
            selects (mgr w) (host r) (Some n) (mapping r).

Record inv (n : Z) (w : world) : Prop := {
  inv_version : 0 <= version (mgr w) <= n;
  inv_next : 0 <= nextID (mgr w) <= n;
  inv_nokey : (""%string : string) ∉ dom (mappings (mgr w));
  inv_table : wf_table (nextID (mgr w)) (resources (mgr w));
  inv_live : forall i r, resources (mgr w) !! i = Some r ->
    (i ∉ fired w) /\ exists net, handed w !! i = Some (res_closer r, net);
  inv_handed : forall i c net, handed w !! i = Some (c, net) ->
    1 <= i <= nextID (mgr w) /\ (i ∈ fired w \/ i ∈ dom (resources (mgr w)));
  inv_fired : forall i, i ∈ fired w -> 1 <= i <= nextID (mgr w);
  inv_pending : pending w ⊆ dom (resources (mgr w));
  inv_raced : forall i, i ∈ raced w -> 1 <= i <= nextID (mgr w) /\
    forall r, resources (mgr w) !! i = Some r -> kind r = resourceConn;
  inv_placed : forall i r, resources (mgr w) !! i = Some r ->
    i ∉ pending w -> i ∉ raced w -> well_placed w i r;
  inv_flights : forall k ss, (k, ss) ∈ flights w ->
    ss_version ss <= version (mgr w) /\
    (ss_version ss = version (mgr w) ->
     closed (mgr w) = false /\ selects (mgr w) (ss_host ss) (Some (ss_network ss)) (ss_mapping ss))
}.

Lemma selects_ext m m' h n p :
  defaultNet m' = defaultNet m -> mappings m' = mappings m ->
  selects m h n p -> selects m' h n p.
Proof. unfold selects. intros -> ->. done. Qed.

Lemma inv_init n : inv 0 (init n).
Proof.
  constructor; simpl; try lia; try set_solver.
  all: intros ?; intros; rewrite lookup_empty in *; done.
Qed.

Lemma inv_mono n n' w : n <= n' -> inv n w -> inv n' w.
Proof. intros Hn []. constructor; auto; lia. Qed.

(** A section that changes neither the resources nor, unless the version is
    bumped, what is selected. *)
Lemma inv_reconfigured n w m' cs :
  inv n w ->
  resources m' = resources (mgr w) -> nextID m' = nextID (mgr w) ->
  version m' = version (mgr w) + 1 -> ""%string ∉ dom (mappings m') ->
  (forall i, i ∈ ids cs -> i ∈ dom (resources (mgr w))) ->
  (forall i r, resources (mgr w) !! i = Some r -> i ∉ ids cs ->
     closed (mgr w) = false ->
     closed m' = false /\
     forall net, selects (mgr w) (host r) net (mapping r) -> selects m' (host r) net (mapping r)) ->
  inv (n + 1) (configured w (m', cs)).
Proof.
  intros [] Hres Hnext Hver Hkey Hids Hsel. constructor; simpl; rewrite ?Hres, ?Hnext; try lia; auto.
  - set_solver.
  - intros i r Hr Hp Hra. destruct (inv_placed0 i r Hr) as (Hc & net & Hh & Hs); [set_solver..|].
    destruct (Hsel i r Hr ltac:(set_solver) Hc) as [Hc' Hs'].
    split; [done|]. exists net. split; [done|]. by apply Hs'.
  - intros k ss Hss. destruct (inv_flights0 k ss Hss) as [? _]. split; lia.
Qed.

Lemma affected_dom m matches i :
  leafy m -> affected m matches i -> i ∈ dom (resources m).
Proof.
  intros Hl (p & r & Hp & _ & [->|Hk]); [by apply elem_of_dom_2 in Hp|].
  destruct (proj2 (Hl p r Hp) i Hk) as (rc & Hrc & _). by apply elem_of_dom_2 in Hrc.
Qed.

(** The configuration methods: what they select for the resources that they
    do not collect is unchanged. *)
Lemma inv_collect n w order m' matches :
  inv n w -> enumerates order ->
  resources m' = resources (mgr w) -> nextID m' = nextID (mgr w) ->
  version m' = version (mgr w) + 1 -> ""%string ∉ dom (mappings m') ->
  (forall r, matches r = false -> closed (mgr w) = false ->
     closed m' = false /\
     forall net, selects (mgr w) (host r) net (mapping r) -> selects m' (host r) net (mapping r)) ->
  inv (n + 1) (configured w (m', collectClosersLocked order m' matches)).
Proof.
  intros Hw Ho Hres Hnext Hver Hkey Hsel.
  assert (Hl : leafy m').
  { pose proof (wf_table_leafy (mgr w) (inv_table _ _ Hw)) as H. unfold leafy. by rewrite Hres. }
  destruct (collectClosers_spec order m' Ho Hl matches) as (_ & _ & Hids).
  apply inv_reconfigured; auto.
  - intros i Hi. rewrite <- Hres. by eapply affected_dom, Hids.
  - intros i r Hr Hi. apply Hsel. destruct (matches r) eqn:E; [|done].
    exfalso. apply Hi, Hids. exists i, r. rewrite Hres. auto.
Qed.

Lemma configured_nil w : configured w (mgr w, []) = w.
Proof. destruct w. unfold configured, ids. simpl. by rewrite (right_id_L ∅ (∪)). Qed.

Lemma u64_bump n v : 0 <= v <= n -> n + 1 < 2 ^ 64 -> u64 (v + 1) = v + 1.
Proof. intros. apply Z.mod_small. lia. Qed.

Lemma inv_set_default n w order net :
  n + 1 < 2 ^ 64 -> inv n w -> enumerates order ->
  inv (n + 1) (configured w (SetDefaultNetwork order net (mgr w))).
Proof.
  intros Hn Hw Ho. unfold SetDefaultNetwork. pose proof (inv_version _ _ Hw).
  destruct (closed (mgr w)) eqn:Ec.
  - rewrite configured_nil. apply inv_mono with (n := n); [lia|done].
  - apply inv_collect; simpl; auto; [by eapply u64_bump | by destruct Hw|].
    intros r Hm _. split; [done|]. intros m [(Hp & _ & _)|H2]; [|by right].
    apply bool_decide_eq_false in Hm. done.
Qed.

Lemma inv_close n w order :
  n + 1 < 2 ^ 64 -> inv n w -> enumerates order ->
  inv (n + 1) (configured w (Close order (mgr w))).
Proof.
  intros Hn Hw Ho. unfold Close. pose proof (inv_version _ _ Hw).
  destruct (closed (mgr w)) eqn:Ec.
  - rewrite configured_nil. apply inv_mono with (n := n); [lia|done].
  - apply inv_collect; simpl; auto; [by eapply u64_bump | by destruct Hw].
Qed.

Lemma selects_insert m p net h n q :
  p <> ""%string -> hostMatches p h = false -> selects m h n q ->
  selects (bump (set_mappings (<[p := net]> (mappings m)) m)) h n q.
Proof.
  intros Hp Hh [(-> & -> & H)|(H1 & H2 & H3)]; [left|right]; simpl.
  - repeat split. intros q. rewrite dom_insert, elem_of_union, elem_of_singleton.
    intros [->|Hq]; auto.
  - rewrite lookup_insert_ne by congruence. repeat split; [done..|].
    intros q'. rewrite dom_insert, elem_of_union, elem_of_singleton.
    intros [->|Hq] ?; [congruence|auto].
Qed.

Lemma selects_delete m p h n q :
  q <> p -> selects m h n q ->
  selects (bump (set_mappings (delete p (mappings m)) m)) h n q.
Proof.
  intros Hp [(-> & -> & H)|(H1 & H2 & H3)]; [left|right]; simpl.
  - repeat split. intros q. rewrite dom_delete, elem_of_difference. intros [Hq _]; auto.
  - rewrite lookup_delete_ne by congruence. repeat split; [done..|].
    intros q'. rewrite dom_delete, elem_of_difference. intros [Hq _]; auto.
Qed.

Lemma inv_map n w order p net r :
  n + 1 < 2 ^ 64 -> inv n w -> enumerates order ->
  MapNetwork order p net (mgr w) = Ok r -> inv (n + 1) (configured w r).
Proof.
  intros Hn Hw Ho. unfold MapNetwork. pose proof (inv_version _ _ Hw).
  destruct (normalizePattern p) as [q|] eqn:Ep; [|done]. simpl.
  apply normalizePattern_ok in Ep as (_ & Hq & _).
  destruct (closed (mgr w)) eqn:Ec; [done|]. intros [= <-].
  apply inv_collect; simpl; auto; [by eapply u64_bump | |].
  - rewrite dom_insert, not_elem_of_union, not_elem_of_singleton. split; [done|by destruct Hw].
  - intros res Hm _. split; [done|]. intros m. by apply selects_insert.
Qed.

Lemma inv_unmap n w order p r :
  n + 1 < 2 ^ 64 -> inv n w -> enumerates order ->
  UnmapNetwork order p (mgr w) = Ok r -> inv (n + 1) (configured w r).
Proof.
  intros Hn Hw Ho. unfold UnmapNetwork. pose proof (inv_version _ _ Hw).
  destruct (normalizePattern p) as [q|] eqn:Ep; [|done]. simpl.
  destruct (closed (mgr w)) eqn:Ec; [done|].
  destruct (mappings (mgr w) !! q) eqn:Eq; intros [= <-].
  - apply inv_collect; simpl; auto; [by eapply u64_bump | |].
    + rewrite dom_delete, not_elem_of_difference. left. by destruct Hw.
    + intros res Hm _. split; [done|]. intros m. apply bool_decide_eq_false in Hm. by apply selects_delete.
  - rewrite configured_nil. apply inv_mono with (n := n); [lia|done].
Qed.

(** Registering and unregistering transports changes no selection. *)
Lemma inv_transports n w ts :
  n + 1 < 2 ^ 64 -> inv n w -> inv (n + 1) (with_mgr w (bump (set_transports ts (mgr w)))).
Proof.
  intros Hn Hw. pose proof (inv_version _ _ Hw).
  assert (E : with_mgr w (bump (set_transports ts (mgr w))) =
    configured w (bump (set_transports ts (mgr w)), [])).
  { unfold with_mgr, configured, ids. simpl. by rewrite (right_id_L ∅ (∪)). }
  rewrite E. apply inv_reconfigured; simpl; auto; [by eapply u64_bump|by destruct Hw|set_solver].
Qed.

Lemma inv_register n w t :
  n + 1 < 2 ^ 64 -> inv n w -> inv (n + 1) (with_mgr w (RegisterTransport t (mgr w)).2).
Proof.
  intros Hn Hw. assert (Hsame : inv (n + 1) (with_mgr w (mgr w))).
  { apply inv_mono with n; [lia|]. by destruct w. }
  unfold RegisterTransport. repeat case_match; simpl; auto. by apply inv_transports.
Qed.

Lemma inv_unregister_transport n w s :
  n + 1 < 2 ^ 64 -> inv n w -> inv (n + 1) (with_mgr w (UnregisterTransport s (mgr w))).
Proof.
  intros Hn Hw. assert (Hsame : inv (n + 1) (with_mgr w (mgr w))).
  { apply inv_mono with n; [lia|]. by destruct w. }
  unfold UnregisterTransport. repeat case_match; simpl; auto. by apply inv_transports.
Qed.

Lemma snapshotFor_ok order u m ss :
  order ≡ₚ elements (dom (mappings m)) ->
  snapshotFor order u m = Ok ss ->
  closed m = false /\ ss_version ss = version m /\
  transports m !! normalizeScheme (Scheme u) = Some (ss_transport ss) /\
  ss_host ss = normalizeHost (Some u) /\
  selects m (ss_host ss) (Some (ss_network ss)) (ss_mapping ss).
Proof.
  intros Ho. unfold snapshotFor. destruct (closed m); [done|].
  destruct (transports m !! _) eqn:Et; [|done].
  destruct (resolveNetworkLocked order m _) as [[net|] mp] eqn:Er; [|done].
  intros [= <-]. simpl. repeat split; auto. by eapply resolve_selects.
Qed.

Lemma inv_snapshot n w k order u ss :
  inv n w -> order ≡ₚ elements (dom (mappings (mgr w))) -> snapshotFor order u (mgr w) = Ok ss ->
  inv (n + 1) (mkWorld (mgr w) ((k, ss) :: flights w) (pending w) (fired w)
                 (inner_closed w) (handed w) (raced w)).
Proof.
  intros Hw Ho Hs. apply snapshotFor_ok in Hs as (Hc & Hv & _ & _ & Hs); [|done].
  apply inv_mono with n; [lia|]. destruct Hw. constructor; simpl; auto.
  intros k' ss' [[= -> ->]|Hin]%elem_of_cons; [|eauto].
  split; [lia|]. done.
Qed.

(** A new entry of the table, which the new id of the manager names. *)
Lemma inv_new_entry n w m' R' fl r net ra :
  inv n w -> n + 1 < 2 ^ 64 ->
  let id := nextID (mgr w) + 1 in
  m' = set_resources R' (set_nextID id (mgr w)) ->
  wf_table id R' ->
  (forall i r', R' !! i = Some r' -> i <> id ->
     exists r, resources (mgr w) !! i = Some r /\ same_but_children r r') ->
  (forall i, i ∈ dom (resources (mgr w)) -> i ∈ dom R') ->
  (exists r', R' !! id = Some r' /\ same_but_children r r') ->
  (ra = raced w \/ ra = {[id]} ∪ raced w /\ kind r = resourceConn) ->
  (id ∉ ra -> closed (mgr w) = false /\ selects (mgr w) (host r) (Some net) (mapping r)) ->
  (forall x, x ∈ fl -> x ∈ flights w) ->
  inv (n + 1) (mkWorld m' fl (pending w) (fired w) (inner_closed w)
                 (<[id := (res_closer r, net)]> (handed w)) ra).
Proof.
  intros Hw Hn id -> HT Hold Hdom Hnew Hra Hsel Hfl.
  assert (Hidnf : id ∉ fired w) by (intros ?%(inv_fired _ _ Hw); lia).
  assert (Hids : id ∈ dom R') by (destruct Hnew as (? & ? & _); by eapply elem_of_dom_2).
  pose proof (inv_next _ _ Hw) as Hnext.
  assert (Hlookup : forall i r', R' !! i = Some r' ->
    (i = id /\ same_but_children r r') \/
    (i <> id /\ exists r0, resources (mgr w) !! i = Some r0 /\ same_but_children r0 r')).
  { intros i r' Hi. destruct (decide (i = id)) as [->|Hne]; [left|right; eauto].
    destruct Hnew as (r'' & ? & ?). split; [done|]. congruence. }
  constructor; simpl.
  - destruct (inv_version _ _ Hw). lia.
  - unfold id. lia.
  - apply Hw.
  - done.
  - intros i r' [[-> (?&?&?&?&?&Hcl)]|(Hne & r0 & Hr0 & (?&?&?&?&?&Hcl))]%Hlookup.
    + split; [done|]. exists net. rewrite lookup_insert_eq. congruence.
    + destruct (inv_live _ _ Hw i r0 Hr0) as (? & net' & Hh). split; [done|]. exists net'.
      rewrite lookup_insert_ne by congruence. congruence.
  - intros i c net'. intros [[<- _]|[Hne Hh]]%lookup_insert_Some; [split; [unfold id; lia|by right]|].
    destruct (inv_handed _ _ Hw i c net' Hh) as [? [?|?]]; split; auto; unfold id; lia.
  - intros i Hi%(inv_fired _ _ Hw). unfold id. lia.
  - intros i Hi. apply Hdom. by apply (inv_pending _ _ Hw).
  - intros i Hi. assert (Hcase : i ∈ raced w \/ (i = id /\ kind r = resourceConn)) by
      (destruct Hra as [->|[-> ?]]; set_solver).
    destruct Hcase as [Hi'|[-> Hk]].
    + destruct (inv_raced _ _ Hw i Hi') as [? Hconn]. split; [unfold id; lia|].
      intros r' [[-> _]|(_ & r0 & Hr0 & (_&E&_))]%Hlookup; [unfold id in *; lia|].
      rewrite <- E. eauto.
    + split; [unfold id; lia|]. intros r' [[_ (_&E&_)]|[? _]]%Hlookup; congruence.
  - intros i r' Hi Hp Hr. apply Hlookup in Hi as [[-> (?&?&E3&E4&?&Hcl)]|(Hne & r0 & Hr0 & (?&?&E3&E4&?&Hcl))].
    + destruct (Hsel Hr) as [? Hs]. split; [done|]. exists net. simpl.
      rewrite lookup_insert_eq, <- Hcl, <- E3, <- E4. split; [done|].
      by eapply selects_ext, Hs.
    + destruct (inv_placed _ _ Hw i r0 Hr0) as (? & net' & Hh & Hs); [done|set_solver|].
      split; [done|]. exists net'. simpl. rewrite lookup_insert_ne, <- Hcl, <- E3, <- E4 by congruence.
      split; [done|]. by eapply selects_ext, Hs.
  - intros k ss Hin%Hfl. destruct (inv_flights _ _ Hw k ss Hin) as [? H]. split; [done|].
    intros Hv. destruct (H Hv). split; [done|]. by eapply selects_ext.
Qed.

Lemma inv_commit n w i k ss conn c m :
  n + 1 < 2 ^ 64 -> inv n w -> (k, ss) ∈ flights w ->
  commit_kind k ss conn (mgr w) = (Some c, m) ->
  inv (n + 1) (mkWorld m (delete i (flights w)) (pending w) (fired w) (inner_closed w)
                 (<[done_id c := (c, ss_network ss)]> (handed w)) (raced w)).
Proof.
  intros Hn Hw Hin. unfold commit_kind, nextResourceIDLocked.
  destruct (closed (mgr w)) eqn:Ec; [done|].
  destruct (version (mgr w) =? ss_version ss) eqn:Ev; [|done]. bool_props.
  intros [= <- <-]. pose proof (inv_next _ _ Hw).
  rewrite (u64_bump n) by lia. set (id := nextID (mgr w) + 1).
  change (mkCloser conn id) with (res_closer (new_resource k id (ss_host ss) (ss_mapping ss) 0 conn)).
  apply (inv_new_entry n w _ (<[id := new_resource k id (ss_host ss) (ss_mapping ss) 0 conn]>
    (resources (mgr w)))); auto.
  - apply wf_table_commit; [lia|apply Hw].
  - intros j r' Hj Hne. rewrite lookup_insert_ne in Hj by done. exists r'. by repeat split.
  - intros j. rewrite dom_insert. set_solver.
  - eexists. rewrite lookup_insert_eq. by repeat split.
  - intros _. split; [done|]. by apply (inv_flights _ _ Hw k ss).
  - intros x Hx. by eapply list_elem_of_delete_inv.
Qed.

Lemma inv_accept n w l conn c m c0 net :
  n + 1 < 2 ^ 64 -> inv n w -> handed w !! l = Some (c0, net) ->
  registerAcceptedConn l conn (mgr w) = (Ok c, m) ->
  inv (n + 1) (mkWorld m (flights w) (pending w) (fired w) (inner_closed w)
                 (<[done_id c := (c, net)]> (handed w))
                 (if decide (l ∈ pending w) then {[done_id c]} ∪ raced w else raced w)).
Proof.
  intros Hn Hw Hh. unfold registerAcceptedConn, nextResourceIDLocked.
  destruct (resources (mgr w) !! l) as [p|] eqn:Hp; [|done].
  destruct (kind p) eqn:Hk; [done|]. intros [= <- <-]. pose proof (inv_next _ _ Hw).
  rewrite (u64_bump n) by lia. set (id := nextID (mgr w) + 1).
  set (r := new_resource resourceConn id (host p) (mapping p) l conn).
  change (mkCloser conn id) with (res_closer r). change (done_id (res_closer r)) with id.
  assert (Hlid : l <> id).
  { destruct (inv_table _ _ Hw l p Hp) as [(? & _) _ _ _ _ _]. unfold id. lia. }
  eapply (inv_new_entry n w _ (update_children (fmap (union {[id]})) l (<[id := r]> (resources (mgr w))))); auto.
  - eapply wf_table_accept; eauto; [lia|apply Hw].
  - intros j r' Hj Hne. apply alter_children_lookup in Hj as (r0 & Hr0 & ? & _).
    rewrite lookup_insert_ne in Hr0 by done. by exists r0.
  - intros j Hj. unfold update_children. rewrite dom_alter, dom_insert. set_solver.
  - destruct (alter_children_lookup_inv (fmap (union {[id]})) l (<[id := r]> (resources (mgr w))) id r)
      as (r' & ? & ? & _); [apply lookup_insert_eq|]. by exists r'.
  - destruct (decide _); [right|left]; done.
  - intros Hnr. case_decide as Hl; [set_solver|].
    destruct (inv_placed _ _ Hw l p Hp Hl) as (? & net' & Hh' & Hs).
    { intros Hra. apply (inv_raced _ _ Hw) in Hra as [_ Hra]. specialize (Hra p Hp). congruence. }
    split; [done|]. replace net with net' by congruence. exact Hs.
Qed.

Lemma inv_close_begin n w id c net :
  inv n w -> handed w !! id = Some (c, net) ->
  inv (n + 1) (mkWorld (unregister id (mgr w)) (flights w) (pending w ∖ {[id]})
                 ({[id]} ∪ fired w) (inner_closed w) (handed w) (raced w)).
Proof.
  intros Hw Hh. apply inv_mono with n; [lia|].
  destruct (unregister_fields id (mgr w)) as (Fc & Fv & Fn & Fd & Ft & Fm).
  assert (Hsel : forall h n' p, selects (mgr w) h n' p -> selects (unregister id (mgr w)) h n' p).
  { intros h n' p. by apply selects_ext. }
  assert (Hdom : forall i, i ∈ dom (resources (mgr w)) -> i <> id ->
    i ∈ dom (resources (unregister id (mgr w)))).
  { intros i [r Hr]%elem_of_dom Hi. destruct (unregister_lookup_inv id _ i r Hr Hi) as (r' & Hr' & _).
    by eapply elem_of_dom_2. }
  constructor; simpl; rewrite ?Fc, ?Fv, ?Fn, ?Fm; try by apply Hw.
  - rewrite <- Fn at 1. rewrite Fn. apply wf_table_unregister, Hw.
  - intros i r' (r & Hr & Hi & (?&?&?&?&?&Hcl) & _)%unregister_lookup.
    destruct (inv_live _ _ Hw i r Hr) as (? & net' & ?). split; [set_solver|]. exists net'. congruence.
  - intros i c' net' Hi. destruct (inv_handed _ _ Hw i c' net' Hi) as [? Hor]. split; [done|].
    destruct (decide (i = id)) as [->|]; [set_solver|]. destruct Hor; [set_solver|right; auto].
  - intros i [->%elem_of_singleton|Hi]%elem_of_union; [by apply (inv_handed _ _ Hw) in Hh as [? _]|].
    by apply Hw.
  - intros i [Hi Hne%not_elem_of_singleton]%elem_of_difference. apply Hdom; [|done].
    by apply (inv_pending _ _ Hw).
  - intros i Hi. destruct (inv_raced _ _ Hw i Hi) as [? Hk]. split; [done|].
    intros r' (r & Hr & _ & (?&E&_) & _)%unregister_lookup. rewrite <- E. eauto.
  - intros i r' (r & Hr & Hi & (?&?&E3&E4&?&Hcl) & _)%unregister_lookup Hp Hra.
    destruct (inv_placed _ _ Hw i r Hr) as (? & net' & ? & ?); [set_solver|done|].
    split; [simpl; congruence|]. exists net'. simpl. rewrite <- Hcl, <- E3, <- E4. auto.
  - intros k ss Hin. destruct (inv_flights _ _ Hw k ss Hin) as [? H]. split; [done|].
    intros Hv. destruct (H Hv). auto.
Qed.

Lemma inv_exec n w e w' :
  n + 1 < 2 ^ 64 -> inv n w -> order_ok e w -> exec e w = Some w' -> inv (n + 1) w'.
Proof.
  intros Hn Hw Ho. assert (Hm : inv (n + 1) w) by (apply inv_mono with n; [lia|done]).
  destruct e; simpl in *.
  - intros [= <-]. by apply inv_register.
  - intros [= <-]. by apply inv_unregister_transport.
  - intros [= <-]. by apply inv_set_default.
  - destruct (MapNetwork _ _ _ _) eqn:E; intros [= <-]; [by eapply inv_map|done].
  - destruct (UnmapNetwork _ _ _) eqn:E; intros [= <-]; [by eapply inv_unmap|done].
  - intros [= <-]. by apply inv_close.
  - destruct (snapshotFor _ _ _) eqn:E; intros [= <-]; [by eapply inv_snapshot|done].
  - destruct (flights w !! i) as [[k ss]|] eqn:Ei; [|done].
    pose proof (list_elem_of_lookup_2 _ _ _ Ei) as Hin.
    destruct (commit_kind k ss conn (mgr w)) as [[c|] m] eqn:E; intros [= <-]; [by eapply inv_commit|].
    assert (m = mgr w) as -> by (unfold commit_kind in E; by repeat case_match; simplify_eq).
    destruct Hm. constructor; simpl; try assumption.
    intros k' ss' Hin'%list_elem_of_delete_inv. by apply (inv_flights0 k').
  - destruct (handed w !! listener) as [[c0 net]|] eqn:El; [|done]. case_decide; [done|].
    destruct (registerAcceptedConn listener conn (mgr w)) as [[c|] m] eqn:E; intros [= <-];
      [by eapply inv_accept|].
    assert (m = mgr w) as -> by (unfold registerAcceptedConn in E; by repeat case_match; simplify_eq).
    by destruct w.
  - destruct (handed w !! id) as [[c net]|] eqn:El; [|done].
    case_decide; intros [= <-]; [done|]. by eapply inv_close_begin.
  - case_decide; intros [= <-]. destruct Hm. by constructor.
Qed.

Lemma inv_reach k w : reach k w -> Z.of_nat k < 2 ^ 64 -> inv (Z.of_nat k) w.
Proof.
  induction 1 as [net|k w e w' Hr IH Ho He]; intros Hk; [apply inv_init|].
  replace (Z.of_nat (S k)) with (Z.of_nat k + 1) by lia.
  eapply inv_exec; eauto; [lia|]. apply IH. lia.
Qed.

(** ** Theorems *)

(** C1: in every interleaving of configuration changes, dials, listens,
    accepts and closes, each connection and listener that the manager ever
    handed out is closed, or collected and about to be closed, or a
    connection that its listener accepted while it was itself waiting to be
    closed (see [accept_race]), or registered in an open manager whose
    current configuration selects exactly the network it was created on. *)
Theorem resources_follow_configuration k w i c net :
  reach k w -> Z.of_nat k < 2 ^ 64 -> handed w !! i = Some (c, net) ->
  i ∈ fired w \/ i ∈ pending w \/ i ∈ raced w \/
  exists r, resources (mgr w) !! i = Some r /\ res_closer r = c /\ closed (mgr w) = false /\
            selects (mgr w) (host r) (Some net) (mapping r).
Proof.
  intros Hr Hk Hh. pose proof (inv_reach k w Hr Hk) as Hw.
  destruct (inv_handed _ _ Hw i c net Hh) as [_ [?|[r Hres]%elem_of_dom]]; [by left|].
  destruct (decide (i ∈ pending w)); [by right; left|].
  destruct (decide (i ∈ raced w)); [by right; right; left|]. right; right; right.
  destruct (inv_placed _ _ Hw i r Hres) as (? & net' & Hh' & Hs); [done..|].
  rewrite Hh in Hh'. injection Hh' as -> ->. by exists r.
Qed.

Definition sample_tcp : Transport := mkTransport 7 ["tcp"; "TLS "]%string.
Definition sample_url : URL := mkURL "TCP" "Peer.Example:9001" "" "" [].

(** Runs of events in which Go's iterations go through [elements]. *)
Definition canonical (e : event) (w : world) : event :=
  match e with
  | ESetDefault _ n => ESetDefault elements n
  | EMap _ p n => EMap elements p n
  | EUnmap _ p => EUnmap elements p
  | ECloseManager _ => ECloseManager elements
  | ESnapshot _ k u => ESnapshot (elements (dom (mappings (mgr w)))) k u
  | e => e
  end.

Fixpoint execs (es : list event) (w : world) : option world :=
  match es with
  | [] => Some w
  | e :: es => match exec (canonical e w) w with Some w => execs es w | None => None end
  end.

Lemma reach_execs es k w w' :
  reach k w -> execs es w = Some w' -> reach (length es + k) w'.
Proof.
  revert k w. induction es as [|e es IH]; simpl; intros k w Hr H; [congruence|].
  destruct (exec (canonical e w) w) as [w1|] eqn:E; [|done].
  rewrite plus_n_Sm. eapply IH; [|exact H]. eapply reach_step; [exact Hr| |exact E].
  destruct e; simpl; try done; by intros X.
Qed.

(** A listener on network 1, then the default network changes to 2. *)
Definition listen_events : list event :=
  [ERegister (Some sample_tcp); ESnapshot [] resourceListener sample_url; ECommit 0 50].
Definition sample_world : world := default (init None) (execs listen_events (init (Some 1))).

Lemma reach_sample : reach 3 sample_world.
Proof. apply (reach_execs listen_events 0 (init (Some 1))); [constructor | vm_compute; reflexivity]. Qed.

Lemma resources_follow_configuration_witness :
  reach 3 sample_world /\ Z.of_nat 3 < 2 ^ 64 /\ handed sample_world !! 1 = Some (mkCloser 50 1, 1) /\
  (1 ∈ fired sample_world \/ 1 ∈ pending sample_world \/ 1 ∈ raced sample_world \/
   exists r, resources (mgr sample_world) !! 1 = Some r /\ res_closer r = mkCloser 50 1 /\
     closed (mgr sample_world) = false /\
     selects (mgr sample_world) (host r) (Some 1) (mapping r)).
Proof.
  assert (H1 : reach 3 sample_world) by apply reach_sample.
  assert (H2 : Z.of_nat 3 < 2 ^ 64) by lia.
  assert (H3 : handed sample_world !! 1 = Some (mkCloser 50 1, 1)) by (vm_compute; reflexivity).
  exact (conj H1 (conj H2 (conj H3
    (resources_follow_configuration 3 sample_world 1 (mkCloser 50 1) 1 H1 H2 H3)))).
Defined.

(** A change of the default network, with a connection accepted between
    [collectClosersLocked] and [closeAll]. *)
Definition race_events : list event :=
  listen_events ++
  [ESetDefault (fun _ => []) (Some 2); EAccept 1 51; ECloseBegin 1; ECloseEnd 1].
Definition raced_world : world := default (init None) (execs race_events (init (Some 1))).

(** The exception in [resources_follow_configuration] is real.  When a
    listener accepts a connection after [SetDefaultNetwork] has collected the
    resources and released the lock but before it closes the listener, the
    connection is registered and nobody closes it: every collected closer has
    run, the manager is open, and the connection is alive on the old network
    although no configuration entry names that network any more. *)
Theorem accept_race :
  exists k w i c net r,
    reach k w /\ pending w = ∅ /\ handed w !! i = Some (c, net) /\ (i ∉ fired w) /\
    resources (mgr w) !! i = Some r /\ closed (mgr w) = false /\
    defaultNet (mgr w) <> Some net /\ mappings (mgr w) = ∅ /\
    (forall j, j ∈ fired w -> j ∈ inner_closed w).
Proof.
  exists 7%nat, raced_world, 2, (mkCloser 51 2), 1,
    (mkResource 2 resourceConn "peer.example" "" 1 (mkCloser 51 2) None).
  split; [apply (reach_execs race_events 0 (init (Some 1))); [constructor | vm_compute; reflexivity]|].
  split; [vm_compute; reflexivity|]. split; [vm_compute; reflexivity|].
  split; [apply (bool_decide_unpack _); vm_compute; exact I|].
  split; [vm_compute; reflexivity|]. split; [reflexivity|].
  split; [vm_compute; congruence|]. split; [vm_compute; reflexivity|].
  intros j. replace (inner_closed raced_world) with (fired raced_world) by (vm_compute; reflexivity).
  done.
Qed.

(** [resolveNetworkLocked] selects the matching pattern with the most
    literal characters and then the fewest wildcards, or the default network
    when none matches; the iteration order of the mappings does not matter
    unless two matching patterns have the same score. *)
Theorem network_selection order order' m h :
  order ≡ₚ elements (dom (mappings m)) -> order' ≡ₚ elements (dom (mappings m)) ->
  selects m h (resolveNetworkLocked order m h).1 (resolveNetworkLocked order m h).2 /\
  ((""%string : string) ∉ dom (mappings m) ->
   (forall q q', q ∈ dom (mappings m) -> q' ∈ dom (mappings m) ->
      hostMatches q h = true -> hostMatches q' h = true ->
      patternScore q = patternScore q' -> q = q') ->
   resolveNetworkLocked order m h = resolveNetworkLocked order' m h).
Proof.
  intros Ho Ho'. destruct (resolveNetworkLocked order m h) as [n p] eqn:E.
  destruct (resolveNetworkLocked order' m h) as [n' p'] eqn:E'.
  apply resolve_selects in E; [|done]. apply resolve_selects in E'; [|done].
  split; [done|]. intros Hk Ht. destruct (selects_functional m h n p n' p'); auto. congruence.
Qed.

Definition onion_manager : Manager :=
  mkManager false 2 0 (Some 1) ∅ (<["*.onion":=Some 2]> (<["*":=None]> ∅)) ∅.

Lemma network_selection_witness :
  ["*"; "*.onion"] ≡ₚ elements (dom (mappings onion_manager)) /\
  selects onion_manager "a.onion"
    (resolveNetworkLocked ["*"; "*.onion"] onion_manager "a.onion").1
    (resolveNetworkLocked ["*"; "*.onion"] onion_manager "a.onion").2.
Proof.
  assert (H : ["*"; "*.onion"] ≡ₚ elements (dom (mappings onion_manager))).
  { replace (elements (dom (mappings onion_manager))) with (["*.onion"; "*"]%string)
      by (vm_compute; reflexivity). apply Permutation_swap. }
  exact (conj H (proj1 (network_selection ["*"; "*.onion"] ["*"; "*.onion"] onion_manager "a.onion" H H))).
Defined.

(** With two matching patterns of the same score the selected network
    depends on the iteration order of the Go map, which is random: the same
    configuration sends the same host to different networks. *)
Theorem selection_tie :
  exists order order' m h,
    order ≡ₚ elements (dom (mappings m)) /\ order' ≡ₚ elements (dom (mappings m)) /\
    (forall p, p ∈ dom (mappings m) -> normalizePattern p = Ok p) /\
    resolveNetworkLocked order m h = (Some 2, "*.onion"%string) /\
    resolveNetworkLocked order' m h = (Some 3, "relay.*"%string).
Proof.
  set (m := mkManager false 2 0 (Some 1) ∅
    (<["*.onion":=Some 2]> (<["relay.*":=Some 3]> ∅)) ∅).
  exists ["*.onion"; "relay.*"]%string, ["relay.*"; "*.onion"]%string, m, "relay.onion"%string.
  assert (Hd : dom (mappings m) = {["*.onion"; "relay.*"]}) by (vm_compute; reflexivity).
  assert (He : elements (dom (mappings m)) ≡ₚ ["*.onion"; "relay.*"]%string).
  { rewrite Hd, elements_union_singleton by (apply (bool_decide_unpack _); vm_compute; exact I).
    by rewrite elements_singleton. }
  rewrite He, Hd. split; [done|]. split; [apply Permutation_swap|].
  split; [|split; vm_compute; reflexivity].
  intros p [->%elem_of_singleton | ->%elem_of_singleton]%elem_of_union; vm_compute; reflexivity.
Qed.

(** A transport is registered under all its normalised schemes or not at
    all, only when none of them was taken, and exactly then every snapshot
    that was taken before is outdated. *)
Theorem RegisterTransport_spec t m err m' :
  RegisterTransport t m = (err, m') ->
  (is_Some err -> m' = m) /\
  (err = None -> exists t', t = Some t' /\ Schemes t' <> [] /\ closed m = false /\
     version m' = u64 (version m + 1) /\
     forall s, transports m' !! s =
       (if decide (s ∈ (normalizeScheme <$> Schemes t')) then Some t' else transports m !! s) /\
       (s ∈ (normalizeScheme <$> Schemes t') -> s <> ""%string /\ transports m !! s = None)).
Proof.
  unfold RegisterTransport. destruct t as [t|]; [|intros [= <- <-]; done].
  destruct (Schemes t) as [|s0 ss0] eqn:Es; [intros [= <- <-]; done|]. rewrite <- Es.
  destruct (closed m) eqn:Ec; [intros [= <- <-]; done|].
  destruct (check_schemes (transports m) (Schemes t)) eqn:Ek; intros [= <- <-]; [done|].
  split; [by intros [? ?]|]. intros _. exists t. split; [done|]. split; [by rewrite Es|].
  split; [done|]. split; [done|]. intros s. simpl. split.
  - clear. unfold add_schemes. generalize (transports m). induction (Schemes t) as [|x l IH]; intros R; [done|].
    cbn [fold_left]. rewrite IH. cbn [fmap list_fmap]. destruct (decide (s = normalizeScheme x)) as [->|Hne].
    + rewrite lookup_insert_eq, (decide_True (P := _ ∈ _ :: _)) by set_solver. by case_decide.
    + rewrite lookup_insert_ne by congruence.
      destruct (decide (s ∈ normalizeScheme <$> l)); [rewrite decide_True by set_solver|rewrite decide_False by set_solver]; done.
  - clear -Ek. induction (Schemes t) as [|x l IH]; [set_solver|]. simpl in *.
    repeat case_bool_decide; try done. intros [->|Hin]%elem_of_cons; [|auto].
    split; [done|]. by apply eq_None_not_Some.
Qed.

Lemma RegisterTransport_spec_witness :
  RegisterTransport (Some sample_tcp) (NewManager None) =
    (None, (RegisterTransport (Some sample_tcp) (NewManager None)).2) /\
  forall s, transports (RegisterTransport (Some sample_tcp) (NewManager None)).2 !! s =
    if decide (s ∈ ["tcp"; "tls"]%string) then Some sample_tcp else None.
Proof.
  assert (H : RegisterTransport (Some sample_tcp) (NewManager None) =
    (None, (RegisterTransport (Some sample_tcp) (NewManager None)).2)) by reflexivity.
  split; [exact H|]. intros s.
  destruct (RegisterTransport_spec (Some sample_tcp) (NewManager None) None _ H) as [_ Hs].
  destruct (Hs eq_refl) as (t' & Ht & _ & _ & _ & Hl). injection Ht as <-.
  rewrite (proj1 (Hl s)). reflexivity.
Defined.

(** A dial or listen that succeeds registered its connection, under the
    host of the URL, on a network and with a transport that were still the
    ones the open manager selects when it was registered; every connection of
    a discarded attempt was closed; and the loop stops as soon as one attempt
    meets no configuration change or a finished context. *)
Theorem dial_listen_spec k order u attempts m :
  (forall m, order m ≡ₚ elements (dom (mappings m))) ->
  let '(r, m', discarded) := dial_or_listen k order (Some u) attempts m in
  (forall c, r = Some (Ok c) -> exists a m0 t n mp,
     let m1 := at_meanwhile a m0 in
     In a attempts /\ closed m1 = false /\ version m1 = version m0 /\
     transports m0 !! normalizeScheme (Scheme u) = Some t /\
     selects m0 (normalizeHost (Some u)) (Some n) mp /\
     at_dial a t n u = Ok (inner c) /\
     m' = set_resources (<[done_id c := new_resource k (done_id c) (normalizeHost (Some u)) mp 0 (inner c)]>
            (resources m1)) (set_nextID (done_id c) m1)) /\
  (forall c, c ∈ discarded -> exists a t n, In a attempts /\ at_dial a t n u = Ok c) /\
  ((exists a, In a attempts /\ (at_ctx_done a = true \/
     forall m, closed (at_meanwhile a m) = closed m /\ version (at_meanwhile a m) = version m)) ->
   is_Some r).
Proof.
  intros Ho. unfold dial_or_listen.
  revert m. induction attempts as [|a l IH]; intros m; cbn [dial_loop].
  { repeat split; [done|set_solver|]. by intros (a & [] & _). }
  destruct (snapshotFor (order m) u m) as [ss|err] eqn:Es.
  2: { repeat split; [done|set_solver|eauto]. }
  pose proof (snapshotFor_ok _ _ _ _ (Ho m) Es) as (Hc & Hv & Ht & Hh & Hs).
  destruct (at_dial a (ss_transport ss) (ss_network ss) u) as [conn|err] eqn:Ed.
  2: { repeat split; [done|set_solver|eauto]. }
  destruct (commit_kind k ss conn (at_meanwhile a m)) as [[c|] m1] eqn:Ek.
  - split; [|split; [set_solver|eauto]]. intros c' [= <-].
    unfold commit_kind, nextResourceIDLocked in Ek.
    destruct (closed (at_meanwhile a m)) eqn:Ec; [done|]. simpl in Ek.
    destruct (version (at_meanwhile a m) =? ss_version ss) eqn:Ev; [|done].
    bool_props. simpl in Ek. injection Ek as <- <-. cbn [done_id inner].
    exists a, m, (ss_transport ss), (ss_network ss), (ss_mapping ss). rewrite <- Hh.
    repeat split; auto using in_eq; try reflexivity; congruence.
  - assert (Hretry : closed (at_meanwhile a m) = true \/ version (at_meanwhile a m) <> ss_version ss).
    { unfold commit_kind in Ek. destruct (closed (at_meanwhile a m)); [by left|].
      destruct (version (at_meanwhile a m) =? ss_version ss) eqn:E; [done|].
      right. by bool_props. }
    destruct (at_ctx_done a) eqn:Ex.
    + split; [done|]. split; [|eauto]. intros c ->%list_elem_of_singleton.
      exists a, (ss_transport ss), (ss_network ss). split; [by left|done].
    + specialize (IH m1). destruct (dial_loop k order u l m1) as [[r m'] ds].
      destruct IH as (H1 & H2 & H3). split; [|split].
      * intros c Hr. destruct (H1 c Hr) as (a' & m0 & t & n & mp & ? & H). exists a', m0, t, n, mp.
        split; [by right|done].
      * intros c [->|Hin]%elem_of_cons.
        { exists a, (ss_transport ss), (ss_network ss). split; [by left|done]. }
        destruct (H2 c Hin) as (a' & t & n & ? & ?). exists a', t, n. split; [by right|done].
      * intros (a' & [<-|Hin] & Hst); [|eauto]. destruct Hst as [?|Hst]; [congruence|].
        destruct (Hst m). destruct Hretry; congruence.
Qed.

Lemma dial_listen_spec_witness :
  exists (order : Manager -> list string) a,
  (forall m, order m ≡ₚ elements (dom (mappings m))) /\
  is_Some (dial_or_listen resourceConn order (Some sample_url) [a] (NewManager (Some 1))).1.1.
Proof.
  exists (fun m => elements (dom (mappings m))), (mkAttempt (fun _ _ _ => Ok 9) id false).
  assert (H : forall m : Manager, elements (dom (mappings m)) ≡ₚ elements (dom (mappings m))) by done.
  split; [exact H|].
  pose proof (dial_listen_spec resourceConn (fun m => elements (dom (mappings m))) sample_url
    [mkAttempt (fun _ _ _ => Ok 9) id false] (NewManager (Some 1)) H) as Hs.
  destruct (dial_or_listen _ _ _ _ _) as [[r m'] ds]. destruct Hs as (_ & _ & Hs). apply Hs.
  exists (mkAttempt (fun _ _ _ => Ok 9) id false). split; [by left | right; done].
Defined.
