(* ===== verification/Handshake.v ===== *)
(** * Handshake: link handshake metadata
    (ygglib/core/version.go)

    The keyed hash and the signature scheme are parameters of the section;
    what the code relies on is stated by [signature_laws].  A reader is the
    list of the bytes it will deliver before the end of the stream. *)

From S2P Require Import Prelude Address.

(** ** Data *)

Record version_metadata := mkMeta {
  majorVer : Z;
  minorVer : Z;
  publicKey : bytes;
  priority : Z
}.

Definition ProtocolVersionMajor : Z := 0.
Definition ProtocolVersionMinor : Z := 5.

Definition metaVersionMajor : Z := 0.
Definition metaVersionMinor : Z := 1.
Definition metaPublicKey : Z := 2.
Definition metaPriority : Z := 3.

Definition SignatureSize : nat := 64.
Definition BlakeSize : nat := 64.

Inductive handshakeError :=
| ErrHandshakeInvalidPreamble
| ErrHandshakeInvalidLength
| ErrHandshakeInvalidPassword
| ErrHandshakeHashFailure
| ErrHandshakeIncorrectPassword
| ErrEOF
| ErrUnexpectedEOF
| ErrKeySize.             (* blake2b.New512 with a key over 64 bytes *)

Definition zero_metadata : version_metadata := mkMeta 0 0 [] 0.
Definition version_getBaseMetadata : version_metadata :=
  mkMeta ProtocolVersionMajor ProtocolVersionMinor [] 0.

Definition set_majorVer v m := mkMeta v (minorVer m) (publicKey m) (priority m).
Definition set_minorVer v m := mkMeta (majorVer m) v (publicKey m) (priority m).
Definition set_publicKey k m := mkMeta (majorVer m) (minorVer m) k (priority m).
Definition set_priority p m := mkMeta (majorVer m) (minorVer m) (publicKey m) p.

(** ** io.ReadFull *)

Definition ReadFull (n : nat) (r : bytes) : result handshakeError (bytes * bytes) :=
  if (n <=? length r)%nat then Ok (take n r, drop n r)
  else match r with [] => Err ErrEOF | _ => Err ErrUnexpectedEOF end.

(** ** The metadata fields *)

(** One [switch op] of the decoder. *)
Definition decode_field (op : Z) (field : bytes) (m : version_metadata)
    : result handshakeError version_metadata :=
  if op =? metaVersionMajor then
    if negb (length field =? 2)%nat then Err ErrHandshakeInvalidLength
    else Ok (set_majorVer (be16 field) m)
  else if op =? metaVersionMinor then
    if negb (length field =? 2)%nat then Err ErrHandshakeInvalidLength
    else Ok (set_minorVer (be16 field) m)
  else if op =? metaPublicKey then
    if negb (length field =? PublicKeySize)%nat then Err ErrHandshakeInvalidLength
    else Ok (set_publicKey field m)
  else if op =? metaPriority then
    if negb (length field =? 1)%nat then Err ErrHandshakeInvalidLength
    else Ok (set_priority (field !!! 0%nat) m)
  else Ok m.

(** The loop [for len(bs) >= 4]; each pass consumes four bytes at least, so
    the length of the input is enough fuel. *)
Fixpoint decode_fields (fuel : nat) (bs : bytes) (m : version_metadata)
    : result handshakeError version_metadata :=
  if (4 <=? length bs)%nat then
    match fuel with
    | O => Err ErrHandshakeInvalidLength
    | S fuel =>
        let op := be16 bs in
        let oplen := Z.to_nat (be16 (drop 2 bs)) in
        let bs := drop 4 bs in
        if (length bs <? oplen)%nat then Err ErrHandshakeInvalidLength
        else
          let? m := decode_field op (take oplen bs) m in
          decode_fields fuel (drop oplen bs) m
    end
  else match bs with [] => Ok m | _ => Err ErrHandshakeInvalidLength end.

(** A field as [encode] writes it. *)
Definition put_field (op : Z) (field : bytes) : bytes :=
  be16_put op ++ be16_put (Z.of_nat (length field)) ++ field.

Definition put_fields (fs : list (Z * bytes)) : bytes :=
  concat (map (fun f => put_field f.1 f.2) fs).

Definition preamble : bytes := [109; 101; 116; 97].  (* "meta" *)

Section Crypto.
(** blake2b with a key, ed25519.Sign and ed25519.Verify. *)
Context (blake2b : bytes -> bytes -> bytes).
Context (Sign : bytes -> bytes -> bytes) (Verify : bytes -> bytes -> bytes -> bool).

(** hasher.Sum after the key was written; [ErrKeySize] from blake2b.New512. *)
Definition key_hash (password key : bytes) : result handshakeError bytes :=
  if (BlakeSize <? length password)%nat then Err ErrKeySize
  else if negb (length key =? PublicKeySize)%nat then Err ErrHandshakeHashFailure
  else Ok (blake2b password key).

Definition encode (m : version_metadata) (privateKey password : bytes)
    : result handshakeError bytes :=
  let bs := preamble ++ [0; 0] in
  let bs := bs ++ be16_put metaVersionMajor ++ be16_put 2 ++ be16_put (majorVer m) in
  let bs := bs ++ be16_put metaVersionMinor ++ be16_put 2 ++ be16_put (minorVer m) in
  let bs := bs ++ be16_put metaPublicKey ++ be16_put (Z.of_nat PublicKeySize) ++ publicKey m in
  let bs := bs ++ be16_put metaPriority ++ be16_put 1 ++ [priority m] in
  let? hash := key_hash password (publicKey m) in
  let bs := bs ++ Sign privateKey hash in
  Ok (take 4 bs ++ be16_put (u16 (Z.of_nat (length bs - 6))) ++ drop 6 bs).

(** Returns the metadata and what is left in the reader. *)
Definition decode (m : version_metadata) (r password : bytes)
    : result handshakeError (version_metadata * bytes) :=
  let? (bh, r) := ReadFull 6 r in
  if negb (bool_decide (take 4 bh = preamble)) then Err ErrHandshakeInvalidPreamble
  else
    let hl := be16 (drop 4 bh) in
    if hl <? Z.of_nat SignatureSize then Err ErrHandshakeInvalidLength
    else
      let? (bs, r) := ReadFull (Z.to_nat hl) r in
      let sig := drop (length bs - SignatureSize) bs in
      let bs := take (length bs - SignatureSize) bs in
      let? m := decode_fields (length bs) bs m in
      match key_hash password (publicKey m) with
      | Err ErrKeySize => Err ErrHandshakeInvalidPassword
      | Err e => Err e
      | Ok hash =>
          if Verify (publicKey m) hash sig then Ok (m, r)
          else Err ErrHandshakeIncorrectPassword
      end.

Definition check (m : version_metadata) : bool :=
  if negb (majorVer m =? ProtocolVersionMajor) then false
  else if negb (minorVer m =? ProtocolVersionMinor) then false
  else if negb (length (publicKey m) =? PublicKeySize)%nat then false
  else true.

(** Signatures have 64 bytes, and those made with a private key verify under
    its public key. *)
Definition signature_laws (privateKey public : bytes) : Prop :=
  (forall msg, length (Sign privateKey msg) = SignatureSize) /\
  (forall msg, Verify public msg (Sign privateKey msg) = true).

(** ** Lemmas *)

Lemma ReadFull_app n a r : length a = n -> ReadFull n (a ++ r) = Ok (a, r).
Proof.
  intros <-. unfold ReadFull. rewrite (proj2 (Nat.leb_le _ _)) by (rewrite length_app; lia).
  by rewrite take_app_length, drop_app_length.
Qed.

Lemma ReadFull_Ok n r a r' : ReadFull n r = Ok (a, r') -> r = a ++ r' /\ length a = n.
Proof.
  unfold ReadFull. destruct (n <=? length r)%nat eqn:E; [|by destruct r].
  intros [= <- <-]. bool_props. by rewrite take_drop, length_take_le.
Qed.

Lemma length_put_field op f : length (put_field op f) = (4 + length f)%nat.
Proof. unfold put_field. by rewrite !length_app, !length_be16_put. Qed.

(** A well-formed field is decoded and skipped, whatever its number. *)
Lemma decode_fields_put fuel op field rest m :
  0 <= op < 65536 -> Z.of_nat (length field) < 65536 ->
  decode_fields (S fuel) (put_field op field ++ rest) m =
    (let? m := decode_field op field m in decode_fields fuel rest m).
Proof.
  intros Hop Hlen. cbn [decode_fields].
  rewrite (proj2 (Nat.leb_le _ _)) by (rewrite length_app, length_put_field; lia).
  unfold put_field. rewrite <- !app_assoc, be16_put_get by lia.
  change (drop 2 (be16_put op ++ ?x)) with x. rewrite be16_put_get by lia. rewrite Nat2Z.id.
  change (drop 4 (be16_put op ++ be16_put ?y ++ ?x)) with x.
  rewrite (proj2 (Nat.ltb_ge _ _)) by (rewrite length_app; lia).
  by rewrite take_app_length, drop_app_length.
Qed.

Fixpoint apply_fields (fs : list (Z * bytes)) (m : version_metadata)
    : result handshakeError version_metadata :=
  match fs with
  | [] => Ok m
  | (op, field) :: fs => let? m := decode_field op field m in apply_fields fs m
  end.

Definition wf_field (f : Z * bytes) : Prop := 0 <= f.1 < 65536 /\ Z.of_nat (length f.2) < 65536.

Lemma decode_put_fields fs fuel m :
  Forall wf_field fs -> (length fs <= fuel)%nat ->
  decode_fields fuel (put_fields fs) m = apply_fields fs m.
Proof.
  revert fuel m. induction fs as [|[op f] fs IH]; intros fuel m Hfs Hfuel.
  - by destruct fuel.
  - inversion Hfs as [|? ? [H1 H2] H3]; subst. destruct fuel as [|fuel]; [simpl in Hfuel; lia|].
    change (put_fields ((op, f) :: fs)) with (put_field op f ++ put_fields fs).
    rewrite decode_fields_put by done. simpl. destruct (decode_field op f m); [|done].
    simpl. apply IH; [done|]. simpl in Hfuel. lia.
Qed.

Lemma length_put_fields fs : (length fs <= length (put_fields fs))%nat.
Proof.
  induction fs as [|[op f] fs IH]; [done|].
  change (put_fields ((op, f) :: fs)) with (put_field op f ++ put_fields fs).
  rewrite length_app, length_put_field. simpl. lia.
Qed.

(** A signed message of well-formed fields. *)
Definition message (fs : list (Z * bytes)) (sig : bytes) : bytes :=
  preamble ++ be16_put (Z.of_nat (length (put_fields fs ++ sig))) ++ put_fields fs ++ sig.

Lemma decode_message fs sig rest m password :
  Forall wf_field fs -> length sig = SignatureSize ->
  Z.of_nat (length (put_fields fs ++ sig)) < 65536 ->
  decode m (message fs sig ++ rest) password =
    (let? m := apply_fields fs m in
     match key_hash password (publicKey m) with
     | Err ErrKeySize => Err ErrHandshakeInvalidPassword
     | Err e => Err e
     | Ok hash => if Verify (publicKey m) hash sig then Ok (m, rest)
                  else Err ErrHandshakeIncorrectPassword
     end).
Proof.
  intros Hfs Hsig Hlen. unfold decode, message.
  replace ((preamble ++ be16_put (Z.of_nat (length (put_fields fs ++ sig))) ++ put_fields fs ++ sig) ++ rest)
    with ((preamble ++ be16_put (Z.of_nat (length (put_fields fs ++ sig)))) ++
          ((put_fields fs ++ sig) ++ rest)) by (by rewrite <- !app_assoc).
  rewrite ReadFull_app by done. cbn [rbind]. rewrite take_app_length' by done.
  rewrite bool_decide_true by done. cbn [negb]. rewrite drop_app_length' by done.
  rewrite <- (app_nil_r (be16_put _)), be16_put_get by lia.
  rewrite (proj2 (Z.ltb_ge _ _)) by (rewrite length_app, Hsig; lia).
  rewrite ReadFull_app by lia. cbn [rbind].
  replace (length (put_fields fs ++ sig) - SignatureSize)%nat with (length (put_fields fs))
    by (rewrite length_app, Hsig; lia).
  rewrite take_app_length, drop_app_length, decode_put_fields; [done|done|apply length_put_fields].
Qed.

(** The fields that [encode] writes. *)
Definition meta_fields (m : version_metadata) : list (Z * bytes) :=
  [(metaVersionMajor, be16_put (majorVer m)); (metaVersionMinor, be16_put (minorVer m));
   (metaPublicKey, publicKey m); (metaPriority, [priority m])].

Record wf_metadata (m : version_metadata) : Prop := {
  wf_major : 0 <= majorVer m < 65536;
  wf_minor : 0 <= minorVer m < 65536;
  wf_key : length (publicKey m) = PublicKeySize;
  wf_priority : wf_byte (priority m)
}.

Lemma encode_message m privateKey password public :
  wf_metadata m -> (length password <= BlakeSize)%nat -> signature_laws privateKey public ->
  encode m privateKey password =
    Ok (message (meta_fields m) (Sign privateKey (blake2b password (publicKey m)))).
Proof.
  intros [Hma Hmi Hk Hp] Hpw [Hs _]. unfold encode, key_hash.
  rewrite (proj2 (Nat.ltb_ge _ _)) by done. rewrite Hk, Nat.eqb_refl. cbn [rbind negb].
  set (sig := Sign _ _). assert (Hsig : length sig = SignatureSize) by apply Hs.
  do 2 f_equal. unfold message, put_fields, meta_fields. cbn [map concat fst snd].
  unfold put_field. cbn [length]. rewrite !length_be16_put, Hk, app_nil_r.
  change (Z.of_nat 2) with 2. change (Z.of_nat 1) with 1. rewrite <- !app_assoc.
  match goal with |- take 4 ?x ++ _ ++ _ = _ => change (take 4 x) with preamble end.
  f_equal. f_equal. f_equal. rewrite !length_app, Hk, Hsig. cbn [length]. rewrite !length_be16_put.
  unfold u16. rewrite Z.mod_small by (unfold PublicKeySize, SignatureSize; simpl; lia). f_equal; lia.
Qed.

Lemma apply_meta_fields m m0 :
  wf_metadata m -> apply_fields (meta_fields m) m0 = Ok m.
Proof.
  intros [Hma Hmi Hk Hp]. unfold meta_fields. cbn [apply_fields].
  unfold decode_field. cbn -[be16 be16_put PublicKeySize]. rewrite Hk, Nat.eqb_refl. cbn -[be16 be16_put].
  pose proof (be16_put_get (majorVer m) [] Hma) as H1. pose proof (be16_put_get (minorVer m) [] Hmi) as H2.
  rewrite app_nil_r in H1, H2. rewrite H1, H2. by destruct m.
Qed.

Lemma put_field_split bs :
  wf_bytes bs -> (4 <= length bs)%nat ->
  let oplen := Z.to_nat (be16 (drop 2 bs)) in
  (oplen <= length (drop 4 bs))%nat ->
  bs = put_field (be16 bs) (take oplen (drop 4 bs)) ++ drop oplen (drop 4 bs) /\
  wf_field (be16 bs, take oplen (drop 4 bs)).
Proof.
  intros Hwf Hlen oplen Hop. pose proof (be16_range bs Hwf).
  pose proof (be16_range (drop 2 bs) (wf_bytes_drop 2 bs Hwf)).
  destruct bs as [|b0 [|b1 [|b2 [|b3 bs]]]]; simpl in Hlen; try lia.
  apply Forall_cons in Hwf as [? Hwf]. apply Forall_cons in Hwf as [? Hwf].
  apply Forall_cons in Hwf as [? Hwf]. apply Forall_cons in Hwf as [? Hwf].
  change (drop 4 (b0 :: b1 :: b2 :: b3 :: bs)) with bs in *.
  assert (Hle : length (take oplen bs) = oplen) by (rewrite length_take; lia).
  split; [|split; [done|]; cbn [fst snd]; rewrite Hle; lia].
  unfold put_field. rewrite Hle. unfold oplen at 1. rewrite Z2Nat.id by lia.
  change (drop 2 (b0 :: b1 :: b2 :: b3 :: bs)) with (b2 :: b3 :: bs). rewrite !be16_put_be16 by done.
  rewrite <- !app_assoc, take_drop. done.
Qed.

Lemma decode_fields_Ok fuel bs m m' :
  wf_bytes bs -> decode_fields fuel bs m = Ok m' ->
  exists fs, Forall wf_field fs /\ bs = put_fields fs /\ apply_fields fs m = Ok m'.
Proof.
  revert bs m. induction fuel as [|fuel IH]; intros bs m Hwf; cbn [decode_fields].
  all: destruct (4 <=? length bs)%nat eqn:E4; bool_props.
  1: done.
  1, 3: destruct bs; [|done]; intros [= ->]; exists []; repeat split; constructor.
  destruct (length (drop 4 bs) <? Z.to_nat (be16 (drop 2 bs)))%nat eqn:El; [done|]. bool_props.
  destruct (put_field_split bs Hwf E4 El) as [Hbs Hf].
  destruct (decode_field _ _ m) as [m1|] eqn:Ed; [|done]. cbn [rbind]. intros H.
  apply IH in H as (fs & H1 & H2 & H3); [|auto with ygg].
  exists ((be16 bs, take (Z.to_nat (be16 (drop 2 bs))) (drop 4 bs)) :: fs).
  split; [by constructor|]. split.
  - change (put_fields (?f :: fs)) with (put_field f.1 f.2 ++ put_fields fs). rewrite <- H2. exact Hbs.
  - simpl. rewrite Ed. exact H3.
Qed.

Lemma be16_put_pair bs : wf_bytes bs -> length bs = 2%nat -> be16_put (be16 bs) = bs.
Proof.
  intros Hwf Hlen. destruct bs as [|x [|y [|]]]; try done.
  apply Forall_cons in Hwf as [? Hwf]. apply Forall_cons in Hwf as [? _]. by apply be16_put_be16.
Qed.

Lemma decode_Ok_message m0 r password m rest :
  wf_bytes r -> decode m0 r password = Ok (m, rest) ->
  exists fs sig, Forall wf_field fs /\ length sig = SignatureSize /\
    Z.of_nat (length (put_fields fs ++ sig)) < 65536 /\
    r = message fs sig ++ rest /\ apply_fields fs m0 = Ok m /\
    exists hash, key_hash password (publicKey m) = Ok hash /\ Verify (publicKey m) hash sig = true.
Proof.
  intros Hwf. unfold decode. destruct (ReadFull 6 r) as [[bh r1]|] eqn:E1; [|done]. cbn [rbind].
  apply ReadFull_Ok in E1 as [-> Hbh]. apply wf_bytes_app in Hwf as [Hwbh Hwf].
  case_bool_decide as Hpre; [|done]. cbn [negb].
  destruct (be16 (drop 4 bh) <? _) eqn:El; [done|]. bool_props.
  destruct (ReadFull _ r1) as [[bs r2]|] eqn:E2; [|done]. cbn [rbind].
  apply ReadFull_Ok in E2 as [-> Hbs]. apply wf_bytes_app in Hwf as [Hwbs Hwf].
  assert (Hb : (SignatureSize <= length bs)%nat) by lia.
  pose proof (be16_range _ (wf_bytes_drop 4 _ Hwbh)) as Hr.
  destruct (decode_fields _ _ m0) as [m1|] eqn:Ed; [|done]. cbn [rbind].
  apply decode_fields_Ok in Ed as (fs & H1 & H2 & H3); [|auto with ygg].
  destruct (key_hash password (publicKey m1)) as [hash|[]] eqn:Ek; try done.
  destruct (Verify _ _ _) eqn:Ev; [|done]. intros [= <- <-].
  exists fs, (drop (length bs - SignatureSize) bs).
  rewrite <- H2, take_drop. split; [done|]. split; [rewrite length_drop; lia|]. split; [lia|].
  split; [|eauto]. unfold message. rewrite <- H2, take_drop, Hbs, Z2Nat.id by lia.
  rewrite be16_put_pair by (auto with ygg; rewrite length_drop; lia).
  rewrite <- Hpre, !app_assoc, take_drop. done.
Qed.

Lemma key_hash_Ok password key hash :
  key_hash password key = Ok hash <->
  (length password <= BlakeSize)%nat /\ length key = PublicKeySize /\ hash = blake2b password key.
Proof.
  unfold key_hash. destruct (BlakeSize <? length password)%nat eqn:E1; bool_props.
  - split; [done|]. intros. lia.
  - destruct (length key =? PublicKeySize)%nat eqn:E2; bool_props; simpl; split; try done.
    + by intros [= <-].
    + by intros (_ & _ & ->).
    + by intros (_ & ? & _).
Qed.

(** ** Theorems *)

(** What one side encodes the other side decodes, from any initial state
    of the metadata and with the same password, consuming exactly the
    message; fields with unknown numbers that a later version adds before the
    signature are skipped. *)
Theorem handshake_roundtrip m m0 privateKey password ext rest :
  wf_metadata m -> (length password <= BlakeSize)%nat ->
  signature_laws privateKey (publicKey m) ->
  Forall wf_field ext -> Forall (fun f => 3 < f.1) ext ->
  Z.of_nat (length (put_fields ext)) < 65000 ->
  let sig := Sign privateKey (blake2b password (publicKey m)) in
  encode m privateKey password = Ok (message (meta_fields m) sig) /\
  decode m0 (message (meta_fields m ++ ext) sig ++ rest) password = Ok (m, rest) /\
  check m = bool_decide (majorVer m = 0 /\ minorVer m = 5).
Proof.
  intros Hm Hpw Hlaws Hext Hunk Hsmall sig. pose proof Hm as [Hma Hmi Hk Hp].
  destruct Hlaws as [Hlen Hver]. split; [by eapply encode_message|]. split.
  - assert (Hfs : Forall wf_field (meta_fields m)).
    { unfold meta_fields. repeat constructor; cbn [fst snd]; rewrite ?length_be16_put, ?Hk; vm_compute; intuition congruence. }
    assert (Happ : apply_fields (meta_fields m ++ ext) m0 = Ok m).
    { pose proof (apply_meta_fields m m0 Hm) as H.
      assert (Hskip : forall m, apply_fields ext m = Ok m).
      { clear -Hunk. induction Hunk as [|[op f] l H _ IH]; intros m; [done|]. simpl in *.
        unfold decode_field, metaVersionMajor, metaVersionMinor, metaPublicKey, metaPriority.
        rewrite !(proj2 (Z.eqb_neq _ _)) by lia. apply IH. }
      revert H. generalize (meta_fields m) as l. intros l. revert m0.
      induction l as [|[op f] l IH]; intros m0; simpl; [intros [= ->]; apply Hskip|].
      destruct (decode_field op f m0); [|done]. apply IH. }
    rewrite decode_message.
    + rewrite Happ. cbn [rbind]. rewrite (proj2 (key_hash_Ok password (publicKey m) _)) by eauto.
      by rewrite Hver.
    + by apply Forall_app.
    + apply Hlen.
    + unfold put_fields in *. rewrite map_app, concat_app, !length_app. unfold meta_fields. cbn [map concat fst snd].
      rewrite !length_app, !length_put_field, !length_be16_put, Hk, (Hlen _ : length sig = _).
      unfold PublicKeySize, SignatureSize. simpl. lia.
  - unfold check, ProtocolVersionMajor, ProtocolVersionMinor. rewrite Hk, Nat.eqb_refl.
    destruct (majorVer m =? 0) eqn:E1, (minorVer m =? 5) eqn:E2; bool_props; simpl; symmetry;
      (apply bool_decide_eq_true; lia) || (apply bool_decide_eq_false; lia).
Qed.

(** C3: [decode] accepts a stream exactly when it starts with a well-formed
    message whose last 64 bytes are a signature, valid under the public key
    in the message, of the hash of that key under the local password (of at
    most 64 bytes); the metadata are the fields of the message in order, and
    what follows the message stays in the stream. *)
Theorem decode_authenticates m0 r password m rest :
  wf_bytes r ->
  (decode m0 r password = Ok (m, rest) <->
   exists fs sig,
     Forall wf_field fs /\ length sig = SignatureSize /\
     Z.of_nat (length (put_fields fs ++ sig)) < 65536 /\ r = message fs sig ++ rest /\
     apply_fields fs m0 = Ok m /\
     (length password <= BlakeSize)%nat /\ length (publicKey m) = PublicKeySize /\
     Verify (publicKey m) (blake2b password (publicKey m)) sig = true).
Proof.
  intros Hwf. split.
  - intros H. apply decode_Ok_message in H as (fs & sig & ? & ? & ? & ? & ? & hash & Hh & ?); [|done].
    apply key_hash_Ok in Hh as (? & ? & ->). exists fs, sig. eauto 10.
  - intros (fs & sig & ? & ? & ? & -> & Ha & ? & ? & Hv).
    rewrite decode_message by done. rewrite Ha. cbn [rbind].
    rewrite (proj2 (key_hash_Ok _ _ _)) by eauto. by rewrite Hv.
Qed.

End Crypto.

(** A toy instance of the parameters for the witnesses. *)
Definition toy_blake (password key : bytes) : bytes := password ++ key.
Definition toy_Sign (priv msg : bytes) : bytes := take 64 (priv ++ msg ++ replicate 64 0).
Definition toy_Verify (pub msg sig : bytes) : bool := bool_decide (sig = toy_Sign (take 4 pub) msg).
Definition sample_meta : version_metadata := mkMeta 0 5 (replicate 32 7) 3.

Lemma sample_laws : signature_laws toy_Sign toy_Verify (replicate 4 7) (publicKey sample_meta).
Proof.
  split; intros msg.
  - unfold toy_Sign. rewrite length_take, !length_app, !length_replicate. unfold SignatureSize. lia.
  - by apply bool_decide_eq_true.
Qed.

Lemma handshake_roundtrip_witness :
  decode toy_blake toy_Verify zero_metadata
    (message (meta_fields sample_meta ++ [(9, [1; 2])])
       (toy_Sign (replicate 4 7) (toy_blake [1] (publicKey sample_meta))) ++ [42]) [1]
    = Ok (sample_meta, [42]).
Proof.
  assert (H1 : wf_metadata sample_meta) by (constructor; vm_compute; intuition congruence).
  assert (H2 : (length [1] <= BlakeSize)%nat) by (vm_compute; lia).
  assert (H3 : Forall wf_field [(9, [1; 2])]) by (repeat constructor; vm_compute; congruence).
  assert (H4 : Forall (fun f : Z * bytes => 3 < f.1) [(9, [1; 2])]) by (repeat constructor; vm_compute; congruence).
  assert (H5 : Z.of_nat (length (put_fields [(9, [1; 2])])) < 65000) by (vm_compute; reflexivity).
  exact (proj1 (proj2 (handshake_roundtrip toy_blake toy_Sign toy_Verify sample_meta zero_metadata
    (replicate 4 7) [1] [(9, [1; 2])] [42] H1 H2 sample_laws H3 H4 H5))).
Defined.

Lemma decode_authenticates_witness :
  wf_bytes [109; 101; 116; 97] /\
  forall m rest, decode toy_blake toy_Verify zero_metadata [109; 101; 116; 97] [] <> Ok (m, rest).
Proof.
  assert (H : wf_bytes [109; 101; 116; 97]) by (apply (bool_decide_unpack _); vm_compute; exact I).
  split; [exact H|]. intros m rest Hd.
  apply (decode_authenticates toy_blake toy_Verify zero_metadata [109; 101; 116; 97] [] m rest H) in Hd.
  destruct Hd as (fs & sig & _ & Hs & _ & E & _). apply (f_equal length) in E.
  unfold message in E. rewrite !length_app, Hs in E. cbn -[length SignatureSize] in E.
  vm_compute in E. lia.
Defined.
