(* ===== verification/Links.v ===== *)
(** * Links: peer links of the core (ygglib/core/link.go, transport_url.go)

    Three parts: the options of a peer URL, the handshake of a connection
    ([handler]), and the table of links with the goroutines that dial, accept
    and clean up.  The blocks that run in the links actor ([phony.Block]) are
    atomic; everything between two blocks interleaves (module [Table]). *)

From Stdlib Require Import Ascii.
From S2P Require Import Prelude GoStd Address Handshake Transport.

(** ** Data *)

Inductive linkType := linkTypePersistent | linkTypeEphemeral | linkTypeIncoming.

Global Instance linkType_eq_dec : EqDecision linkType.
Proof. solve_decision. Defined.

Definition Second : Z := 1000000000.
Definition defaultBackoffLimit : Z := Z.shiftl Second 12.
Definition minimumBackoffLimit : Z := Second * 5.

Inductive linkError :=
| ErrLinkAlreadyConfigured
| ErrLinkNotConfigured
| ErrLinkPriorityInvalid
| ErrLinkPinnedKeyInvalid
| ErrLinkPasswordInvalid
| ErrLinkUnrecognisedSchema
| ErrLinkMaxBackoffInvalid
| ErrLinkToSelf
| ErrLinkTransport (e : terror).

Record linkInfo := mkLinkInfo { uri : string; sintf : string }.

Global Instance linkInfo_eq_dec : EqDecision linkInfo.
Proof. solve_decision. Defined.
Global Instance linkInfo_countable : Countable linkInfo.
Proof.
  apply (inj_countable' (fun i => (uri i, sintf i)) (fun p => mkLinkInfo p.1 p.2)). by intros [].
Defined.

Record linkOptions := mkLinkOptions {
  pinnedEd25519Keys : gset bytes;    (* keys are [32]byte arrays *)
  opt_priority : Z;
  password : bytes;
  maxBackoff : Z
}.

(** ** URLs *)

(** transport_url.go: [socks://proxy/host:port] is dialed as [tcp://host:port]. *)
Definition normalizeTransportURL (u : URL) : URL :=
  if negb (bool_decide (Scheme u = "socks"%string)) then u
  else
    let target := TrimPrefix (Path u) "/" in
    if bool_decide (target = ""%string) then u
    else mkURL "tcp" target "" "" (Query u).

Definition urlForLinkInfo (u : URL) : URL :=
  mkURL (Scheme u) (Host u) (Path u) (RawPath u) [].

Definition ensureSchemeSupported (tm : option Manager) (u : URL) : option linkError :=
  match tm with
  | None => Some ErrLinkUnrecognisedSchema
  | Some m => if HasTransport (Scheme u) m then None else Some ErrLinkUnrecognisedSchema
  end.

(** ** Options of a peer URL *)

Definition string_bytes (s : string) : bytes :=
  map (fun c => Z.of_nat (nat_of_ascii c)) (to_chars s).

Fixpoint parse_keys (keys : list string) (pinned : gset bytes) : result linkError (gset bytes) :=
  match keys with
  | [] => Ok pinned
  | pubkey :: keys =>
      match hex_DecodeString pubkey with
      | None => Err ErrLinkPinnedKeyInvalid
      | Some sigPub =>
          let sigPubKey := copy (replicate 32 0) sigPub in
          parse_keys keys ({[sigPubKey]} ∪ pinned)
      end
  end.

Definition parse_priority (q : list (string * string)) : result linkError Z :=
  let p := query_get q "priority" in
  if bool_decide (p = ""%string) then Ok 0
  else match ParseUint 8 p with None => Err ErrLinkPriorityInvalid | Some pi => Ok (u8 pi) end.

Definition parse_password (q : list (string * string)) : result linkError bytes :=
  let p := query_get q "password" in
  if bool_decide (p = ""%string) then Ok []
  else if (BlakeSize <? String.length p)%nat then Err ErrLinkPasswordInvalid
  else Ok (string_bytes p).

Section Options.
(** time.ParseDuration *)
Context (ParseDuration : string -> option Z).

Definition parse_backoff (q : list (string * string)) : result linkError Z :=
  let p := query_get q "maxbackoff" in
  if bool_decide (p = ""%string) then Ok defaultBackoffLimit
  else match ParseDuration p with
  | None => Err ErrLinkMaxBackoffInvalid
  | Some d => if d <? minimumBackoffLimit then Err ErrLinkMaxBackoffInvalid else Ok d
  end.

(** The options of [add], in the order in which the code checks them. *)
Definition add_options (q : list (string * string)) : result linkError linkOptions :=
  let? pinned := parse_keys (query_all q "key") ∅ in
  let? prio := parse_priority q in
  let? pw := parse_password q in
  let? backoff := parse_backoff q in
  Ok (mkLinkOptions pinned prio pw backoff).
End Options.

(** The options of [listen]. *)
Definition listen_options (q : list (string * string)) : result linkError linkOptions :=
  let? prio := parse_priority q in
  let? pw := parse_password q in
  Ok (mkLinkOptions ∅ prio pw 0).

(** [listen] up to the registration of the listener: the result, and the
    transport listener that it opened, with whether it was closed again. *)
Definition listen (tm : option Manager) (ListenWithOptions : URL -> string -> result terror Conn)
    (u : URL) (sintf : string) : result linkError (Conn * linkOptions) * option (Conn * bool) :=
  let transportURL := normalizeTransportURL u in
  match ensureSchemeSupported tm transportURL with
  | Some err => (Err err, None)
  | None =>
      match ListenWithOptions transportURL sintf with
      | Err (ErrUnsupportedScheme _) => (Err ErrLinkUnrecognisedSchema, None)
      | Err err => (Err (ErrLinkTransport err), None)
      | Ok listener =>
          match listen_options (Query u) with
          | Err err => (Err err, Some (listener, false))
          | Ok options => (Ok (listener, options), Some (listener, false))
          end
      end
  end.

Definition connect (tm : option Manager) (DialWithOptions : URL -> string -> result terror Conn)
    (u : URL) (info : linkInfo) : result linkError Conn :=
  let transportURL := normalizeTransportURL u in
  match ensureSchemeSupported tm transportURL with
  | Some err => Err err
  | None =>
      match DialWithOptions transportURL (sintf info) with
      | Err (ErrUnsupportedScheme _) => Err ErrLinkUnrecognisedSchema
      | Err err => Err (ErrLinkTransport err)
      | Ok conn => Ok conn
      end
  end.

(** ** The handshake of a connection *)

Inductive handler_error :=
| HandshakeEncode (e : handshakeError)
| HandshakeSetDeadline
| HandshakeWrite
| HandshakeIncompleteSend
| HandshakeDecode (e : handshakeError)
| HandshakeIncompatible (local_major local_minor remote_major remote_minor : Z)
| HandshakeClearDeadline
| HandshakeToSelf
| HandshakeNotPinned
| HandshakeNotAllowed (key : bytes).

Record identity := mkIdentity {
  public : bytes;
  secret : bytes;
  allowedPublicKeys : gset bytes
}.

(** What the connection does: whether the deadlines can be set, how many
    bytes the write takes, and what can be read. *)
Record conn_io := mkConnIO {
  set_deadline_ok : bool;
  write_result : option nat;
  stream : bytes;
  clear_deadline_ok : bool
}.

Section Handler.
Context (blake2b : bytes -> bytes -> bytes).
Context (Sign : bytes -> bytes -> bytes) (Verify : bytes -> bytes -> bytes -> bool).

Definition hello (core : identity) (options : linkOptions) : version_metadata :=
  set_priority (opt_priority options) (set_publicKey (public core) version_getBaseMetadata).

Definition pinned_ok (options : linkOptions) (key : bytes) : bool :=
  let pinned := pinnedEd25519Keys options in
  if (0 <? Z.of_nat (size pinned)) then bool_decide (copy (replicate 32 0) key ∈ pinned) else true.

Definition allowed_ok (core : identity) (lt : linkType) (local : bool) (key : bytes) : bool :=
  if local then true
  else
    let allowed := allowedPublicKeys core in
    let isallowed := (size allowed =? 0)%nat ||
                     existsb (fun k => bool_decide (k = key)) (elements allowed) in
    negb (bool_decide (lt = linkTypeIncoming) && negb isallowed).

(** [handler] up to [core.HandleConn]: the arguments of that call (the remote
    key and the priority), with the bytes left on the connection. *)
Definition handler (core : identity) (lt : linkType) (options : linkOptions) (conn : conn_io)
    (local : bool) : result handler_error (bytes * Z * bytes) :=
  match encode blake2b Sign (hello core options) (secret core) (password options) with
  | Err e => Err (HandshakeEncode e)
  | Ok metaBytes =>
      if negb (set_deadline_ok conn) then Err HandshakeSetDeadline
      else match write_result conn with
      | None => Err HandshakeWrite
      | Some n =>
          if negb (n =? length metaBytes)%nat then Err HandshakeIncompleteSend
          else match decode blake2b Verify zero_metadata (stream conn) (password options) with
          | Err e => Err (HandshakeDecode e)
          | Ok (meta, rest) =>
              let base := version_getBaseMetadata in
              if negb (check meta) then
                Err (HandshakeIncompatible (majorVer base) (minorVer base) (majorVer meta) (minorVer meta))
              else if negb (clear_deadline_ok conn) then Err HandshakeClearDeadline
              else if bool_decide (publicKey meta = public core) then Err HandshakeToSelf
              else if negb (pinned_ok options (publicKey meta)) then Err HandshakeNotPinned
              else if negb (allowed_ok core lt local (publicKey meta)) then
                Err (HandshakeNotAllowed (publicKey meta))
              else
                let priority :=
                  if opt_priority options <? priority meta then priority meta
                  else opt_priority options in
                Ok (publicKey meta, priority, rest)
          end
      end
  end.

End Handler.

(** ** The table of links *)

Module Table.

Inductive link_error :=
| LinkToSelf
| LinkRemoteClosed            (* "remote side closed the connection" *)
| LinkConnect (e : option linkError)
| LinkOther (e : Z).

(** A [*link] is a pointer into [heap]; [cancelled] says whether [cancel] was
    called, and is [None] when [ctx] and [cancel] are nil. *)
Record link := mkLink {
  cancelled : option bool;
  link_type : linkType;
  linkProto : string;
  _conn : option Conn;
  _err : option link_error;
  _errtime : Z
}.

(** Where the goroutine of [add] stands: at the top of its loop, in
    [connect], before and after the block that installs the connection
    (running the handler), before the block after the handler, in the select
    of [backoffNow], before the deferred block, ended. *)
Inductive out_pc :=
| Top
| Dialing
| Installing (c : Conn)
| Running (c : Conn)
| Finishing (err : link_error)
| Waiting (timeout : option Z)
| Cleanup
| Gone.

(** The goroutine of an accepted connection. *)
Inductive in_pc :=
| InEnter
| InRunning
| InCleanup
| InGone.

Inductive routine :=
| Outbound (ptr : Z) (info : linkInfo) (lt : linkType) (maxb backoff : Z) (pc : out_pc)
| Inbound (ptr : option Z) (info : linkInfo) (proto : string) (c : Conn) (pc : in_pc).

Record links := mkLinks {
  heap : gmap Z link;
  _links : gmap linkInfo Z;
  routines : gmap Z routine;
  conns_closed : gset Conn;
  next : Z;                      (* fresh pointers and goroutine names *)
  core_done : bool               (* the context of the core, from which those of the links are derived *)
}.

Definition init : links := mkLinks ∅ ∅ ∅ ∅ 0 false.

Definition set_heap h w := mkLinks h (_links w) (routines w) (conns_closed w) (next w) (core_done w).
Definition set_links t w := mkLinks (heap w) t (routines w) (conns_closed w) (next w) (core_done w).
Definition set_routines r w := mkLinks (heap w) (_links w) r (conns_closed w) (next w) (core_done w).
Definition close_conn c w :=
  mkLinks (heap w) (_links w) (routines w) ({[c]} ∪ conns_closed w) (next w) (core_done w).
Definition set_next n w := mkLinks (heap w) (_links w) (routines w) (conns_closed w) n (core_done w).
(** [c.cancel()] *)
Definition cancel_core w := mkLinks (heap w) (_links w) (routines w) (conns_closed w) (next w) true.
(** [state.ctx.Done()]: a derived context ends with its parent. *)
Definition ctx_done (l : link) (w : links) : bool := core_done w || default false (cancelled l).

Definition update_link (p : Z) (f : link -> link) (w : links) : links :=
  set_heap (alter f p (heap w)) w.
Definition set_conn c (err : option link_error) (now : Z) (l : link) : link :=
  mkLink (cancelled l) (link_type l) (linkProto l) c err now.
Definition goto (rid : Z) (r : routine) (w : links) : links :=
  set_routines (<[rid := r]> (routines w)) w.

(** The two steps of [backoffNow]: the counter, and the time it waits for
    ([None]: the channel that never delivers). *)
Definition backoff_next (backoff : Z) : Z :=
  if (0 <=? backoff) && (backoff <? 32) then backoff + 1 else backoff.
Definition backoff_timeout (maxb backoff : Z) : option Z :=
  if backoff <? 0 then None
  else
    let duration := i64 (Z.shiftl Second backoff) in
    Some (if maxb <? duration then maxb else duration).

Definition start_backoff (rid p : Z) (info : linkInfo) (lt : linkType) (maxb backoff : Z)
    (w : links) : links :=
  let backoff := backoff_next backoff in
  goto rid (Outbound p info lt maxb backoff (Waiting (backoff_timeout maxb backoff))) w.

(** [state.kick <- struct{}{}] with a default: it reaches the goroutine of
    the link if that waits in [backoffNow]. *)
Definition kick (p : Z) (w : links) : links :=
  set_routines
    ((fun r => match r with
               | Outbound p' info lt maxb backoff (Waiting _) =>
                   if decide (p' = p) then Outbound p' info lt maxb backoff Top else r
               | _ => r
               end) <$> routines w) w.

(** The block of [add], after the options were parsed. *)
Definition add (info : linkInfo) (lt : linkType) (proto : string) (maxb : Z) (w : links)
    : option linkError * links :=
  match _links w !! info with
  | Some state => (Some ErrLinkAlreadyConfigured, kick state w)
  | None =>
      let state := next w in
      let rid := next w + 1 in
      (None,
       mkLinks (<[state := mkLink (Some false) lt proto None None 0]> (heap w))
         (<[info := state]> (_links w))
         (<[rid := Outbound state info lt maxb 0 Top]> (routines w))
         (conns_closed w) (next w + 2) (core_done w))
  end.

(** [remove]: the error, with closing errors of the connection left out.
    [None]: [state.cancel] is nil, and calling it is a panic, which ends the
    process. *)
Definition remove (info : linkInfo) (w : links) : option (option linkError * links) :=
  match _links w !! info with
  | None => Some (Some ErrLinkNotConfigured, w)
  | Some state =>
      match heap w !! state with
      | None => Some (Some ErrLinkNotConfigured, w)
      | Some l =>
          match cancelled l with
          | None => None
          | Some _ =>
              let w := update_link state (fun l => mkLink (Some true) (link_type l) (linkProto l)
                         (_conn l) (_err l) (_errtime l)) w in
              Some (None, match _conn l with Some c => close_conn c w | None => w end)
          end
      end
  end.

(** [shutdown], for the links: every connected one is closed. *)
Definition shutdown (w : links) : links :=
  map_fold (fun _ p w =>
    match heap w !! p with
    | Some l => match _conn l with Some c => close_conn c w | None => w end
    | None => w
    end) w (_links w).

(** [if l._links[info] == state { delete(l._links, info) }] *)
Definition delete_if_same (info : linkInfo) (p : Z) (w : links) : links :=
  if decide (_links w !! info = Some p) then set_links (delete info (_links w)) w else w.

Inductive event :=
| EAdd (info : linkInfo) (lt : linkType) (proto : string) (maxb : Z)
| ERemove (info : linkInfo)
| ECancelCore
| EShutdown
| ETop (rid : Z)                                        (* the select at the top *)
| EDial (rid : Z) (r : result linkError (option Conn)) (now : Z)
| EInstall (rid now : Z)
| EHandled (rid : Z) (established : bool) (err : option link_error)
| EFinish (rid now : Z)
| ETimeout (rid : Z)
| ECancelled (rid : Z)                                  (* ctx.Done() in backoffNow *)
| ECleanup (rid : Z)
| EAccept (info : linkInfo) (proto : string) (c : Conn)
| EInEnter (rid : Z)
| EInHandled (rid : Z)
| EInCleanup (rid : Z).

Definition exec_out (e : event) (rid p : Z) (info : linkInfo) (lt : linkType) (maxb backoff : Z)
    (pc : out_pc) (l : link) (w : links) : option links :=
  let at_pc pc' := goto rid (Outbound p info lt maxb backoff pc') in
  match e, pc with
  | ETop _, Top => Some (at_pc (if ctx_done l w then Cleanup else Dialing) w)
  | EDial _ (Ok (Some c)) _, Dialing => Some (at_pc (Installing c) w)
  | EDial _ r now, Dialing =>
      let err := match r with Ok _ => None | Err e => Some e end in
      if decide (lt = linkTypePersistent) then
        let w := update_link p (set_conn None (Some (LinkConnect err)) now) w in
        Some (start_backoff rid p info lt maxb backoff w)
      else Some (at_pc Cleanup w)
  | EInstall _ now, Installing c =>
      let doRet := match _conn l with Some _ => true | None => false end in
      let w := update_link p (set_conn (Some c) None now) w in
      Some (at_pc (if doRet then Cleanup else Running c) w)
  | EHandled _ established err, Running c =>
      (* success() resets the counter; the connection is closed *)
      let backoff := if established then 0 else backoff in
      let backoff := match err with Some LinkToSelf => -1 | _ => backoff end in
      let err := match err with None => LinkRemoteClosed | Some e => e end in
      Some (close_conn c (goto rid (Outbound p info lt maxb backoff (Finishing err)) w))
  | EFinish _ now, Finishing err =>
      let w := update_link p (set_conn None (Some err) now) w in
      Some (if decide (lt = linkTypePersistent) then start_backoff rid p info lt maxb backoff w
            else at_pc Cleanup w)
  | ETimeout _, Waiting (Some _) => Some (at_pc Top w)
  | ECancelled _, Waiting _ => if ctx_done l w then Some (at_pc Cleanup w) else None
  | ECleanup _, Cleanup => Some (at_pc Gone (delete_if_same info p w))
  | _, _ => None
  end.

Definition exec_in (e : event) (rid : Z) (ptr : option Z) (info : linkInfo) (proto : string)
    (c : Conn) (pc : in_pc) (w : links) : option links :=
  match e, pc with
  | EInEnter _, InEnter =>
      let '(state, l, w) :=
        match _links w !! info with
        | Some p => (p, default (mkLink None linkTypeIncoming proto None None 0) (heap w !! p), w)
        | None =>
            let l := mkLink None linkTypeIncoming proto None None 0 in
            (next w, l, set_next (next w + 1) (set_heap (<[next w := l]> (heap w)) w))
        end in
      match _conn l with
      | Some _ => Some (goto rid (Inbound (Some state) info proto c InCleanup) w)
      | None =>
          let w := update_link state (set_conn (Some c) None 0) w in
          let w := set_links (<[info := state]> (_links w)) w in
          Some (goto rid (Inbound (Some state) info proto c InRunning) w)
      end
  | EInHandled _, InRunning =>
      Some (close_conn c (goto rid (Inbound ptr info proto c InCleanup) w))
  | EInCleanup _, InCleanup =>
      (* the deferred block, then conn.Close() *)
      let w := match ptr with Some p => delete_if_same info p w | None => w end in
      Some (close_conn c (goto rid (Inbound ptr info proto c InGone) w))
  | _, _ => None
  end.

Definition event_rid (e : event) : option Z :=
  match e with
  | ETop rid | EDial rid _ _ | EInstall rid _ | EHandled rid _ _ | EFinish rid _ | ETimeout rid
  | ECancelled rid | ECleanup rid | EInEnter rid | EInHandled rid | EInCleanup rid => Some rid
  | _ => None
  end.

Definition exec (e : event) (w : links) : option links :=
  match e with
  | EAdd info lt proto maxb => Some (add info lt proto maxb w).2
  | ERemove info => snd <$> remove info w
  | ECancelCore => Some (cancel_core w)
  | EShutdown => Some (shutdown w)
  | EAccept info proto c =>
      Some (set_next (next w + 1) (goto (next w) (Inbound None info proto c InEnter) w))
  | _ =>
      match event_rid e with
      | None => None
      | Some rid =>
          match routines w !! rid with
          | Some (Outbound p info lt maxb backoff pc) =>
              match heap w !! p with
              | Some l => exec_out e rid p info lt maxb backoff pc l w
              | None => None
              end
          | Some (Inbound ptr info proto c pc) => exec_in e rid ptr info proto c pc w
          | None => None
          end
      end
  end.

Fixpoint execs (es : list event) (w : links) : option links :=
  match es with
  | [] => Some w
  | e :: es => match exec e w with Some w => execs es w | None => None end
  end.

Inductive reach : links -> Prop :=
| reach_init : reach init
| reach_step w e w' : reach w -> exec e w = Some w' -> reach w'.

End Table.

(** ** Theorems: the handshake *)

Section HandlerTheorems.
Context (blake2b : bytes -> bytes -> bytes).
Context (Sign : bytes -> bytes -> bytes) (Verify : bytes -> bytes -> bytes -> bool).

Abbreviation handler := (handler blake2b Sign Verify).
Abbreviation encode := (encode blake2b Sign).
Abbreviation decode := (decode blake2b Verify).

Lemma pinned_ok_iff options key :
  length key = PublicKeySize ->
  pinned_ok options key = true <-> pinnedEd25519Keys options = ∅ \/ key ∈ pinnedEd25519Keys options.
Proof.
  intros Hk. unfold pinned_ok. rewrite copy_all by (by rewrite length_replicate).
  destruct (0 <? Z.of_nat (size (pinnedEd25519Keys options))) eqn:E; bool_props.
  - rewrite bool_decide_eq_true. split; [by right|]. intros [Hs|]; [|done].
    rewrite Hs, size_empty in E. lia.
  - split; [|done]. intros _. left. apply leibniz_equiv, size_empty_inv. lia.
Qed.

Lemma allowed_ok_iff core lt local key :
  allowed_ok core lt local key = true <->
  (lt = linkTypeIncoming -> local = false ->
   allowedPublicKeys core = ∅ \/ key ∈ allowedPublicKeys core).
Proof.
  unfold allowed_ok. destruct local; [done|].
  assert (Hex : (size (allowedPublicKeys core) =? 0)%nat ||
      existsb (fun k => bool_decide (k = key)) (elements (allowedPublicKeys core)) = true <->
      allowedPublicKeys core = ∅ \/ key ∈ allowedPublicKeys core).
  { rewrite orb_true_iff, Nat.eqb_eq, existsb_exists. split.
    - intros [H|(k & Hk & H)]; [left; by apply leibniz_equiv, size_empty_inv|right].
      bool_props. subst. by apply elem_of_elements, list_elem_of_In.
    - intros [->|H]; [left; apply size_empty|right]. exists key.
      split; [by apply list_elem_of_In, elem_of_elements|by apply bool_decide_eq_true]. }
  rewrite negb_true_iff, andb_false_iff, negb_false_iff, Hex, bool_decide_eq_false.
  destruct lt; intuition congruence.
Qed.

(** C2: [handler] passes a connection to the router exactly when the local
    side sent its complete hello, the remote message authenticates its key
    under the local password and carries the supported version, and the key
    is not the own one, is pinned if any is pinned and, for incoming
    connections that are not local, is allowed if any key is listed; the
    priority is the larger of the two sides'. *)
Theorem handler_spec core lt options conn local key prio rest :
  handler core lt options conn local = Ok (key, prio, rest) <->
  exists hello_bytes meta,
    encode (hello core options) (secret core) (password options) = Ok hello_bytes /\
    set_deadline_ok conn = true /\ write_result conn = Some (length hello_bytes) /\
    decode zero_metadata (stream conn) (password options) = Ok (meta, rest) /\
    clear_deadline_ok conn = true /\
    majorVer meta = ProtocolVersionMajor /\ minorVer meta = ProtocolVersionMinor /\
    key = publicKey meta /\ length key = PublicKeySize /\ key <> public core /\
    (pinnedEd25519Keys options = ∅ \/ key ∈ pinnedEd25519Keys options) /\
    (lt = linkTypeIncoming -> local = false ->
     allowedPublicKeys core = ∅ \/ key ∈ allowedPublicKeys core) /\
    prio = Z.max (opt_priority options) (priority meta).
Proof.
  assert (Hcheck : forall m, check m = true <-> majorVer m = ProtocolVersionMajor /\
    minorVer m = ProtocolVersionMinor /\ length (publicKey m) = PublicKeySize).
  { intros m. unfold check. split.
    - intros H. repeat case_match; try done. by bool_props.
    - intros (-> & -> & ->). done. }
  assert (Hmax : forall a b, (if a <? b then b else a) = Z.max a b).
  { intros a b. destruct (a <? b) eqn:E; bool_props; lia. }
  unfold Links.handler. split.
  - destruct (Handshake.encode _ _ _ _ _) as [hb|] eqn:He; [|done].
    destruct (set_deadline_ok conn) eqn:Es; [|done].
    destruct (write_result conn) as [n|] eqn:Ew; [|done].
    destruct (n =? length hb)%nat eqn:En; [|done].
    destruct (Handshake.decode _ _ _ _ _) as [[meta r]|] eqn:Ed; [|done].
    destruct (check meta) eqn:Ec; [|done]. destruct (clear_deadline_ok conn) eqn:Ecl; [|done].
    destruct (bool_decide (publicKey meta = public core)) eqn:Eself; [done|].
    destruct (pinned_ok options (publicKey meta)) eqn:Ep; [|done].
    destruct (allowed_ok core lt local (publicKey meta)) eqn:Ea; [|done].
    cbn [negb]. rewrite Hmax. intros [= <- <- <-]. bool_props. apply Hcheck in Ec as (? & ? & ?).
    subst n. exists hb, meta. rewrite <- pinned_ok_iff, <- allowed_ok_iff by done. done.
  - intros (hb & meta & -> & -> & -> & -> & -> & ? & ? & -> & ? & Hself & Hp & Ha & ->).
    rewrite Nat.eqb_refl, (proj2 (Hcheck meta)) by done. cbn [negb].
    rewrite bool_decide_false by done.
    rewrite (proj2 (pinned_ok_iff _ _ ltac:(done)) Hp), (proj2 (allowed_ok_iff _ _ _ _) Ha).
    cbn [negb]. by rewrite Hmax.
Qed.

Record acceptable (core : identity) (lt : linkType) (local : bool) (options : linkOptions)
    (remote : bytes) : Prop := {
  acc_self : remote <> public core;
  acc_pinned : pinnedEd25519Keys options = ∅ \/ remote ∈ pinnedEd25519Keys options;
  acc_allowed : lt = linkTypeIncoming -> local = false ->
    allowedPublicKeys core = ∅ \/ remote ∈ allowedPublicKeys core
}.

Definition wf_side (core : identity) (options : linkOptions) : Prop :=
  length (public core) = PublicKeySize /\ wf_byte (opt_priority options) /\
  (length (password options) <= BlakeSize)%nat /\ signature_laws Sign Verify (secret core) (public core).

(** The connection of a side whose remote sends [hello_bytes] and then [more]. *)
Definition quiet_conn (n : nat) (hello_bytes more : bytes) : conn_io :=
  mkConnIO true (Some n) (hello_bytes ++ more) true.

(** C13: two nodes with the same password that accept each other's keys agree:
    each hands the other's key, the same priority and the bytes that follow
    the hello to its router. *)
Theorem handshake_agreement a b lta ltb oa ob loca locb moreA moreB :
  wf_side a oa -> wf_side b ob -> password oa = password ob ->
  acceptable a lta loca oa (public b) -> acceptable b ltb locb ob (public a) ->
  exists ha hb,
    encode (hello a oa) (secret a) (password oa) = Ok ha /\
    encode (hello b ob) (secret b) (password ob) = Ok hb /\
    let prio := Z.max (opt_priority oa) (opt_priority ob) in
    handler a lta oa (quiet_conn (length ha) hb moreB) loca = Ok (public b, prio, moreB) /\
    handler b ltb ob (quiet_conn (length hb) ha moreA) locb = Ok (public a, prio, moreA).
Proof.
  intros (Hka & Hpa & Hpwa & La) (Hkb & Hpb & Hpwb & Lb) Hpw [Sa Pa Aa] [Sb Pb Ab].
  assert (Hwf : forall c o, length (public c) = PublicKeySize -> wf_byte (opt_priority o) ->
    wf_metadata (hello c o)).
  { intros c o ? ?. constructor; simpl; unfold ProtocolVersionMajor, ProtocolVersionMinor; try lia; done. }
  assert (Hdec : forall c o more, wf_metadata (hello c o) -> (length (password o) <= BlakeSize)%nat ->
    signature_laws Sign Verify (secret c) (public c) ->
    exists h, encode (hello c o) (secret c) (password o) = Ok h /\
      decode zero_metadata (h ++ more) (password o) = Ok (hello c o, more)).
  { intros c o more Hm Hp Hl.
    destruct (handshake_roundtrip blake2b Sign Verify (hello c o) zero_metadata (secret c) (password o)
      [] more Hm Hp Hl) as (H1 & H2 & _); [constructor..|simpl; lia|].
    rewrite app_nil_r in H2. eauto. }
  destruct (Hdec a oa moreA) as (ha & Ea & Da); [auto..|].
  destruct (Hdec b ob moreB) as (hb & Eb & Db); [auto..|].
  exists ha, hb. split; [done|]. split; [done|]. split; apply handler_spec.
  - exists ha, (hello b ob). rewrite <- Hpw in Db. simpl. repeat split; auto.
  - exists hb, (hello a oa). rewrite Hpw in Da. simpl. repeat split; auto. lia.
Qed.

End HandlerTheorems.

(** A concrete pair of sides for the witnesses: a signature is the private key
    (the first four bytes of the public one) and the message. *)
Definition side_a : identity := mkIdentity (replicate 32 1) (replicate 4 1) ∅.
Definition side_b : identity := mkIdentity (replicate 32 2) (replicate 4 2) {[replicate 32 1]}.
Definition options_a : linkOptions := mkLinkOptions {[replicate 32 2]} 4 [9] 0.
Definition options_b : linkOptions := mkLinkOptions ∅ 7 [9] 0.

Lemma toy_laws k : signature_laws toy_Sign toy_Verify (replicate 4 k) (replicate 32 k).
Proof.
  split; intros msg.
  - unfold toy_Sign. rewrite length_take, !length_app, !length_replicate. unfold SignatureSize. lia.
  - by apply bool_decide_eq_true.
Qed.

Lemma handshake_agreement_witness :
  exists ha hb,
    encode toy_blake toy_Sign (hello side_a options_a) (secret side_a) (password options_a) = Ok ha /\
    encode toy_blake toy_Sign (hello side_b options_b) (secret side_b) (password options_b) = Ok hb /\
    handler toy_blake toy_Sign toy_Verify side_a linkTypePersistent options_a
      (quiet_conn (length ha) hb []) false = Ok (public side_b, 7, []) /\
    handler toy_blake toy_Sign toy_Verify side_b linkTypeIncoming options_b
      (quiet_conn (length hb) ha []) false = Ok (public side_a, 7, []).
Proof.
  assert (Ha : wf_side toy_Sign toy_Verify side_a options_a).
  { split; [reflexivity|]. split; [vm_compute; intuition congruence|].
    split; [vm_compute; lia | apply (toy_laws 1)]. }
  assert (Hb : wf_side toy_Sign toy_Verify side_b options_b).
  { split; [reflexivity|]. split; [vm_compute; intuition congruence|].
    split; [vm_compute; lia | apply (toy_laws 2)]. }
  assert (Aa : acceptable side_a linkTypePersistent false options_a (public side_b)).
  { constructor; [vm_compute; congruence | right; simpl; set_solver | by left]. }
  assert (Ab : acceptable side_b linkTypeIncoming false options_b (public side_a)).
  { constructor; [vm_compute; congruence | by left | right; simpl; set_solver]. }
  exact (handshake_agreement toy_blake toy_Sign toy_Verify side_a side_b linkTypePersistent
    linkTypeIncoming options_a options_b false false [] [] Ha Hb eq_refl Aa Ab).
Defined.

(** ** Theorems: options *)

(** The array that pins a key: it is padded with zeros, or cut. *)
Definition pin (k : bytes) : bytes := take PublicKeySize (k ++ replicate PublicKeySize 0).

Lemma copy_pin k : copy (replicate 32 0) k = pin k.
Proof.
  unfold copy, pin. rewrite length_replicate. change PublicKeySize with 32%nat. rewrite take_app. f_equal.
  rewrite take_replicate, drop_replicate. f_equal. lia.
Qed.
Lemma pin_key k : length k = PublicKeySize -> pin k = k.
Proof. intros H. unfold pin. rewrite <-H. apply take_app_length. Qed.

(** The value that a parameter gives, [d] when it is absent or empty. *)
Definition param_value {A} (p : string) (d : A) (P : A -> Prop) (v : A) : Prop :=
  (p = ""%string /\ v = d) \/ (p <> ""%string /\ P v).
Definition rejected {A} (p : string) (P : A -> Prop) : Prop := p <> ""%string /\ forall v, ~ P v.

Definition priority_text (p : string) (n : Z) : Prop := ParseUint 8 p = Some n.
Definition password_text (p : string) (pw : bytes) : Prop := (String.length p <= BlakeSize)%nat /\ pw = string_bytes p.
Definition backoff_text (ParseDuration : string -> option Z) (p : string) (d : Z) : Prop :=
  ParseDuration p = Some d /\ minimumBackoffLimit <= d.

Lemma parse_keys_spec keys : forall pinned,
  match parse_keys keys pinned with
  | Ok r => exists ks, Forall2 (fun s k => hex_DecodeString s = Some k) keys ks /\ r = list_to_set (map pin ks) ∪ pinned
  | Err e => e = ErrLinkPinnedKeyInvalid /\ exists s, s ∈ keys /\ hex_DecodeString s = None
  end.
Proof.
  induction keys as [|s keys IH]; intros pinned; cbn [parse_keys].
  - exists []. split; [done|]. cbn. by rewrite (left_id_L ∅ (∪)).
  - destruct (hex_DecodeString s) as [k|] eqn:Es; [|split; [done|]; exists s; split; [left|done]].
    cbv zeta. rewrite copy_pin. specialize (IH ({[pin k]} ∪ pinned)). destruct (parse_keys keys _) as [r|e].
    + destruct IH as (ks & Hks & ->). exists (k :: ks). split; [by constructor|]. cbn [map list_to_set]. set_solver.
    + destruct IH as (-> & s' & Hs' & Hn). split; [done|]. exists s'. split; [by right|done].
Qed.

Lemma parse_priority_spec q :
  match parse_priority q with
  | Ok n => param_value (query_get q "priority") 0 (priority_text (query_get q "priority")) n
  | Err e => e = ErrLinkPriorityInvalid /\ rejected (query_get q "priority") (priority_text (query_get q "priority"))
  end.
Proof.
  unfold parse_priority, param_value, rejected, priority_text. case_bool_decide as E; [by left|].
  destruct (ParseUint 8 _) as [n|] eqn:En; [|by naive_solver]. right. rewrite u8_small; [done|]. by apply (ParseUint_range 8) in En.
Qed.

Lemma parse_password_spec q :
  match parse_password q with
  | Ok pw => param_value (query_get q "password") [] (password_text (query_get q "password")) pw
  | Err e => e = ErrLinkPasswordInvalid /\ rejected (query_get q "password") (password_text (query_get q "password"))
  end.
Proof.
  unfold parse_password, param_value, rejected, password_text. case_bool_decide as E; [by left|].
  destruct (BlakeSize <? _)%nat eqn:El; bool_props; [|by right]. split; [done|]. split; [done|]. intros v [? _]. lia.
Qed.

Lemma parse_backoff_spec ParseDuration q :
  match parse_backoff ParseDuration q with
  | Ok d => param_value (query_get q "maxbackoff") defaultBackoffLimit (backoff_text ParseDuration (query_get q "maxbackoff")) d
  | Err e => e = ErrLinkMaxBackoffInvalid /\ rejected (query_get q "maxbackoff") (backoff_text ParseDuration (query_get q "maxbackoff"))
  end.
Proof.
  unfold parse_backoff, param_value, rejected, backoff_text. case_bool_decide as E; [by left|].
  destruct (ParseDuration _) as [d|]; [|by naive_solver].
  destruct (d <? minimumBackoffLimit) eqn:El; bool_props; [|by right]. split; [done|]. split; [done|]. intros v [[= ->] ?]. lia.
Qed.

Lemma param_value_rejected {A} p (d : A) P v : param_value p d P v -> rejected p P -> False.
Proof. intros [[? _]|[_ H]] [? Hn]; [done|by apply (Hn v)]. Qed.
Lemma param_value_functional {A} p (d : A) P v v' : (forall x y, P x -> P y -> x = y) -> param_value p d P v -> param_value p d P v' -> v = v'.
Proof. intros H [[? ->]|[? ?]] [[? ->]|[? ?]]; [done|done|done|by apply H]. Qed.

Lemma decoded_functional keys ks ks' :
  Forall2 (fun s k => hex_DecodeString s = Some k) keys ks -> Forall2 (fun s k => hex_DecodeString s = Some k) keys ks' -> ks = ks'.
Proof. intros H. revert ks'. induction H; intros ks' H'; inversion H'; simplify_eq; [done|]. f_equal. auto. Qed.

(** What the URL of a peer asks for. *)
Record asked ParseDuration (q : list (string * string)) (o : linkOptions) : Prop := {
  asked_keys : exists ks, Forall2 (fun s k => hex_DecodeString s = Some k) (query_all q "key") ks /\
                          pinnedEd25519Keys o = list_to_set (map pin ks);
  asked_priority : param_value (query_get q "priority") 0 (priority_text (query_get q "priority")) (opt_priority o);
  asked_password : param_value (query_get q "password") [] (password_text (query_get q "password")) (password o);
  asked_backoff : param_value (query_get q "maxbackoff") defaultBackoffLimit (backoff_text ParseDuration (query_get q "maxbackoff")) (maxBackoff o)
}.

Lemma asked_functional ParseDuration q o o' : asked ParseDuration q o -> asked ParseDuration q o' -> o = o'.
Proof.
  intros [(ks & Hk & Ek) H1 H2 H3] [(ks' & Hk' & Ek') H1' H2' H3']. destruct o, o'; cbn in *. rewrite Ek, Ek', (decoded_functional _ _ _ Hk Hk'). f_equal.
  - eapply param_value_functional; [|exact H1|exact H1']. unfold priority_text. congruence.
  - eapply param_value_functional; [|exact H2|exact H2']. unfold password_text. intros x y [_ ->] [_ ->]. done.
  - eapply param_value_functional; [|exact H3|exact H3']. unfold backoff_text. intros x y [? _] [? _]. congruence.
Qed.

Lemma add_options_cases ParseDuration q :
  match add_options ParseDuration q with
  | Ok o => asked ParseDuration q o
  | Err e => (e = ErrLinkPinnedKeyInvalid /\ exists s, s ∈ query_all q "key" /\ hex_DecodeString s = None) \/
             (e = ErrLinkPriorityInvalid /\ rejected (query_get q "priority") (priority_text (query_get q "priority"))) \/
             (e = ErrLinkPasswordInvalid /\ rejected (query_get q "password") (password_text (query_get q "password"))) \/
             (e = ErrLinkMaxBackoffInvalid /\ rejected (query_get q "maxbackoff") (backoff_text ParseDuration (query_get q "maxbackoff")))
  end.
Proof.
  unfold add_options. pose proof (parse_keys_spec (query_all q "key") ∅) as H1. pose proof (parse_priority_spec q) as H2.
  pose proof (parse_password_spec q) as H3. pose proof (parse_backoff_spec ParseDuration q) as H4.
  destruct (parse_keys _ ∅); cbn [rbind]; [|by left]. destruct (parse_priority q); cbn [rbind]; [|by right; left].
  destruct (parse_password q); cbn [rbind]; [|by right; right; left]. destruct (parse_backoff _ q); cbn [rbind]; [|by right; right; right].
  destruct H1 as (ks & Hks & ->). split; cbn; try done. exists ks. by rewrite (right_id_L ∅ (∪)).
Qed.

(** C33: [add] accepts the options of a URL exactly when they are what it asks
    for: the given keys, each decoded and padded or cut to 32 bytes, are pinned; the
    priority is the given decimal byte, or 0; the password is the bytes given, at most
    64, or empty; the backoff limit is the duration given, at least the minimum, or the
    default.  An error names a parameter that is in the URL and has no such value.
    Options that are written into a URL are the options that [add] reads. *)
Theorem add_options_spec ParseDuration :
  (forall q o, add_options ParseDuration q = Ok o <-> asked ParseDuration q o) /\
  (forall q e, add_options ParseDuration q = Err e ->
     (e = ErrLinkPinnedKeyInvalid /\ exists s, s ∈ query_all q "key" /\ hex_DecodeString s = None) \/
     (e = ErrLinkPriorityInvalid /\ rejected (query_get q "priority") (priority_text (query_get q "priority"))) \/
     (e = ErrLinkPasswordInvalid /\ rejected (query_get q "password") (password_text (query_get q "password"))) \/
     (e = ErrLinkMaxBackoffInvalid /\ rejected (query_get q "maxbackoff") (backoff_text ParseDuration (query_get q "maxbackoff")))) /\
  (forall ks prio pw duration d,
     Forall (fun k => length k = PublicKeySize /\ wf_bytes k) ks -> wf_byte prio -> (String.length pw <= BlakeSize)%nat ->
     duration <> ""%string -> ParseDuration duration = Some d -> minimumBackoffLimit <= d ->
     add_options ParseDuration (map (fun k => ("key"%string, hex_EncodeToString k)) ks ++
       [("priority"%string, format_uint8 prio); ("password"%string, pw); ("maxbackoff"%string, duration)]) =
     Ok (mkLinkOptions (list_to_set ks) prio (string_bytes pw) d)).
Proof.
  assert (Hiff : forall q o, add_options ParseDuration q = Ok o <-> asked ParseDuration q o).
  { intros q o. pose proof (add_options_cases ParseDuration q) as H. split; [intros E; by rewrite E in H|]. intros Ho.
    destruct (add_options ParseDuration q) as [o'|e]; [by rewrite (asked_functional _ _ _ _ H Ho)|]. exfalso.
    destruct Ho as [(ks & Hk & _) H1 H2 H3]. destruct H as [[_ (s & Hs & Hn)]|[[_ H]|[[_ H]|[_ H]]]]; [|exact (param_value_rejected _ _ _ _ H1 H)|exact (param_value_rejected _ _ _ _ H2 H)|exact (param_value_rejected _ _ _ _ H3 H)].
    apply list_elem_of_lookup in Hs as [i Hi]. destruct (Forall2_lookup_l _ _ _ _ _ Hk Hi) as (k & _ & Hk'). congruence. }
  split; [done|]. split.
  - intros q e E. pose proof (add_options_cases ParseDuration q) as H. by rewrite E in H.
  - intros ks prio pw duration d Hks Hprio Hpw Hne Hd Hmin. destruct (uint8_roundtrip prio Hprio) as [E1 E2]. apply Hiff.
    set (rest := [("priority"%string, format_uint8 prio); ("password"%string, pw); ("maxbackoff"%string, duration)]).
    assert (Hall : forall key, query_all (map (fun k => ("key"%string, hex_EncodeToString k)) ks ++ rest) key =
      (if bool_decide (key = "key"%string) then map hex_EncodeToString ks else []) ++ query_all rest key).
    { intros key. unfold query_all. rewrite filter_app, map_app. f_equal. clear Hks. induction ks as [|k ks IH]; [by case_bool_decide|].
      cbn [map]. rewrite filter_cons. cbn [fst]. case_bool_decide as Ek; [rewrite decide_True by done; cbn [map snd]; by rewrite IH|].
      by rewrite decide_False by congruence. }
    split; unfold query_get; rewrite Hall; cbn; unfold param_value.
    + exists ks. rewrite app_nil_r. split.
      * clear -Hks. induction Hks as [|k ks [_ Hk] _ IH]; cbn; constructor; [by apply hex_roundtrip|done].
      * f_equal. clear -Hks. induction Hks as [|k ks [Hk _] _ IH]; [done|]. cbn [map list_to_set foldr]. rewrite (pin_key k) by done. by f_equal.
    + by right.
    + destruct pw as [|c pw]; [by left|]. by right.
    + right. done.
Qed.

Lemma add_options_spec_witness :
  add_options (fun _ => Some (60 * Second)) [("key"%string, hex_EncodeToString (replicate 32 171)); ("priority", "7"); ("password", "x"); ("maxbackoff", "1m")]%string =
    Ok (mkLinkOptions {[replicate 32 171]} 7 [120] (60 * Second)).
Proof.
  destruct (add_options_spec (fun _ => Some (60 * Second))) as (_ & _ & H).
  assert (E : {[replicate 32 171]} = (list_to_set [replicate 32 171] : gset bytes)) by (cbn; by rewrite (right_id_L ∅ (∪))).
  rewrite E. apply (H [replicate 32 171] 7 "x"%string "1m"%string (60 * Second)).
  - constructor; [|done]. split; [reflexivity|]. apply Forall_replicate. unfold wf_byte. lia.
  - unfold wf_byte. lia.
  - vm_compute. lia.
  - done.
  - reflexivity.
  - vm_compute. congruence.
Defined.

(** A pinned key of the wrong length is not rejected: [copy] into the
    32-byte array pads a short key with zeros and truncates a long one, so
    the link pins a key that nobody named instead of failing with
    [ErrLinkPinnedKeyInvalid]. *)
Theorem pinned_key_length_unchecked ParseDuration :
  add_options ParseDuration [("key", "aabb")]%string =
    Ok (mkLinkOptions {[ [170; 187] ++ replicate 30 0 ]} 0 [] defaultBackoffLimit) /\
  (forall k x s, length k = PublicKeySize -> hex_DecodeString s = Some (k ++ x) ->
     add_options ParseDuration [("key"%string, s)] =
       Ok (mkLinkOptions {[ k ]} 0 [] defaultBackoffLimit)).
Proof.
  split; [vm_compute; reflexivity|]. intros k x s Hk Hs.
  assert (Hcopy : copy (replicate 32 0) (k ++ x) = k).
  { unfold copy. rewrite length_replicate, take_app_le by (unfold PublicKeySize in *; lia).
    rewrite firstn_all2 by (unfold PublicKeySize in *; lia).
    rewrite drop_ge; [apply app_nil_r|]. rewrite length_app. unfold PublicKeySize in *. simpl. lia. }
  unfold add_options. change (query_all [("key"%string, s)] "key") with [s].
  cbn [parse_keys]. rewrite Hs, Hcopy. simpl.
  by rewrite (right_id_L ∅ (∪)).
Qed.

(** [listen] opens the transport listener before it parses the options
    and returns without closing it when they are invalid: the address stays
    bound by a listener that nobody accepts from. *)
Theorem listen_leaks_listener m ListenWithOptions u sintf listener :
  HasTransport (Scheme (normalizeTransportURL u)) m = true ->
  ListenWithOptions (normalizeTransportURL u) sintf = Ok listener ->
  query_get (Query u) "priority" = "high"%string ->
  listen (Some m) ListenWithOptions u sintf = (Err ErrLinkPriorityInvalid, Some (listener, false)).
Proof.
  intros Hm Hl Hq. unfold listen, ensureSchemeSupported. rewrite Hm, Hl.
  unfold listen_options, parse_priority. by rewrite Hq.
Qed.

Lemma listen_leaks_listener_witness :
  listen (Some (RegisterTransport (Some sample_tcp) (NewManager None)).2) (fun _ _ => Ok 5)
    (mkURL "tcp" "h:1" "" "" [("priority", "high")]%string) ""
    = (Err ErrLinkPriorityInvalid, Some (5, false)).
Proof.
  exact (listen_leaks_listener (RegisterTransport (Some sample_tcp) (NewManager None)).2
    (fun _ _ => Ok 5) (mkURL "tcp" "h:1" "" "" [("priority", "high")]%string) "" 5
    eq_refl eq_refl eq_refl).
Defined.

(** ** Theorems: the table of links *)

Module TableTheorems.
Import Table.

Lemma backoff_iter n : 0 <= Z.of_nat n ->
  Nat.iter n backoff_next 0 = Z.min (Z.of_nat n) 32.
Proof.
  intros _. induction n as [|n IH]; [done|]. rewrite Nat.iter_succ, IH. unfold backoff_next.
  destruct ((0 <=? Z.min (Z.of_nat n) 32) && (Z.min (Z.of_nat n) 32 <? 32)) eqn:E; bool_props.
  - lia.
  - apply andb_false_iff in E as [E|E]; bool_props; lia.
Qed.

(** After the [n]-th consecutive failure the goroutine waits for
    [2^min(n,32)] seconds, cut off at the limit of the link; the shift never
    overflows an [int64], the wait never shrinks from one failure to the
    next, and after [ErrLinkToSelf] it waits for a kick only, for good. *)
Theorem backoff_schedule n maxb :
  backoff_timeout maxb (Nat.iter n backoff_next 0) =
    Some (Z.min maxb (Second * 2 ^ Z.min (Z.of_nat n) 32)) /\
  Second * 2 ^ Z.min (Z.of_nat n) 32 < 2 ^ 63 /\
  Z.min maxb (Second * 2 ^ Z.min (Z.of_nat n) 32) <=
    Z.min maxb (Second * 2 ^ Z.min (Z.of_nat (S n)) 32) /\
  Nat.iter n backoff_next (-1) = -1 /\ backoff_timeout maxb (-1) = None.
Proof.
  assert (Hpow : forall k, 0 <= k <= 32 -> 0 < Second * 2 ^ k < 2 ^ 63).
  { intros k Hk. assert (2 ^ 0 <= 2 ^ k <= 2 ^ 32) by (split; apply Z.pow_le_mono_r; lia).
    unfold Second. lia. }
  pose proof (Hpow (Z.min (Z.of_nat n) 32) ltac:(lia)) as Hb. split; [|split; [lia|split; [|split]]].
  - rewrite backoff_iter by lia. unfold backoff_timeout.
    rewrite (proj2 (Z.ltb_ge _ _)) by lia. rewrite Z.shiftl_mul_pow2, i64_small by lia.
    destruct (maxb <? _) eqn:E; bool_props; f_equal; lia.
  - assert (2 ^ Z.min (Z.of_nat n) 32 <= 2 ^ Z.min (Z.of_nat (S n)) 32) by (apply Z.pow_le_mono_r; lia).
    apply Z.min_le_compat_l, Z.mul_le_mono_nonneg_l; [unfold Second; lia|done].
  - clear Hb. induction n as [|n IH]; [done|]. by rewrite Nat.iter_succ, IH.
  - done.
Qed.

(** *** Entries of the table belong to running goroutines *)

(** The goroutine is still going to run its deferred block for this link. *)
Definition owns (r : routine) (info : linkInfo) (p : Z) : Prop :=
  match r with
  | Outbound p' info' _ _ _ pc => p' = p /\ info' = info /\ pc <> Gone
  | Inbound ptr info' _ _ pc => ptr = Some p /\ info' = info /\ (pc = InRunning \/ pc = InCleanup)
  end.

Record inv (w : links) : Prop := {
  inv_owned : forall info p, _links w !! info = Some p ->
    is_Some (heap w !! p) /\ exists rid r, routines w !! rid = Some r /\ owns r info p;
  inv_heap : forall p, p ∈ dom (heap w) -> p < next w;
  inv_routines : forall rid, rid ∈ dom (routines w) -> rid < next w;
  inv_ptr : forall rid p info lt maxb b pc,
    routines w !! rid = Some (Outbound p info lt maxb b pc) -> is_Some (heap w !! p);
  inv_unique : forall rid rid' p info lt maxb b pc info' lt' maxb' b' pc',
    routines w !! rid = Some (Outbound p info lt maxb b pc) ->
    routines w !! rid' = Some (Outbound p info' lt' maxb' b' pc') -> rid = rid'
}.

(** Two worlds with the same table, pointers and names, whose goroutines own
    the same links. *)
Lemma inv_frame w w' :
  inv w -> _links w' = _links w -> dom (heap w') = dom (heap w) -> next w' = next w ->
  dom (routines w') = dom (routines w) ->
  (forall rid r info p, routines w !! rid = Some r -> owns r info p -> _links w !! info = Some p ->
     exists r', routines w' !! rid = Some r' /\ owns r' info p) ->
  (forall rid p info lt maxb b pc, routines w' !! rid = Some (Outbound p info lt maxb b pc) ->
     exists info lt maxb b pc, routines w !! rid = Some (Outbound p info lt maxb b pc)) ->
  inv w'.
Proof.
  intros Hw Hl Hh Hn Hd Ho Hb. constructor; rewrite ?Hl, ?Hh, ?Hn, ?Hd; try apply Hw.
  - intros info p Hi. destruct (inv_owned _ Hw info p Hi) as (Hp & rid & r & Hr & Hown).
    split; [by rewrite <- elem_of_dom, Hh, elem_of_dom|].
    destruct (Ho rid r info p Hr Hown Hi) as (r' & ? & ?). eauto.
  - intros rid p info lt maxb b pc H. apply Hb in H as (? & ? & ? & ? & ? & H).
    rewrite <- elem_of_dom, Hh, elem_of_dom. by eapply (inv_ptr _ Hw).
  - intros rid rid' p info lt maxb b pc info' lt' maxb' b' pc' H H'.
    apply Hb in H as (? & ? & ? & ? & ? & H). apply Hb in H' as (? & ? & ? & ? & ? & H').
    by eapply (inv_unique _ Hw).
Qed.

Lemma links_inv_init : inv init.
Proof. constructor; simpl; set_solver. Qed.

Lemma dom_update_link p f w : dom (heap (update_link p f w)) = dom (heap w).
Proof. unfold update_link. simpl. apply dom_alter_L. Qed.

(** A goroutine moves on, keeping its link. *)
Lemma inv_move w w' rid p info lt maxb b pc b' pc' :
  inv w -> routines w !! rid = Some (Outbound p info lt maxb b pc) -> pc' <> Gone ->
  _links w' = _links w -> dom (heap w') = dom (heap w) -> next w' = next w ->
  routines w' = <[rid := Outbound p info lt maxb b' pc']> (routines w) ->
  inv w'.
Proof.
  intros Hw Hr Hpc Hl Hh Hn Hrs. apply (inv_frame w); auto; rewrite Hrs.
  - rewrite dom_insert_L. apply elem_of_dom_2 in Hr. set_solver.
  - intros rid0 r info0 p0 Hr0 Ho _. destruct (decide (rid0 = rid)) as [->|Hne].
    + rewrite lookup_insert_eq. rewrite Hr in Hr0. injection Hr0 as <-.
      eexists. split; [done|]. destruct Ho as (? & ? & ?). done.
    + rewrite lookup_insert_ne by done. eauto.
  - intros rid0 p0 info0 lt0 maxb0 b0 pc0 [[<- [= <- <- <- <- <- <-]]|[_ H]]%lookup_insert_Some; eauto 10.
Qed.

(** A goroutine ends, after it deleted its own entry. *)
Lemma inv_end w w' rid r r' p info :
  inv w -> routines w !! rid = Some r ->
  (forall info' p', owns r info' p' -> info' = info /\ p' = p) ->
  (forall p info lt maxb b pc, r' = Outbound p info lt maxb b pc ->
     exists info lt maxb b pc, r = Outbound p info lt maxb b pc) ->
  _links w' = _links (delete_if_same info p w) -> heap w' = heap w -> next w' = next w ->
  routines w' = <[rid := r']> (routines w) -> inv w'.
Proof.
  intros Hw Hr Hown Hout Hl Hh Hn Hrs. constructor; rewrite ?Hl, ?Hh, ?Hn, ?Hrs; try apply Hw.
  - intros i q Hi. assert (Hi' : _links w !! i = Some q /\ ~ (i = info /\ q = p)).
    { unfold delete_if_same in Hi. destruct (decide (_links w !! info = Some p)) as [E|E]; simpl in Hi.
      - apply lookup_delete_Some in Hi as [? ?]. split; [done|]. by intros [-> _].
      - split; [done|]. intros [-> ->]. congruence. }
    destruct Hi' as [Hi' Hne]. destruct (inv_owned _ Hw i q Hi') as (Hp & rid0 & r0 & Hr0 & Ho).
    split; [done|]. exists rid0, r0. split; [|done]. rewrite lookup_insert_ne; [done|].
    intros ->. rewrite Hr in Hr0. injection Hr0 as <-. by apply Hne, Hown.
  - intros rid0. rewrite dom_insert. apply elem_of_dom_2 in Hr as Hd.
    intros [->%elem_of_singleton|H]%elem_of_union; by apply (inv_routines _ Hw).
  - intros rid0 p0 info0 lt0 maxb0 b0 pc0 [[<- H]|[_ H]]%lookup_insert_Some; [|by eapply (inv_ptr _ Hw)].
    destruct (Hout _ _ _ _ _ _ H) as (? & ? & ? & ? & ? & ->). by eapply (inv_ptr _ Hw).
  - intros rid0 rid1 p0 i0 l0 m0 b0 pc0 i1 l1 m1 b1 pc1 H0 H1.
    assert (H : forall rid0 i l m b pc, <[rid:=r']> (routines w) !! rid0 = Some (Outbound p0 i l m b pc) ->
      exists i l m b pc, routines w !! rid0 = Some (Outbound p0 i l m b pc)).
    { intros rid2 i l m b pc [[<- H]|[_ H]]%lookup_insert_Some; [|eauto 10].
      destruct (Hout _ _ _ _ _ _ H) as (? & ? & ? & ? & ? & ->). eauto 10. }
    apply H in H0 as (? & ? & ? & ? & ? & H0). apply H in H1 as (? & ? & ? & ? & ? & H1).
    by eapply (inv_unique _ Hw).
Qed.

Lemma owns_kick p r info q :
  owns (match r with
        | Outbound p' info' lt maxb b (Waiting _) =>
            if decide (p' = p) then Outbound p' info' lt maxb b Top else r
        | _ => r
        end) info q <-> owns r info q.
Proof. destruct r as [? ? ? ? ? []|]; try done. case_decide; simpl; intuition congruence. Qed.

Lemma inv_kick p w : inv w -> inv (kick p w).
Proof.
  intros Hw. apply (inv_frame w); auto; unfold kick; simpl.
  - apply dom_fmap_L.
  - intros rid r info q Hr Ho _. rewrite lookup_fmap, Hr. eexists. split; [done|]. by apply owns_kick.
  - intros rid q info lt maxb b pc. rewrite lookup_fmap.
    destruct (routines w !! rid) as [[? ? ? ? ? []|]|]; simpl; try case_decide;
      intros [= <- <- <- <- <- <-] || intros [=]; subst; eauto 10.
Qed.

Lemma inv_close_conn c w : inv w -> inv (close_conn c w).
Proof. intros []. by constructor. Qed.

Lemma inv_update_link p f w : inv w -> inv (update_link p f w).
Proof.
  intros Hw. apply (inv_frame w); auto; [apply dom_update_link | eauto | eauto 10].
Qed.

Lemma inv_add info lt proto maxb w : inv w -> inv (add info lt proto maxb w).2.
Proof.
  intros Hw. unfold add. destruct (_links w !! info) as [p|] eqn:El; [by apply inv_kick|]. simpl.
  assert (Hf : heap w !! next w = None).
  { apply not_elem_of_dom. intros H%(inv_heap _ Hw). lia. }
  assert (Hr : forall rid, next w <= rid -> routines w !! rid = None).
  { intros rid Hle. apply not_elem_of_dom. intros H%(inv_routines _ Hw). lia. }
  constructor; simpl.
  - intros i q [[<- <-]|[Hne Hi]]%lookup_insert_Some.
    + rewrite lookup_insert_eq. split; [done|]. exists (next w + 1).
      eexists. rewrite lookup_insert_eq. split; [done|]. done.
    + destruct (inv_owned _ Hw i q Hi) as (Hq & rid & r & Hrid & Ho).
      split; [rewrite lookup_insert_is_Some; destruct (decide (next w = q)); auto|].
      exists rid, r. rewrite lookup_insert_ne; [done|]. intros <-. rewrite Hr in Hrid by lia. done.
  - intros q. rewrite dom_insert. intros [->%elem_of_singleton|H%(inv_heap _ Hw)]%elem_of_union; lia.
  - intros q. rewrite dom_insert. intros [->%elem_of_singleton|H%(inv_routines _ Hw)]%elem_of_union; lia.
  - intros rid q i l m b pc [[<- [= <- _ _ _ _ _]]|[_ H]]%lookup_insert_Some.
    + by rewrite lookup_insert_eq.
    + apply (inv_ptr _ Hw) in H. rewrite lookup_insert_is_Some. destruct (decide (next w = q)); auto.
  - intros rid rid' q i l m b pc i' l' m' b' pc'.
    intros [[<- [= <- _ _ _ _ _]]|[Hne H]]%lookup_insert_Some
           [[<- E]|[Hne' H']]%lookup_insert_Some.
    + done.
    + apply (inv_ptr _ Hw) in H' as [? H']. congruence.
    + injection E as <- _ _ _ _ _. apply (inv_ptr _ Hw) in H as [? H]. congruence.
    + by eapply (inv_unique _ Hw).
Qed.

Lemma inv_remove info w e w' : inv w -> remove info w = Some (e, w') -> inv w'.
Proof.
  intros Hw. unfold remove. repeat case_match; intros [= <- <-]; auto using inv_close_conn, inv_update_link.
Qed.

Lemma inv_cancel_core w : inv w -> inv (cancel_core w).
Proof. intros []. by constructor. Qed.

Lemma inv_shutdown w : inv w -> inv (shutdown w).
Proof.
  intros Hw. unfold shutdown. apply (map_fold_weak_ind (fun r _ => inv r)); [done|].
  intros i p m r _ Hr. repeat case_match; auto using inv_close_conn.
Qed.

Lemma inv_spawn_in info proto c w :
  inv w -> inv (set_next (next w + 1) (goto (next w) (Inbound None info proto c InEnter) w)).
Proof.
  intros Hw. assert (Hr : routines w !! next w = None).
  { apply not_elem_of_dom. intros H%(inv_routines _ Hw). lia. }
  constructor; simpl.
  - intros i q Hi. destruct (inv_owned _ Hw i q Hi) as (Hq & rid & r & Hrid & Ho).
    split; [done|]. exists rid, r. rewrite lookup_insert_ne; [done|congruence].
  - intros q Hq%(inv_heap _ Hw). lia.
  - intros q. rewrite dom_insert. intros [->%elem_of_singleton|H%(inv_routines _ Hw)]%elem_of_union; lia.
  - intros rid q i l m b pc [[_ [=]]|[_ H]]%lookup_insert_Some. by eapply (inv_ptr _ Hw).
  - intros rid rid' q i l m b pc i' l' m' b' pc' [[_ [=]]|[_ H]]%lookup_insert_Some
      [[_ [=]]|[_ H']]%lookup_insert_Some. by eapply (inv_unique _ Hw).
Qed.

(** The block that a new connection runs: it joins the link of the table if
    that has no connection, and a new link otherwise. *)
Lemma inv_enter w rid ptr info proto c w' :
  inv w -> routines w !! rid = Some (Inbound ptr info proto c InEnter) ->
  exec_in (EInEnter rid) rid ptr info proto c InEnter w = Some w' -> inv w'.
Proof.
  intros Hw Hr. unfold exec_in. destruct (_links w !! info) as [p|] eqn:El.
  - destruct (inv_owned _ Hw info p El) as ([l Hl] & rid0 & r0 & Hr0 & Ho0). rewrite Hl. simpl.
    assert (Hstep : forall pc w1, pc = InRunning \/ pc = InCleanup ->
      _links w1 = _links w -> dom (heap w1) = dom (heap w) -> next w1 = next w -> routines w1 = routines w ->
      inv (goto rid (Inbound (Some p) info proto c pc) w1)).
    { intros pc w1 Hpc H1 H2 H3 H4. apply (inv_frame w); auto; unfold goto; simpl; rewrite ?H4.
      - rewrite dom_insert_L. apply elem_of_dom_2 in Hr. set_solver.
      - intros rid1 r i q Hr1 Ho _. destruct (decide (rid1 = rid)) as [->|Hne].
        + rewrite Hr in Hr1. injection Hr1 as <-. by destruct Ho as (_ & _ & [|]).
        + rewrite lookup_insert_ne by done. eauto.
      - intros rid1 q i l1 m b pc1 [[_ [=]]|[_ H]]%lookup_insert_Some. eauto 10. }
    destruct (_conn l); intros [= <-]; [by apply Hstep; auto|].
    apply Hstep; auto; simpl; [by apply insert_id|].
    apply dom_alter_L.
  - simpl. intros [= <-].
    assert (Hf : heap w !! next w = None).
    { apply not_elem_of_dom. intros H%(inv_heap _ Hw). lia. }
    unfold update_link, goto. simpl. constructor; simpl.
    + intros i q [[<- <-]|[Hne Hi]]%lookup_insert_Some.
      * rewrite lookup_alter_eq, lookup_insert_eq. split; [done|]. exists rid.
        eexists. rewrite lookup_insert_eq. split; [done|]. simpl. auto.
      * destruct (inv_owned _ Hw i q Hi) as (Hq & rid0 & r & Hrid & Ho).
        assert (next w <> q) by (destruct Hq; congruence).
        rewrite lookup_alter_ne, lookup_insert_ne by done. split; [done|]. exists rid0, r.
        rewrite lookup_insert_ne; [done|]. intros <-. rewrite Hr in Hrid. injection Hrid as <-. by destruct Ho as (_ & _ & [|]).
    + intros q. rewrite dom_alter, dom_insert.
      intros [->%elem_of_singleton|H%(inv_heap _ Hw)]%elem_of_union; lia.
    + intros q. rewrite dom_insert. apply elem_of_dom_2 in Hr.
      intros [->%elem_of_singleton|H%(inv_routines _ Hw)]%elem_of_union; [|lia].
      apply (inv_routines _ Hw) in Hr. lia.
    + intros rid0 q i l m b pc [[_ [=]]|[_ H]]%lookup_insert_Some. apply (inv_ptr _ Hw) in H.
      assert (next w <> q) by (destruct H; congruence).
      by rewrite lookup_alter_ne, lookup_insert_ne.
    + intros rid0 rid' q i l m b pc i' l' m' b' pc' [[_ [=]]|[_ H]]%lookup_insert_Some
        [[_ [=]]|[_ H']]%lookup_insert_Some. by eapply (inv_unique _ Hw).
Qed.

Lemma inv_in_move w rid ptr info proto c pc pc' :
  inv w -> routines w !! rid = Some (Inbound ptr info proto c pc) ->
  (forall i q, owns (Inbound ptr info proto c pc) i q -> owns (Inbound ptr info proto c pc') i q) ->
  inv (goto rid (Inbound ptr info proto c pc') w).
Proof.
  intros Hw Hr Ho. apply (inv_frame w); auto; unfold goto; simpl.
  - rewrite dom_insert_L. apply elem_of_dom_2 in Hr. set_solver.
  - intros rid1 r i q Hr1 Hown _. destruct (decide (rid1 = rid)) as [->|Hne].
    + rewrite Hr in Hr1. injection Hr1 as <-. rewrite lookup_insert_eq. eauto.
    + rewrite lookup_insert_ne by done. eauto.
  - intros rid1 q i l1 m b pc1 [[_ [=]]|[_ H]]%lookup_insert_Some. eauto 10.
Qed.

Lemma inv_exec_out e rid p info lt maxb b pc l w w' :
  inv w -> routines w !! rid = Some (Outbound p info lt maxb b pc) -> heap w !! p = Some l ->
  exec_out e rid p info lt maxb b pc l w = Some w' -> inv w'.
Proof.
  intros Hw Hr Hl H.
  assert (Hmove : forall w' b' pc', pc' <> Gone ->
    _links w' = _links w -> dom (heap w') = dom (heap w) -> next w' = next w ->
    routines w' = <[rid := Outbound p info lt maxb b' pc']> (routines w) -> inv w').
  { intros. by eapply inv_move. }
  unfold exec_out in H.
  destruct e, pc; try discriminate H; repeat case_match; simplify_eq; unfold start_backoff.
  all: try (eapply Hmove; [| | | |reflexivity]; [done|done|first [done | exact (dom_update_link _ _ _)]|done]).
  eapply inv_end with (p := p) (info := info) (r' := Outbound p info lt maxb b Gone);
    [exact Hw|exact Hr|..].
  - intros i q (-> & -> & _). done.
  - intros p0 i0 l0 m0 b0 pc0 [= <- <- <- <- <- <-]. eauto 10.
  - done.
  - unfold delete_if_same. by case_decide.
  - unfold delete_if_same. by case_decide.
  - unfold delete_if_same. by case_decide.
Qed.

Lemma links_inv_exec e w w' : inv w -> exec e w = Some w' -> inv w'.
Proof.
  intros Hw. unfold exec.
  assert (Hstep : forall rid, event_rid e = Some rid ->
    match routines w !! rid with
    | Some (Outbound p info lt maxb backoff pc) =>
        match heap w !! p with
        | Some l => exec_out e rid p info lt maxb backoff pc l w
        | None => None
        end
    | Some (Inbound ptr info proto c pc) => exec_in e rid ptr info proto c pc w
    | None => None
    end = Some w' -> inv w').
  { intros rid He. destruct (routines w !! rid) as [[p info lt maxb b pc|ptr info proto c pc]|] eqn:Hr; [| |done].
    - destruct (heap w !! p) as [l|] eqn:Hl; [|done]. by eapply inv_exec_out.
    - destruct e; try discriminate He; simpl in He; injection He as ->;
        destruct pc; try discriminate.
      + by eapply inv_enter.
      + intros [= <-]. apply inv_close_conn. eapply inv_in_move; [done..|].
        intros i q (-> & -> & _). simpl. auto.
      + intros [= <-]. apply inv_close_conn.
        destruct ptr as [p|].
        * eapply inv_end with (p := p) (info := info) (r := Inbound (Some p) info proto c InCleanup)
            (r' := Inbound (Some p) info proto c InGone); [exact Hw|exact Hr|..].
          -- intros i q ([= ->] & -> & _). done.
          -- done.
          -- done.
          -- unfold delete_if_same. by case_decide.
          -- unfold delete_if_same. by case_decide.
          -- unfold delete_if_same. by case_decide.
        * eapply inv_in_move; [done..|]. by intros i q (? & _). }
  destruct e; try (intros H; eapply Hstep; [reflexivity|exact H]); try (intros [= <-]).
  - by apply inv_add.
  - intros ([e w1] & He & ->)%fmap_Some. by eapply inv_remove.
  - by apply inv_cancel_core.
  - by apply inv_shutdown.
  - by apply inv_spawn_in.
Qed.

Lemma links_inv_reach w : reach w -> inv w.
Proof. induction 1; [apply links_inv_init|by eapply links_inv_exec]. Qed.

(** *** Cancelled links stay cancelled *)

Definition heap_le (w w' : links) : Prop :=
  forall p l, heap w !! p = Some l ->
    exists l', heap w' !! p = Some l' /\ (cancelled l = Some true -> cancelled l' = Some true).

Lemma heap_le_refl w w' : heap w' = heap w -> heap_le w w'.
Proof. intros E p l. rewrite E. eauto. Qed.

Lemma heap_le_trans w1 w2 w3 : heap_le w1 w2 -> heap_le w2 w3 -> heap_le w1 w3.
Proof.
  intros H1 H2 p l Hl. destruct (H1 p l Hl) as (l2 & Hl2 & ?). destruct (H2 p l2 Hl2) as (l3 & ? & ?). eauto.
Qed.

Lemma heap_le_update p f w w' :
  heap w' = heap (update_link p f w) -> (forall l, cancelled l = Some true -> cancelled (f l) = Some true) ->
  heap_le w w'.
Proof.
  intros E Hf q l Hl. rewrite E. unfold update_link. simpl. destruct (decide (q = p)) as [->|Hne].
  - rewrite lookup_alter_eq, Hl. simpl. eauto.
  - rewrite lookup_alter_ne by done. eauto.
Qed.

Lemma heap_le_fresh p l w w' : heap w !! p = None -> heap w' = <[p := l]> (heap w) -> heap_le w w'.
Proof. intros Hf E q l' Hl. rewrite E. rewrite lookup_insert_ne by congruence. eauto. Qed.

Lemma heap_shutdown w : heap (shutdown w) = heap w.
Proof.
  unfold shutdown. apply (map_fold_weak_ind (fun r _ => heap r = heap w)); [done|].
  intros i p m r _ Hr. repeat case_match; simpl; congruence.
Qed.

Lemma routines_shutdown w : routines (shutdown w) = routines w.
Proof.
  unfold shutdown. apply (map_fold_weak_ind (fun r _ => routines r = routines w)); [done|].
  intros i p m r _ Hr. repeat case_match; simpl; congruence.
Qed.

Ltac heap_step :=
  first [ apply heap_le_refl; unfold delete_if_same; repeat case_match; reflexivity
        | eapply heap_le_update; [reflexivity | intros []; done] ].

Lemma exec_heap e w w' : inv w -> exec e w = Some w' -> heap_le w w'.
Proof.
  intros Hw. assert (Hf : heap w !! next w = None).
  { apply not_elem_of_dom. intros H%(inv_heap _ Hw). lia. }
  unfold exec. destruct e; simpl; try (intros [= <-]).
  all: try (destruct (routines w !! rid) as [[p info lt maxb b pc|ptr info proto c pc]|] eqn:Hr; [| |done]).
  all: try (destruct (heap w !! p) as [l|] eqn:Hl; [|done]).
  all: try (destruct pc; done).
  all: try (unfold exec_out, start_backoff; destruct pc; try done; repeat case_match; try done; intros [= <-]; heap_step).
  - unfold add. case_match; [by apply heap_le_refl|]. simpl. by eapply heap_le_fresh.
  - intros ([e w1] & He & ->)%fmap_Some. unfold remove in He. repeat case_match; simplify_eq/=; heap_step.
  - by apply heap_le_refl.
  - apply heap_le_refl, heap_shutdown.
  - by apply heap_le_refl.
  - destruct pc; [|done..]. unfold exec_in. destruct (_links w !! info) as [p|] eqn:El.
    + case_match; intros [= <-]; [by apply heap_le_refl|]. eapply heap_le_update; [reflexivity|intros []; done].
    + simpl. intros [= <-]. eapply heap_le_trans; [by eapply (heap_le_fresh (next w) _ w (set_heap _ w))|].
      eapply heap_le_update; [reflexivity|intros []; done].
Qed.

(** The goroutine of a link only starts to dial from the top of its loop. *)
Lemma exec_dialing e w w' rid p info lt maxb b :
  exec e w = Some w' ->
  routines w' !! rid = Some (Outbound p info lt maxb b Dialing) ->
  exists info lt maxb b,
    routines w !! rid = Some (Outbound p info lt maxb b Dialing) \/
    routines w !! rid = Some (Outbound p info lt maxb b Top) /\
    exists l, heap w !! p = Some l /\ ctx_done l w = false.
Proof.
  intros He.
  assert (Hkick : forall q, routines (kick q w) !! rid = Some (Outbound p info lt maxb b Dialing) ->
    routines w !! rid = Some (Outbound p info lt maxb b Dialing)).
  { intros q. unfold kick. simpl. rewrite lookup_fmap.
    destruct (routines w !! rid) as [[? ? ? ? ? []|]|]; simpl; try case_decide; congruence. }
  assert (Hget : forall r0 r1, <[r0 := r1]> (routines w) !! rid = Some (Outbound p info lt maxb b Dialing) ->
    (rid = r0 /\ r1 = Outbound p info lt maxb b Dialing) \/
    routines w !! rid = Some (Outbound p info lt maxb b Dialing)).
  { intros r0 r1 [[<- E]|[_ E]]%lookup_insert_Some; auto. }
  intros HR. enough (routines w !! rid = Some (Outbound p info lt maxb b Dialing) \/
    (routines w !! rid = Some (Outbound p info lt maxb b Top) /\
     exists l, heap w !! p = Some l /\ ctx_done l w = false)) by eauto 10.
  unfold exec in He. destruct e; simpl in He; simplify_eq.
  { left. unfold add in HR. case_match; [by eapply Hkick|]. simpl in HR.
    by apply Hget in HR as [[_ [=]]|HR]. }
  { left. apply fmap_Some in He as ([e0 w1] & He & ->). unfold remove in He. by repeat case_match; simplify_eq/=. }
  { left. exact HR. }
  { left. by rewrite routines_shutdown in HR. }
  all: try (left; by apply Hget in HR as [[_ [=]]|HR]).
  all: destruct (routines w !! rid0) as [[p0 info0 lt0 maxb0 b0 pc0|ptr0 info0 proto0 c0 pc0]|] eqn:Hr; [| |done].
  all: try (destruct (heap w !! p0) as [l0|] eqn:Hl; [|done]).
  all: unfold exec_out, exec_in, start_backoff, delete_if_same in He; destruct pc0; try discriminate He.
  all: try (left; repeat case_match; simplify_eq/=; by apply Hget in HR as [[_ [=]]|HR]).
  simplify_eq/=. destruct (ctx_done l0 w) eqn:Ec; apply Hget in HR as [[-> [=]]|HR]; subst; eauto.
Qed.

(** *** What grows *)

Lemma closed_shutdown_grows w : conns_closed w ⊆ conns_closed (shutdown w).
Proof.
  unfold shutdown. apply (map_fold_weak_ind (fun r _ => conns_closed w ⊆ conns_closed r)); [done|].
  intros i p m r _ Hr. repeat case_match; simpl; set_solver.
Qed.
Lemma core_done_shutdown w : core_done (shutdown w) = core_done w.
Proof.
  unfold shutdown. apply (map_fold_weak_ind (fun r _ => core_done r = core_done w)); [done|].
  intros i p m r _ Hr. repeat case_match; simpl; congruence.
Qed.
Lemma closed_shutdown w info p l c :
  _links w !! info = Some p -> heap w !! p = Some l -> _conn l = Some c -> c ∈ conns_closed (shutdown w).
Proof.
  intros Hi Hp Hc. unfold shutdown. revert info p l c Hi Hp Hc.
  match goal with |- forall info p l c, _ -> _ -> _ -> c ∈ conns_closed ?r =>
    enough (heap r = heap w /\ forall info p l c, _links w !! info = Some p -> heap w !! p = Some l -> _conn l = Some c -> c ∈ conns_closed r) by tauto end.
  apply (map_fold_weak_ind (fun r m => heap r = heap w /\
    forall info p l c, m !! info = Some p -> heap w !! p = Some l -> _conn l = Some c -> c ∈ conns_closed r));
    [split; [done|]; intros info p l c Hi; by rewrite lookup_empty in Hi|].
  intros i q m r _ [Hh IH]. split; [repeat case_match; done|].
  intros info p l c [[<- <-]|[_ Hi]]%lookup_insert_Some Hp Hc.
  - rewrite Hh, Hp, Hc. simpl. set_solver.
  - specialize (IH _ _ _ _ Hi Hp Hc). repeat case_match; simpl; set_solver.
Qed.

Lemma exec_grows e w w' : exec e w = Some w' ->
  conns_closed w ⊆ conns_closed w' /\ (core_done w = true -> core_done w' = true).
Proof.
  unfold exec. destruct e; simpl; try (intros [= <-]; done).
  all: try (destruct (routines w !! rid) as [[p info lt maxb b pc|ptr info proto c pc]|]; [| |done]).
  all: try (destruct (heap w !! p) as [l|]; [|done]).
  all: try (unfold exec_out, exec_in, start_backoff, delete_if_same; destruct pc; try done; repeat case_match; try done; intros; simplify_eq/=; (split; [set_solver|done])).
  - intros [= <-]. unfold add. by case_match.
  - intros ([e w1] & He & ->)%fmap_Some. unfold remove in He. repeat case_match; simplify_eq/=; (split; [set_solver|done]).
  - intros [= <-]. rewrite core_done_shutdown. split; [apply closed_shutdown_grows|done].
Qed.

Definition ended (r : routine) : Prop :=
  match r with
  | Outbound _ _ _ _ _ pc => pc = Gone
  | Inbound _ _ _ _ pc => pc = InGone
  end.

(** C14: in every interleaving, an entry of the table belongs to a goroutine
    that has not run its deferred block yet, so the table keeps no stale
    entry: once all goroutines ended, it is empty and every peer can be added
    again; and a peer that is not in the table is added with a goroutine of
    its own, while one that is there is only kicked. *)
Theorem no_stale_entries w :
  reach w ->
  (forall info p, _links w !! info = Some p ->
     exists rid r, routines w !! rid = Some r /\ owns r info p /\ ~ ended r) /\
  ((forall rid r, routines w !! rid = Some r -> ended r) -> _links w = ∅) /\
  (forall info lt proto maxb,
     match _links w !! info with
     | Some p => add info lt proto maxb w = (Some ErrLinkAlreadyConfigured, kick p w)
     | None => exists rid p w', add info lt proto maxb w = (None, w') /\
         _links w' = <[info := p]> (_links w) /\
         heap w' !! p = Some (mkLink (Some false) lt proto None None 0) /\
         routines w' = <[rid := Outbound p info lt maxb 0 Top]> (routines w) /\
         (rid ∉ dom (routines w)) /\ (p ∉ dom (heap w))
     end).
Proof.
  intros Hr%links_inv_reach.
  assert (H : forall info p, _links w !! info = Some p ->
     exists rid r, routines w !! rid = Some r /\ owns r info p /\ ~ ended r).
  { intros info p Hp. destruct (inv_owned _ Hr info p Hp) as (_ & rid & r & ? & Ho).
    exists rid, r. split; [done|]. split; [done|]. destruct r; simpl in *; intuition congruence. }
  split; [done|]. split.
  - intros He. apply map_empty. intros info. destruct (_links w !! info) as [p|] eqn:E; [|done].
    destruct (H info p E) as (rid & r & ? & _ & Hn). by destruct (Hn (He rid r ltac:(done))).
  - intros info lt proto maxb. unfold add. destruct (_links w !! info); [done|].
    exists (next w + 1), (next w). eexists. split; [done|]. simpl. rewrite lookup_insert_eq.
    repeat split; auto; intros Hd; [apply (inv_routines _ Hr) in Hd|apply (inv_heap _ Hr) in Hd]; lia.
Qed.

Definition peer_info : linkInfo := mkLinkInfo "tls://h:1" "".
Definition add_events : list event := [EAdd peer_info linkTypePersistent "TLS" defaultBackoffLimit].
Definition world_of (es : list event) : links := default init (execs es init).

Lemma reach_execs_from w es w' : reach w -> execs es w = Some w' -> reach w'.
Proof.
  revert w. induction es as [|e es IH]; intros w Hr; simpl; [by intros [= <-]|].
  destruct (exec e w) eqn:E; [|done]. apply IH. by eapply reach_step.
Qed.

Lemma reach_world es : reach (world_of es).
Proof.
  unfold world_of. destruct (execs es init) eqn:E; simpl; [|constructor].
  eapply reach_execs_from; [constructor|exact E].
Qed.

Lemma no_stale_entries_witness :
  reach (world_of add_events) /\
  exists rid r, routines (world_of add_events) !! rid = Some r /\ owns r peer_info 0 /\ ~ ended r.
Proof.
  split; [apply reach_world|].
  exact (proj1 (no_stale_entries (world_of add_events) (reach_world add_events)) peer_info 0
    ltac:(vm_compute; reflexivity)).
Defined.

Lemma remove_cancels w info p l r w1 :
  _links w !! info = Some p -> heap w !! p = Some l -> remove info w = Some (r, w1) ->
  r = None /\ (exists l1, heap w1 !! p = Some l1 /\ cancelled l1 = Some true) /\
  (forall c, _conn l = Some c -> c ∈ conns_closed w1).
Proof.
  intros Hp Hl. unfold remove. rewrite Hp, Hl. destruct (cancelled l); [|done]. intros [= <- <-]. unfold update_link.
  split; [done|]. destruct (_conn l); simpl; rewrite lookup_alter_eq, Hl; split; [by eexists| |by eexists|done].
  intros c' [= <-]. set_solver.
Qed.

(** A cancelled link stays cancelled. *)
Lemma cancelled_execs es w w' p l : reach w -> heap w !! p = Some l -> cancelled l = Some true ->
  execs es w = Some w' -> exists l', heap w' !! p = Some l' /\ cancelled l' = Some true.
Proof.
  revert w l. induction es as [|e es IH]; intros w l Hr Hl Hc; simpl; [intros [= <-]; by exists l|].
  destruct (exec e w) as [w1|] eqn:Ee; [|done].
  destruct (exec_heap e w w1 (links_inv_reach _ Hr) Ee p l Hl) as (l1 & Hl1 & H1).
  apply (IH w1 l1); [by eapply reach_step|done|by apply H1].
Qed.


Definition connected_events : list event :=
  add_events ++ [ETop 1; EDial 1 (Ok (Some 5)) 0; EInstall 1 0].

Definition removed_world : links := default init (snd <$> remove peer_info (world_of connected_events)).


(** An incoming connection makes a link without a context, and removing the peer
    it is listed as, from then until its goroutine ends, calls the nil [cancel]:
    the process panics.  An outgoing link can always be removed. *)
Theorem incoming_removal_panics w rid ptr info proto c w' :
  reach w -> _links w !! info = None -> routines w !! rid = Some (Inbound ptr info proto c InEnter) ->
  exec (EInEnter rid) w = Some w' ->
  remove info w' = None /\
  forall info' lt proto' maxb w2, add info' lt proto' maxb w = (None, w2) -> remove info' w2 <> None.
Proof.
  intros _ Hi Hr He. split.
  - simpl in He. rewrite Hr in He. simpl in He. rewrite Hi in He. simpl in He. injection He as <-.
    unfold remove. simpl. rewrite lookup_insert_eq, lookup_alter_eq, lookup_insert_eq. done.
  - intros info' lt proto' maxb w2 Ha. unfold add in Ha. destruct (_links w !! info'); [done|]. injection Ha as <-.
    unfold remove. simpl. by rewrite !lookup_insert_eq.
Qed.

Lemma incoming_removal_panics_witness :
  let w := world_of [EAccept peer_info "TLS" 6] in
  reach w /\ exists w', exec (EInEnter 0) w = Some w' /\ remove peer_info w' = None.
Proof.
  intros w. split; [apply reach_world|]. exists (world_of [EAccept peer_info "TLS" 6; EInEnter 0]).
  assert (E : exec (EInEnter 0) w = Some (world_of [EAccept peer_info "TLS" 6; EInEnter 0])) by (vm_compute; reflexivity).
  split; [exact E|]. apply (incoming_removal_panics w 0 None peer_info "TLS" 6 _ (reach_world _)); [vm_compute; reflexivity..|exact E].
Defined.

(** When a second connection arrives for a link that is up, it is dropped,
    but its deferred block deletes the table entry of the established link,
    because it compares with the state it was dropped for.  The link stays
    connected, but it is no longer listed, cannot be removed, and can be
    connected a second time. *)
Theorem duplicate_forgets_link :
  exists w rid,
    reach w /\ routines w !! rid = Some (Inbound (Some 2) peer_info "UNIX" 5 InRunning) /\
    (5 ∉ conns_closed w) /\ 6 ∈ conns_closed w /\
    _links w = ∅ /\ remove peer_info w = Some (Some ErrLinkNotConfigured, w) /\
    (add peer_info linkTypePersistent "UNIX" defaultBackoffLimit w).1 = None.
Proof.
  set (es := [EAccept peer_info "UNIX" 5; EAccept peer_info "UNIX" 6; EInEnter 0; EInEnter 1; EInCleanup 1]).
  exists (world_of es), 0. split; [apply reach_world|].
  split; [vm_compute; reflexivity|]. split; [apply (bool_decide_unpack _); vm_compute; exact I|].
  split; [apply (bool_decide_unpack _); vm_compute; exact I|].
  split; [vm_compute; reflexivity|]. split; vm_compute; reflexivity.
Qed.

(** When an incoming connection has come up on the link while [connect]
    was running, the outgoing one is to be aborted, but it replaces the
    incoming one in the link, its goroutine ends, and nobody closes it. *)
Theorem aborted_connection_leaks :
  exists w,
    reach w /\
    routines w = {[1 := Outbound 0 peer_info linkTypePersistent defaultBackoffLimit 0 Gone;
                   2 := Inbound (Some 0) peer_info "TLS" 6 InRunning]} /\
    (exists l, heap w !! 0 = Some l /\ _conn l = Some 5) /\
    (5 ∉ conns_closed w) /\ _links w = ∅.
Proof.
  set (es := add_events ++ [ETop 1; EDial 1 (Ok (Some 5)) 0; EAccept peer_info "TLS" 6; EInEnter 2;
                            EInstall 1 0; ECleanup 1]).
  exists (world_of es). split; [apply reach_world|].
  split; [vm_compute; reflexivity|]. split; [eexists; split; [vm_compute; reflexivity|reflexivity]|].
  split; [apply (bool_decide_unpack _); vm_compute; exact I|]. vm_compute; reflexivity.
Qed.

End TableTheorems.

(** ** Traffic counters of a link connection *)

Record linkConn := mkLinkConn {
  rx : Z; tx : Z; rxrate : Z; txrate : Z; lastrx : Z; lasttx : Z
}.

Definition linkConn_Read (n : Z) (c : linkConn) : linkConn :=
  mkLinkConn (u64 (rx c + n)) (tx c) (rxrate c) (txrate c) (lastrx c) (lasttx c).
Definition linkConn_Write (n : Z) (c : linkConn) : linkConn :=
  mkLinkConn (rx c) (u64 (tx c + n)) (rxrate c) (txrate c) (lastrx c) (lasttx c).

(** One connection in [_updateAverages]. *)
Definition update_average (c : linkConn) : linkConn :=
  mkLinkConn (rx c) (tx c) (u64 (rx c - lastrx c)) (u64 (tx c - lasttx c)) (rx c) (tx c).

Definition updateAverages (cs : list (option linkConn)) : list (option linkConn) :=
  map (fmap update_average) cs.

(** The rates are the bytes since the previous tick, also when the 64-bit
    totals wrap around. *)
Lemma update_average_rate c reads :
  0 <= rx c < 2 ^ 64 -> Forall (fun n => 0 <= n) reads -> foldr Z.add 0 reads < 2 ^ 64 ->
  rxrate (update_average (fold_left (fun c n => linkConn_Read n c) reads (update_average c))) =
    foldr Z.add 0 reads.
Proof.
  intros Hrx Hreads Hsum. set (c0 := update_average c).
  assert (Hfold : forall rs d, rx (fold_left (fun c n => linkConn_Read n c) rs d) =
      (if rs is [] then rx d else u64 (rx d + foldr Z.add 0 rs)) /\
      lastrx (fold_left (fun c n => linkConn_Read n c) rs d) = lastrx d).
  { induction rs as [|n rs IH]; intros d; [done|]. cbn [fold_left]. destruct (IH (linkConn_Read n d)) as [-> ->].
    split; [|done]. destruct rs; simpl; unfold u64; [f_equal; lia|].
    rewrite Z.add_mod_idemp_l by lia. f_equal. lia. }
  destruct (Hfold reads c0) as [E1 E2]. unfold update_average at 1. cbn [rxrate].
  rewrite E1, E2. unfold c0, update_average. cbn [rx lastrx].
  assert (0 <= foldr Z.add 0 reads) by (clear -Hreads; induction Hreads; simpl; lia).
  destruct reads as [|n rs]; [unfold u64; simpl; by rewrite Z.sub_diag|].
  unfold u64. rewrite Zminus_mod_idemp_l. rewrite Z.mod_small; lia.
Qed.
