(* ===== verification/Listeners.v ===== *)
(** * Listeners: accepting connections, and the stop of the core
    (core/link.go: listen, shutdown; core/core.go: Stop)

    The table of links of Links with what feeds it: the listeners, the goroutine
    that accepts for each, and the two halves of [Core.Stop].  [listen] is three
    steps: the transport listener is opened, and then the options of the URL are
    refused or the listener is registered and its goroutine started. *)

From S2P Require Import Prelude GoStd Transport Links.
Import Table.

(** ** State *)

(** The goroutine of a listener: in [Accept], before its deferred block, ended. *)
Inductive loop := Accepting | Stopping | Ended.
Global Instance loop_eq_dec : EqDecision loop.
Proof. solve_decision. Defined.
(** [l_loop] is [None] until [listen] has registered the listener; one whose options
    are refused never gets a goroutine. *)
Record listener := mkListener { socket : Conn; l_sintf : string; l_closed : bool; l_loop : option loop }.

Record node := mkNode {
  table : links;
  listeners : gmap Z listener;      (* all that were opened *)
  _listeners : gset Z;              (* l._listeners *)
  next_listener : Z
}.
Definition new_node : node := mkNode Table.init ∅ ∅ 0.

Definition set_table t n := mkNode t (listeners n) (_listeners n) (next_listener n).
Definition set_listener (i : Z) (f : listener -> listener) n := mkNode (table n) (alter f i (listeners n)) (_listeners n) (next_listener n).
Definition set_registered r n := mkNode (table n) (listeners n) r (next_listener n).
(** [cancel()] of [listen]; a second one closes a closed listener. *)
Definition close_listener (l : listener) : listener := mkListener (socket l) (l_sintf l) true (l_loop l).
Definition set_loop (p : loop) (l : listener) : listener := mkListener (socket l) (l_sintf l) (l_closed l) (Some p).

(** ** Operations *)

Definition open_listener (c : Conn) (sintf : string) (n : node) : node :=
  mkNode (table n) (<[next_listener n := mkListener c sintf false None]> (listeners n)) (_listeners n) (next_listener n + 1).
Definition register_listener (i : Z) (n : node) : node :=
  set_registered ({[i]} ∪ _listeners n) (set_listener i (set_loop Accepting) n).
(** The deferred block of the goroutine. *)
Definition end_listener (i : Z) (n : node) : node :=
  set_registered (_listeners n ∖ {[i]}) (set_listener i (fun l => set_loop Ended (close_listener l)) n).

(** Stop of a [*Listener]; of nil, nothing. *)
Definition Listener_Stop (i : option Z) (n : node) : node :=
  match i with Some i => set_listener i close_listener n | None => n end.

(** links.shutdown *)
Definition links_shutdown (n : node) : node :=
  mkNode (Table.shutdown (table n))
    (map_imap (fun i l => Some (if decide (i ∈ _listeners n) then close_listener l else l)) (listeners n))
    (_listeners n) (next_listener n).
Section Accept.
Context (url_String : URL -> string).

(** The peer that an accepted connection is listed as: the URL of the listener
    with the remote address for its host. *)
Definition accepted_info (u : URL) (remote sintf : string) : linkInfo :=
  mkLinkInfo (url_String (urlForLinkInfo (mkURL (Scheme u) remote (Path u) (RawPath u) (Query u)))) sintf.

Inductive nevent :=
| Opened (c : Conn) (sintf : string)
| Refused (i : Z)                                  (* the options of the URL are invalid *)
| Registered (i : Z)
| Accepted (i : Z) (u : URL) (remote proto : string) (c : Conn)
| AcceptFailed (i : Z)
| LoopEnds (i : Z)
| StopListener (i : option Z)
| CancelCore | ShutdownLinks
| Links (e : event).

(** The events of the table that are not its callers' here. *)
Definition own (e : event) : bool := match e with EAccept _ _ _ | ECancelCore | EShutdown => false | _ => true end.

Definition exec (e : nevent) (n : node) : option node :=
  match e with
  | Opened c sintf => Some (open_listener c sintf n)
  | Refused i => l ← listeners n !! i; match l_loop l with None => Some (set_listener i (set_loop Ended) n) | _ => None end
  | Registered i => l ← listeners n !! i; match l_loop l with None => Some (register_listener i n) | _ => None end
  | Accepted i u remote proto c =>
      l ← listeners n !! i;
      match l_loop l with
      | Some Accepting => if l_closed l then None
                          else t ← Table.exec (EAccept (accepted_info u remote (l_sintf l)) proto c) (table n); Some (set_table t n)
      | _ => None
      end
  | AcceptFailed i => l ← listeners n !! i; match l_loop l with Some Accepting => Some (set_listener i (set_loop Stopping) n) | _ => None end
  | LoopEnds i => l ← listeners n !! i; match l_loop l with Some Stopping => Some (end_listener i n) | _ => None end
  | StopListener i => Some (Listener_Stop i n)
  | CancelCore => Some (set_table (cancel_core (table n)) n)
  | ShutdownLinks => Some (links_shutdown n)
  | Links e => if own e then t ← Table.exec e (table n); Some (set_table t n) else None
  end.

Fixpoint execs (es : list nevent) (n : node) : option node :=
  match es with [] => Some n | e :: es => n ← exec e n; execs es n end.

Inductive reach : node -> Prop :=
| reach_new : reach new_node
| reach_exec n e n' : reach n -> exec e n = Some n' -> reach n'.

(** The two steps of [_close]; other goroutines may run between them. *)
Definition Core__close : list nevent := [CancelCore; ShutdownLinks].

(** ** The state of the listeners *)

(** A listener is listed exactly while its goroutine has not ended, and names are
    fresh. *)
Record inv (n : node) : Prop := {
  inv_listed : forall i, i ∈ _listeners n <-> exists l p, listeners n !! i = Some l /\ l_loop l = Some p /\ p <> Ended;
  inv_fresh : forall i, next_listener n <= i -> listeners n !! i = None
}.

Lemma lookup_set_listener i f n j :
  listeners (set_listener i f n) !! j = if decide (i = j) then f <$> listeners n !! j else listeners n !! j.
Proof. unfold set_listener. cbn [listeners]. case_decide as E; [subst; apply lookup_alter_eq|by apply lookup_alter_ne]. Qed.

Lemma lookup_shutdown n j :
  listeners (links_shutdown n) !! j = (fun l => if decide (j ∈ _listeners n) then close_listener l else l) <$> listeners n !! j.
Proof. unfold links_shutdown. cbn [listeners]. rewrite map_lookup_imap. by destruct (listeners n !! j). Qed.

Lemma inv_update n i f l r : inv n -> listeners n !! i = Some l ->
  (forall j, j <> i -> j ∈ r <-> j ∈ _listeners n) -> (i ∈ r <-> exists p, l_loop (f l) = Some p /\ p <> Ended) ->
  inv (set_registered r (set_listener i f n)).
Proof.
  intros [Hl Hf] Hi Hr Hir. constructor; unfold set_registered; cbn [_listeners listeners next_listener].
  - intros j. rewrite lookup_set_listener. case_decide as E.
    + subst j. rewrite Hi, Hir. cbn. split; [intros (p & ? & ?); by exists (f l), p|intros (l' & p & [= <-] & ? & ?); by exists p].
    + rewrite Hr, Hl by congruence. done.
  - intros j Hj. rewrite lookup_set_listener, Hf by exact Hj. by case_decide.
Qed.

(** A listener that stays as listed as it was. *)
Lemma inv_keep n i f l : inv n -> listeners n !! i = Some l ->
  ((exists p, l_loop (f l) = Some p /\ p <> Ended) <-> (exists p, l_loop l = Some p /\ p <> Ended)) -> inv (set_listener i f n).
Proof.
  intros Hn Hi Hf. change (set_listener i f n) with (set_registered (_listeners n) (set_listener i f n)).
  apply (inv_update n i f l); [done|done|done|]. rewrite (inv_listed _ Hn i), Hf, Hi. naive_solver.
Qed.

Lemma inv_table t n : inv n -> inv (set_table t n).
Proof. intros []. by constructor. Qed.

Lemma listeners_inv_step e n n' : inv n -> exec e n = Some n' -> inv n'.
Proof.
  intros Hn He. destruct e as [c sintf|i|i|i u remote proto c|i|i|[i|]| | |e]; cbn [exec] in He.
  - injection He as <-. destruct Hn as [Hl Hf]. unfold open_listener. constructor; cbn [_listeners listeners next_listener].
    + intros i. rewrite Hl. destruct (decide (i = next_listener n)) as [->|Hne].
      * rewrite lookup_insert_eq, Hf by lia. split; [by intros (? & ? & ? & _)|]. by intros (l & p & [= <-] & ? & _).
      * by rewrite lookup_insert_ne.
    + intros i Hi. rewrite lookup_insert_ne by lia. apply Hf. lia.
  - apply bind_Some in He as (l & Hi & He). destruct (l_loop l) eqn:E; [done|]. injection He as <-.
    apply (inv_keep n i _ l Hn Hi). cbn. rewrite E. naive_solver.
  - apply bind_Some in He as (l & Hi & He). destruct (l_loop l) eqn:E; [done|]. injection He as <-.
    apply (inv_update n i _ l); [done|done|set_solver|]. cbn. split; [intros _; by exists Accepting|set_solver].
  - apply bind_Some in He as (l & Hi & He). destruct (l_loop l) as [[]|]; try done. destruct (l_closed l); [done|].
    apply bind_Some in He as (t & _ & [= <-]). by apply inv_table.
  - apply bind_Some in He as (l & Hi & He). destruct (l_loop l) as [[]|] eqn:E; try done. injection He as <-.
    apply (inv_keep n i _ l Hn Hi). cbn. rewrite E. naive_solver.
  - apply bind_Some in He as (l & Hi & He). destruct (l_loop l) as [[]|] eqn:E; try done. injection He as <-.
    apply (inv_update n i _ l); [done|done|set_solver|]. cbn. set_solver.
  - injection He as <-. cbn [Listener_Stop]. destruct (listeners n !! i) as [l|] eqn:Hi.
    + by apply (inv_keep n i _ l Hn Hi).
    + unfold set_listener. rewrite alter_id; [by destruct n|]. intros l Hl. congruence.
  - by injection He as <-.
  - injection He as <-. by apply inv_table.
  - injection He as <-. destruct Hn as [Hl Hf]. constructor.
    + intros i. rewrite lookup_shutdown. unfold links_shutdown at 1. cbn [_listeners]. rewrite Hl.
      destruct (listeners n !! i) as [l|]; cbn; [|naive_solver]. case_decide; naive_solver.
    + intros i Hi. rewrite lookup_shutdown, Hf by exact Hi. done.
  - destruct (own e); [|done]. apply bind_Some in He as (t & _ & [= <-]). by apply inv_table.
Qed.

Lemma reach_inv n : reach n -> inv n.
Proof. induction 1; [constructor; cbn; [intros i; split; [set_solver|intros (l & p & H & _); by rewrite lookup_empty in H]|done]|by eapply listeners_inv_step]. Qed.

(** ** The stop of the core *)

(** What lasts: closed connections and listeners, ended goroutines, the end of the
    core's context; and a link that dials was dialing before the step, or the
    context was not yet done. *)
Record lasts (n n' : node) : Prop := {
  lasts_conns : conns_closed (table n) ⊆ conns_closed (table n');
  lasts_core : core_done (table n) = true -> core_done (table n') = true;
  lasts_listeners : forall i l, listeners n !! i = Some l -> exists l', listeners n' !! i = Some l' /\
    (l_closed l = true -> l_closed l' = true) /\ (l_loop l = Some Ended -> l_loop l' = Some Ended);
  lasts_dialing : core_done (table n) = true -> forall rid p info lt m b, routines (table n') !! rid = Some (Outbound p info lt m b Dialing) ->
    exists info lt m b, routines (table n) !! rid = Some (Outbound p info lt m b Dialing)
}.

Global Instance lasts_preorder : PreOrder lasts.
Proof.
  split.
  - intros n. constructor; eauto 10.
  - intros n1 n2 n3 [C1 D1 L1 R1] [C2 D2 L2 R2]. constructor.
    + by etrans.
    + auto.
    + intros i l Hi. destruct (L1 i l Hi) as (l2 & H2 & Hc & He). destruct (L2 i l2 H2) as (l3 & H3 & Hc' & He'). exists l3. split; [done|]. split; auto.
    + intros Hd rid p info lt m b H3. destruct (R2 (D1 Hd) _ _ _ _ _ _ H3) as (i2 & lt2 & m2 & b2 & H2). by eapply R1.
Qed.

Lemma lasts_of_table t n e : Table.exec e (table n) = Some t -> lasts n (set_table t n).
Proof.
  intros He. pose proof (TableTheorems.exec_grows _ _ _ He) as [Hc Hd]. constructor; cbn [table listeners]; eauto.
  intros Hcore rid p info lt m b HR. destruct (TableTheorems.exec_dialing _ _ _ _ _ _ _ _ _ He HR) as (i' & lt' & m' & b' & [H|[_ (l & _ & H)]]); [by eauto|].
  unfold ctx_done in H. by rewrite Hcore in H.
Qed.

Lemma lasts_of_listener i f n l : listeners n !! i = Some l -> (l_closed l = true -> l_closed (f l) = true) -> l_loop l <> Some Ended ->
  lasts n (set_listener i f n).
Proof.
  intros Hi Hf Hl. constructor; cbn [table]; eauto 10. intros j l' Hj. rewrite lookup_set_listener. case_decide as E; [|by eauto].
  subst j. rewrite Hj. cbn. exists (f l'). assert (l' = l) as -> by congruence. done.
Qed.

Lemma exec_lasts e n n' : inv n -> exec e n = Some n' -> lasts n n'.
Proof.
  intros [_ Hf] He. destruct e as [c sintf|i|i|i u remote proto c|i|i|[i|]| | |e]; cbn [exec] in He.
  - injection He as <-. constructor; cbn [table listeners open_listener]; eauto 10. intros i l Hi. rewrite lookup_insert_ne; [by eauto|].
    intros <-. by rewrite Hf in Hi by lia.
  - apply bind_Some in He as (l & Hi & He). destruct (l_loop l) eqn:E; [done|]. injection He as <-. apply (lasts_of_listener i _ n l Hi); [done|by rewrite E].
  - apply bind_Some in He as (l & Hi & He). destruct (l_loop l) eqn:E; [done|]. injection He as <-.
    destruct (lasts_of_listener i (set_loop Accepting) n l Hi) as [C D L R]; [done|by rewrite E|]. by constructor.
  - apply bind_Some in He as (l & Hi & He). destruct (l_loop l) as [[]|]; try done. destruct (l_closed l); [done|].
    apply bind_Some in He as (t & Ht & [= <-]). by eapply lasts_of_table.
  - apply bind_Some in He as (l & Hi & He). destruct (l_loop l) as [[]|] eqn:E; try done. injection He as <-.
    apply (lasts_of_listener i _ n l Hi); [done|by rewrite E].
  - apply bind_Some in He as (l & Hi & He). destruct (l_loop l) as [[]|] eqn:E; try done. injection He as <-.
    destruct (lasts_of_listener i (fun l => set_loop Ended (close_listener l)) n l Hi) as [C D L R]; [done|by rewrite E|]. by constructor.
  - injection He as <-. cbn [Listener_Stop]. constructor; cbn [table]; eauto 10. intros j l Hj. rewrite lookup_set_listener. case_decide; rewrite Hj; by eexists.
  - by injection He as <-.
  - injection He as <-. by eapply (lasts_of_table _ _ ECancelCore).
  - injection He as <-. destruct (lasts_of_table (Table.shutdown (table n)) n EShutdown eq_refl) as [C D L R]. constructor; [exact C|exact D| |exact R].
    intros i l Hi. rewrite lookup_shutdown, Hi. cbn. case_decide; by eexists.
  - destruct (own e); [|done]. apply bind_Some in He as (t & Ht & [= <-]). by eapply lasts_of_table.
Qed.

Lemma execs_lasts es n n' : reach n -> execs es n = Some n' -> reach n' /\ lasts n n'.
Proof.
  revert n. induction es as [|e es IH]; intros n Hn; cbn [execs]; [intros [= <-]; by split|].
  intros (n1 & He & H)%bind_Some. destruct (IH n1) as [H1 H2]; [by eapply reach_exec|done|]. split; [done|].
  etrans; [|exact H2]. by eapply exec_lasts; [apply reach_inv|].
Qed.

Lemma listeners_execs_app es1 es2 n : execs (es1 ++ es2) n = execs es1 n ≫= execs es2.
Proof. revert n. induction es1 as [|e es1 IH]; intros n; [done|]. cbn [app execs]. destruct (exec e n); [apply IH|done]. Qed.

(** C35: once the core is stopped, which is when its context was cancelled and the
    links were shut down, with anything in between: every connection that the
    table had is closed, every listener that was registered is closed and
    accepts nothing more, whatever happens afterwards, and no link begins to
    dial.  Connections are accepted only for listeners that were being opened
    when the shutdown ran. *)
Theorem stopped_core_is_quiet n n1 es n' :
  reach n -> core_done (table n) = true -> exec ShutdownLinks n = Some n1 -> execs es n1 = Some n' ->
  (forall info p l c, _links (table n) !! info = Some p -> heap (table n) !! p = Some l -> _conn l = Some c -> c ∈ conns_closed (table n')) /\
  (forall i l, i ∈ _listeners n -> listeners n' !! i = Some l -> l_closed l = true) /\
  (forall i u remote proto c, Accepted i u remote proto c ∈ es -> forall l, listeners n !! i = Some l -> l_loop l = None) /\
  (forall rid p info lt m b, routines (table n') !! rid = Some (Outbound p info lt m b Dialing) ->
     exists info lt m b, routines (table n) !! rid = Some (Outbound p info lt m b Dialing)).
Proof.
  intros Hr Hd He Hes. assert (Hr1 : reach n1) by by eapply reach_exec.
  pose proof (exec_lasts _ _ _ (reach_inv _ Hr) He) as L1. injection He as <-. set (n1 := links_shutdown n) in *.
  pose proof (execs_lasts es n1 n' Hr1 Hes) as [_ L2].
  assert (Hclosed : forall n2 i l l2, lasts n1 n2 -> i ∈ _listeners n -> listeners n !! i = Some l -> listeners n2 !! i = Some l2 -> l_closed l2 = true).
  { intros n2 i l l2 L Hi Hl H2. destruct (lasts_listeners _ _ L i (close_listener l)) as (l' & Hl' & Hc & _).
    - unfold n1. rewrite lookup_shutdown, Hl. cbn. by rewrite decide_True.
    - rewrite H2 in Hl'. injection Hl' as <-. by apply Hc. }
  split; [|split; [|split]].
  - intros info p l c Hi Hp Hc. apply (lasts_conns _ _ L2). by eapply TableTheorems.closed_shutdown.
  - intros i l Hi Hl. pose proof (proj1 (inv_listed _ (reach_inv _ Hr) i) Hi) as (l0 & _ & H0 & _). by eapply Hclosed.
  - intros i u remote proto c (es1 & es2 & ->)%list_elem_of_split l Hl. rewrite listeners_execs_app in Hes. apply bind_Some in Hes as (n2 & H2 & Hes).
    destruct (execs_lasts es1 n1 n2 Hr1 H2) as [_ L]. cbn [execs] in Hes. apply bind_Some in Hes as (n3 & Ha & _). cbn [exec] in Ha.
    apply bind_Some in Ha as (l2 & Hl2 & Ha). destruct (l_loop l2) as [[]|] eqn:E2; try done. destruct (l_closed l2) eqn:Ec; [done|].
    destruct (l_loop l) as [p|] eqn:E; [exfalso|done]. destruct (decide (p = Ended)) as [->|Hp].
    + destruct (lasts_listeners _ _ (transitivity L1 L) i l Hl) as (l' & Hl' & _ & Hend). rewrite Hl2 in Hl'. injection Hl' as <-. by rewrite Hend in E2.
    + assert (Hi : i ∈ _listeners n) by (apply (inv_listed _ (reach_inv _ Hr)); by exists l, p).
      by rewrite (Hclosed n2 i l l2 L Hi Hl Hl2) in Ec.
  - intros rid p info lt m b H. by apply (lasts_dialing _ _ (transitivity L1 L2) Hd _ _ _ _ _ _ H).
Qed.
End Accept.

(** ** Concrete runs *)

Module Sample.
Definition url_String (u : URL) : string := Host u.
Definition sample_url : URL := mkURL "tcp" "[::]:1" EmptyString EmptyString [].
Definition run (es : list nevent) : node := default new_node (execs url_String es new_node).
(** A listener accepted a connection, which is being served. *)
Definition serving : list nevent :=
  [Opened 7 EmptyString; Registered 0; Accepted 0 sample_url "10.0.0.1:99" "TCP" 8; Links (EInEnter 0); CancelCore].

Lemma sample_reach es n n' : reach url_String n -> execs url_String es n = Some n' -> reach url_String n'.
Proof. intros Hn He. by destruct (execs_lasts url_String es n n' Hn He). Qed.
Lemma reach_run es : reach url_String (run es).
Proof.
  unfold run. destruct (execs url_String es new_node) as [n|] eqn:E; cbn; [|constructor]. eapply sample_reach; [constructor|exact E].
Qed.
End Sample.

Lemma stopped_core_is_quiet_witness :
  let n := Sample.run Sample.serving in
  let n1 := links_shutdown n in
  reach Sample.url_String n /\ core_done (table n) = true /\ exec Sample.url_String ShutdownLinks n = Some n1 /\
  8 ∈ conns_closed (table n1) /\ exists l, listeners n1 !! 0 = Some l /\ l_closed l = true.
Proof.
  intros n n1. assert (Hr : reach Sample.url_String n) by apply Sample.reach_run. split; [exact Hr|].
  assert (Hd : core_done (table n) = true) by (vm_compute; reflexivity). split; [exact Hd|]. split; [reflexivity|].
  destruct (stopped_core_is_quiet Sample.url_String n n1 [] n1 Hr Hd eq_refl eq_refl) as (Hc & Hl & _). split.
  - apply (Hc (mkLinkInfo "10.0.0.1:99" "") 1 (Table.mkLink None linkTypeIncoming "TCP" (Some 8) None 0)); vm_compute; reflexivity.
  - exists (mkListener 7 "" true (Some Accepting)). split; [vm_compute; reflexivity|]. apply (Hl 0); [by_computation|vm_compute; reflexivity].
Defined.

(** Counterexample: a listener whose opening overlaps the stop of the core is
    registered after the shutdown has closed the others; it stays open and
    accepts connections although the core has stopped. *)
Theorem late_listener_survives :
  exists n, execs Sample.url_String [Opened 7 EmptyString; CancelCore; ShutdownLinks; Registered 0; Accepted 0 Sample.sample_url "10.0.0.1:99" "TCP" 8] new_node = Some n /\
    core_done (table n) = true /\ listeners n !! 0 = Some (mkListener 7 EmptyString false (Some Accepting)) /\
    (7 ∉ conns_closed (table n)) /\ (8 ∉ conns_closed (table n)) /\ size (routines (table n)) = 1%nat.
Proof.
  eexists. split; [vm_compute; reflexivity|]. split; [vm_compute; reflexivity|]. split; [vm_compute; reflexivity|].
  split; [by_computation|]. split; [by_computation|vm_compute; reflexivity].
Qed.
