(* ===== verification/Proto.v ===== *)
(** * Proto: in-band protocol handlers (ygglib/core/proto.go, nodeinfo.go, types.go)

    The debug requests (self, peers, tree) and the node-info exchange.  Both
    handlers are actors, so each message is one atomic step; a timer that has
    fired may still be waiting in the actor's inbox when the table changes,
    which [Expire] as a separate event accounts for. *)

From Stdlib Require Import Ascii.
From S2P Require Import Prelude GoStd Address.

(** ** Packet types *)

Definition typeSessionDummy : Z := 0.
Definition typeSessionTraffic : Z := 1.
Definition typeSessionProto : Z := 2.

Definition typeProtoDummy : Z := 0.
Definition typeProtoNodeInfoRequest : Z := 1.
Definition typeProtoNodeInfoResponse : Z := 2.
Definition typeProtoDebug : Z := 255.

Definition typeDebugDummy : Z := 0.
Definition typeDebugGetSelfRequest : Z := 1.
Definition typeDebugGetSelfResponse : Z := 2.
Definition typeDebugGetPeersRequest : Z := 3.
Definition typeDebugGetPeersResponse : Z := 4.
Definition typeDebugGetTreeRequest : Z := 5.
Definition typeDebugGetTreeResponse : Z := 6.

(** ** The debug handler *)

(** A [*reqInfo] is a pointer: it is named by its timer. *)
Record reqInfo := mkReqInfo { callback : Z; timer : Z }.

Record protoHandler := mkProto {
  selfRequests : gmap bytes reqInfo;
  peersRequests : gmap bytes reqInfo;
  treeRequests : gmap bytes reqInfo;
  timers : gset Z;                          (* armed timers *)
  next_timer : Z;
  calls : list (reqInfo * bytes);           (* callbacks run so far, newest first *)
  sent : list (bytes * bytes)               (* packets written: packet and destination *)
}.

Definition proto_init : protoHandler := mkProto ∅ ∅ ∅ ∅ 0 [] [].

Inductive dkind := DSelf | DPeers | DTree.

Definition requests (k : dkind) (p : protoHandler) : gmap bytes reqInfo :=
  match k with DSelf => selfRequests p | DPeers => peersRequests p | DTree => treeRequests p end.

Definition set_requests (k : dkind) (t : gmap bytes reqInfo) (p : protoHandler) : protoHandler :=
  match k with
  | DSelf => mkProto t (peersRequests p) (treeRequests p) (timers p) (next_timer p) (calls p) (sent p)
  | DPeers => mkProto (selfRequests p) t (treeRequests p) (timers p) (next_timer p) (calls p) (sent p)
  | DTree => mkProto (selfRequests p) (peersRequests p) t (timers p) (next_timer p) (calls p) (sent p)
  end.
Definition stop_timer (t : Z) (p : protoHandler) : protoHandler :=
  mkProto (selfRequests p) (peersRequests p) (treeRequests p) (timers p ∖ {[t]}) (next_timer p)
    (calls p) (sent p).
Definition new_timer (p : protoHandler) : Z * protoHandler :=
  (next_timer p,
   mkProto (selfRequests p) (peersRequests p) (treeRequests p) ({[next_timer p]} ∪ timers p)
     (next_timer p + 1) (calls p) (sent p)).
Definition call (info : reqInfo) (bs : bytes) (p : protoHandler) : protoHandler :=
  mkProto (selfRequests p) (peersRequests p) (treeRequests p) (timers p) (next_timer p)
    ((info, bs) :: calls p) (sent p).

Definition _sendDebug (key : bytes) (dType : Z) (data : bytes) (p : protoHandler) : protoHandler :=
  let bs := [typeSessionProto; typeProtoDebug; dType] ++ data in
  mkProto (selfRequests p) (peersRequests p) (treeRequests p) (timers p) (next_timer p)
    (calls p) ((bs, key) :: sent p).

Definition request_type (k : dkind) : Z :=
  match k with
  | DSelf => typeDebugGetSelfRequest
  | DPeers => typeDebugGetPeersRequest
  | DTree => typeDebugGetTreeRequest
  end.

(** The three send functions, which differ in the table and the type. *)
Definition send_request (k : dkind) (key : bytes) (cb : Z) (p : protoHandler) : protoHandler :=
  let p := match requests k p !! key with
           | Some info => set_requests k (delete key (requests k p)) (stop_timer (timer info) p)
           | None => p
           end in
  let '(t, p) := new_timer p in
  let p := set_requests k (<[key := mkReqInfo cb t]> (requests k p)) p in
  _sendDebug key (request_type k) [] p.

Definition sendGetSelfRequest := send_request DSelf.
Definition sendGetPeersRequest := send_request DPeers.
Definition sendGetTreeRequest := send_request DTree.

(** The timer function, once the actor runs it. *)
Definition expire (k : dkind) (key : bytes) (t : Z) (p : protoHandler) : protoHandler :=
  match requests k p !! key with
  | Some info => if timer info =? t then set_requests k (delete key (requests k p)) p else p
  | None => p
  end.

Definition handle_response (k : dkind) (key bs : bytes) (p : protoHandler) : protoHandler :=
  match requests k p !! key with
  | Some info =>
      let p := stop_timer (timer info) p in
      let p := call info bs p in
      set_requests k (delete key (requests k p)) p
  | None => p
  end.

Definition _handleGetSelfResponse := handle_response DSelf.
Definition _handleGetPeersResponse := handle_response DPeers.
Definition _handleGetTreeResponse := handle_response DTree.

(** The loop of the peers and tree responses: keys while the packet fits. *)
Fixpoint response_keys (mtu : Z) (bs : bytes) (keys : list bytes) : bytes :=
  match keys with
  | [] => bs
  | key :: keys =>
      let tmp := bs ++ key in
      if mtu <? u64 (Z.of_nat (length tmp) + 2) then bs else response_keys mtu tmp keys
  end.

(** What the handlers ask the core for. *)
Record core_view := mkCoreView {
  cv_self : bytes;                 (* the JSON of GetSelf *)
  cv_peers : list bytes;           (* the keys of GetPeers *)
  cv_tree : list bytes;            (* the keys of GetTree *)
  cv_mtu : Z                       (* MTU *)
}.

Definition _handleGetSelfRequest (c : core_view) (key : bytes) : protoHandler -> protoHandler :=
  _sendDebug key typeDebugGetSelfResponse (cv_self c).
Definition _handleGetPeersRequest (c : core_view) (key : bytes) : protoHandler -> protoHandler :=
  _sendDebug key typeDebugGetPeersResponse (response_keys (cv_mtu c) [] (cv_peers c)).
Definition _handleGetTreeRequest (c : core_view) (key : bytes) : protoHandler -> protoHandler :=
  _sendDebug key typeDebugGetTreeResponse (response_keys (cv_mtu c) [] (cv_tree c)).

Definition _handleDebug (c : core_view) (key bs : bytes) (p : protoHandler) : protoHandler :=
  match bs with
  | [] => p
  | b :: rest =>
      if b =? typeDebugDummy then p
      else if b =? typeDebugGetSelfRequest then _handleGetSelfRequest c key p
      else if b =? typeDebugGetSelfResponse then _handleGetSelfResponse key rest p
      else if b =? typeDebugGetPeersRequest then _handleGetPeersRequest c key p
      else if b =? typeDebugGetPeersResponse then _handleGetPeersResponse key rest p
      else if b =? typeDebugGetTreeRequest then _handleGetTreeRequest c key p
      else if b =? typeDebugGetTreeResponse then _handleGetTreeResponse key rest p
      else p
  end.

(** ** The node-info handler *)

Record nodeinfo := mkNodeinfo {
  myNodeInfo : bytes;
  callbacks : gmap bytes (Z * Z);           (* callback and creation time *)
  ni_calls : list (Z * bytes);
  ni_sent : list (bytes * bytes)
}.

Definition Minute : Z := 60 * 1000000000.

Definition nodeinfo_init : nodeinfo := mkNodeinfo [] ∅ [] [].

Definition _cleanup (now : Z) (m : nodeinfo) : nodeinfo :=
  mkNodeinfo (myNodeInfo m)
    (filter (fun kv => ~ Minute < now - kv.2.2) (callbacks m)) (ni_calls m) (ni_sent m).

Definition _addCallback (sender : bytes) (cb now : Z) (m : nodeinfo) : nodeinfo :=
  mkNodeinfo (myNodeInfo m) (<[sender := (cb, now)]> (callbacks m)) (ni_calls m) (ni_sent m).

Definition _callback (sender info : bytes) (m : nodeinfo) : nodeinfo :=
  match callbacks m !! sender with
  | Some (cb, _) =>
      mkNodeinfo (myNodeInfo m) (delete sender (callbacks m)) ((cb, info) :: ni_calls m) (ni_sent m)
  | None => m
  end.

Definition _getNodeInfo (m : nodeinfo) : bytes := myNodeInfo m.

Definition ni_send (bs key : bytes) (m : nodeinfo) : nodeinfo :=
  mkNodeinfo (myNodeInfo m) (callbacks m) (ni_calls m) ((bs, key) :: ni_sent m).

Definition _sendReq (key : bytes) (cb : option Z) (now : Z) (m : nodeinfo) : nodeinfo :=
  let m := match cb with Some cb => _addCallback key cb now m | None => m end in
  ni_send [typeSessionProto; typeProtoNodeInfoRequest] key m.

Definition _sendRes (key : bytes) (m : nodeinfo) : nodeinfo :=
  ni_send ([typeSessionProto; typeProtoNodeInfoResponse] ++ _getNodeInfo m) key m.

Definition handleReq := _sendRes.
Definition handleRes (key info : bytes) : nodeinfo -> nodeinfo := _callback key info.

Inductive nodeinfo_error :=
| ErrNodeInfoMarshal
| ErrNodeInfoTooLong
| ErrNoKey
| ErrKeyDecode
| ErrKeyLength
| ErrTimeout.

Section NodeInfo.
(** json.Marshal of a string-keyed map, and what the binary was built from. *)
Context {V : Type} (Marshal : gmap string V -> option bytes) (build_info : list (string * V)).

Definition _setNodeInfo (given : gmap string V) (privacy : bool) (m : nodeinfo)
    : option nodeinfo_error * nodeinfo :=
  let newnodeinfo :=
    if privacy then given else fold_left (fun acc kv => <[kv.1 := kv.2]> acc) build_info given in
  match Marshal newnodeinfo with
  | None => (Some ErrNodeInfoMarshal, m)
  | Some newjson =>
      if 16384 <? Z.of_nat (length newjson) then (Some ErrNodeInfoTooLong, m)
      else (None, mkNodeinfo newjson (callbacks m) (ni_calls m) (ni_sent m))
  end.
End NodeInfo.

(** The key of a request in text form. *)
Definition decodeNodeInfoKey (keyHex : string) : result nodeinfo_error bytes :=
  if bool_decide (keyHex = ""%string) then Err ErrNoKey
  else match hex_DecodeString keyHex with
  | None => Err ErrKeyDecode
  | Some kbs =>
      if negb (length kbs =? PublicKeySize)%nat then Err ErrKeyLength
      else Ok (copy (replicate 32 0) kbs)
  end.

(** ** Dispatch and the remote debug calls *)

Definition handleProto (c : core_view) (key bs : bytes) (s : protoHandler * nodeinfo)
    : protoHandler * nodeinfo :=
  match bs with
  | [] => s
  | b :: rest =>
      if b =? typeProtoDummy then s
      else if b =? typeProtoNodeInfoRequest then (s.1, handleReq key s.2)
      else if b =? typeProtoNodeInfoResponse then (s.1, handleRes key rest s.2)
      else if b =? typeProtoDebug then (_handleDebug c key rest s.1, s.2)
      else s
  end.

(** getNodeInfo for the answer [info] ([None]: six seconds passed).  The answer is
    passed on as a raw message, without being parsed. *)
Definition getNodeInfo (keyHex : string) (info : option bytes) : result nodeinfo_error bytes :=
  let? key := decodeNodeInfoKey keyHex in
  match info with None => Err ErrTimeout | Some bs => Ok bs end.

(** The key argument of [debugRemoteGetSelf], [-Peers] and [-Tree]. *)
Definition debug_key (keyHex : string) : result nodeinfo_error bytes :=
  match hex_DecodeString keyHex with
  | None => Err ErrKeyDecode
  | Some kbs =>
      if negb (length kbs =? PublicKeySize)%nat then Err ErrKeyLength
      else Ok (copy (replicate 32 0) kbs)
  end.

(** The loop over the keys of a response; 32 bytes are consumed per pass. *)
Fixpoint split_keys (fuel : nat) (bs : bytes) : list bytes :=
  match fuel with
  | O => []
  | S fuel =>
      if (PublicKeySize <=? length bs)%nat then
        take PublicKeySize bs :: split_keys fuel (drop PublicKeySize bs)
      else []
  end.

(** The keys that [debugRemoteGetPeers] and [debugRemoteGetTree] return for
    the answer [info] ([None]: six seconds passed), before they are encoded
    in hexadecimal. *)
Definition debugRemoteGetKeys (keyHex : string) (info : option bytes)
    : result nodeinfo_error (list bytes) :=
  let? key := debug_key keyHex in
  match info with
  | None => Err ErrTimeout
  | Some bs => Ok (split_keys (length bs) bs)
  end.

Definition debugRemoteGetSelf (keyHex : string) (info : option bytes)
    : result nodeinfo_error bytes :=
  let? key := debug_key keyHex in
  match info with None => Err ErrTimeout | Some bs => Ok bs end.

(** ** Runs of the debug handler *)

Inductive event :=
| Send (k : dkind) (key : bytes) (cb : Z)
| Recv (key : bytes) (bs : bytes)               (* a debug packet of [key] *)
| Expire (k : dkind) (key : bytes) (t : Z).

Definition step (c : core_view) (p : protoHandler) (e : event) : protoHandler :=
  match e with
  | Send k key cb => send_request k key cb p
  | Recv key bs => _handleDebug c key bs p
  | Expire k key t => expire k key t p
  end.

Definition run (c : core_view) (es : list event) (p : protoHandler) : protoHandler :=
  fold_left (step c) es p.

Definition response_type (k : dkind) : Z :=
  match k with
  | DSelf => typeDebugGetSelfResponse
  | DPeers => typeDebugGetPeersResponse
  | DTree => typeDebugGetTreeResponse
  end.

(** ** Lemmas *)

Global Instance dkind_eq_dec : EqDecision dkind.
Proof. solve_decision. Defined.

Lemma requests_set k t p k' :
  requests k' (set_requests k t p) = if decide (k = k') then t else requests k' p.
Proof. destruct k, k'; reflexivity. Qed.

Lemma requests_set_eq k t p : requests k (set_requests k t p) = t.
Proof. by destruct k. Qed.

Lemma requests_set_ne k k' t p : k <> k' -> requests k' (set_requests k t p) = requests k' p.
Proof. by destruct k, k'. Qed.

Lemma set_requests_rest k t p :
  timers (set_requests k t p) = timers p /\ next_timer (set_requests k t p) = next_timer p /\
  calls (set_requests k t p) = calls p /\ sent (set_requests k t p) = sent p.
Proof. by destruct k. Qed.

Lemma requests_stop k t p : requests k (stop_timer t p) = requests k p.
Proof. by destruct k. Qed.

Lemma requests_call k i bs p : requests k (call i bs p) = requests k p.
Proof. by destruct k. Qed.

Lemma requests_sent k key ty data p : requests k (_sendDebug key ty data p) = requests k p.
Proof. by destruct k. Qed.

Lemma requests_new k p : requests k (new_timer p).2 = requests k p.
Proof. by destruct k. Qed.

(** What a debug packet does: a response, or at most something sent. *)
Lemma handleDebug_cases c key bs p :
  (exists k rest, bs = response_type k :: rest /\ _handleDebug c key bs p = handle_response k key rest p) \/
  ((forall k rest, bs <> response_type k :: rest) /\
   (_handleDebug c key bs p = p \/ exists ty data, _handleDebug c key bs p = _sendDebug key ty data p)).
Proof.
  destruct bs as [|b rest]; [right; split; [done|by left]|].
  assert (H : forall k, b = response_type k -> _handleDebug c key (b :: rest) p = handle_response k key rest p).
  { by intros [] ->. }
  destruct (decide (b = 2)) as [->|H2]; [left; by exists DSelf, rest|].
  destruct (decide (b = 4)) as [->|H4]; [left; by exists DPeers, rest|].
  destruct (decide (b = 6)) as [->|H6]; [left; by exists DTree, rest|].
  right. split; [intros [] rest' [= -> _]; done|].
  unfold _handleDebug, _handleGetSelfRequest, _handleGetPeersRequest, _handleGetTreeRequest.
  rewrite (proj2 (Z.eqb_neq b typeDebugGetSelfResponse)) by done.
  rewrite (proj2 (Z.eqb_neq b typeDebugGetPeersResponse)) by done.
  rewrite (proj2 (Z.eqb_neq b typeDebugGetTreeResponse)) by done.
  repeat case_match; eauto.
Qed.

Lemma handle_response_spec k key bs p :
  match requests k p !! key with
  | None => handle_response k key bs p = p
  | Some info =>
      calls (handle_response k key bs p) = (info, bs) :: calls p /\
      next_timer (handle_response k key bs p) = next_timer p /\
      forall k', requests k' (handle_response k key bs p) =
        if decide (k = k') then delete key (requests k p) else requests k' p
  end.
Proof.
  unfold handle_response. destruct (requests k p !! key) as [info|]; [|done].
  split; [by destruct k|]. split; [by destruct k|]. intros k'. rewrite requests_set.
  destruct (decide (k = k')) as [->|]; by rewrite !requests_call, !requests_stop.
Qed.

Lemma send_request_spec k key cb p :
  calls (send_request k key cb p) = calls p /\
  next_timer (send_request k key cb p) = next_timer p + 1 /\
  requests k (send_request k key cb p) !! key = Some (mkReqInfo cb (next_timer p)) /\
  forall k' key', (k', key') <> (k, key) -> requests k' (send_request k key cb p) !! key' = requests k' p !! key'.
Proof.
  unfold send_request. set (p1 := match _ with Some _ => _ | None => p end).
  assert (H1 : calls p1 = calls p /\ next_timer p1 = next_timer p /\
    forall k' key', (k', key') <> (k, key) -> requests k' p1 !! key' = requests k' p !! key').
  { unfold p1. destruct (requests k p !! key) as [i|]; [|done].
    destruct (set_requests_rest k (delete key (requests k p)) (stop_timer (timer i) p)) as (_ & -> & -> & _).
    split; [done|]. split; [done|]. intros k' key' Hne. rewrite requests_set.
    destruct (decide (k = k')) as [->|]; [|by rewrite requests_stop].
    rewrite lookup_delete_ne; [done|congruence]. }
  clearbody p1. destruct H1 as (C & N & R). destruct (new_timer p1) as [t p2] eqn:E.
  injection E as <- <-. set (p2 := mkProto _ _ _ _ _ _ _).
  assert (R2 : forall k, requests k p2 = requests k p1) by by intros [].
  split; [destruct k; exact C|]. split; [destruct k; simpl; by rewrite N|].
  split; [rewrite requests_sent, requests_set_eq, lookup_insert_eq; by rewrite N|].
  intros k' key' Hne. rewrite requests_sent, requests_set. destruct (decide (k = k')) as [->|].
  - rewrite lookup_insert_ne by congruence. rewrite R2. by apply R.
  - rewrite R2. by apply R.
Qed.

Lemma expire_spec k key t p :
  calls (expire k key t p) = calls p /\ next_timer (expire k key t p) = next_timer p /\
  forall k' key', requests k' (expire k key t p) !! key' =
    if decide ((k', key') = (k, key) /\ (timer <$> requests k p !! key) = Some t) then None
    else requests k' p !! key'.
Proof.
  unfold expire. destruct (requests k p !! key) as [info|] eqn:E.
  - destruct (timer info =? t) eqn:Et; bool_props.
    + destruct (set_requests_rest k (delete key (requests k p)) p) as (_ & -> & -> & _).
      split; [done|]. split; [done|]. intros k' key'. rewrite requests_set.
      destruct (decide (k = k')) as [<-|Hk].
      * destruct (decide (key' = key)) as [->|Hkey].
        -- rewrite decide_True by (split; [done|simpl; congruence]). apply lookup_delete_eq.
        -- rewrite decide_False by naive_solver. by apply lookup_delete_ne.
      * rewrite decide_False by naive_solver. done.
    + split; [done|]. split; [done|]. intros k' key'.
      rewrite decide_False; [done|]. intros [_ [=]]. done.
  - split; [done|]. split; [done|]. intros k' key'. rewrite decide_False; [done|]. intros [_ [=]].
Qed.

(** Requests have distinct timers, all in the past, none of which has already
    delivered. *)
Record pinv (p : protoHandler) : Prop := {
  pinv_fresh : forall k key info, requests k p !! key = Some info -> timer info < next_timer p;
  pinv_calls : forall info bs, (info, bs) ∈ calls p -> timer info < next_timer p;
  pinv_once : NoDup ((fun c => timer c.1) <$> calls p);
  pinv_undelivered : forall k key info i bs, requests k p !! key = Some info ->
    (i, bs) ∈ calls p -> timer i <> timer info;
  pinv_distinct : forall k key info k' key' info', requests k p !! key = Some info ->
    requests k' p !! key' = Some info' -> timer info = timer info' -> (k, key) = (k', key')
}.

Lemma pinv_sub p p' :
  pinv p -> calls p' = calls p -> next_timer p' = next_timer p ->
  (forall k key info, requests k p' !! key = Some info -> requests k p !! key = Some info) -> pinv p'.
Proof. intros [] E1 E2 H. constructor; rewrite ?E1, ?E2; eauto. Qed.

Lemma pinv_step c p e : pinv p -> pinv (step c p e).
Proof.
  intros Hp. destruct e as [k key cb|key bs|k key t]; simpl.
  - destruct (send_request_spec k key cb p) as (E1 & E2 & E3 & E4).
    assert (Hcase : forall k' key' info, requests k' (send_request k key cb p) !! key' = Some info ->
      ((k', key') = (k, key) /\ info = mkReqInfo cb (next_timer p)) \/
      ((k', key') <> (k, key) /\ requests k' p !! key' = Some info)).
    { intros k' key' info H. destruct (decide ((k', key') = (k, key))) as [E|E]; [left|right].
      - injection E as -> ->. split; congruence.
      - rewrite E4 in H by done. done. }
    constructor; rewrite ?E1, ?E2.
    + intros k' key' info [[_ ->]|[_ H]]%Hcase; simpl; [lia|]. apply (pinv_fresh _ Hp) in H. lia.
    + intros info bs H%(pinv_calls _ Hp). lia.
    + apply Hp.
    + intros k' key' info i bs [[_ ->]|[_ H]]%Hcase Hc; simpl; [apply (pinv_calls _ Hp) in Hc; lia|].
      by eapply (pinv_undelivered _ Hp).
    + intros k1 key1 i1 k2 key2 i2 [[-> ->]|[? H1]]%Hcase [[-> ->]|[? H2]]%Hcase; simpl; intros Ht.
      * done.
      * apply (pinv_fresh _ Hp) in H2. lia.
      * apply (pinv_fresh _ Hp) in H1. lia.
      * by eapply (pinv_distinct _ Hp).
  - destruct (handleDebug_cases c key bs p) as [(k & rest & -> & ->)|(_ & [->|(ty & data & ->)])]; [|done|].
    2: { apply (pinv_sub p); [done|done|done|]. intros k key' i. by rewrite requests_sent. }
    pose proof (handle_response_spec k key rest p) as H.
    destruct (requests k p !! key) as [info|] eqn:E; [|by rewrite H].
    destruct H as (E1 & E2 & E3).
    assert (Hcase : forall k' key' i, requests k' (handle_response k key rest p) !! key' = Some i ->
      (k', key') <> (k, key) /\ requests k' p !! key' = Some i).
    { intros k' key' i. rewrite E3. destruct (decide (k = k')) as [<-|]; [|intros; split; congruence].
      intros [? ?]%lookup_delete_Some. split; congruence. }
    constructor; rewrite ?E1, ?E2.
    + intros k' key' i [_ H]%Hcase. by eapply (pinv_fresh _ Hp).
    + intros i bs [[= -> ->]|H]%elem_of_cons; [by eapply (pinv_fresh _ Hp)|by eapply (pinv_calls _ Hp)].
    + cbn. constructor; [|apply Hp]. intros ([i bs] & Hi & Hin)%list_elem_of_fmap.
      simpl in Hi. by apply (pinv_undelivered _ Hp _ _ _ _ _ E Hin).
    + intros k' key' i j bs [Hne H]%Hcase [[= -> ->]|Hin]%elem_of_cons.
      * intros Ht. apply Hne. by eapply (pinv_distinct _ Hp).
      * by eapply (pinv_undelivered _ Hp).
    + intros k1 key1 i1 k2 key2 i2 [_ H1]%Hcase [_ H2]%Hcase. by eapply (pinv_distinct _ Hp).
  - destruct (expire_spec k key t p) as (E1 & E2 & E3). apply (pinv_sub p); auto.
    intros k' key' info. rewrite E3. destruct (decide _); [discriminate|auto].
Qed.

Lemma pinv_run c es p : pinv p -> pinv (run c es p).
Proof. revert p. induction es as [|e es IH]; intros p Hp; [done|]. by apply IH, pinv_step. Qed.

Lemma pinv_init : pinv proto_init.
Proof. constructor; simpl; try set_solver; try (by intros []); constructor. Qed.

(** The events that touch the request [k], [key] with timer [t]. *)
Definition touches (k : dkind) (key : bytes) (t : Z) (e : event) : Prop :=
  match e with
  | Send k' key' _ => k' = k /\ key' = key
  | Recv key' bs => key' = key /\ exists rest, bs = response_type k :: rest
  | Expire k' key' t' => k' = k /\ key' = key /\ t' = t
  end.

Lemma run_untouched c k key info es p :
  requests k p !! key = Some info -> Forall (fun e => ~ touches k key (timer info) e) es ->
  requests k (run c es p) !! key = Some info.
Proof.
  intros Hk Hes. revert p Hk. induction Hes as [|e es He _ IH]; intros p Hk; [done|].
  apply IH. destruct e as [k' key' cb|key' bs|k' key' t]; simpl in *.
  - destruct (send_request_spec k' key' cb p) as (_ & _ & _ & E4). rewrite E4; [done|].
    intros [= -> ->]. by apply He.
  - destruct (handleDebug_cases c key' bs p) as [(k' & rest & -> & ->)|(_ & [->|(ty & data & ->)])].
    + pose proof (handle_response_spec k' key' rest p) as H.
      destruct (requests k' p !! key'); [|by rewrite H]. destruct H as (_ & _ & ->).
      destruct (decide (k' = k)) as [->|]; [|done]. rewrite lookup_delete_ne; [done|].
      intros ->. apply He. eauto.
    + done.
    + by rewrite requests_sent.
  - destruct (expire_spec k' key' t p) as (_ & _ & ->). rewrite decide_False; [done|].
    intros [[= -> ->] Ht]. apply He. rewrite Hk in Ht. simpl in Ht. split; [done|]. split; [done|congruence].
Qed.

(** ** Theorems *)

(** C11: the callback of a request runs at most once, however responses, new
    requests and timers interleave; and it does run, with the payload of the
    first response of the same kind from the requested node, unless another
    request to that node replaces it or its own timer expires before.  The
    timer of an earlier request to the same node changes nothing. *)
Theorem request_callbacks c es1 es2 k key cb rest :
  let p := run c es1 proto_init in
  let info := mkReqInfo cb (next_timer p) in
  Forall (fun e => ~ touches k key (timer info) e) es2 ->
  let p' := run c (es2 ++ [Recv key (response_type k :: rest)]) (step c p (Send k key cb)) in
  NoDup ((fun c => timer c.1) <$> calls p') /\
  calls p' = (info, rest) :: calls (run c es2 (step c p (Send k key cb))) /\
  requests k p' !! key = None.
Proof.
  intros p info Hes p'. assert (Hp : pinv p) by apply pinv_run, pinv_init.
  assert (Hp' : pinv p') by (by apply pinv_run, pinv_step).
  split; [apply Hp'|]. unfold p', run. rewrite fold_left_app. fold (run c es2 (step c p (Send k key cb))).
  set (q := run c es2 _). assert (Hq : requests k q !! key = Some info).
  { apply run_untouched; [|done]. by destruct (send_request_spec k key cb p) as (_ & _ & E & _). }
  assert (Hstep : fold_left (step c) [Recv key (response_type k :: rest)] q = handle_response k key rest q)
    by (by destruct k).
  rewrite Hstep. pose proof (handle_response_spec k key rest q) as H. rewrite Hq in H.
  destruct H as (-> & _ & ->). split; [done|]. rewrite decide_True by done. apply lookup_delete_eq.
Qed.

Definition sample_view : core_view := mkCoreView [123; 125] [] [] 65535.

Lemma request_callbacks_witness :
  calls (run sample_view [Expire DTree [1] 0; Recv [2] [4; 7]; Recv [1] [4; 9]]
           (step sample_view (run sample_view [Send DTree [1] 8] proto_init) (Send DPeers [1] 5)))
    = [(mkReqInfo 5 1, [9])].
Proof.
  assert (H : Forall (fun e => ~ touches DPeers [1] 1 e) [Expire DTree [1] 0; Recv [2] [4; 7]]).
  { repeat constructor; simpl; naive_solver. }
  exact (proj1 (proj2 (request_callbacks sample_view [Send DTree [1] 8]
    [Expire DTree [1] 0; Recv [2] [4; 7]] DPeers [1] 5 [9] H))).
Defined.

(** The key of a node-info or debug request is accepted exactly when it
    is the hexadecimal form of 32 bytes, which are then the key; node info
    above 16384 bytes is rejected and leaves the previous one in place, and
    every node-info request is answered with the current node info.*)
Theorem nodeinfo_spec {V} (Marshal : gmap string V -> option bytes) build given privacy m keyHex key m' err :
  (decodeNodeInfoKey keyHex = Ok key <-> hex_DecodeString keyHex = Some key /\ length key = PublicKeySize) /\
  (debug_key keyHex = Ok key <-> hex_DecodeString keyHex = Some key /\ length key = PublicKeySize) /\
  (_setNodeInfo Marshal build given privacy m = (err, m') ->
   callbacks m' = callbacks m /\
   (err = None -> Z.of_nat (length (_getNodeInfo m')) <= 16384 /\
      Marshal (if privacy then given else fold_left (fun acc kv => <[kv.1 := kv.2]> acc) build given)
        = Some (_getNodeInfo m')) /\
   (err <> None -> m' = m)) /\
  ni_sent (handleReq key m) = (typeSessionProto :: typeProtoNodeInfoResponse :: myNodeInfo m, key) :: ni_sent m.
Proof.
  assert (Hkey : forall kbs, length kbs = PublicKeySize -> copy (replicate 32 0) kbs = kbs).
  { intros kbs H. apply copy_all. by rewrite length_replicate. }
  assert (Hdbg : debug_key keyHex = Ok key <-> hex_DecodeString keyHex = Some key /\ length key = PublicKeySize).
  { unfold debug_key. destruct (hex_DecodeString keyHex) as [kbs|]; [|naive_solver].
    destruct (length kbs =? PublicKeySize)%nat eqn:E; bool_props; simpl; [|naive_solver].
    rewrite Hkey by done. naive_solver. }
  split; [|split; [done|split; [|done]]].
  - rewrite <- Hdbg. unfold decodeNodeInfoKey. case_bool_decide as H; [|done]. subst.
    split; [done|]. by vm_compute.
  - unfold _setNodeInfo. destruct (Marshal _) as [j|] eqn:E; [|intros [= <- <-]; done].
    destruct (16384 <? Z.of_nat (length j)) eqn:El; intros [= <- <-]; [done|]. bool_props. simpl. by repeat split.
Qed.

Lemma nodeinfo_spec_witness :
  _setNodeInfo (fun _ : gmap string Z => Some [123; 125]) [] ∅ true nodeinfo_init =
    (None, mkNodeinfo [123; 125] ∅ [] []) /\
  Z.of_nat (length (_getNodeInfo (mkNodeinfo [123; 125] ∅ [] []))) <= 16384.
Proof.
  assert (H : _setNodeInfo (fun _ : gmap string Z => Some [123; 125]) [] ∅ true nodeinfo_init =
    (None, mkNodeinfo [123; 125] ∅ [] [])) by reflexivity.
  split; [exact H|].
  destruct (nodeinfo_spec (fun _ : gmap string Z => Some [123; 125]) [] ∅ true nodeinfo_init "" []
    (mkNodeinfo [123; 125] ∅ [] []) None) as (_ & _ & Hs & _).
  exact (proj1 (proj1 (proj2 (Hs H)) eq_refl)).
Defined.
