(* ===== verification/Core.v ===== *)
(** * Core: the node object (ygglib/core/core.go, options.go, api.go)

    Start-up from a list of options, traffic in and out of the router
    connection, path notifications, and the views of peers, tree, paths and
    sessions.  The router (ironwood) is a parameter: what its packet
    connection delivers and what its debug calls report. *)

From Stdlib Require Import Ascii.
From S2P Require Import Prelude GoStd Address Handshake Transport Links Proto.

(** ** Traffic *)

(** MTU: [pm] is PacketConn.MTU(), a uint64. *)
Definition MTU (pm : Z) : Z :=
  let sessionTypeOverhead := 1 in
  let m := u64 (pm - sessionTypeOverhead) in
  if 65535 <? m then 65535 else m.

(** What PacketConn.ReadFrom delivers: an error, or a packet with its source. *)
Inductive delivery :=
| DError (e : Z)
| DPacket (bs from : bytes).

Inductive read_result :=
| RError (e : Z)
| RPacket (n : nat) (p : bytes) (from : bytes).

(** The loop of [ReadFrom] into the buffer [p]: the result ([None] while the
    connection has nothing to deliver), the in-band messages handed to the
    protocol handler on the way, and the deliveries left. *)
Fixpoint ReadFrom (p : bytes) (ds : list delivery)
    : option read_result * list (bytes * bytes) * list delivery :=
  match ds with
  | [] => (None, [], [])
  | DError e :: ds => (Some (RError e), [], ds)
  | DPacket bs from :: ds =>
      match bs with
      | [] => ReadFrom p ds
      | b :: data =>
          if b =? typeSessionTraffic then
            let n := if (length p <? length data)%nat then length p else length data in
            (Some (RPacket n (copy p data) from), [], ds)
          else if b =? typeSessionProto then
            let key := copy (replicate 32 0) from in
            let '(r, protos, ds) := ReadFrom p ds in
            (r, (key, data) :: protos, ds)
          else ReadFrom p ds
      end
  end.

(** [WriteTo]: the packet passed on, and the count returned for the count of
    PacketConn.WriteTo. *)
Definition WriteTo_packet (p : bytes) : bytes := typeSessionTraffic :: p.
Definition WriteTo_count (n : Z) : Z := if 0 <? n then n - 1 else n.

(** ** Path notifications: callbacks are named, nil is [None] *)

Definition SetPathNotify (notify : option Z) (pathNotifiers : list (option Z)) : list (option Z) :=
  match notify with None => [] | Some _ => [notify] end.
Definition AddPathNotify (notify : option Z) (pathNotifiers : list (option Z)) : list (option Z) :=
  match notify with None => pathNotifiers | Some _ => pathNotifiers ++ [notify] end.
(** The calls that [doPathNotify] makes. *)
Definition doPathNotify (key : bytes) (pathNotifiers : list (option Z)) : list (Z * bytes) :=
  omap (fun notify => match notify with Some f => Some (f, key) | None => None end) pathNotifiers.

(** ** Start-up *)

Inductive SetupOption :=
| OptPeer (URI SourceInterface : string)
| OptListenAddress (a : string)
| OptPeerFilter (f : Z)
| OptNodeInfo (ni : gmap string Z)
| OptNodeInfoPrivacy (b : bool)
| OptAllowedPublicKey (key : bytes)
| OptGroupPassword (pw : string)
| OptTransportManager (m : option Manager).

Record core := mkCore {
  listeners : gset string;
  peerFilter : option Z;
  nodeinfo_opt : gmap string Z;
  nodeinfoPrivacy : bool;
  _allowedPublicKeys : gset bytes;
  groupPassword : string;
  tm : option Manager;
  peer_links : Table.links;
  own_nodeinfo : nodeinfo
}.

Inductive new_error :=
| ErrParsePeer
| ErrAddPeer (e : linkError)
| ErrTransportManagerNil
| ErrNoPrivateKey
| ErrNotEd25519
| ErrKeyLength
| ErrTLS
| ErrNoTransportManager
| ErrEncryption
| ErrNodeInfo (e : nodeinfo_error).

Definition core_init : core :=
  mkCore ∅ None ∅ false ∅ "" None Table.init nodeinfo_init.

Section Node.
(** url.Parse, URL.String, time.ParseDuration and json.Marshal *)
Context (url_Parse : string -> option URL) (url_String : URL -> string).
Context (ParseDuration : string -> option Z).
Context (Marshal : gmap string Z -> option bytes) (build_info : list (string * Z)).

Definition link_info (u : URL) (sintf : string) : linkInfo :=
  mkLinkInfo (url_String (urlForLinkInfo u)) sintf.

(** [links.add]: scheme check, options, table. *)
Definition links_add (tm : option Manager) (u : URL) (sintf : string) (lt : linkType)
    (w : Table.links) : option linkError * Table.links :=
  match ensureSchemeSupported tm (normalizeTransportURL u) with
  | Some err => (Some err, w)
  | None =>
      match add_options ParseDuration (Query u) with
      | Err err => (Some err, w)
      | Ok options => Table.add (link_info u sintf) lt (ToUpper (Scheme u)) (maxBackoff options) w
      end
  end.

Definition AddPeer (tm : option Manager) (u : URL) (sintf : string) := links_add tm u sintf linkTypePersistent.
Definition CallPeer (tm : option Manager) (u : URL) (sintf : string) := links_add tm u sintf linkTypeEphemeral.
Definition RemovePeer (u : URL) (sintf : string) := Table.remove (link_info u sintf).

Definition _applyOption (opt : SetupOption) (c : core) : option new_error * core :=
  let '(mkCore ls pf ni pr al gp tm w own) := c in
  match opt with
  | OptPeer URI sintf =>
      match url_Parse URI with
      | None => (Some ErrParsePeer, c)
      | Some u =>
          let '(err, w) := links_add tm u sintf linkTypePersistent w in
          let c := mkCore ls pf ni pr al gp tm w own in
          match err with
          | None | Some ErrLinkAlreadyConfigured => (None, c)
          | Some err => (Some (ErrAddPeer err), c)
          end
      end
  | OptListenAddress a => (None, mkCore ({[a]} ∪ ls) pf ni pr al gp tm w own)
  | OptPeerFilter f => (None, mkCore ls (Some f) ni pr al gp tm w own)
  | OptNodeInfo ni => (None, mkCore ls pf ni pr al gp tm w own)
  | OptNodeInfoPrivacy pr => (None, mkCore ls pf ni pr al gp tm w own)
  | OptAllowedPublicKey key =>
      (None, mkCore ls pf ni pr ({[copy (replicate 32 0) key]} ∪ al) gp tm w own)
  | OptGroupPassword gp => (None, mkCore ls pf ni pr al gp tm w own)
  | OptTransportManager None => (Some ErrTransportManagerNil, c)
  | OptTransportManager (Some m) => (None, mkCore ls pf ni pr al gp (Some m) w own)
  end.

(** Peers and listeners wait for the second pass. *)
Definition is_late (opt : SetupOption) : bool :=
  match opt with OptPeer _ _ | OptListenAddress _ => true | _ => false end.

Fixpoint apply_options (late : bool) (opts : list SetupOption) (c : core)
    : option new_error * core :=
  match opts with
  | [] => (None, c)
  | opt :: opts =>
      if Bool.eqb (is_late opt) late then
        match _applyOption opt c with
        | (Some err, c) => (Some err, c)
        | (None, c) => apply_options late opts c
        end
      else apply_options late opts c
  end.

(** The private key of the certificate: absent, of another kind, or bytes. *)
Inductive private_key := NoKey | OtherKey | Ed25519Key (bs : bytes).

(** [New]; [tls_ok] and [crypto_ok] are the outcomes of GenerateTLSConfig and
    of the packet connection's constructor. *)
Definition New (key : private_key) (tls_ok crypto_ok : bool) (opts : list SetupOption)
    : result new_error core :=
  match apply_options false opts core_init with
  | (Some err, _) => Err err
  | (None, c) =>
      match key with
      | NoKey => Err ErrNoPrivateKey
      | OtherKey => Err ErrNotEd25519
      | Ed25519Key secret =>
          if negb (length secret =? 64)%nat then Err ErrKeyLength
          else if negb tls_ok then Err ErrTLS
          else match tm c with
          | None => Err ErrNoTransportManager
          | Some _ =>
              if negb crypto_ok then Err ErrEncryption
              else match apply_options true opts c with
              | (Some err, _) => Err err
              | (None, mkCore ls pf ni pr al gp tm w own) =>
                  match _setNodeInfo Marshal build_info ni pr own with
                  | (Some err, _) => Err (ErrNodeInfo err)
                  | (None, own) => Ok (mkCore ls pf ni pr al gp tm w own)
                  end
              end
          end
      end
  end.

(** The listen calls that [New] then makes: one per listen address that
    parses (the others are logged), in the order of Go's map iteration. *)
Definition listen_urls (order : list string) : list URL := omap url_Parse order.

End Node.

(** The transform of the routing filters; [None] is the nil pointer that the
    code would dereference. *)
Definition keyXform (key : bytes) : option bytes :=
  match SubnetForKey key with Some s => Some (Subnet_GetKey s) | None => None end.

(** RetryPeersNow kicks every link of the table. *)
Definition RetryPeersNow (w : Table.links) : Table.links :=
  map_fold (fun _ p w => Table.kick p w) w (Table._links w).

(** ** Views *)

Record DebugPeer := mkDebugPeer {
  dp_conn : Conn; dp_key : bytes; dp_root : bytes; dp_port : Z;
  dp_priority : Z; dp_latency : Z; dp_cost : Z
}.

Record PeerInfo := mkPeerInfo {
  URI : string; Up : bool; Inbound : bool;
  LastError : option Table.link_error; LastErrorTime : Z;
  pi_traffic : option linkConn;            (* counters of the connection *)
  Uptime : Z;
  pi_router : option DebugPeer             (* Key, Root, Port, Priority, Latency, Cost *)
}.

Definition Key (p : PeerInfo) : bytes := match pi_router p with Some d => dp_key d | None => [] end.

(** [conns[p.Conn] = p] in a loop: the last peer of a connection wins. *)
Definition index_conns (iwpeers : list DebugPeer) : gmap Conn DebugPeer :=
  fold_left (fun conns p => <[dp_conn p := p]> conns) iwpeers ∅.

Definition peer_info (conns : gmap Conn DebugPeer) (counters : gmap Conn (linkConn * Z)) (now : Z)
    (info : linkInfo) (state : Table.link) : PeerInfo :=
  match Table._conn state with
  | None => mkPeerInfo (uri info) false false (Table._err state) (Table._errtime state) None 0 None
  | Some c =>
      mkPeerInfo (uri info) true (bool_decide (Table.link_type state = linkTypeIncoming))
        (Table._err state) (Table._errtime state) (fst <$> counters !! c)
        (match counters !! c with Some (_, up) => now - up | None => 0 end) (conns !! c)
  end.

(** [order]: the entries of the table as Go iterates over them. *)
Definition GetPeers (iwpeers : list DebugPeer) (counters : gmap Conn (linkConn * Z)) (now : Z)
    (order : list (linkInfo * Z)) (w : Table.links) : list PeerInfo :=
  omap (fun e => peer_info (index_conns iwpeers) counters now e.1 <$> Table.heap w !! e.2) order.

Definition PeerURIs (peers : list PeerInfo) : list string :=
  omap (fun p => if bool_decide (URI p = ""%string) then None else Some (URI p)) peers.
Definition ConnectedPeerURIs (peers : list PeerInfo) : list string :=
  omap (fun p => if negb (Up p) || bool_decide (URI p = ""%string) then None else Some (URI p)) peers.

(** Views of the router's debug information: the tree as (key, parent, sequence),
    paths as (key, path, sequence), sessions as (key, received, sent, uptime). *)
Record TreeEntryInfo := mkTreeEntryInfo { te_Key : bytes; te_Parent : bytes; te_Sequence : Z }.
Record PathEntryInfo := mkPathEntryInfo { pe_Key : bytes; pe_Path : list Z; pe_Sequence : Z }.
Record SessionInfo := mkSessionInfo { se_Key : bytes; se_RXBytes : Z; se_TXBytes : Z; se_Uptime : Z }.

Definition GetTree (ts : list (bytes * bytes * Z)) : list TreeEntryInfo :=
  map (fun '(key, parent, sequence) => mkTreeEntryInfo key parent sequence) ts.
Definition GetPaths (ps : list (bytes * list Z * Z)) : list PathEntryInfo :=
  map (fun '(key, path, sequence) => mkPathEntryInfo key path sequence) ps.
Definition GetSessions (ss : list (bytes * Z * Z * Z)) : list SessionInfo :=
  map (fun '(key, rx, tx, uptime) => mkSessionInfo key rx tx uptime) ss.

(** [Address] and [Subnet] of the node; the mask of the latter is /64. *)
Definition core_Address (public : bytes) : option bytes := AddrForKey public.
Definition core_Subnet (public : bytes) : option (bytes * Z) :=
  match SubnetForKey public with
  | Some s => Some (s ++ replicate 8 0, 64)
  | None => None
  end.

(** ** Lemmas *)

Lemma apply_options_filter up us pd late opts c :
  apply_options up us pd late opts c =
  apply_options up us pd late (filter (fun o => is_late o = late) opts) c.
Proof.
  revert c. induction opts as [|o opts IH]; intros c; [done|].
  rewrite filter_cons. cbn [apply_options].
  destruct (decide (is_late o = late)) as [E|Hne].
  - cbn [apply_options]. rewrite E, Bool.eqb_reflx. destruct (_applyOption up us pd o c) as [[e|] c']; [done|apply IH].
  - rewrite (proj2 (Bool.eqb_false_iff _ _)) by done. apply IH.
Qed.

Lemma response_keys_spec mtu keys bs :
  Z.of_nat (length bs) + Z.of_nat (length (concat keys)) + 2 < 2 ^ 64 ->
  exists ks1 ks2, keys = ks1 ++ ks2 /\ response_keys mtu bs keys = bs ++ concat ks1 /\
    (ks1 <> [] -> Z.of_nat (length (bs ++ concat ks1)) + 2 <= mtu) /\
    (forall k ks, ks2 = k :: ks -> mtu < Z.of_nat (length (bs ++ concat ks1)) + Z.of_nat (length k) + 2).
Proof.
  revert bs. induction keys as [|k keys IH]; intros bs Hlen.
  - exists [], []. simpl. rewrite app_nil_r. repeat split; done.
  - cbn [response_keys]. cbn [concat] in Hlen. rewrite length_app in Hlen.
    unfold u64. rewrite length_app, Z.mod_small by lia.
    destruct (mtu <? Z.of_nat (length bs + length k) + 2) eqn:E; bool_props.
    + exists [], (k :: keys). cbn [concat]. rewrite app_nil_r. repeat split; [done|].
      intros ? ? [= <- <-]. lia.
    + destruct (IH (bs ++ k)) as (ks1 & ks2 & -> & -> & H1 & H2); [rewrite length_app; lia|].
      exists (k :: ks1), ks2. cbn [concat]. rewrite <- !app_assoc in *. repeat split; auto.
      intros _. destruct ks1 as [|k1 ks1]; [|by apply H1].
      cbn [concat]. rewrite app_nil_r, length_app. lia.
Qed.

Lemma split_keys_concat fuel ks :
  Forall (fun k => length k = PublicKeySize) ks -> (length (concat ks) <= fuel)%nat ->
  split_keys fuel (concat ks) = ks.
Proof.
  intros Hks. revert fuel. induction Hks as [|k ks Hk _ IH]; intros fuel Hf; [by destruct fuel|].
  cbn [concat] in *. rewrite length_app in Hf. destruct fuel as [|fuel]; [unfold PublicKeySize in *; lia|].
  cbn [split_keys]. rewrite (proj2 (Nat.leb_le _ _)) by (rewrite length_app; lia).
  rewrite <- Hk at 1. rewrite take_app_length, <- Hk, drop_app_length. f_equal. apply IH.
  unfold PublicKeySize in *. lia.
Qed.

Lemma concat_nonempty (ks : list bytes) : concat (filter (fun k => k <> []) ks) = concat ks.
Proof.
  induction ks as [|k ks IH]; [done|]. rewrite filter_cons. case_decide as H; cbn [concat].
  - by rewrite IH.
  - destruct k; [exact IH|]. discriminate H.
Qed.

(** ** Theorems *)

(** The two requests that are answered with keys: the type of the request, that
    of the answer, and the keys that the core lists. *)
Definition key_requests (c : core_view) : list (Z * Z * list bytes) :=
  [(typeDebugGetPeersRequest, typeDebugGetPeersResponse, cv_peers c);
   (typeDebugGetTreeRequest, typeDebugGetTreeResponse, cv_tree c)].

Lemma handleDebug_keys c key req resp keys p : (req, resp, keys) ∈ key_requests c ->
  _handleDebug c key [req] p = _sendDebug key resp (response_keys (cv_mtu c) [] keys) p.
Proof. unfold key_requests. rewrite !elem_of_cons, elem_of_nil. by intros [[= -> -> ->]|[[= -> -> ->]|[]]]. Qed.



(** C25: [ReadFrom] returns the payload of the first traffic packet, cut to the
    buffer, after handing every in-band message before it to the protocol
    handler with the sender's key and in order, and skipping empty and unknown
    packets; in particular what [WriteTo] sends arrives unchanged. *)
Theorem ReadFrom_traffic p data from pre rest :
  Forall (fun d => exists bs f, d = DPacket bs f /\ head bs <> Some typeSessionTraffic) pre ->
  ReadFrom p (pre ++ DPacket (WriteTo_packet data) from :: rest) =
    (Some (RPacket (Nat.min (length p) (length data)) (copy p data) from),
     omap (fun d => match d with
                    | DPacket (2 :: msg) f => Some (copy (replicate 32 0) f, msg)
                    | _ => None
                    end) pre,
     rest) /\
  (length data <= length p -> take (length data) (copy p data) = data)%nat.
Proof.
  intros Hpre. split.
  - induction Hpre as [|d pre (bs & f & -> & Hbs) _ IH].
    + cbn -[copy Nat.ltb Nat.min]. destruct (length p <? length data)%nat eqn:E; bool_props.
      * by rewrite Nat.min_l by lia.
      * by rewrite Nat.min_r by lia.
    + cbn [app ReadFrom omap list_omap]. destruct bs as [|b msg]; [exact IH|].
      destruct (b =? typeSessionTraffic) eqn:E1; bool_props; [simpl in Hbs; congruence|].
      destruct (b =? typeSessionProto) eqn:E2; bool_props.
      * subst b. rewrite IH. done.
      * rewrite IH. destruct b as [|[[]|[]|]|]; try done; by destruct E2.
  - intros Hl. unfold copy. rewrite (firstn_all2 data) by done. apply take_app_length.
Qed.

Lemma ReadFrom_traffic_witness :
  ReadFrom (replicate 4 0) [DPacket [] [9]; DPacket [2; 255; 1] (replicate 32 9);
                            DPacket (WriteTo_packet [7; 8]) [3]] =
    (Some (RPacket 2 [7; 8; 0; 0] [3]), [(replicate 32 9, [255; 1])], []).
Proof.
  assert (H : Forall (fun d => exists bs f, d = DPacket bs f /\ head bs <> Some typeSessionTraffic)
    [DPacket [] [9]; DPacket [2; 255; 1] (replicate 32 9)]).
  { apply Forall_cons. split; [eexists _, _; split; [reflexivity|vm_compute; congruence]|].
    apply Forall_cons. split; [eexists _, _; split; [reflexivity|vm_compute; congruence]|constructor]. }
  exact (proj1 (ReadFrom_traffic (replicate 4 0) [7; 8] [3] _ [] H)).
Defined.

(** The routing filters index a node under one key, whichever form of its
    key a lookup uses: the transform of the full key, of the partial key of
    its address and of the partial key of its subnet are equal, and the
    transform is idempotent. *)
Theorem bloom_transform_consistent k :
  wf_bytes k -> length k = PublicKeySize ->
  exists a s x, AddrForKey k = Some a /\ SubnetForKey k = Some s /\
    keyXform k = Some x /\ keyXform (GetKey a) = Some x /\
    keyXform (Subnet_GetKey s) = Some x /\ keyXform x = Some x.
Proof.
  intros Hwf Hl. destruct (key_addr_some k Hl) as (a & s & Ha & Hs).
  exists a, s, (Subnet_GetKey s). unfold keyXform. rewrite Hs.
  assert (Hsub : SubnetForKey (GetKey a) = Some s).
  { rewrite <- Hs. unfold SubnetForKey. by rewrite (address_roundtrip k a Hwf Ha), Ha. }
  rewrite Hsub, (subnet_roundtrip k s Hwf Hs). done.
Qed.

Lemma bloom_transform_consistent_witness :
  wf_bytes sample_key /\ exists a s x, AddrForKey sample_key = Some a /\ SubnetForKey sample_key = Some s /\
    keyXform sample_key = Some x /\ keyXform (GetKey a) = Some x /\
    keyXform (Subnet_GetKey s) = Some x /\ keyXform x = Some x.
Proof.
  assert (H : wf_bytes sample_key) by (apply (bool_decide_unpack _); vm_compute; exact I).
  exact (conj H (bloom_transform_consistent sample_key H eq_refl)).
Defined.

(** ** Start-up *)

Definition opt_allowed (o : SetupOption) : option bytes :=
  match o with OptAllowedPublicKey k => Some (copy (replicate 32 0) k) | _ => None end.
Definition opt_listen (o : SetupOption) : option string :=
  match o with OptListenAddress a => Some a | _ => None end.
Definition opt_password (acc : string) (o : SetupOption) : string :=
  match o with OptGroupPassword p => p | _ => acc end.
Definition opt_manager (acc : option Manager) (o : SetupOption) : option Manager :=
  match o with OptTransportManager m => m | _ => acc end.

Section StartUp.
Context (url_Parse : string -> option URL) (url_String : URL -> string).
Context (ParseDuration : string -> option Z).
Context (Marshal : gmap string Z -> option bytes) (build_info : list (string * Z)).

Abbreviation apply_options := (apply_options url_Parse url_String ParseDuration).
Abbreviation New := (New url_Parse url_String ParseDuration Marshal build_info).

Lemma early_pass opts c c' :
  apply_options false opts c = (None, c') ->
  _allowedPublicKeys c' = list_to_set (omap opt_allowed opts) ∪ _allowedPublicKeys c /\
  groupPassword c' = fold_left opt_password opts (groupPassword c) /\
  tm c' = fold_left opt_manager opts (tm c) /\
  listeners c' = listeners c /\ peer_links c' = peer_links c.
Proof.
  revert c. induction opts as [|o opts IH]; intros c.
  { cbn. intros [= <-]. repeat split. set_solver. }
  cbn [Core.apply_options]. destruct (is_late o) eqn:El.
  - cbn [Bool.eqb]. intros H. apply IH in H as (-> & -> & -> & ? & ?).
    by destruct o.
  - cbn [Bool.eqb]. destruct c as [ls pf ni pr al gp m w own].
    destruct o as [| | | | |k| |[m'|]]; try discriminate El; cbn [_applyOption]; try discriminate;
      intros H; apply IH in H as (-> & -> & -> & -> & ->); cbn; repeat split; try done.
    set_solver.
Qed.

Lemma links_add_table m u sintf lt w err w' :
  links_add url_String ParseDuration m u sintf lt w = (err, w') ->
  (forall i, i ∈ dom (Table._links w) -> i ∈ dom (Table._links w')) /\
  (err = None \/ err = Some ErrLinkAlreadyConfigured ->
   link_info url_String u sintf ∈ dom (Table._links w')).
Proof.
  unfold links_add, Table.add, ensureSchemeSupported.
  destruct m as [m|]; [destruct (HasTransport _ m)|].
  2, 3: intros [= <- <-]; split; [done|]; intros [|]; done.
  destruct (add_options ParseDuration (Query u)) as [o|e] eqn:Eo.
  - destruct (Table._links w !! link_info url_String u sintf) as [p|] eqn:E; intros [= <- <-]; split; try done.
    + intros _. simpl. by apply elem_of_dom_2 in E.
    + intros i Hi. simpl. set_solver.
    + intros _. simpl. set_solver.
  - intros [= <- <-]. split; [done|]. intros [|[= ->]]; [done|].
    unfold add_options in Eo. clear -Eo.
    destruct (parse_keys _ ∅) as [?|e1] eqn:E1; cbn [rbind] in Eo.
    + destruct (parse_priority _) as [?|e2] eqn:E2; cbn [rbind] in Eo.
      * destruct (parse_password _) as [?|e3] eqn:E3; cbn [rbind] in Eo.
        -- unfold parse_backoff in Eo. by repeat case_match.
        -- unfold parse_password in E3. repeat case_match; simplify_eq.
      * unfold parse_priority in E2. repeat case_match; simplify_eq.
    + revert E1 Eo. generalize (∅ : gset bytes). induction (query_all (Query u) "key") as [|s l IH]; intros g; cbn [parse_keys]; [done|].
      destruct (hex_DecodeString s); [apply IH|]. by intros [= <-].
Qed.

Lemma late_pass opts c c' :
  apply_options true opts c = (None, c') ->
  _allowedPublicKeys c' = _allowedPublicKeys c /\ groupPassword c' = groupPassword c /\
  tm c' = tm c /\ listeners c' = list_to_set (omap opt_listen opts) ∪ listeners c /\
  (forall i, i ∈ dom (Table._links (peer_links c)) -> i ∈ dom (Table._links (peer_links c'))) /\
  (forall URI sintf, OptPeer URI sintf ∈ opts -> exists u, url_Parse URI = Some u /\
     link_info url_String u sintf ∈ dom (Table._links (peer_links c'))).
Proof.
  revert c. induction opts as [|o opts IH]; intros c.
  { cbn. intros [= <-]. repeat split; set_solver. }
  cbn [Core.apply_options]. destruct (is_late o) eqn:El; cbn [Bool.eqb].
  2: { intros H. apply IH in H as (-> & -> & -> & -> & ? & H). repeat split; auto; [by destruct o|].
       intros URI sintf [<-|Hin]%elem_of_cons; [done|]. by apply H. }
  destruct c as [ls pf ni pr al gp m w own]. destruct o as [URI sintf|a| | | | | |]; try discriminate El; cbn [_applyOption].
  - destruct (url_Parse URI) as [u|] eqn:Eu; [|discriminate].
    destruct (links_add url_String ParseDuration m u sintf linkTypePersistent w) as [err w'] eqn:Ea.
    apply links_add_table in Ea as [Hmono Hin].
    assert (Hgo : (err = None \/ err = Some ErrLinkAlreadyConfigured) ->
      apply_options true opts (mkCore ls pf ni pr al gp m w' own) = (None, c') ->
      _allowedPublicKeys c' = al /\ groupPassword c' = gp /\ tm c' = m /\
      listeners c' = list_to_set (omap opt_listen opts) ∪ ls /\
      (forall i, i ∈ dom (Table._links w) -> i ∈ dom (Table._links (peer_links c'))) /\
      (forall URI' sintf', OptPeer URI' sintf' ∈ OptPeer URI sintf :: opts -> exists u, url_Parse URI' = Some u /\
         link_info url_String u sintf' ∈ dom (Table._links (peer_links c')))).
    { intros He H. apply IH in H as (-> & -> & -> & -> & Hm & H). cbn in *. repeat split; auto.
      intros URI' sintf' [[= -> ->]|Hin']%elem_of_cons; [|by apply H]. exists u. auto. }
    destruct err as [[]|]; try discriminate; intros H; (apply Hgo; [auto|exact H]).
  - intros H. apply IH in H as (-> & -> & -> & -> & Hm & H). cbn in *. repeat split; auto; [set_solver|].
    intros URI' sintf' [[=]|Hin']%elem_of_cons. by apply H.
Qed.

(** A node that starts applied all its options, wherever the peers and
    listeners stood among them: the allowed keys, the group password and the
    transport manager of the options were in force before the first peer was
    added, every peer option parsed and is in the link table (naming a peer
    twice is no error), and the listen addresses are those of the options.
    The outcome depends only on the order within the peers and listeners and
    the order within the other options. *)
Theorem New_applies_options key tls_ok crypto_ok opts c :
  New key tls_ok crypto_ok opts = Ok c ->
  _allowedPublicKeys c = list_to_set (omap opt_allowed opts) /\
  groupPassword c = fold_left opt_password opts ""%string /\
  is_Some (tm c) /\ tm c = fold_left opt_manager opts None /\
  listeners c = list_to_set (omap opt_listen opts) /\
  (forall URI sintf, OptPeer URI sintf ∈ opts -> exists u, url_Parse URI = Some u /\
     link_info url_String u sintf ∈ dom (Table._links (peer_links c))) /\
  (forall opts', filter (fun o => is_late o = false) opts' = filter (fun o => is_late o = false) opts ->
     filter (fun o => is_late o = true) opts' = filter (fun o => is_late o = true) opts ->
     New key tls_ok crypto_ok opts' = Ok c).
Proof.
  intros H. split_and!; cycle 6.
  { intros opts' Hf Ht. rewrite <- H. unfold Core.New.
    rewrite (apply_options_filter _ _ _ false opts'), Hf, <- apply_options_filter.
    destruct (apply_options false opts core_init) as [[e|] c3]; [done|].
    destruct key as [| |secret]; try done. destruct (length secret =? 64)%nat; [|done]. cbn [negb].
    destruct tls_ok; [|done]. cbn [negb]. destruct (tm c3); [|done].
    by rewrite (apply_options_filter _ _ _ true opts'), Ht, <- apply_options_filter. }
  all: unfold Core.New in H;
    destruct (apply_options false opts core_init) as [[e|] c1] eqn:E1; [done|];
    destruct key as [| |secret]; try done; destruct (length secret =? 64)%nat; [|done]; cbn [negb] in H;
    destruct tls_ok; [|done]; cbn [negb] in H; destruct (tm c1) as [m|] eqn:Em; [|done];
    destruct crypto_ok; [|done]; cbn [negb] in H;
    destruct (apply_options true opts c1) as [[e|] c2] eqn:E2; [done|];
    destruct c2 as [ls pf ni pr al gp m2 w own];
    destruct (_setNodeInfo Marshal build_info ni pr own) as [[e|] own']; [done|];
    injection H as <-; apply early_pass in E1 as (A1 & A2 & A3 & A4 & A5);
    apply late_pass in E2 as (B1 & B2 & B3 & B4 & _ & B6); cbn in *.
  - by rewrite B1, A1, (right_id_L ∅ (∪)).
  - by rewrite B2, A2.
  - rewrite B3. eauto.
  - congruence.
  - by rewrite B4, A4, (right_id_L ∅ (∪)).
  - exact B6.
Qed.

End StartUp.

Definition sample_manager : Manager := (RegisterTransport (Some sample_tcp) (NewManager None)).2.
Definition sample_opts : list SetupOption :=
  [OptPeer "tcp://h:1" ""; OptAllowedPublicKey (replicate 32 1); OptPeer "tcp://h:1" "";
   OptTransportManager (Some sample_manager)].
Definition sample_core : option core :=
  match New (fun _ => Some (mkURL "tcp" "h:1" "" "" [])) (fun _ => "tcp://h:1"%string) (fun _ => None)
          (fun _ => Some [123; 125]) [] (Ed25519Key (replicate 64 0)) true true sample_opts with
  | Ok c => Some c
  | Err _ => None
  end.

Lemma New_applies_options_witness :
  exists c, sample_core = Some c /\ _allowedPublicKeys c = {[ replicate 32 1 ]}.
Proof.
  assert (Hs : is_Some sample_core) by (vm_compute; eauto). destruct Hs as [c Hc].
  exists c. split; [exact Hc|]. unfold sample_core in Hc.
  destruct (New _ _ _ _ _ _ _ _ _) as [c'|e] eqn:E; [|discriminate]. injection Hc as ->.
  pose proof (New_applies_options (fun _ => Some (mkURL "tcp" "h:1" "" "" [])) (fun _ => "tcp://h:1"%string)
    (fun _ => None) (fun _ => Some [123; 125]) [] (Ed25519Key (replicate 64 0)) true true sample_opts c E) as [H _].
  rewrite H. reflexivity.
Defined.

(** ** Peer views *)

Lemma index_conns_lookup iwpeers c :
  index_conns iwpeers !! c = last (filter (fun p => dp_conn p = c) iwpeers).
Proof.
  unfold index_conns. induction iwpeers as [|p l IH] using rev_ind; [done|].
  rewrite fold_left_app, filter_app, last_app. cbn [fold_left]. rewrite filter_cons, filter_nil.
  destruct (decide (dp_conn p = c)) as [<-|Hne]; [by rewrite lookup_insert_eq|].
  by rewrite lookup_insert_ne.
Qed.

(** The connected peers are the peers with a connection, in the same order. *)
Lemma ConnectedPeerURIs_sublist peers : ConnectedPeerURIs peers `sublist_of` PeerURIs peers.
Proof.
  induction peers as [|p peers IH]; simpl; [constructor|].
  destruct (bool_decide (URI p = ""%string)); destruct (Up p); simpl; first [exact IH | by constructor].
Qed.

(** The peer list has one record per entry of the link table; a record is
    up exactly when its link has a connection, which then also decides the
    direction and the counters; and it carries the router's data, of the last
    router peer with that connection, exactly when the router knows the
    connection. *)
Theorem GetPeers_spec iwpeers counters now order w :
  (forall e, e ∈ order -> is_Some (Table.heap w !! e.2)) ->
  length (GetPeers iwpeers counters now order w) = length order /\
  PeerURIs (GetPeers iwpeers counters now order w) =
    filter (fun u => u <> ""%string) (map (fun e => uri e.1) order) /\
  forall info p l, (info, p) ∈ order -> Table.heap w !! p = Some l ->
    exists pi, pi ∈ GetPeers iwpeers counters now order w /\ URI pi = uri info /\
      Up pi = bool_decide (is_Some (Table._conn l)) /\
      LastError pi = Table._err l /\
      (Inbound pi = true <-> is_Some (Table._conn l) /\ Table.link_type l = linkTypeIncoming) /\
      pi_router pi = match Table._conn l with
                     | Some c => last (filter (fun d => dp_conn d = c) iwpeers)
                     | None => None
                     end.
Proof.
  intros Hh. split; [|split].
  - induction order as [|[i p] order IH]; [done|]. destruct (Hh (i, p)) as [l Hl]; [by left|].
    cbn. simpl in Hl. rewrite Hl. cbn. f_equal. apply IH. intros e He. apply Hh. by right.
  - induction order as [|[i p] order IH]; [done|]. destruct (Hh (i, p)) as [l Hl]; [by left|].
    cbn [map fst]. set (x := peer_info (index_conns iwpeers) counters now i l).
    assert (E : GetPeers iwpeers counters now ((i, p) :: order) w = x :: GetPeers iwpeers counters now order w).
    { cbn. simpl in Hl. by rewrite Hl. }
    rewrite E, filter_cons. assert (Hu : URI x = uri i) by (unfold x, peer_info; by destruct (Table._conn l)).
    change (PeerURIs (x :: ?r)) with
      (match (if bool_decide (URI x = ""%string) then None else Some (URI x)) with
       | Some u => u :: PeerURIs r | None => PeerURIs r end).
    rewrite Hu, IH by (intros e He; apply Hh; by right).
    case_bool_decide; [rewrite decide_False by naive_solver|rewrite decide_True by done]; done.
  - intros info p l Hin Hl. exists (peer_info (index_conns iwpeers) counters now info l). split.
    { unfold GetPeers. apply list_elem_of_omap. exists (info, p). split; [done|]. simpl. by rewrite Hl. }
    unfold peer_info. destruct (Table._conn l) as [c|]; cbn.
    + split; [done|]. split; [done|]. split; [done|].
      split; [rewrite bool_decide_eq_true; naive_solver|apply index_conns_lookup].
    + split; [done|]. split; [done|]. split; [done|].
      split; [|done]. split; [done|]. by intros [[] _].
Qed.

Lemma GetPeers_spec_witness :
  length (GetPeers [mkDebugPeer 5 [1] [] 0 0 0 0] ∅ 0 [(TableTheorems.peer_info, 0)]
            (TableTheorems.world_of TableTheorems.connected_events)) = 1%nat.
Proof.
  assert (H : forall e, e ∈ [(TableTheorems.peer_info, 0)] ->
    is_Some (Table.heap (TableTheorems.world_of TableTheorems.connected_events) !! e.2)).
  { intros e ->%list_elem_of_singleton. vm_compute. eauto. }
  exact (proj1 (GetPeers_spec [mkDebugPeer 5 [1] [] 0 0 0 0] ∅ 0 [(TableTheorems.peer_info, 0)]
    (TableTheorems.world_of TableTheorems.connected_events) H)).
Defined.
