(* ===== verification/Ipv6rwc.v ===== *)
(** * Ipv6rwc: IPv6 packets over the core
    (ygglib/ipv6rwc/ipv6rwc.go, icmpv6.go)

    The key store maps addresses and subnets to node keys, buffers one packet
    per unknown destination while its key is looked up, and checks the
    addresses of every packet in both directions.

    Infos and buffers are pointers into heaps, because timer functions compare
    them.  A timer is armed, has fired and waits for the mutex, or is gone;
    [Stop] only removes armed ones.  Each mutex section, together with the
    router calls that follow it, is one step. *)

From S2P Require Import Prelude Address.

(** ** ICMPv6 packets *)

Record Header := mkHeader {
  Version : Z; TrafficClass : Z; FlowLabel : Z; PayloadLen : Z;
  NextHeader : Z; HopLimit : Z; Src : bytes; Dst : bytes
}.

Definition HeaderLen : nat := 40.

Definition ipv6Header_Marshal (h : Header) : bytes :=
  [ Z.lor (u8 (Z.shiftl (u8 (Version h)) 4)) (Z.shiftr (u8 (TrafficClass h)) 4);
    Z.lor (u8 (Z.shiftl (u8 (TrafficClass h)) 4)) (u8 (Z.shiftr (FlowLabel h) 16));
    u8 (Z.shiftr (FlowLabel h) 8);
    u8 (FlowLabel h) ] ++
  be16_put (u16 (PayloadLen h)) ++ [u8 (NextHeader h); u8 (HopLimit h)] ++
  copy (replicate 16 0) (Src h) ++ copy (replicate 16 0) (Dst h).

Section ICMP.
(** icmp.Message.Marshal over the pseudo header of source and destination:
    type, code and body; [None] is an error. *)
Context {Body : Type} (icmp_Marshal : bytes -> bytes -> Z -> Z -> Body -> option bytes).

Definition CreateICMPv6 (dst src : bytes) (mtype mcode : Z) (mbody : Body) : option bytes :=
  match icmp_Marshal src dst mtype mcode mbody with
  | None => None
  | Some icmpMessageBuf =>
      let ipv6Header := mkHeader 6 0 0 (Z.of_nat (length icmpMessageBuf)) 58 255 src dst in
      let ipv6HeaderBuf := ipv6Header_Marshal ipv6Header in
      let responsePacket := replicate (HeaderLen + length icmpMessageBuf) 0 in
      Some (copy (take HeaderLen responsePacket) ipv6HeaderBuf ++
            copy (drop HeaderLen responsePacket) icmpMessageBuf)
  end.
End ICMP.

(** ** The key store *)

Record keyInfo := mkKeyInfo {
  ki_key : bytes; ki_address : bytes; ki_subnet : bytes; ki_timeout : option Z
}.
Record buffer := mkBuffer { packet : bytes; buf_timeout : option Z }.

Inductive target :=
| TInfo (p : Z)
| TAddr (addr : bytes) (p : Z)
| TSubnet (subnet : bytes) (p : Z).

Record keyStore := mkKeyStore {
  address : bytes;
  subnet : bytes;
  keyToInfo : gmap bytes Z;
  addrToInfo : gmap bytes Z;
  addrBuffer : gmap bytes Z;
  subnetToInfo : gmap bytes Z;
  subnetBuffer : gmap bytes Z;
  mtu : Z;
  infos : gmap Z keyInfo;                 (* heap of infos *)
  buffers : gmap Z buffer;                (* heap of buffers *)
  timers : gmap Z (bool * target);        (* pending timers; [true]: fired *)
  fresh : Z;                              (* fresh pointers and timers *)
  sent : list (bytes * bytes);            (* core.WriteTo, newest first *)
  lookups : list bytes                    (* core.SendLookup, newest first *)
}.

Definition init (public : bytes) : option keyStore :=
  match AddrForKey public, SubnetForKey public with
  | Some a, Some s => Some (mkKeyStore a s ∅ ∅ ∅ ∅ ∅ 1280 ∅ ∅ ∅ 0 [] [])
  | _, _ => None
  end.

Definition set_maps k a s (ks : keyStore) : keyStore :=
  mkKeyStore (address ks) (subnet ks) k a (addrBuffer ks) s (subnetBuffer ks) (mtu ks)
    (infos ks) (buffers ks) (timers ks) (fresh ks) (sent ks) (lookups ks).
Definition set_buffers ab sb (ks : keyStore) : keyStore :=
  mkKeyStore (address ks) (subnet ks) (keyToInfo ks) (addrToInfo ks) ab (subnetToInfo ks) sb
    (mtu ks) (infos ks) (buffers ks) (timers ks) (fresh ks) (sent ks) (lookups ks).
Definition set_heaps i b t f (ks : keyStore) : keyStore :=
  mkKeyStore (address ks) (subnet ks) (keyToInfo ks) (addrToInfo ks) (addrBuffer ks)
    (subnetToInfo ks) (subnetBuffer ks) (mtu ks) i b t f (sent ks) (lookups ks).
Definition WriteTo (bs key : bytes) (ks : keyStore) : keyStore :=
  mkKeyStore (address ks) (subnet ks) (keyToInfo ks) (addrToInfo ks) (addrBuffer ks)
    (subnetToInfo ks) (subnetBuffer ks) (mtu ks) (infos ks) (buffers ks) (timers ks) (fresh ks)
    ((bs, key) :: sent ks) (lookups ks).
Definition sendKeyLookup (partial : bytes) (ks : keyStore) : keyStore :=
  mkKeyStore (address ks) (subnet ks) (keyToInfo ks) (addrToInfo ks) (addrBuffer ks)
    (subnetToInfo ks) (subnetBuffer ks) (mtu ks) (infos ks) (buffers ks) (timers ks) (fresh ks)
    (sent ks) (partial :: lookups ks).

(** timer.Stop *)
Definition stop (t : option Z) (timers : gmap Z (bool * target)) : gmap Z (bool * target) :=
  match t with
  | Some t => match timers !! t with Some (false, _) => delete t timers | _ => timers end
  | None => timers
  end.

Definition resetTimeout (p : Z) (ks : keyStore) : keyStore :=
  match infos ks !! p with
  | None => ks
  | Some info =>
      let t := fresh ks in
      set_heaps
        (<[p := mkKeyInfo (ki_key info) (ki_address info) (ki_subnet info) (Some t)]> (infos ks))
        (buffers ks) (<[t := (false, TInfo p)]> (stop (ki_timeout info) (timers ks))) (t + 1) ks
  end.

(** The body of the three timer functions. *)
Definition delete_if (m : gmap bytes Z) (k : bytes) (p : Z) : gmap bytes Z :=
  if decide (m !! k = Some p) then delete k m else m.

Definition timer_func (tg : target) (ks : keyStore) : keyStore :=
  match tg with
  | TInfo p =>
      match infos ks !! p with
      | None => ks
      | Some info =>
          set_maps (delete_if (keyToInfo ks) (ki_key info) p)
            (delete_if (addrToInfo ks) (ki_address info) p)
            (delete_if (subnetToInfo ks) (ki_subnet info) p) ks
      end
  | TAddr addr p => set_buffers (delete_if (addrBuffer ks) addr p) (subnetBuffer ks) ks
  | TSubnet s p => set_buffers (addrBuffer ks) (delete_if (subnetBuffer ks) s p) ks
  end.

(** The else branch of [sendToAddress] and [sendToSubnet] for one of the two
    buffer maps: the buffer of the destination, new if there is none, gets a
    copy of the packet and a new timer. *)
Definition fill_buffer (bufs : gmap bytes Z) (tg : Z -> target) (dst bs : bytes) (ks : keyStore)
    : gmap bytes Z * keyStore :=
  let '(p, bufs, ks) :=
    match bufs !! dst with
    | Some p => (p, bufs, ks)
    | None =>
        let p := fresh ks in
        (p, <[dst := p]> bufs,
         set_heaps (infos ks) (<[p := mkBuffer [] None]> (buffers ks)) (timers ks) (p + 1) ks)
    end in
  let old := match buffers ks !! p with Some b => buf_timeout b | None => None end in
  let t := fresh ks in
  (bufs,
   set_heaps (infos ks) (<[p := mkBuffer bs (Some t)]> (buffers ks))
     (<[t := (false, tg p)]> (stop old (timers ks))) (t + 1) ks).

Definition sendToAddress (addr bs : bytes) (ks : keyStore) : keyStore :=
  match addrToInfo ks !! addr with
  | Some p =>
      let ks := resetTimeout p ks in
      match infos ks !! p with Some info => WriteTo bs (ki_key info) ks | None => ks end
  | None =>
      let '(bufs, ks) := fill_buffer (addrBuffer ks) (TAddr addr) addr bs ks in
      sendKeyLookup (GetKey addr) (set_buffers bufs (subnetBuffer ks) ks)
  end.

Definition sendToSubnet (s bs : bytes) (ks : keyStore) : keyStore :=
  match subnetToInfo ks !! s with
  | Some p =>
      let ks := resetTimeout p ks in
      match infos ks !! p with Some info => WriteTo bs (ki_key info) ks | None => ks end
  | None =>
      let '(bufs, ks) := fill_buffer (subnetBuffer ks) (TSubnet s) s bs ks in
      sendKeyLookup (Subnet_GetKey s) (set_buffers (addrBuffer ks) bufs ks)
  end.

(** The packet buffered for a destination, and the buffers without it. *)
Definition take_buffer (bufs : gmap bytes Z) (dst : bytes) (ks : keyStore)
    : list bytes * gmap bytes Z :=
  match bufs !! dst with
  | Some p => (match buffers ks !! p with Some b => [packet b] | None => [] end, delete dst bufs)
  | None => ([], bufs)
  end.

(** [update]: the info of the key; [None] is the nil dereference that a key
    of the wrong length would cause, which the copy into the array excludes. *)
Definition update (key : bytes) (ks : keyStore) : option (Z * keyStore) :=
  let kArray := copy (replicate 32 0) key in
  match keyToInfo ks !! kArray with
  | Some p => Some (p, resetTimeout p ks)
  | None =>
      match AddrForKey kArray, SubnetForKey kArray with
      | Some a, Some s =>
          let p := fresh ks in
          let ks := set_heaps (<[p := mkKeyInfo kArray a s None]> (infos ks)) (buffers ks)
                      (timers ks) (p + 1) ks in
          let ks := set_maps (<[kArray := p]> (keyToInfo ks)) (<[a := p]> (addrToInfo ks))
                      (<[s := p]> (subnetToInfo ks)) ks in
          let '(pa, ab) := take_buffer (addrBuffer ks) a ks in
          let '(ps, sb) := take_buffer (subnetBuffer ks) s ks in
          let ks := resetTimeout p (set_buffers ab sb ks) in
          Some (p, fold_left (fun ks bs => WriteTo bs kArray ks) (pa ++ ps) ks)
      | _, _ => None
      end
  end.

(** ** Packets *)

Inductive packet_error :=
| ErrEmpty
| ErrNotIPv6
| ErrUndersized (len : nat)
| ErrBadSource (src : bytes)
| ErrBadDestination.

Definition validateIPv6Packet (bs : bytes) : option packet_error :=
  match bs with
  | [] => Some ErrEmpty
  | b :: _ =>
      if negb (Z.land b 0xf0 =? 0x60) then Some ErrNotIPv6
      else if (length bs <? 40)%nat then Some (ErrUndersized (length bs))
      else None
  end.

(** [copy(addr[:], bs[off:])] into a zeroed array of [n] bytes. *)
Definition field (n off : nat) (bs : bytes) : bytes := copy (replicate n 0) (drop off bs).

Definition writePC (bs : bytes) (ks : keyStore) : result packet_error nat * keyStore :=
  match validateIPv6Packet bs with
  | Some err => (Err err, ks)
  | None =>
      let srcAddr := field 16 8 bs in
      let dstAddr := field 16 24 bs in
      let srcSubnet := field 8 8 bs in
      let dstSubnet := field 8 24 bs in
      if negb (bool_decide (srcAddr = address ks)) && negb (bool_decide (srcSubnet = subnet ks)) then
        (Err (ErrBadSource srcAddr), ks)
      else if Address_IsValid dstAddr then (Ok (length bs), sendToAddress dstAddr bs ks)
      else if Subnet_IsValid dstSubnet then (Ok (length bs), sendToSubnet dstSubnet bs ks)
      else (Err ErrBadDestination, ks)
  end.

(** core.ReadFrom: an error, or [n] bytes and the key they came from. *)
Inductive core_read :=
| CError (e : Z)
| CPacket (bs from : bytes).

Section Read.
Context (icmp_Marshal : bytes -> bytes -> Z -> Z -> Z * bytes -> option bytes).

Definition packetTooBig : Z := 2.    (* ipv6.ICMPTypePacketTooBig *)

(** What [readPC] does with one packet: it answers an oversized one, drops it
    or accepts it for the buffer. *)
Definition read_packet (bs from : bytes) (ks : keyStore) : bool * keyStore :=
  match bs with
  | [] => (false, ks)
  | b :: _ =>
      if negb (Z.land b 0xf0 =? 0x60) then (false, ks)
      else if (length bs <? 40)%nat then (false, ks)
      else
        let mtu := i64 (mtu ks) in
        if mtu <? Z.of_nat (length bs) then
          let buf := copy (replicate 512 0) bs in
          let cn := Nat.min 512 (length bs) in
          match CreateICMPv6 icmp_Marshal (slice 8 24 buf) (slice 24 40 buf) packetTooBig 0
                  (mtu, take cn buf) with
          | Some packet => (false, (writePC packet ks).2)
          | None => (false, ks)
          end
        else
          let srcAddr := field 16 8 bs in
          let dstAddr := field 16 24 bs in
          let srcSubnet := field 8 8 bs in
          let dstSubnet := field 8 24 bs in
          if negb (bool_decide (dstAddr = address ks)) && negb (bool_decide (dstSubnet = subnet ks)) then
            (false, ks)
          else match update from ks with
          | None => (false, ks)
          | Some (p, ks) =>
              match infos ks !! p with
              | None => (false, ks)
              | Some info =>
                  (negb (negb (bool_decide (srcAddr = ki_address info)) &&
                         negb (bool_decide (srcSubnet = ki_subnet info))), ks)
              end
          end
  end.

(** The loop; [None] while there is nothing more to read. *)
Fixpoint readPC (p : bytes) (reads : list core_read) (ks : keyStore)
    : option (result Z (nat * bytes)) * keyStore * list core_read :=
  match reads with
  | [] => (None, ks, [])
  | CError e :: reads => (Some (Err e), ks, reads)
  | CPacket bs from :: reads =>
      match read_packet bs from ks with
      | (true, ks) => (Some (Ok (Nat.min (length p) (length bs), copy p bs)), ks, reads)
      | (false, ks) => readPC p reads ks
      end
  end.

End Read.

(** ** MTU *)

Definition SetMTU (maxmtu m : Z) (ks : keyStore) : keyStore :=
  let m := if maxmtu <? m then maxmtu else m in
  let m := if m <? 1280 then 1280 else m in
  mkKeyStore (address ks) (subnet ks) (keyToInfo ks) (addrToInfo ks) (addrBuffer ks)
    (subnetToInfo ks) (subnetBuffer ks) m (infos ks) (buffers ks) (timers ks) (fresh ks)
    (sent ks) (lookups ks).

(** ** Events *)

Inductive event :=
| EWrite (bs : bytes)                 (* Write *)
| EPath (key : bytes)                 (* a path notification of the router *)
| ERead (bs from : bytes)             (* a packet that Read meets *)
| EFire (t : Z)                       (* a timer fires *)
| ERun (t : Z)                        (* ... and its function gets the mutex *)
| ESetMTU (maxmtu m : Z).

Section Step.
Context (icmp_Marshal : bytes -> bytes -> Z -> Z -> Z * bytes -> option bytes).

Definition step (e : event) (ks : keyStore) : keyStore :=
  match e with
  | EWrite bs => (writePC bs ks).2
  | EPath key => match update key ks with Some (_, ks) => ks | None => ks end
  | ERead bs from => (read_packet icmp_Marshal bs from ks).2
  | EFire t =>
      match timers ks !! t with
      | Some (false, tg) =>
          set_heaps (infos ks) (buffers ks) (<[t := (true, tg)]> (timers ks)) (fresh ks) ks
      | _ => ks
      end
  | ERun t =>
      match timers ks !! t with
      | Some (true, tg) =>
          timer_func tg (set_heaps (infos ks) (buffers ks) (delete t (timers ks)) (fresh ks) ks)
      | _ => ks
      end
  | ESetMTU maxmtu m => SetMTU maxmtu m ks
  end.

Definition run (es : list event) (ks : keyStore) : keyStore :=
  fold_left (fun ks e => step e ks) es ks.
End Step.

(** ** The invariant *)

(** A packet that [writePC] lets through, towards an address or a subnet. *)
Definition ours (addr sub bs : bytes) : Prop :=
  validateIPv6Packet bs = None /\ (field 16 8 bs = addr \/ field 8 8 bs = sub).
Definition to_address (a bs : bytes) : Prop := field 16 24 bs = a /\ Address_IsValid a = true.
Definition to_subnet (s bs : bytes) : Prop :=
  field 8 24 bs = s /\ Address_IsValid (field 16 24 bs) = false /\ Subnet_IsValid s = true.

(** The node with this key owns the destination of the packet. *)
Definition owner (key bs : bytes) : Prop :=
  (exists a, AddrForKey key = Some a /\ to_address a bs) \/
  (exists s, SubnetForKey key = Some s /\ to_subnet s bs).

Record inv (ks : keyStore) : Prop := {
  inv_infos : forall p i, infos ks !! p = Some i ->
    AddrForKey (ki_key i) = Some (ki_address i) /\ SubnetForKey (ki_key i) = Some (ki_subnet i);
  inv_key : forall k p, keyToInfo ks !! k = Some p ->
    exists i, infos ks !! p = Some i /\ ki_key i = k;
  inv_addr : forall a p, addrToInfo ks !! a = Some p ->
    exists i, infos ks !! p = Some i /\ ki_address i = a;
  inv_subnet : forall s p, subnetToInfo ks !! s = Some p ->
    exists i, infos ks !! p = Some i /\ ki_subnet i = s;
  inv_addrBuffer : forall a p, addrBuffer ks !! a = Some p ->
    exists b, buffers ks !! p = Some b /\ ours (address ks) (subnet ks) (packet b) /\ to_address a (packet b);
  inv_subnetBuffer : forall s p, subnetBuffer ks !! s = Some p ->
    exists b, buffers ks !! p = Some b /\ ours (address ks) (subnet ks) (packet b) /\ to_subnet s (packet b);
  inv_fresh : (forall p, p ∈ dom (infos ks) -> p < fresh ks) /\
    (forall p, p ∈ dom (buffers ks) -> p < fresh ks) /\
    (forall t, t ∈ dom (timers ks) -> t < fresh ks);
  inv_sent : forall bs key, (bs, key) ∈ sent ks ->
    ours (address ks) (subnet ks) bs /\ owner key bs
}.

Lemma keystore_inv_init public ks : init public = Some ks -> inv ks.
Proof.
  unfold init. destruct (AddrForKey public), (SubnetForKey public); intros [= <-].
  constructor; simpl; try set_solver; intros ?; intros; rewrite ?lookup_empty in *; done.
Qed.

(** Steps that keep maps and packets and only refresh timers. *)
Definition same_info (i i' : keyInfo) : Prop :=
  ki_key i' = ki_key i /\ ki_address i' = ki_address i /\ ki_subnet i' = ki_subnet i.

Lemma dom_stop t ts : dom (stop t ts) ⊆ dom ts.
Proof. unfold stop. repeat case_match; try done. rewrite dom_delete. set_solver. Qed.

Lemma lookup_resetTimeout p ks q i :
  infos (resetTimeout p ks) !! q = Some i ->
  exists i0, infos ks !! q = Some i0 /\ same_info i0 i.
Proof.
  unfold resetTimeout. destruct (infos ks !! p) as [i1|] eqn:E; simpl; [|intros; by exists i].
  intros [[<- <-]|[_ H]]%lookup_insert_Some; [by exists i1|by exists i].
Qed.

Lemma lookup_resetTimeout_inv p ks q i0 :
  infos ks !! q = Some i0 ->
  exists i, infos (resetTimeout p ks) !! q = Some i /\ same_info i0 i.
Proof.
  unfold resetTimeout. destruct (infos ks !! p) as [i1|] eqn:E; simpl; [|intros; by exists i0].
  intros Hq. destruct (decide (q = p)) as [->|Hne].
  - rewrite lookup_insert_eq. eexists. split; [done|]. replace i0 with i1 by congruence. done.
  - rewrite lookup_insert_ne by done. by exists i0.
Qed.

Lemma resetTimeout_fields p ks :
  let ks' := resetTimeout p ks in
  address ks' = address ks /\ subnet ks' = subnet ks /\ keyToInfo ks' = keyToInfo ks /\
  addrToInfo ks' = addrToInfo ks /\ subnetToInfo ks' = subnetToInfo ks /\
  addrBuffer ks' = addrBuffer ks /\ subnetBuffer ks' = subnetBuffer ks /\
  buffers ks' = buffers ks /\ mtu ks' = mtu ks /\ sent ks' = sent ks /\ lookups ks' = lookups ks.
Proof. unfold resetTimeout. destruct (infos ks !! p); repeat split. Qed.

Lemma inv_resetTimeout p ks : inv ks -> inv (resetTimeout p ks).
Proof.
  intros Hw. destruct (resetTimeout_fields p ks) as (E1 & E2 & E3 & E4 & E5 & E6 & E7 & E8 & _ & E9 & _).
  assert (Hmap : forall q (P : keyInfo -> Prop), (forall i i', same_info i i' -> P i -> P i') ->
    (exists i, infos ks !! q = Some i /\ P i) -> exists i, infos (resetTimeout p ks) !! q = Some i /\ P i).
  { intros q P HP (i & Hi & Hp). destruct (lookup_resetTimeout_inv p ks q i Hi) as (i' & ? & ?). eauto. }
  constructor; rewrite ?E1, ?E2, ?E3, ?E4, ?E5, ?E6, ?E7, ?E8, ?E9; try apply Hw.
  - intros q i (i0 & Hi0 & Hk & Ha & Hs)%lookup_resetTimeout. rewrite Hk, Ha, Hs. by eapply (inv_infos _ Hw).
  - intros k q Hq%(inv_key _ Hw). revert Hq. apply Hmap. by intros ? ? (-> & _) ?.
  - intros k q Hq%(inv_addr _ Hw). revert Hq. apply Hmap. by intros ? ? (_ & -> & _) ?.
  - intros k q Hq%(inv_subnet _ Hw). revert Hq. apply Hmap. by intros ? ? (_ & _ & ->) ?.
  - destruct (inv_fresh _ Hw) as (H1 & H2 & H3). unfold resetTimeout.
    destruct (infos ks !! p) as [i|] eqn:Ei; [|done]. simpl. apply elem_of_dom_2 in Ei.
    split; [|split].
    + intros q. rewrite dom_insert. intros [->%elem_of_singleton|Hq]%elem_of_union; [specialize (H1 _ Ei)|specialize (H1 _ Hq)]; lia.
    + intros q Hq%H2. lia.
    + intros q. rewrite dom_insert. pose proof (dom_stop (ki_timeout i) (timers ks)).
      intros [->%elem_of_singleton|Hq]%elem_of_union; [lia|]. specialize (H3 q ltac:(set_solver)). lia.
Qed.

Lemma inv_WriteTo bs key ks :
  inv ks -> ours (address ks) (subnet ks) bs -> owner key bs -> inv (WriteTo bs key ks).
Proof.
  intros [] H1 H2. constructor; simpl; auto.
  intros bs' key' [[= -> ->]|H]%elem_of_cons; auto.
Qed.

Lemma inv_lookup partial ks : inv ks -> inv (sendKeyLookup partial ks).
Proof. intros []. by constructor. Qed.

Lemma delete_if_Some m k p k' q : delete_if m k p !! k' = Some q -> m !! k' = Some q.
Proof. unfold delete_if. case_decide; [|done]. by intros [_ ?]%lookup_delete_Some. Qed.

Lemma inv_timer_func tg ks : inv ks -> inv (timer_func tg ks).
Proof.
  intros Hw. destruct tg as [p|a p|s p]; simpl.
  - destruct (infos ks !! p) as [i|]; [|done]. destruct Hw. constructor; simpl; auto;
      intros ? ? ?%delete_if_Some; auto.
  - destruct Hw. constructor; simpl; auto. intros ? ? ?%delete_if_Some; auto.
  - destruct Hw. constructor; simpl; auto. intros ? ? ?%delete_if_Some; auto.
Qed.

(** What [fill_buffer] leaves: the destination's buffer holds the packet with
    a new timer, the other pointers keep their buffers. *)
Lemma fill_buffer_spec bufs tg dst bs ks :
  (forall p, bufs !! dst = Some p -> p < fresh ks) ->
  exists p t b ts f, fill_buffer bufs tg dst bs ks =
    (<[dst := p]> bufs,
     set_heaps (infos ks) (<[p := mkBuffer bs (Some t)]> b) (<[t := (false, tg p)]> ts) f ks) /\
    (forall q, q <> p -> b !! q = buffers ks !! q) /\ ts ⊆ timers ks /\
    fresh ks <= t < f /\ p < f /\
    (bufs !! dst = Some p \/ bufs !! dst = None /\ p = fresh ks).
Proof.
  intros Hp. assert (Hstop : forall t, stop t (timers ks) ⊆ timers ks).
  { intros t. unfold stop. repeat case_match; try done. apply delete_subseteq. }
  unfold fill_buffer. destruct (bufs !! dst) as [p|] eqn:Ep.
  - specialize (Hp p eq_refl). eexists p, (fresh ks), (buffers ks), _, (fresh ks + 1).
    split; [by rewrite (insert_id bufs) by done|]. repeat split; auto; lia.
  - eexists (fresh ks), (fresh ks + 1), _, _, (fresh ks + 2).
    split; [unfold set_heaps; cbn [infos buffers timers fresh address subnet keyToInfo addrToInfo
      addrBuffer subnetToInfo subnetBuffer mtu sent lookups]; replace (fresh ks + 1 + 1) with (fresh ks + 2) by lia; reflexivity|].
    split; [intros q Hq; by rewrite lookup_insert_ne|]. split; [apply Hstop|]. split; [lia|]. split; [lia|]. by right.
Qed.

(** What a buffer that both maps may name says of its destinations. *)
Lemma buffer_of_address ks d p : inv ks -> addrBuffer ks !! d = Some p -> exists b, buffers ks !! p = Some b /\ to_address d (packet b).
Proof. intros Hw H. apply (inv_addrBuffer _ Hw) in H as (b & ? & _ & ?). eauto. Qed.
Lemma buffer_of_subnet ks d p : inv ks -> subnetBuffer ks !! d = Some p -> exists b, buffers ks !! p = Some b /\ to_subnet d (packet b).
Proof. intros Hw H. apply (inv_subnetBuffer _ Hw) in H as (b & ? & _ & ?). eauto. Qed.

(** A buffer is named for one destination, in one of the maps. *)
Lemma address_pointer_unique ks d d' p : inv ks -> addrBuffer ks !! d = Some p -> addrBuffer ks !! d' = Some p -> d = d'.
Proof.
  intros Hw H1 H2. destruct (buffer_of_address ks d p Hw H1) as (b1 & E1 & A & _), (buffer_of_address ks d' p Hw H2) as (b2 & E2 & B & _). congruence.
Qed.
Lemma subnet_pointer_unique ks d d' p : inv ks -> subnetBuffer ks !! d = Some p -> subnetBuffer ks !! d' = Some p -> d = d'.
Proof.
  intros Hw H1 H2. destruct (buffer_of_subnet ks d p Hw H1) as (b1 & E1 & A & _), (buffer_of_subnet ks d' p Hw H2) as (b2 & E2 & B & _). congruence.
Qed.
Lemma pointers_disjoint ks d d' p : inv ks -> addrBuffer ks !! d = Some p -> subnetBuffer ks !! d' = Some p -> False.
Proof.
  intros Hw H1 H2. destruct (buffer_of_address ks d p Hw H1) as (b1 & E1 & A & Hv), (buffer_of_subnet ks d' p Hw H2) as (b2 & E2 & _ & Hv' & _). congruence.
Qed.

(** A map whose other entries do not name [p] keeps its buffers when [p] is filled. *)
Lemma filled_others (ks : keyStore) (m : gmap bytes Z) (P : bytes -> bytes -> Prop) (b : gmap Z buffer) p v d q :
  (forall d q, m !! d = Some q -> exists b, buffers ks !! q = Some b /\ ours (address ks) (subnet ks) (packet b) /\ P d (packet b)) ->
  (forall q, q <> p -> b !! q = buffers ks !! q) -> q <> p -> m !! d = Some q ->
  exists b0, <[p := v]> b !! q = Some b0 /\ ours (address ks) (subnet ks) (packet b0) /\ P d (packet b0).
Proof. intros Hm Hq Hne Hd. rewrite lookup_insert_ne, Hq by done. by apply (Hm d q). Qed.

(** Whether the entry of a destination is there or new, no other entry names its
    buffer. *)
Lemma fill_pointer_alone (ks : keyStore) (addr_side : bool) dst p d q : inv ks ->
  let mine := if addr_side then addrBuffer ks else subnetBuffer ks in
  mine !! dst = Some p \/ mine !! dst = None /\ p = fresh ks ->
  (mine !! d = Some q -> d <> dst -> q <> p) /\ ((if addr_side then subnetBuffer ks else addrBuffer ks) !! d = Some q -> q <> p).
Proof.
  intros Hw mine [Hp|[_ ->]]; subst mine.
  - split; [intros Hd Hne ->; apply Hne|intros Hd ->]; destruct addr_side.
    + by apply (address_pointer_unique ks d dst p Hw).
    + by apply (subnet_pointer_unique ks d dst p Hw).
    + by apply (pointers_disjoint ks dst d p Hw).
    + by apply (pointers_disjoint ks d dst p Hw).
  - destruct (inv_fresh _ Hw) as (_ & F2 & _).
    assert (Ha : addrBuffer ks !! d = Some q -> q < fresh ks) by (intros H; apply F2; apply buffer_of_address in H as (b & ? & _); [by eapply elem_of_dom_2|done]).
    assert (Hs : subnetBuffer ks !! d = Some q -> q < fresh ks) by (intros H; apply F2; apply buffer_of_subnet in H as (b & ? & _); [by eapply elem_of_dom_2|done]).
    destruct addr_side; (split; [intros Hd _|intros Hd]); (specialize (Ha Hd) || specialize (Hs Hd)); lia.
Qed.

Lemma inv_fill ks bufs tg dst bs (addr_side : bool) :
  inv ks -> bufs = (if addr_side then addrBuffer ks else subnetBuffer ks) ->
  ours (address ks) (subnet ks) bs ->
  (if addr_side then to_address dst bs else to_subnet dst bs) ->
  let '(bufs', ks') := fill_buffer bufs tg dst bs ks in
  inv (if addr_side then set_buffers bufs' (subnetBuffer ks') ks'
       else set_buffers (addrBuffer ks') bufs' ks').
Proof.
  intros Hw -> Ho Ht. destruct (inv_fresh _ Hw) as (F1 & F2 & F3).
  assert (Hptr : forall p, (if addr_side then addrBuffer ks else subnetBuffer ks) !! dst = Some p -> p < fresh ks).
  { intros p Hp. apply F2. destruct addr_side; [apply buffer_of_address in Hp as (b & ? & _)|apply buffer_of_subnet in Hp as (b & ? & _)]; try done; by eapply elem_of_dom_2. }
  destruct (fill_buffer_spec _ tg dst bs ks Hptr) as (p & t & b & ts & f & -> & Hq & Hts & Htf & Hpf & Hcase).
  pose proof (fun d q => fill_pointer_alone ks addr_side dst p d q Hw Hcase) as Halone. cbv zeta in Halone.
  assert (Hdom : forall q, q ∈ dom (<[p := mkBuffer bs (Some t)]> b) -> q < f).
  { intros q. rewrite dom_insert. intros [->%elem_of_singleton|Hin]%elem_of_union; [lia|].
    destruct (decide (q = p)) as [->|]; [lia|]. apply elem_of_dom in Hin. rewrite Hq in Hin by done.
    apply elem_of_dom, F2 in Hin. lia. }
  assert (Htim : forall q, q ∈ dom (<[t := (false, tg p)]> ts) -> q < f).
  { intros q. rewrite dom_insert. intros [->%elem_of_singleton|Hin]%elem_of_union; [lia|].
    apply subseteq_dom in Hts. specialize (F3 q ltac:(set_solver)). lia. }
  destruct addr_side; (constructor; simpl; try apply Hw;
    [ | | split; [intros q Hin%F1; lia|split; [exact Hdom|exact Htim]]]).
  1,4: intros d q [[<- <-]|[Hne Hd]]%lookup_insert_Some; [rewrite lookup_insert_eq; eexists; split; [done|auto]|];
    eapply filled_others; [apply Hw|exact Hq| |exact Hd]; exact (proj1 (Halone d q) Hd ltac:(congruence)).
  all: intros d q Hd; eapply filled_others; [apply Hw|exact Hq| |exact Hd]; exact (proj2 (Halone d q) Hd).
Qed.

Lemma inv_sendToAddress a bs ks :
  inv ks -> ours (address ks) (subnet ks) bs -> to_address a bs -> inv (sendToAddress a bs ks).
Proof.
  intros Hw Ho Ht. unfold sendToAddress. destruct (addrToInfo ks !! a) as [p|] eqn:Ea.
  - pose proof (inv_resetTimeout p ks Hw) as Hr.
    destruct (infos (resetTimeout p ks) !! p) as [i|] eqn:Ei; [|done].
    destruct (resetTimeout_fields p ks) as (E1 & E2 & _). apply inv_WriteTo; [done|by rewrite E1, E2|].
    left. exists a. split; [|done]. destruct (inv_addr _ Hw a p Ea) as (i0 & Hi0 & <-).
    destruct (lookup_resetTimeout p ks p i Ei) as (i1 & Hi1 & Hk & Ha & _).
    replace i0 with i1 by congruence. rewrite <- Ha. by apply (inv_infos _ Hr p i).
  - pose proof (inv_fill ks (addrBuffer ks) (TAddr a) a bs true Hw eq_refl Ho Ht) as H.
    destruct (fill_buffer _ _ _ _ _) as [bufs ks']. by apply inv_lookup.
Qed.

Lemma inv_sendToSubnet s bs ks :
  inv ks -> ours (address ks) (subnet ks) bs -> to_subnet s bs -> inv (sendToSubnet s bs ks).
Proof.
  intros Hw Ho Ht. unfold sendToSubnet. destruct (subnetToInfo ks !! s) as [p|] eqn:Ea.
  - pose proof (inv_resetTimeout p ks Hw) as Hr.
    destruct (infos (resetTimeout p ks) !! p) as [i|] eqn:Ei; [|done].
    destruct (resetTimeout_fields p ks) as (E1 & E2 & _). apply inv_WriteTo; [done|by rewrite E1, E2|].
    right. exists s. split; [|done]. destruct (inv_subnet _ Hw s p Ea) as (i0 & Hi0 & <-).
    destruct (lookup_resetTimeout p ks p i Ei) as (i1 & Hi1 & Hk & _ & Hs).
    replace i0 with i1 by congruence. rewrite <- Hs. by apply (inv_infos _ Hr p i).
  - pose proof (inv_fill ks (subnetBuffer ks) (TSubnet s) s bs false Hw eq_refl Ho Ht) as H.
    destruct (fill_buffer _ _ _ _ _) as [bufs ks']. by apply inv_lookup.
Qed.

Lemma writePC_ours bs ks :
  validateIPv6Packet bs = None ->
  negb (bool_decide (field 16 8 bs = address ks)) && negb (bool_decide (field 8 8 bs = subnet ks)) = false ->
  ours (address ks) (subnet ks) bs.
Proof.
  intros Hv H. split; [done|]. apply andb_false_iff in H as [H|H]; bool_props; auto.
Qed.

Lemma inv_writePC bs ks : inv ks -> inv (writePC bs ks).2.
Proof.
  intros Hw. unfold writePC. destruct (validateIPv6Packet bs) eqn:Ev; [done|].
  destruct (negb _ && negb _) eqn:Eo; [done|]. apply writePC_ours in Eo; [|done].
  destruct (Address_IsValid (field 16 24 bs)) eqn:Ea; [by apply inv_sendToAddress|].
  destruct (Subnet_IsValid (field 8 24 bs)) eqn:Es; [|done]. by apply inv_sendToSubnet.
Qed.

(** ** Learning a key *)

Definition key_of (key : bytes) : bytes := copy (replicate 32 0) key.

Lemma key_of_known key : exists a s, AddrForKey (key_of key) = Some a /\ SubnetForKey (key_of key) = Some s.
Proof. apply key_addr_some. unfold key_of. by rewrite length_copy, length_replicate. Qed.

(** The state in which [update] has entered a new info, before it sends. *)
Definition learned (key a s : bytes) (ks : keyStore) : keyStore :=
  let p := fresh ks in
  resetTimeout p
    (set_buffers (delete a (addrBuffer ks)) (delete s (subnetBuffer ks))
      (set_maps (<[key := p]> (keyToInfo ks)) (<[a := p]> (addrToInfo ks)) (<[s := p]> (subnetToInfo ks))
        (set_heaps (<[p := mkKeyInfo key a s None]> (infos ks)) (buffers ks) (timers ks) (p + 1) ks))).

(** The packets that were waiting for it. *)
Definition waiting (bufs : gmap bytes Z) (dst : bytes) (ks : keyStore) : list bytes :=
  match bufs !! dst with
  | Some p => match buffers ks !! p with Some b => [packet b] | None => [] end
  | None => []
  end.

Lemma update_unfold key ks :
  update key ks =
  match keyToInfo ks !! key_of key with
  | Some p => Some (p, resetTimeout p ks)
  | None =>
      match AddrForKey (key_of key), SubnetForKey (key_of key) with
      | Some a, Some s =>
          Some (fresh ks,
            fold_left (fun ks bs => WriteTo bs (key_of key) ks)
              (waiting (addrBuffer ks) a ks ++ waiting (subnetBuffer ks) s ks)
              (learned (key_of key) a s ks))
      | _, _ => None
      end
  end.
Proof.
  unfold update. fold (key_of key). destruct (keyToInfo ks !! key_of key); [done|].
  destruct (AddrForKey (key_of key)) as [a|]; [|done]. destruct (SubnetForKey (key_of key)) as [s|]; [|done].
  unfold take_buffer, waiting, learned. cbn [addrBuffer subnetBuffer buffers set_maps set_heaps].
  assert (Hd : forall (m : gmap bytes Z) d, m !! d = None -> delete d m = m) by (intros; by apply delete_id).
  destruct (addrBuffer ks !! a) eqn:E1; destruct (subnetBuffer ks !! s) eqn:E2; rewrite ?(Hd _ _ E1), ?(Hd _ _ E2); done.
Qed.

Lemma inv_learned key a s ks :
  inv ks -> keyToInfo ks !! key = None -> AddrForKey key = Some a -> SubnetForKey key = Some s ->
  inv (learned key a s ks).
Proof.
  intros Hw Hk Ha Hs. destruct (inv_fresh _ Hw) as (F1 & F2 & F3). apply inv_resetTimeout.
  assert (Hext : forall q (P : keyInfo -> Prop), (exists i, infos ks !! q = Some i /\ P i) ->
    exists i, <[fresh ks := mkKeyInfo key a s None]> (infos ks) !! q = Some i /\ P i).
  { intros q P (i & Hi & HP). exists i. rewrite lookup_insert_ne; [done|].
    intros <-. apply elem_of_dom_2, F1 in Hi. lia. }
  constructor; simpl; try apply Hw.
  - intros p i [[<- <-]|[_ H]]%lookup_insert_Some; [done|by eapply (inv_infos _ Hw)].
  - intros k p [[<- <-]|[_ H]]%lookup_insert_Some; [rewrite lookup_insert_eq; eauto|].
    by apply Hext, (inv_key _ Hw).
  - intros k p [[<- <-]|[_ H]]%lookup_insert_Some; [rewrite lookup_insert_eq; eauto|].
    by apply Hext, (inv_addr _ Hw).
  - intros k p [[<- <-]|[_ H]]%lookup_insert_Some; [rewrite lookup_insert_eq; eauto|].
    by apply Hext, (inv_subnet _ Hw).
  - intros d p [_ H]%lookup_delete_Some. by apply (inv_addrBuffer _ Hw).
  - intros d p [_ H]%lookup_delete_Some. by apply (inv_subnetBuffer _ Hw).
  - split; [|split].
    + intros q. rewrite dom_insert. intros [->%elem_of_singleton|Hq%F1]%elem_of_union; lia.
    + intros q Hq%F2. lia.
    + intros q Hq%F3. lia.
Qed.

Lemma fold_WriteTo_fields key ps ks :
  let ks' := fold_left (fun ks bs => WriteTo bs key ks) ps ks in
  infos ks' = infos ks /\ address ks' = address ks /\ subnet ks' = subnet ks /\
  sent ks' = map (fun bs => (bs, key)) (rev ps) ++ sent ks /\ addrBuffer ks' = addrBuffer ks /\
  buffers ks' = buffers ks /\ timers ks' = timers ks /\ fresh ks' = fresh ks /\
  addrToInfo ks' = addrToInfo ks /\ keyToInfo ks' = keyToInfo ks.
Proof.
  revert ks. induction ps as [|bs ps IH]; intros ks; [done|]. cbn [fold_left].
  destruct (IH (WriteTo bs key ks)) as (-> & -> & -> & -> & -> & -> & -> & -> & -> & ->).
  repeat split. cbn. by rewrite map_app, <- app_assoc.
Qed.

Lemma inv_fold_WriteTo key ps ks :
  inv ks -> (forall bs, bs ∈ ps -> ours (address ks) (subnet ks) bs /\ owner key bs) ->
  inv (fold_left (fun ks bs => WriteTo bs key ks) ps ks).
Proof.
  revert ks. induction ps as [|bs ps IH]; intros ks Hw Hp; [done|]. apply IH.
  - apply inv_WriteTo; [done|apply Hp; by left..].
  - intros bs' Hin. apply (Hp bs'). by right.
Qed.

Lemma update_total key ks : inv ks ->
  exists p ks' i, update key ks = Some (p, ks') /\ inv ks' /\ infos ks' !! p = Some i /\
    ki_key i = key_of key /\ AddrForKey (key_of key) = Some (ki_address i) /\
    SubnetForKey (key_of key) = Some (ki_subnet i) /\
    address ks' = address ks /\ subnet ks' = subnet ks.
Proof.
  intros Hw. rewrite update_unfold. destruct (keyToInfo ks !! key_of key) as [p|] eqn:Ek.
  - destruct (inv_key _ Hw _ _ Ek) as (i & Hi & Hik).
    destruct (lookup_resetTimeout_inv p ks p i Hi) as (i' & Hi' & Hsame).
    destruct (resetTimeout_fields p ks) as (E1 & E2 & _).
    exists p, (resetTimeout p ks), i'. pose proof (inv_resetTimeout p ks Hw) as Hr.
    destruct (inv_infos _ Hr p i' Hi') as [Ha Hs]. destruct Hsame as (Hk & _ & _).
    rewrite Hk, Hik in *. done.
  - destruct (key_of_known key) as (a & s & Ha & Hs). rewrite Ha, Hs.
    pose proof (inv_learned _ _ _ _ Hw Ek Ha Hs) as Hl.
    set (ps := waiting (addrBuffer ks) a ks ++ waiting (subnetBuffer ks) s ks).
    destruct (fold_WriteTo_fields (key_of key) ps (learned (key_of key) a s ks)) as (Ei & E1 & E2 & _).
    set (k0 := set_heaps (<[fresh ks := mkKeyInfo (key_of key) a s None]> (infos ks)) (buffers ks) (timers ks) (fresh ks + 1) ks).
    assert (Hi : exists i, infos (learned (key_of key) a s ks) !! fresh ks = Some i /\
      same_info (mkKeyInfo (key_of key) a s None) i).
    { apply lookup_resetTimeout_inv. simpl. apply lookup_insert_eq. }
    destruct Hi as (i & Hi & Hk & Hia & His). simpl in *.
    eexists _, _, i. split; [reflexivity|]. rewrite Ei, E1, E2.
    destruct (resetTimeout_fields (fresh ks) (set_buffers (delete a (addrBuffer ks)) (delete s (subnetBuffer ks))
      (set_maps (<[key_of key := fresh ks]> (keyToInfo ks)) (<[a := fresh ks]> (addrToInfo ks))
        (<[s := fresh ks]> (subnetToInfo ks)) k0))) as (E3 & E4 & _).
    split.
    { apply inv_fold_WriteTo; [done|]. intros bs [Hin|Hin]%elem_of_app.
      - unfold waiting in Hin. destruct (addrBuffer ks !! a) as [p|] eqn:Eb; [|set_solver].
        destruct (inv_addrBuffer _ Hw a p Eb) as (b & Hb & Ho & Ht). rewrite Hb in Hin.
        apply list_elem_of_singleton in Hin as ->. unfold learned. fold k0. rewrite E3, E4.
        split; [exact Ho|]. left. eauto.
      - unfold waiting in Hin. destruct (subnetBuffer ks !! s) as [p|] eqn:Eb; [|set_solver].
        destruct (inv_subnetBuffer _ Hw s p Eb) as (b & Hb & Ho & Ht). rewrite Hb in Hin.
        apply list_elem_of_singleton in Hin as ->. unfold learned. fold k0. rewrite E3, E4.
        split; [exact Ho|]. right. eauto. }
    rewrite Hk, Hia, His. split; [done|]. split; [done|]. split; [done|]. split; [done|].
    unfold learned. fold k0. by rewrite E3, E4.
Qed.

Section Invariant.
Context (icmp_Marshal : bytes -> bytes -> Z -> Z -> Z * bytes -> option bytes).

Lemma inv_read_packet bs from ks : inv ks -> inv (read_packet icmp_Marshal bs from ks).2.
Proof.
  intros Hw. unfold read_packet. destruct bs as [|b bs]; [done|].
  destruct (negb (Z.land b 240 =? 96)); [done|]. destruct (length (b :: bs) <? 40)%nat; [done|].
  destruct (_ <? Z.of_nat (length (b :: bs))).
  { destruct (CreateICMPv6 _ _ _ _ _ _); [by apply inv_writePC|done]. }
  destruct (negb _ && negb _); [done|].
  destruct (update_total from ks Hw) as (p & ks' & i & -> & Hi & -> & _). done.
Qed.

Lemma inv_step e ks : inv ks -> inv (step icmp_Marshal e ks).
Proof.
  intros Hw. destruct e as [bs|key|bs from|t|t|mx m]; simpl.
  - by apply inv_writePC.
  - destruct (update_total key ks Hw) as (p & ks' & i & -> & Hi & _). done.
  - by apply inv_read_packet.
  - destruct (timers ks !! t) as [[[] tg]|] eqn:Et; try done.
    destruct (inv_fresh _ Hw) as (F1 & F2 & F3). destruct Hw. constructor; simpl; auto.
    split; [done|]. split; [done|]. intros t'. rewrite dom_insert. apply elem_of_dom_2 in Et.
    intros [->%elem_of_singleton|H]%elem_of_union; auto.
  - destruct (timers ks !! t) as [[[] tg]|] eqn:Et; try done. apply inv_timer_func.
    destruct (inv_fresh _ Hw) as (F1 & F2 & F3). destruct Hw. constructor; simpl; auto.
    split; [done|]. split; [done|]. intros t'. rewrite dom_delete. set_solver.
  - destruct Hw. constructor; simpl; auto.
Qed.

Lemma inv_run es ks : inv ks -> inv (run icmp_Marshal es ks).
Proof. revert ks. induction es as [|e es IH]; intros ks Hw; [done|]. by apply IH, inv_step. Qed.

End Invariant.

(** ** The addresses of the node never change *)

Lemma sendToAddress_self a bs ks :
  address (sendToAddress a bs ks) = address ks /\ subnet (sendToAddress a bs ks) = subnet ks.
Proof.
  unfold sendToAddress. destruct (addrToInfo ks !! a) as [p|].
  - destruct (resetTimeout_fields p ks) as (E1 & E2 & _). by destruct (infos _ !! p).
  - unfold fill_buffer. by destruct (addrBuffer ks !! a).
Qed.

Lemma sendToSubnet_self a bs ks :
  address (sendToSubnet a bs ks) = address ks /\ subnet (sendToSubnet a bs ks) = subnet ks.
Proof.
  unfold sendToSubnet. destruct (subnetToInfo ks !! a) as [p|].
  - destruct (resetTimeout_fields p ks) as (E1 & E2 & _). by destruct (infos _ !! p).
  - unfold fill_buffer. by destruct (subnetBuffer ks !! a).
Qed.

Lemma writePC_self bs ks :
  address (writePC bs ks).2 = address ks /\ subnet (writePC bs ks).2 = subnet ks.
Proof.
  unfold writePC. repeat case_match; try done; [apply sendToAddress_self|apply sendToSubnet_self].
Qed.

Section Theorems.
Context (icmp_Marshal : bytes -> bytes -> Z -> Z -> Z * bytes -> option bytes).

Lemma step_self e ks : inv ks ->
  address (step icmp_Marshal e ks) = address ks /\ subnet (step icmp_Marshal e ks) = subnet ks.
Proof.
  intros Hw. destruct e as [bs|key|bs from|t|t|mx m]; simpl.
  - apply writePC_self.
  - by destruct (update_total key ks Hw) as (p & ks' & i & -> & _ & _ & _ & _ & _ & ? & ?).
  - unfold read_packet. destruct bs as [|b bs]; [done|].
    destruct (negb (Z.land b 240 =? 96)); [done|]. destruct (length (b :: bs) <? 40)%nat; [done|].
    destruct (_ <? Z.of_nat (length (b :: bs))).
    { destruct (CreateICMPv6 _ _ _ _ _ _); [apply writePC_self|done]. }
    destruct (negb _ && negb _); [done|].
    by destruct (update_total from ks Hw) as (p & ks' & i & -> & _ & -> & _ & _ & _ & ? & ?).
  - by destruct (timers ks !! t) as [[[] tg]|].
  - destruct (timers ks !! t) as [[[] tg]|]; try done. destruct tg; simpl; try done. by destruct (infos ks !! p).
  - done.
Qed.

Lemma run_self es ks : inv ks ->
  address (run icmp_Marshal es ks) = address ks /\ subnet (run icmp_Marshal es ks) = subnet ks.
Proof.
  revert ks. induction es as [|e es IH]; intros ks Hw; [done|].
  destruct (IH (step icmp_Marshal e ks)) as [H1 H2]; [by apply inv_step|].
  destruct (step_self e ks Hw). cbn. unfold run in *. split; congruence.
Qed.

(** C4: every packet that the key store hands to the router, directly or from
    a buffer, whatever was written, received, learned or timed out before, is
    a well-formed IPv6 packet from the node's own address or subnet, and goes
    to a key whose derived address, or for other destinations derived subnet,
    is the destination of the packet. *)
Theorem packets_go_to_owner public ks es bs key :
  init public = Some ks -> (bs, key) ∈ sent (run icmp_Marshal es ks) ->
  validateIPv6Packet bs = None /\
  (AddrForKey public = Some (field 16 8 bs) \/ SubnetForKey public = Some (field 8 8 bs)) /\
  ((AddrForKey key = Some (field 16 24 bs) /\ Address_IsValid (field 16 24 bs) = true) \/
   (SubnetForKey key = Some (field 8 24 bs) /\ Address_IsValid (field 16 24 bs) = false)).
Proof.
  intros Hi Hin. pose proof (keystore_inv_init _ _ Hi) as Hw.
  destruct (run_self es ks Hw) as [Ea Es].
  destruct (inv_sent _ (inv_run icmp_Marshal es ks Hw) bs key Hin) as [[Hv Ho] Hown].
  rewrite Ea, Es in Ho. unfold init in Hi.
  destruct (AddrForKey public) as [a|], (SubnetForKey public) as [s|]; try done. injection Hi as <-. simpl in Ho.
  split; [done|]. split; [destruct Ho as [<-|<-]; auto|].
  destruct Hown as [(d & Hd & Hf & Hv')|(d & Hd & Hf & Hv' & _)]; subst d; auto.
Qed.

(** C5: [Read] passes a packet on exactly when it is an IPv6 packet within
    the MTU, for the node's own address or subnet, whose source is the address
    or lies in the subnet of the key that it came from: nobody can speak for
    another node. *)
Theorem accepted_packets public ks es bs from :
  init public = Some ks ->
  let st := run icmp_Marshal es ks in
  (read_packet icmp_Marshal bs from st).1 = true <->
  (40 <= length bs)%nat /\ Z.land (bs !!! 0%nat) 0xf0 = 0x60 /\ Z.of_nat (length bs) <= i64 (mtu st) /\
  (AddrForKey public = Some (field 16 24 bs) \/ SubnetForKey public = Some (field 8 24 bs)) /\
  (AddrForKey (key_of from) = Some (field 16 8 bs) \/ SubnetForKey (key_of from) = Some (field 8 8 bs)).
Proof.
  intros Hi st. pose proof (keystore_inv_init _ _ Hi) as Hw0.
  pose proof (inv_run icmp_Marshal es ks Hw0) as Hw. destruct (run_self es ks Hw0) as [Ea Es].
  fold st in Hw, Ea, Es.
  assert (Hself : forall a s, AddrForKey public = Some a \/ SubnetForKey public = Some s <->
    a = address st \/ s = subnet st).
  { intros a s. rewrite Ea, Es. unfold init in Hi.
    destruct (AddrForKey public) as [a'|], (SubnetForKey public) as [s'|]; try done. injection Hi as <-. simpl. naive_solver. }
  rewrite Hself. clear Hself Hi Ea Es. unfold read_packet.
  destruct bs as [|b bs']; [simpl; split; [done|lia]|]. set (bs := b :: bs').
  change (bs !!! 0%nat) with b.
  destruct (Z.land b 240 =? 96) eqn:E1; bool_props; cbn [negb]; [|split; [done|naive_solver]].
  destruct (length bs <? 40)%nat eqn:E2; bool_props; [split; [done|lia]|].
  destruct (i64 (mtu st) <? Z.of_nat (length bs)) eqn:E3; bool_props.
  { destruct (CreateICMPv6 _ _ _ _ _ _); (split; [done|lia]). }
  destruct (negb (bool_decide (field 16 24 bs = address st)) && negb (bool_decide (field 8 24 bs = subnet st))) eqn:E4.
  { bool_props. split; [done|]. naive_solver. }
  destruct (update_total from st Hw) as (p & ks' & i & -> & _ & -> & _ & -> & -> & _). cbn [fst].
  apply andb_false_iff in E4. rewrite negb_true_iff, andb_false_iff, !negb_false_iff, !bool_decide_eq_true.
  rewrite !negb_false_iff, !bool_decide_eq_true in E4. intuition congruence.
Qed.

Lemma field_app n off x y z :
  length x = off -> length y = n -> field n off (x ++ y ++ z) = y.
Proof.
  intros Hx Hy. unfold field, copy. rewrite length_replicate, drop_app_length' by done.
  rewrite take_app_length' by done. rewrite drop_ge; [apply app_nil_r|].
  rewrite length_replicate, length_app. lia.
Qed.

Lemma field_take n m off l :
  (n <= m)%nat -> (off + m <= length l)%nat -> field n off l = take n (field m off l).
Proof.
  intros Hn Hl. unfold field, copy. rewrite !length_replicate.
  rewrite (drop_ge (replicate n 0)), (drop_ge (replicate m 0)) by (rewrite length_replicate, length_drop; lia).
  rewrite !app_nil_r, take_take. f_equal. lia.
Qed.

(** The first bytes of a packet survive the copy into the fixed buffer. *)
Lemma slice_copy n m off bs :
  (off + n <= m)%nat -> (off + n <= length bs)%nat -> slice off (off + n) (copy (replicate m 0) bs) = field n off bs.
Proof.
  intros Hm Hl. unfold slice, field, copy. rewrite !length_replicate.
  rewrite (drop_ge (replicate n 0)) by (rewrite length_replicate, length_drop; lia). rewrite app_nil_r.
  replace (off + n - off)%nat with n by lia.
  rewrite skipn_app, firstn_app, length_drop, length_take.
  replace (n - (Nat.min m (length bs) - off))%nat with 0%nat by lia. cbn [take]. rewrite app_nil_r.
  rewrite take_drop_commute, take_take, take_drop_commute. do 2 f_equal. lia.
Qed.

(** The packet that [CreateICMPv6] builds. *)
Lemma CreateICMPv6_packet dst src ty code mbody body packet :
  length dst = 16%nat -> length src = 16%nat ->
  icmp_Marshal src dst ty code mbody = Some body ->
  CreateICMPv6 icmp_Marshal dst src ty code mbody = Some packet ->
  packet = [96; 0; 0; 0] ++ be16_put (u16 (Z.of_nat (length body))) ++ [58; 255] ++ src ++ dst ++ body /\
  validateIPv6Packet packet = None /\ field 16 8 packet = src /\ field 16 24 packet = dst /\
  length packet = (40 + length body)%nat.
Proof.
  intros Hd Hs Hm. unfold CreateICMPv6. rewrite Hm. cbv zeta.
  set (h := mkHeader 6 0 0 (Z.of_nat (length body)) 58 255 src dst).
  assert (Hhdr : ipv6Header_Marshal h =
    [96; 0; 0; 0] ++ be16_put (u16 (Z.of_nat (length body))) ++ [58; 255] ++ src ++ dst).
  { unfold ipv6Header_Marshal, h. cbn [Version TrafficClass FlowLabel PayloadLen NextHeader HopLimit Src Dst].
    rewrite !copy_all by (by rewrite length_replicate). reflexivity. }
  assert (Hhl : length (ipv6Header_Marshal h) = 40%nat) by (rewrite Hhdr, !length_app, Hs, Hd; reflexivity).
  rewrite (copy_all _ (ipv6Header_Marshal h)) by (rewrite Hhl, length_take, length_replicate; unfold HeaderLen; lia).
  rewrite (copy_all _ body) by (rewrite length_drop, length_replicate; unfold HeaderLen; lia).
  intros Hp. replace packet with (ipv6Header_Marshal h ++ body) by congruence. clear Hp packet. rewrite Hhdr.
  assert (E : ([96; 0; 0; 0] ++ be16_put (u16 (Z.of_nat (length body))) ++ [58; 255] ++ src ++ dst) ++ body =
    ([96; 0; 0; 0] ++ be16_put (u16 (Z.of_nat (length body))) ++ [58; 255]) ++ src ++ dst ++ body)
    by (by rewrite <- !app_assoc).
  rewrite E. split; [by rewrite <- !app_assoc|]. split.
  - unfold validateIPv6Packet. rewrite !length_app, Hs, Hd. cbn -[Nat.ltb length]. reflexivity.
  - split; [by apply field_app|]. split; [|rewrite !length_app, Hs, Hd; reflexivity].
    rewrite (app_assoc _ src). apply field_app; [|done]. rewrite !length_app, Hs. reflexivity.
Qed.

(** A packet that is larger than the node's MTU is never passed on; when
    it was addressed to the node, and icmp marshals the answer, the sender's
    address or subnet gets an ICMPv6 packet-too-big with the MTU and the
    start of the packet, from the address it was sent to. *)
Theorem oversized_answered bs from ks body :
  (40 <= length bs)%nat -> Z.land (bs !!! 0%nat) 0xf0 = 0x60 -> i64 (mtu ks) < Z.of_nat (length bs) ->
  (field 16 24 bs = address ks \/ field 8 24 bs = subnet ks) ->
  icmp_Marshal (field 16 24 bs) (field 16 8 bs) packetTooBig 0
    (i64 (mtu ks), take (Nat.min 512 (length bs)) (copy (replicate 512 0) bs)) = Some body ->
  exists answer,
    answer = [96; 0; 0; 0] ++ be16_put (u16 (Z.of_nat (length body))) ++ [58; 255] ++
             field 16 24 bs ++ field 16 8 bs ++ body /\
    validateIPv6Packet answer = None /\
    read_packet icmp_Marshal bs from ks =
      (false, if Address_IsValid (field 16 8 bs) then sendToAddress (field 16 8 bs) answer ks
              else if Subnet_IsValid (field 8 8 bs) then sendToSubnet (field 8 8 bs) answer ks else ks).
Proof.
  intros Hlen Hver Hmtu Hdst Hmar.
  assert (Hf : forall n, length (field 16 n bs) = 16%nat) by (intros; unfold field; by rewrite length_copy).
  unfold read_packet. destruct bs as [|b0 bs0]; [simpl in Hlen; lia|]. set (bs := b0 :: bs0) in *.
  change (bs !!! 0%nat) with b0 in Hver. rewrite (proj2 (Z.eqb_eq _ _) Hver). cbn [negb].
  rewrite (proj2 (Nat.ltb_ge _ _) Hlen), (proj2 (Z.ltb_lt _ _) Hmtu).
  rewrite (slice_copy 16 512 8), (slice_copy 16 512 24) by lia.
  destruct (CreateICMPv6 icmp_Marshal _ _ _ _ _) as [answer|] eqn:Ec.
  2: { unfold CreateICMPv6 in Ec. by rewrite Hmar in Ec. }
  destruct (CreateICMPv6_packet _ _ _ _ _ body answer (Hf 8%nat) (Hf 24%nat) Hmar Ec) as (Ea & Hv & Hs & Hd & Hl).
  exists answer. split; [exact Ea|]. split; [exact Hv|].
  unfold writePC. rewrite Hv, Hs, Hd, !(field_take 8 16 _ answer), Hs, Hd, !(field_take 8 16 _ bs) in * by lia.
  replace (negb (bool_decide (field 16 24 bs = address ks)) && negb (bool_decide (take 8 (field 16 24 bs) = subnet ks)))
    with false; [by repeat case_match|].
  symmetry. apply andb_false_iff. rewrite !negb_false_iff, !bool_decide_eq_true. exact Hdst.
Qed.


(** ** Buffered packets *)

Lemma stop_Some t ts t' v : stop t ts !! t' = Some v -> ts !! t' = Some v.
Proof. unfold stop. repeat case_match; try done. by intros [_ ?]%lookup_delete_Some. Qed.

Lemma timers_resetTimeout p ks :
  fresh ks <= fresh (resetTimeout p ks) /\
  forall t f d q, timers (resetTimeout p ks) !! t = Some (f, TAddr d q) -> timers ks !! t = Some (f, TAddr d q).
Proof.
  unfold resetTimeout. destruct (infos ks !! p) as [i|]; [|split; [lia|eauto]].
  split; [simpl; lia|]. simpl. intros t f d q [[_ [=]]|[_ H%stop_Some]]%lookup_insert_Some. done.
Qed.

(** The effect of filling a buffer on the rest of the store. *)
Record filled (d : bytes) (tg : Z -> target) (bs : bytes) (bufs : gmap bytes Z) (ks ks' : keyStore)
    (p t : Z) : Prop := {
  fl_fresh : fresh ks <= fresh ks';
  fl_p : p < fresh ks' /\ (bufs !! d = Some p \/ bufs !! d = None /\ p = fresh ks);
  fl_t : fresh ks <= t < fresh ks';
  fl_packet : buffers ks' !! p = Some (mkBuffer bs (Some t));
  fl_other : forall q, q <> p -> buffers ks' !! q = buffers ks !! q;
  fl_timer : timers ks' !! t = Some (false, tg p);
  fl_timers : forall t' v, timers ks' !! t' = Some v -> t' = t /\ v = (false, tg p) \/ timers ks !! t' = Some v;
  fl_maps : addrToInfo ks' = addrToInfo ks /\ keyToInfo ks' = keyToInfo ks /\ infos ks' = infos ks /\
    addrBuffer ks' = addrBuffer ks /\ subnetBuffer ks' = subnetBuffer ks /\ sent ks' = sent ks
}.

Lemma fill_buffer_filled bufs tg dst bs ks :
  (forall p, bufs !! dst = Some p -> p < fresh ks) ->
  exists p t ks', fill_buffer bufs tg dst bs ks = (<[dst := p]> bufs, ks') /\ filled dst tg bs bufs ks ks' p t.
Proof.
  intros Hp. destruct (fill_buffer_spec bufs tg dst bs ks Hp) as (p & t & b & ts & f & -> & Hq & Hts & ? & ? & ?).
  exists p, t. eexists. split; [reflexivity|]. constructor; simpl; auto; try lia.
  - apply lookup_insert_eq.
  - intros q Hne. by rewrite lookup_insert_ne, Hq.
  - apply lookup_insert_eq.
  - intros t' v [[<- <-]|[_ H']]%lookup_insert_Some; [by left|right]. by eapply lookup_weaken.
  - done.
Qed.

Lemma addrBuffer_ptr ks d p : inv ks -> addrBuffer ks !! d = Some p -> p < fresh ks.
Proof.
  intros Hw H. destruct (inv_addrBuffer _ Hw d p H) as (b & Hb & _). destruct (inv_fresh _ Hw) as (_ & F & _).
  apply F. by apply elem_of_dom_2 in Hb.
Qed.

Lemma subnetBuffer_ptr ks d p : inv ks -> subnetBuffer ks !! d = Some p -> p < fresh ks.
Proof.
  intros Hw H. destruct (inv_subnetBuffer _ Hw d p H) as (b & Hb & _). destruct (inv_fresh _ Hw) as (_ & F & _).
  apply F. by apply elem_of_dom_2 in Hb.
Qed.

(** Timer [t] guards the packet that is buffered for [a]: it is still to run,
    and its function would delete that buffer. *)
Definition guards (a : bytes) (ks : keyStore) (t : Z) : Prop :=
  exists f p, addrBuffer ks !! a = Some p /\ timers ks !! t = Some (f, TAddr a p).

(** [bs] waits for the key of address [a], guarded by timers of [T] alone. *)
Record awaits (a : bytes) (p : Z) (T : Z -> Prop) (bs : bytes) (ks : keyStore) : Prop := {
  aw_addr : addrToInfo ks !! a = None;
  aw_buffer : addrBuffer ks !! a = Some p;
  aw_packet : exists t, buffers ks !! p = Some (mkBuffer bs t);
  aw_timer : forall t' f, timers ks !! t' = Some (f, TAddr a p) -> T t';
  aw_keys : forall k, AddrForKey k = Some a -> keyToInfo ks !! k = None
}.

(** Nothing that this event does concerns the address or one of the timers. *)
Definition quiet (a : bytes) (T : Z -> Prop) (e : event) : Prop :=
  match e with
  | EWrite bs => field 16 24 bs <> a
  | EPath key => AddrForKey (key_of key) <> Some a
  | ERead bs from => AddrForKey (key_of from) <> Some a /\ field 16 8 bs <> a
  | ERun t' => ~ T t'
  | EFire _ | ESetMTU _ _ => True
  end.

Lemma awaits_frame a p T bs ks ks' :
  awaits a p T bs ks -> addrToInfo ks' !! a = addrToInfo ks !! a -> addrBuffer ks' !! a = addrBuffer ks !! a ->
  buffers ks' !! p = buffers ks !! p ->
  (forall t' f q, timers ks' !! t' = Some (f, TAddr a q) -> exists f', timers ks !! t' = Some (f', TAddr a q)) ->
  (forall k, AddrForKey k = Some a -> keyToInfo ks' !! k = keyToInfo ks !! k) ->
  awaits a p T bs ks'.
Proof.
  intros [] E1 E2 E3 E4 E6. constructor; rewrite ?E1, ?E2, ?E3; auto.
  - intros t' f H. destruct (E4 t' f p H) as [f' H']. eauto.
  - intros k Hk. rewrite E6 by done. auto.
Qed.

Lemma awaits_resetTimeout a p T bs q ks : awaits a p T bs ks -> awaits a p T bs (resetTimeout q ks).
Proof.
  intros H. destruct (resetTimeout_fields q ks) as (_ & _ & E1 & E2 & _ & E3 & _ & E4 & _).
  destruct (timers_resetTimeout q ks) as [F Ht].
  eapply awaits_frame; [exact H|by rewrite E2|by rewrite E3|by rewrite E4| |by rewrite E1].
  intros t' f q' Hq. eauto.
Qed.

Lemma awaits_sendToAddress a p T bs a' bs' ks :
  inv ks -> awaits a p T bs ks -> a' <> a -> awaits a p T bs (sendToAddress a' bs' ks).
Proof.
  intros Hw H Hne. unfold sendToAddress. destruct (addrToInfo ks !! a') as [q|].
  - apply (awaits_resetTimeout _ _ _ _ q) in H. destruct (infos _ !! q); [|done].
    eapply awaits_frame; [exact H|done..| |done]. simpl. eauto.
  - destruct (fill_buffer_filled (addrBuffer ks) (TAddr a') a' bs' ks) as (q & t2 & ks' & -> & Hf).
    { intros q Hq. by eapply addrBuffer_ptr. }
    destruct (fl_maps _ _ _ _ _ _ _ _ Hf) as (M1 & M2 & M3 & M4 & M5 & M6).
    destruct (inv_addrBuffer _ Hw a p (aw_buffer _ _ _ _ _ H)) as (b & Hb & _ & Hdst & _).
    assert (Hqp : q <> p).
    { intros ->. destruct (fl_p _ _ _ _ _ _ _ _ Hf) as [_ [Hq|[_ Hq]]].
      - destruct (inv_addrBuffer _ Hw a' p Hq) as (b' & Hb' & _ & Hdst' & _). congruence.
      - pose proof (addrBuffer_ptr ks a p Hw (aw_buffer _ _ _ _ _ H)). lia. }
    eapply awaits_frame; [exact H|simpl; by rewrite M1|simpl; by rewrite lookup_insert_ne|
      simpl; by rewrite (fl_other _ _ _ _ _ _ _ _ Hf) by done| |simpl; by rewrite M2].
    simpl. intros t' f q' Hq. destruct (fl_timers _ _ _ _ _ _ _ _ Hf t' _ Hq) as [[_ [=]]|?]; [congruence|eauto].
Qed.

Lemma awaits_sendToSubnet a p T bs s bs' ks :
  inv ks -> awaits a p T bs ks -> awaits a p T bs (sendToSubnet s bs' ks).
Proof.
  intros Hw H. unfold sendToSubnet. destruct (subnetToInfo ks !! s) as [q|].
  - apply (awaits_resetTimeout _ _ _ _ q) in H. destruct (infos _ !! q); [|done].
    eapply awaits_frame; [exact H|done..| |done]. simpl. eauto.
  - destruct (fill_buffer_filled (subnetBuffer ks) (TSubnet s) s bs' ks) as (q & t2 & ks' & -> & Hf).
    { intros q Hq. by eapply subnetBuffer_ptr. }
    destruct (fl_maps _ _ _ _ _ _ _ _ Hf) as (M1 & M2 & M3 & M4 & M5 & M6).
    destruct (inv_addrBuffer _ Hw a p (aw_buffer _ _ _ _ _ H)) as (b & Hb & _ & Hdst & Hv).
    assert (Hqp : q <> p).
    { intros ->. destruct (fl_p _ _ _ _ _ _ _ _ Hf) as [_ [Hq|[_ Hq]]].
      - destruct (inv_subnetBuffer _ Hw s p Hq) as (b' & Hb' & _ & _ & Hv' & _). congruence.
      - pose proof (addrBuffer_ptr ks a p Hw (aw_buffer _ _ _ _ _ H)). lia. }
    eapply awaits_frame; [exact H|simpl; by rewrite M1|simpl; by rewrite M4|
      simpl; by rewrite (fl_other _ _ _ _ _ _ _ _ Hf) by done| |simpl; by rewrite M2].
    simpl. intros t' f q' Hq. destruct (fl_timers _ _ _ _ _ _ _ _ Hf t' _ Hq) as [[_ [=]]|?]; eauto.
Qed.

Lemma awaits_writePC a p T bs bs' ks :
  inv ks -> awaits a p T bs ks -> field 16 24 bs' <> a -> awaits a p T bs (writePC bs' ks).2.
Proof.
  intros Hw H Hne. unfold writePC. repeat case_match; try done;
    [by apply awaits_sendToAddress|by apply awaits_sendToSubnet].
Qed.

Lemma awaits_update a p T bs key q ks ks' :
  inv ks -> awaits a p T bs ks -> AddrForKey (key_of key) <> Some a -> update key ks = Some (q, ks') ->
  awaits a p T bs ks'.
Proof.
  intros Hw H Hne. rewrite update_unfold. destruct (keyToInfo ks !! key_of key) as [q'|].
  - intros [= <- <-]. by apply awaits_resetTimeout.
  - destruct (AddrForKey (key_of key)) as [a'|] eqn:Ea; [|done].
    destruct (SubnetForKey (key_of key)) as [s'|]; [|done]. intros [= <- <-].
    destruct (fold_WriteTo_fields (key_of key) (waiting (addrBuffer ks) a' ks ++ waiting (subnetBuffer ks) s' ks)
      (learned (key_of key) a' s' ks)) as (_ & _ & _ & _ & E1 & E2 & E3 & E4 & E5 & E6).
    assert (Hl : awaits a p T bs (learned (key_of key) a' s' ks)).
    { apply awaits_resetTimeout. assert (a' <> a) by congruence. eapply awaits_frame; [exact H|..]; simpl.
      - by rewrite lookup_insert_ne.
      - by rewrite lookup_delete_ne.
      - done.
      - eauto.
      - intros k Hk. rewrite lookup_insert_ne; [done|]. congruence. }
    eapply awaits_frame; [exact Hl|by rewrite E5|by rewrite E1|by rewrite E2| |by rewrite E6].
    rewrite E3. eauto.
Qed.

Lemma awaits_step a p T bs e ks :
  inv ks -> awaits a p T bs ks -> quiet a T e -> awaits a p T bs (step icmp_Marshal e ks).
Proof.
  intros Hw H Hq. destruct e as [bs'|key|bs' from|t'|t'|mx m]; simpl in *.
  - by apply awaits_writePC.
  - destruct (update key ks) as [[q ks']|] eqn:Eu; [|done]. by eapply awaits_update.
  - unfold read_packet. destruct bs' as [|b0 bs0]; [done|]. set (bs' := b0 :: bs0) in *.
    destruct (negb (Z.land b0 240 =? 96)); [done|].
    destruct (length bs' <? 40)%nat eqn:El; [done|]. bool_props.
    destruct (_ <? Z.of_nat (length bs')).
    + destruct (CreateICMPv6 _ _ _ _ _ _) as [packet|] eqn:Ec; [|done]. apply awaits_writePC; auto.
      rewrite (slice_copy 16 512 8), (slice_copy 16 512 24) in Ec by lia.
      assert (Hf : forall n, length (field 16 n bs') = 16%nat) by (intros; unfold field; by rewrite length_copy).
      assert (Hm : exists body, icmp_Marshal (field 16 24 bs') (field 16 8 bs') packetTooBig 0
        (i64 (mtu ks), take (Nat.min 512 (length bs')) (copy (replicate 512 0) bs')) = Some body).
      { unfold CreateICMPv6 in Ec. destruct (icmp_Marshal _ _ _ _ _); [eauto|done]. }
      destruct Hm as [body Hm].
      destruct (CreateICMPv6_packet _ _ _ _ _ body packet (Hf 8%nat) (Hf 24%nat) Hm Ec) as (_ & _ & _ & -> & _).
      by destruct Hq.
    + destruct (negb _ && negb _); [done|]. destruct (update from ks) as [[q ks']|] eqn:Eu; [|done].
      assert (awaits a p T bs ks') by (by eapply awaits_update; [| | |exact Eu]; destruct Hq).
      by destruct (infos ks' !! q).
  - destruct (timers ks !! t') as [[[] tg]|] eqn:Et; try done. eapply awaits_frame; [exact H|done..| |done].
    simpl. intros t2 f q [[<- [= <- ->]]|[_ ?]]%lookup_insert_Some; eauto.
  - destruct (timers ks !! t') as [[[] tg]|] eqn:Et; try done.
    assert (Hd : awaits a p T bs (set_heaps (infos ks) (buffers ks) (delete t' (timers ks)) (fresh ks) ks)).
    { eapply awaits_frame; [exact H|done..| |done]. simpl. intros t2 f q [_ ?]%lookup_delete_Some. eauto. }
    destruct tg as [q|a' q|s q]; simpl.
    + destruct (infos ks !! q) as [i|]; [|done]. destruct Hd. constructor; simpl in *; auto.
      * unfold delete_if. case_decide; [|done]. destruct (decide (a = ki_address i)) as [->|]; [apply lookup_delete_eq|].
        by rewrite lookup_delete_ne.
      * intros k Hk. unfold delete_if. case_decide; [|auto]. destruct (decide (k = ki_key i)) as [->|]; [apply lookup_delete_eq|].
        rewrite lookup_delete_ne by done. auto.
    + destruct Hd. constructor; simpl in *; auto. unfold delete_if. case_decide as Hdec; [|done].
      rewrite lookup_delete_ne; [done|]. intros ->. rewrite aw_buffer0 in Hdec. injection Hdec as ->.
      by apply Hq, (aw_timer _ _ _ _ _ H _ _ Et).
    + destruct Hd. by constructor.
  - by destruct H.
Qed.

Lemma awaits_run a p T bs es ks :
  inv ks -> awaits a p T bs ks -> Forall (quiet a T) es -> awaits a p T bs (run icmp_Marshal es ks).
Proof.
  revert ks. induction es as [|e es IH]; intros ks Hw Haw He; [done|]. inversion He; subst.
  apply IH; [by apply inv_step|by apply awaits_step|done].
Qed.

(** A packet that is written to an address of which no key is known waits for
    it, whether another packet waited before or not. *)
Lemma awaits_written a bs ks :
  inv ks -> addrToInfo ks !! a = None -> (forall k, AddrForKey k = Some a -> keyToInfo ks !! k = None) ->
  exists p, awaits a p (guards a (sendToAddress a bs ks)) bs (sendToAddress a bs ks) /\
    head (lookups (sendToAddress a bs ks)) = Some (GetKey a) /\ sent (sendToAddress a bs ks) = sent ks.
Proof.
  intros Hw Ha Hk. unfold sendToAddress at 2 3 4. rewrite Ha.
  destruct (fill_buffer_filled (addrBuffer ks) (TAddr a) a bs ks) as (p & t & ks' & Ef & Hf).
  { intros q Hq. by eapply addrBuffer_ptr. }
  rewrite Ef. destruct (fl_maps _ _ _ _ _ _ _ _ Hf) as (M1 & M2 & _ & _ & _ & M6).
  exists p. split; [|split; [done|exact M6]]. constructor; simpl; rewrite ?M1, ?M2; auto.
  - apply lookup_insert_eq.
  - exists (Some t). apply Hf.
  - intros t' f Ht. exists f, p. unfold sendToAddress. rewrite Ha, Ef. simpl. by rewrite lookup_insert_eq.
Qed.

(** When the key of the address is reported the packet goes to it. *)
Lemma awaits_delivered a p T bs key ks :
  awaits a p T bs ks -> AddrForKey (key_of key) = Some a ->
  (bs, key_of key) ∈ sent (step icmp_Marshal (EPath key) ks).
Proof.
  intros H Hkey. cbn [step]. rewrite update_unfold, (aw_keys _ _ _ _ _ H _ Hkey), Hkey.
  destruct (key_of_known key) as (a2 & s2 & _ & ->).
  match goal with |- context [fold_left ?f ?ps ?l] =>
    destruct (fold_WriteTo_fields (key_of key) ps l) as (_ & _ & _ & -> & _) end.
  apply elem_of_app. left. apply list_elem_of_fmap. exists bs. split; [done|].
  rewrite list_elem_of_In, <- in_rev, <- list_elem_of_In. apply elem_of_app. left. unfold waiting.
  destruct (aw_packet _ _ _ _ _ H) as [t Ht]. rewrite (aw_buffer _ _ _ _ _ H), Ht. by left.
Qed.

(** C12: a packet written to an address of which no key is known is delivered: it
    makes the router look up the partial key of the address, and when the
    router then reports a key with that address, the packet goes to that key.
    In between anything may happen but these: another packet for the address
    is written, a key with that address is used, or one of the timers that
    guard the buffer of the address after the write runs.  These are the
    two-minute timer of the packet and, when it replaced an older packet, the
    timer of that one if it had fired already and waited for the mutex. *)
Theorem buffered_packet_delivered public ks es0 es bs a key :
  init public = Some ks -> let ks0 := run icmp_Marshal es0 ks in
  addrToInfo ks0 !! a = None -> (forall k, AddrForKey k = Some a -> keyToInfo ks0 !! k = None) ->
  ours (address ks) (subnet ks) bs -> field 16 24 bs = a -> Address_IsValid a = true ->
  let ks1 := (writePC bs ks0).2 in
  (writePC bs ks0).1 = Ok (length bs) /\ head (lookups ks1) = Some (GetKey a) /\ sent ks1 = sent ks0 /\
  (Forall (quiet a (guards a ks1)) es -> AddrForKey (key_of key) = Some a ->
   (bs, key_of key) ∈ sent (run icmp_Marshal (es ++ [EPath key]) ks1)).
Proof.
  intros Hinit ks0 Ha Hk Ho Hd Hv. pose proof (keystore_inv_init _ _ Hinit) as Hwi.
  assert (Hw : inv ks0) by (by apply inv_run).
  destruct (run_self es0 ks Hwi) as [Ea Es]. rewrite <- Ea, <- Es in Ho. fold ks0 in Ho. clear Ea Es. clearbody ks0.
  assert (Hwr : writePC bs ks0 = (Ok (length bs), sendToAddress a bs ks0)).
  { unfold writePC. destruct Ho as [-> Ho]. rewrite Hd, Hv.
    replace (negb (bool_decide (field 16 8 bs = address ks0)) && negb (bool_decide (field 8 8 bs = subnet ks0)))
      with false; [done|]. symmetry. apply andb_false_iff. rewrite !negb_false_iff, !bool_decide_eq_true. exact Ho. }
  rewrite Hwr. cbn [fst snd]. cbv zeta. destruct (awaits_written a bs ks0 Hw Ha Hk) as (p & Haw & Hl & Hsent).
  split; [done|]. split; [done|]. split; [done|]. intros Hes Hkey.
  unfold run. rewrite fold_left_app. cbn [fold_left]. eapply awaits_delivered; [|done].
  eapply (awaits_run a p _ bs es); [by apply inv_sendToAddress|exact Haw|exact Hes].
Qed.

End Theorems.

(** The MTU stays between the IPv6 minimum and what the router can carry. *)
Lemma SetMTU_bounds maxmtu m ks :
  1280 <= mtu (SetMTU maxmtu m ks) <= Z.max 1280 maxmtu /\
  (1280 <= m <= maxmtu -> mtu (SetMTU maxmtu m ks) = m).
Proof.
  unfold SetMTU. simpl. destruct (maxmtu <? m) eqn:E1; bool_props.
  - destruct (maxmtu <? 1280) eqn:E2; bool_props; lia.
  - destruct (m <? 1280) eqn:E2; bool_props; lia.
Qed.

(** ** A concrete node for the witnesses *)

Definition no_icmp (src dst : bytes) (ty code : Z) (b : Z * bytes) : option bytes := Some (replicate 8 0).
Definition remote_key : bytes := replicate 32 90.
Definition node : keyStore := default (mkKeyStore [] [] ∅ ∅ ∅ ∅ ∅ 0 ∅ ∅ ∅ 0 [] []) (init sample_key).
Definition own_address : bytes := default [] (AddrForKey sample_key).
Definition remote_address : bytes := default [] (AddrForKey remote_key).
Definition ip_packet (src dst : bytes) : bytes := [96; 0; 0; 0; 0; 0; 59; 64] ++ src ++ dst.

Lemma node_init : init sample_key = Some node.
Proof. vm_compute. reflexivity. Qed.

Lemma packets_go_to_owner_witness :
  validateIPv6Packet (ip_packet own_address remote_address) = None /\
  AddrForKey remote_key = Some (field 16 24 (ip_packet own_address remote_address)).
Proof.
  assert (Hin : (ip_packet own_address remote_address, remote_key) ∈
    sent (run no_icmp [EWrite (ip_packet own_address remote_address); EPath remote_key] node)).
  { replace (sent (run no_icmp [EWrite (ip_packet own_address remote_address); EPath remote_key] node))
      with [(ip_packet own_address remote_address, remote_key)] by (vm_compute; reflexivity). by left. }
  destruct (packets_go_to_owner no_icmp sample_key node
    [EWrite (ip_packet own_address remote_address); EPath remote_key]
    (ip_packet own_address remote_address) remote_key node_init Hin) as (H1 & _ & [[H2 _]|[_ H2]]).
  - exact (conj H1 H2).
  - vm_compute in H2. discriminate H2.
Defined.

Lemma accepted_packets_witness :
  (read_packet no_icmp (ip_packet remote_address own_address) remote_key (run no_icmp [] node)).1 = true.
Proof.
  apply (accepted_packets no_icmp sample_key node [] (ip_packet remote_address own_address) remote_key node_init).
  split; [vm_compute; lia|]. split; [vm_compute; reflexivity|]. split; [vm_compute; discriminate|].
  split; left; vm_compute; reflexivity.
Defined.

Definition big_packet : bytes := ip_packet remote_address own_address ++ replicate 1300 0.

Lemma big_packet_fields : Address_IsValid (field 16 8 big_packet) = true /\ field 16 8 big_packet = remote_address.
Proof. split; vm_compute; reflexivity. Qed.

Lemma oversized_answered_witness :
  exists answer, validateIPv6Packet answer = None /\
    read_packet no_icmp big_packet remote_key node = (false, sendToAddress remote_address answer node).
Proof.
  destruct (oversized_answered no_icmp big_packet remote_key node (replicate 8 0)) as (answer & _ & Hv & Hr).
  - vm_compute. lia.
  - vm_compute. reflexivity.
  - vm_compute. reflexivity.
  - left. vm_compute. reflexivity.
  - reflexivity.
  - exists answer. split; [exact Hv|]. rewrite Hr. rewrite (proj1 big_packet_fields), (proj2 big_packet_fields).
    exact eq_refl.
Defined.

Lemma remote_quiet T : Forall (quiet remote_address T) [EFire 0; EPath sample_key].
Proof. repeat constructor. assert (E : AddrForKey (key_of sample_key) = Some own_address) by (vm_compute; reflexivity).
  simpl. rewrite E. vm_compute. discriminate. Qed.

Lemma remote_address_of : AddrForKey (key_of remote_key) = Some remote_address.
Proof. vm_compute. reflexivity. Qed.

Definition older_packet : bytes := ip_packet own_address remote_address ++ [1; 2; 3].

(** The timer of an older packet that has fired already deletes the packet
    that replaced it: [Stop] comes too late and the buffer is the same. *)
Lemma stale_timer_drops_packet :
  sent (run no_icmp [EWrite older_packet; EFire 1; EWrite (ip_packet own_address remote_address); ERun 1;
                     EPath remote_key] node) = [].
Proof. vm_compute. reflexivity. Qed.

(** A packet waited for the address already: the newer one is delivered. *)
Lemma buffered_packet_delivered_witness :
  (ip_packet own_address remote_address, key_of remote_key) ∈
    sent (run no_icmp ([EFire 0; EPath sample_key] ++ [EPath remote_key])
            (writePC (ip_packet own_address remote_address) (run no_icmp [EWrite older_packet] node)).2).
Proof.
  destruct (buffered_packet_delivered no_icmp sample_key node [EWrite older_packet] [EFire 0; EPath sample_key]
    (ip_packet own_address remote_address) remote_address remote_key node_init) as (_ & _ & _ & H).
  - vm_compute. reflexivity.
  - intros k _. replace (keyToInfo (run no_icmp [EWrite older_packet] node)) with (∅ : gmap bytes Z) by (vm_compute; reflexivity).
    reflexivity.
  - split; [vm_compute; reflexivity | left; vm_compute; reflexivity].
  - vm_compute. reflexivity.
  - vm_compute. reflexivity.
  - exact (H (remote_quiet _) remote_address_of).
Defined.
