(* ===== verification/Tun.v ===== *)
(** * Tun: the TUN adapter (ygglib/tun/tun.go, iface.go, options.go)

    The supervisor goroutine owns the current attachment session; a session
    has a read loop, a write loop and an event loop over its device, and a
    queue goroutine reads packets of the core into buffers of a shared pool.

    Goroutines are program counters in the state and [exec] runs one step of
    one of them.  A session pointer is an index into [sessions].  Buffers of
    the pool are pointers into [mem], so that a buffer which is put back while
    somebody still uses it would show.  A batch that the read loop gets before
    its session is published is dropped by the code, which is a device that
    did not deliver it. *)

From S2P Require Import Prelude Firewall.

(** ** Data *)

Inductive State := StateDetached | StateAttached | StateStopped.

Record Status := mkStatus {
  st_State : State; st_Enabled : bool; st_Attached : bool; st_Type : string;
  st_Name : string; st_MTU : Z; st_MRO : Z; st_MWO : Z
}.

(** [Status{State: s}] *)
Definition only_state (s : State) : Status := mkStatus s false false "" "" 0 0 0.

Global Instance State_eq_dec : EqDecision State.
Proof. solve_decision. Defined.

(** What the code asks a gonnect device. *)
Record Device := mkDevice {
  d_id : Z; d_Name : option string; d_MTU : option Z; d_MRO : Z; d_MWO : Z; d_BatchSize : Z
}.

Record attachSpec := mkSpec {
  sp_device : Z; sp_kind : string; sp_name : string; sp_mtu : Z; sp_mro : Z; sp_mwo : Z;
  sp_batch : Z
}.

Inductive sessionReportKind :=
| sessionReportReadError | sessionReportWriteError | sessionReportEventsClosed | sessionReportEvent.
Record sessionReport := mkReport {
  r_session : nat; r_kind : sessionReportKind; r_event : Z; r_mtu : Z
}.

Definition maxPacketSize : Z := 65535.
Definition bufPoolSize : Z := maxPacketSize.

(** A packet in a pool buffer: [p[:n]]. *)
Definition packet : Type := Z * nat.

(** readLoop: in device.Read, with the rest of a batch, sending a report. *)
Inductive reader_pc := RRead | RBatch (packets : list bytes) | RReport | RDone.
(** writeLoop: at the first select, draining, in device.Write, sending a report. *)
Inductive writer_pc := WIdle | WDrain (batch : list packet) | WWrite (bufs : list bytes) | WReport | WDone.
(** eventLoop: at the select, sending a report. *)
Inductive event_pc := EvWait | EvReport (r : sessionReport) | EvDone.

Record attachmentSession := mkSession {
  s_id : Z;
  s_kind : string;
  s_device : Z;
  s_name : string;
  s_mtu : Z;
  s_mro : Z;
  s_mwo : Z;
  s_batch : Z;
  s_packetCh : list packet;     (* capacity batch*4 *)
  s_stopCh : bool;              (* closed *)
  s_stopping : bool;
  s_stops : nat;                (* stop goroutines before their CompareAndSwap *)
  s_closed : bool;              (* device.Close was called *)
  s_reader : reader_pc;
  s_writer : writer_pc;
  s_events : event_pc;
  s_written : list bytes        (* what the device was given, in order *)
}.

Definition set_mtu m (s : attachmentSession) : attachmentSession :=
  mkSession (s_id s) (s_kind s) (s_device s) (s_name s) m (s_mro s) (s_mwo s) (s_batch s) (s_packetCh s)
    (s_stopCh s) (s_stopping s) (s_stops s) (s_closed s) (s_reader s) (s_writer s) (s_events s) (s_written s).
Definition set_chan ch w out (s : attachmentSession) : attachmentSession :=
  mkSession (s_id s) (s_kind s) (s_device s) (s_name s) (s_mtu s) (s_mro s) (s_mwo s) (s_batch s) ch
    (s_stopCh s) (s_stopping s) (s_stops s) (s_closed s) (s_reader s) w (s_events s) out.
Definition set_stop ch flag n closed (s : attachmentSession) : attachmentSession :=
  mkSession (s_id s) (s_kind s) (s_device s) (s_name s) (s_mtu s) (s_mro s) (s_mwo s) (s_batch s) (s_packetCh s)
    ch flag n closed (s_reader s) (s_writer s) (s_events s) (s_written s).
Definition set_reader r (s : attachmentSession) : attachmentSession :=
  mkSession (s_id s) (s_kind s) (s_device s) (s_name s) (s_mtu s) (s_mro s) (s_mwo s) (s_batch s) (s_packetCh s)
    (s_stopCh s) (s_stopping s) (s_stops s) (s_closed s) r (s_writer s) (s_events s) (s_written s).
Definition set_events e (s : attachmentSession) : attachmentSession :=
  mkSession (s_id s) (s_kind s) (s_device s) (s_name s) (s_mtu s) (s_mro s) (s_mwo s) (s_batch s) (s_packetCh s)
    (s_stopCh s) (s_stopping s) (s_stops s) (s_closed s) (s_reader s) (s_writer s) e (s_written s).

Record supervisorState := mkSup {
  status : Status; current : option nat; nextID : Z
}.

(** The pool and the memory of its buffers. *)
Record bufferPool := mkPool { mem : gmap Z bytes; free : list Z; next_buf : Z }.

(** The queue goroutine: in rwc.Read, sending a packet, returned. *)
Inductive queue_pc := QRead | QSend (p : packet) | QDone.

(** The core side: the MTU it was told, what was written to it on behalf of
    which session, and what was read from it. *)
Record rwcState := mkRwc { rwc_mtu : Z; to_core : list (nat * bytes); from_core : list bytes }.

Record TunAdapter := mkTun {
  config_mtu : Z;
  firewall : option Firewall;
  packetCh : list packet;               (* capacity 256 *)
  reportCh : list sessionReport;        (* capacity 64 *)
  stopCh : bool;                        (* closed *)
  currentSessionID : Z;
  stopped : bool;
  sup : supervisorState;
  sessions : list attachmentSession;
  pool : bufferPool;
  queue : queue_pc;
  rwc : rwcState;
  routed : list (nat * bytes)           (* history: what was queued for a session *)
}.

Definition set_firewall fw (t : TunAdapter) : TunAdapter :=
  mkTun (config_mtu t) fw (packetCh t) (reportCh t) (stopCh t) (currentSessionID t) (stopped t) (sup t)
    (sessions t) (pool t) (queue t) (rwc t) (routed t).
Definition set_packetCh ch (t : TunAdapter) : TunAdapter :=
  mkTun (config_mtu t) (firewall t) ch (reportCh t) (stopCh t) (currentSessionID t) (stopped t) (sup t)
    (sessions t) (pool t) (queue t) (rwc t) (routed t).
Definition set_reportCh ch (t : TunAdapter) : TunAdapter :=
  mkTun (config_mtu t) (firewall t) (packetCh t) ch (stopCh t) (currentSessionID t) (stopped t) (sup t)
    (sessions t) (pool t) (queue t) (rwc t) (routed t).
Definition close_stopCh (t : TunAdapter) : TunAdapter :=
  mkTun (config_mtu t) (firewall t) (packetCh t) (reportCh t) true (currentSessionID t) (stopped t) (sup t)
    (sessions t) (pool t) (queue t) (rwc t) (routed t).
Definition set_stopped (t : TunAdapter) : TunAdapter :=
  mkTun (config_mtu t) (firewall t) (packetCh t) (reportCh t) (stopCh t) (currentSessionID t) true (sup t)
    (sessions t) (pool t) (queue t) (rwc t) (routed t).
Definition set_sup id st ss (t : TunAdapter) : TunAdapter :=
  mkTun (config_mtu t) (firewall t) (packetCh t) (reportCh t) (stopCh t) id (stopped t) st
    ss (pool t) (queue t) (rwc t) (routed t).
Definition set_sessions ss (t : TunAdapter) : TunAdapter :=
  mkTun (config_mtu t) (firewall t) (packetCh t) (reportCh t) (stopCh t) (currentSessionID t) (stopped t) (sup t)
    ss (pool t) (queue t) (rwc t) (routed t).
Definition set_pool bp (t : TunAdapter) : TunAdapter :=
  mkTun (config_mtu t) (firewall t) (packetCh t) (reportCh t) (stopCh t) (currentSessionID t) (stopped t) (sup t)
    (sessions t) bp (queue t) (rwc t) (routed t).
Definition set_queue q (t : TunAdapter) : TunAdapter :=
  mkTun (config_mtu t) (firewall t) (packetCh t) (reportCh t) (stopCh t) (currentSessionID t) (stopped t) (sup t)
    (sessions t) (pool t) q (rwc t) (routed t).
Definition set_rwc r (t : TunAdapter) : TunAdapter :=
  mkTun (config_mtu t) (firewall t) (packetCh t) (reportCh t) (stopCh t) (currentSessionID t) (stopped t) (sup t)
    (sessions t) (pool t) (queue t) r (routed t).
Definition set_routed l (t : TunAdapter) : TunAdapter :=
  mkTun (config_mtu t) (firewall t) (packetCh t) (reportCh t) (stopCh t) (currentSessionID t) (stopped t) (sup t)
    (sessions t) (pool t) (queue t) (rwc t) l.

(** ** Buffers *)

(** [bufPool.Get]: a buffer of the pool, or a new one of zeroes. *)
Definition pool_Get (k : option nat) (bp : bufferPool) : option (Z * bufferPool) :=
  match k with
  | Some k =>
      match free bp !! k with
      | Some b => Some (b, mkPool (mem bp) (delete k (free bp)) (next_buf bp))
      | None => None
      end
  | None =>
      let b := next_buf bp in
      Some (b, mkPool (<[b := replicate (Z.to_nat bufPoolSize) 0]> (mem bp)) (free bp) (b + 1))
  end.

(** [bufPool.Put(packet[:bufPoolSize])] *)
Definition pool_Put (p : packet) (bp : bufferPool) : bufferPool :=
  mkPool (mem bp) (p.1 :: free bp) (next_buf bp).

(** The bytes of a packet at the time it is looked at. *)
Definition content (m : gmap Z bytes) (p : packet) : bytes := take p.2 (default [] (m !! p.1)).

Definition write_buf (b : Z) (data : bytes) (bp : bufferPool) : bufferPool :=
  mkPool (<[b := copy (default [] (mem bp !! b)) data]> (mem bp)) (free bp) (next_buf bp).

(** ** Attaching and detaching *)

Inductive tun_error :=
| ErrReadName
| ErrReadMTU
| ErrAlreadyAttached (name : string)
| ErrClosedPipe.

Definition defaultMTU : Z := 65535.

Definition getSupportedMTU (mtu : Z) : Z := if mtu <? 1280 then 1280 else mtu.

(** An [AttachmentType] is the only kind of attach option. *)
Definition applyAttach (spec : attachSpec) (t : string) : attachSpec :=
  mkSpec (sp_device spec) t (sp_name spec) (sp_mtu spec) (sp_mro spec) (sp_mwo spec) (sp_batch spec).

Definition buildAttachSpec (d : Device) (opts : list string) : result tun_error attachSpec :=
  let spec := mkSpec (d_id d) "external" "" 0 0 0 0 in
  let spec := fold_left applyAttach opts spec in
  match d_Name d with
  | None => Err ErrReadName
  | Some name =>
      match d_MTU d with
      | None => Err ErrReadMTU
      | Some mtu =>
          Ok (mkSpec (sp_device spec) (sp_kind spec) name (getSupportedMTU (u64 mtu)) (d_MRO d) (d_MWO d)
                (if d_BatchSize d <=? 0 then 1 else d_BatchSize d))
      end
  end.

Definition session_status (s : attachmentSession) (enabled : bool) (state : State) : Status :=
  mkStatus state enabled true (s_kind s) (s_name s) (s_mtu s) (s_mro s) (s_mwo s).

Definition nextSession (spec : attachSpec) (st : supervisorState) : attachmentSession * supervisorState :=
  let id := u64 (nextID st + 1) in
  (mkSession id (sp_kind spec) (sp_device spec) (sp_name spec) (sp_mtu spec) (sp_mro spec) (sp_mwo spec)
     (sp_batch spec) [] false false 0 false RRead WIdle EvWait [],
   mkSup (status st) (current st) id).

Definition rwc_SetMTU (mtu : Z) (t : TunAdapter) : TunAdapter :=
  set_rwc (mkRwc mtu (to_core (rwc t)) (from_core (rwc t))) t.

(** [go old.stop()] *)
Definition spawn_stop (s : attachmentSession) : attachmentSession :=
  set_stop (s_stopCh s) (s_stopping s) (S (s_stops s)) (s_closed s) s.

Section Adapter.
(** rwc.MaxMTU() and the event bits of the device interface. *)
Context (MaxMTU : Z) (EventUp EventDown EventMTUUpdate : Z).

Definition desiredMTU (t : TunAdapter) : Z :=
  let mtu := config_mtu t in
  let mtu := if mtu =? 0 then defaultMTU else mtu in
  let mtu := if (0 <? MaxMTU) && (MaxMTU <? mtu) then MaxMTU else mtu in
  getSupportedMTU mtu.

Inductive SetupOption :=
| InterfaceMTU (mtu : Z)
| SetupFirewall (cfg : FirewallConfig).

Definition _applyOption (c : Z * option Firewall) (opt : SetupOption) : Z * option Firewall :=
  match opt with
  | InterfaceMTU v => (v, c.2)
  | SetupFirewall v => (c.1, NewFirewall v)
  end.

Definition New (opts : list SetupOption) : TunAdapter :=
  let config := (defaultMTU, NewFirewall {| cfg_Enabled := false; cfg_AllowedTCPPorts := [];
                                            cfg_AllowedUDPPorts := [] |}) in
  let '(mtu, fw) := fold_left _applyOption opts config in
  let tun := mkTun mtu fw [] [] false 0 false (mkSup (only_state StateDetached) None 0) []
               (mkPool ∅ [] 0) QRead (mkRwc 0 [] []) [] in
  rwc_SetMTU (desiredMTU tun) tun.

Definition handleAttach (spec : attachSpec) (replace : bool) (t : TunAdapter) : option tun_error * TunAdapter :=
  let s := sup t in
  if decide (st_State (status s) = StateStopped) then (Some ErrClosedPipe, t)
  else match current s, replace with
  | Some i, false =>
      (Some (ErrAlreadyAttached match sessions t !! i with Some c => s_name c | None => "" end), t)
  | old, _ =>
      let '(next, s) := nextSession spec s in
      let p := length (sessions t) in
      let ss := sessions t ++ [next] in
      let t := set_sup (s_id next) (mkSup (session_status next true StateAttached) (Some p) (nextID s)) ss t in
      let t := rwc_SetMTU (s_mtu next) t in
      let t := match old with
               | Some i => set_sessions (alter spawn_stop i (sessions t)) t
               | None => t
               end in
      (None, t)
  end.

Definition detachCurrent (nextState : State) (t : TunAdapter) : option tun_error * TunAdapter :=
  let s := sup t in
  match current s with
  | Some old =>
      let t := set_sup 0 (mkSup (only_state nextState) None (nextID s)) (sessions t) t in
      let t := rwc_SetMTU (desiredMTU t) t in
      (None, set_sessions (alter spawn_stop old (sessions t)) t)
  | None =>
      let t := set_sup (currentSessionID t) (mkSup (only_state nextState) None (nextID s)) (sessions t) t in
      (None, rwc_SetMTU (desiredMTU t) t)
  end.

(** The requests over the unbuffered control channel; after [stopCh] is closed
    nobody receives them. *)
Definition submitAttach (spec : attachSpec) (replace : bool) (t : TunAdapter) : option tun_error * TunAdapter :=
  if stopCh t then (Some ErrClosedPipe, t) else handleAttach spec replace t.

Definition Attach (d : Device) (opts : list string) (t : TunAdapter) : option tun_error * TunAdapter :=
  match buildAttachSpec d opts with
  | Err err => (Some err, t)
  | Ok spec => submitAttach spec false t
  end.

Definition Replace (d : Device) (opts : list string) (t : TunAdapter) : option tun_error * TunAdapter :=
  match buildAttachSpec d opts with
  | Err err => (Some err, t)
  | Ok spec => submitAttach spec true t
  end.

Definition Detach (t : TunAdapter) : option tun_error * TunAdapter :=
  if stopCh t then (None, t) else detachCurrent StateDetached t.

(** Stop sets the flag, which is a step of its own ([EStopping]); then it sends a
    request, which the supervisor handles unless it has ended. *)
Definition handleStop (t : TunAdapter) : option tun_error * TunAdapter :=
  if stopCh t then (None, t)
  else let '(err, t) := detachCurrent StateStopped t in (err, close_stopCh t).
Definition Stop (t : TunAdapter) : option tun_error * TunAdapter := handleStop (set_stopped t).

Definition TunAdapter_Status (t : TunAdapter) : Status :=
  if stopCh t then only_state StateStopped else status (sup t).

Definition IsStarted (t : TunAdapter) : bool := negb (stopped t).
(** A Stop has set the flag and its request has not been handled. *)
Definition stopping (t : TunAdapter) : bool := stopped t && negb (stopCh t).

(** ** Packets and reports *)

Definition put (p : packet) (t : TunAdapter) : TunAdapter := set_pool (pool_Put p (pool t)) t.

Definition current_session (t : TunAdapter) : option (nat * attachmentSession) :=
  i ← current (sup t); s ← sessions t !! i; Some (i, s).

Definition routePacket (p : packet) (now : Z) (t : TunAdapter) : TunAdapter :=
  match current_session t with
  | None => put p t
  | Some (i, s) =>
      if negb (st_Enabled (status (sup t))) then put p t
      else if (0 <? s_mtu s) && (s_mtu s <? Z.of_nat p.2) then put p t
      else
        let bs := content (mem (pool t)) p in
        let '(fw, ok) := AllowIncoming (firewall t) bs now in
        let t := set_firewall fw t in
        if negb ok then put p t
        else if Z.of_nat (length (s_packetCh s)) <? s_batch s * 4 then
          set_routed (routed t ++ [(i, bs)])
            (set_sessions (<[i := set_chan (s_packetCh s ++ [p]) (s_writer s) (s_written s) s]> (sessions t)) t)
        else put p t
  end.

Definition set_enabled (b : bool) (st : supervisorState) : supervisorState :=
  let x := status st in
  mkSup (mkStatus (st_State x) b (st_Attached x) (st_Type x) (st_Name x) (st_MTU x) (st_MRO x) (st_MWO x))
    (current st) (nextID st).
Definition set_status_mtu (m : Z) (st : supervisorState) : supervisorState :=
  let x := status st in
  mkSup (mkStatus (st_State x) (st_Enabled x) (st_Attached x) (st_Type x) (st_Name x) m (st_MRO x) (st_MWO x))
    (current st) (nextID st).

Definition handleReport (r : sessionReport) (t : TunAdapter) : TunAdapter :=
  match current_session t, sessions t !! r_session r with
  | Some (i, s), Some s' =>
      if decide (s_id s <> s_id s') then t
      else match r_kind r with
      | sessionReportReadError | sessionReportWriteError | sessionReportEventsClosed =>
          (detachCurrent StateDetached t).2
      | sessionReportEvent =>
          let has bit := negb (Z.land (r_event r) bit =? 0) in
          let st := sup t in
          let st := if has EventDown then set_enabled false st else st in
          let st := if has EventUp then set_enabled true st else st in
          if has EventMTUUpdate then
            rwc_SetMTU (r_mtu r)
              (set_sup (currentSessionID t) (set_status_mtu (r_mtu r) st)
                 (alter (set_mtu (r_mtu r)) i (sessions t)) t)
          else set_sup (currentSessionID t) st (sessions t) t
      end
  | _, _ => t
  end.

(** ** Steps *)

Inductive event :=
(* the callers' goroutines *)
| EAttach (d : Device) (opts : list string)
| EReplace (d : Device) (opts : list string)
| EDetach
| EStopping                   (* Stop sets the flag *)
| EStop                       (* its request is handled *)
| ESetFirewall (cfg : FirewallConfig)
(* supervisor *)
| ERoute (now : Z)
| EReport
(* queue *)
| ECoreRead (buf : option nat) (data : bytes)
| ECoreError
| EQueueSend
| EQueueStop
(* readLoop *)
| EDeviceRead (i : nat) (packets : list bytes)
| EDeviceReadError (i : nat) (closed : bool)
| EForward (i : nat) (now : Z)
| EReadReport (i : nat)
(* writeLoop *)
| EWriterTake (i : nat)
| EWriterDrained (i : nat)
| EWriterStop (i : nat)
| EDeviceWrite (i written : nat)
| EDeviceWriteError (i consumed : nat) (closed : bool)
| EWriteReport (i : nat)
(* eventLoop *)
| EDeviceEvent (i : nat) (event : Z) (mtu : option Z)
| EEventsClosed (i : nat)
| EEventsStop (i : nat)
| EEventReport (i : nat)
(* stop *)
| EStopFlag (i : nat)
| EStopChan (i : nat)
| EStopClose (i : nat).

Definition guard {A} (b : bool) (k : option A) : option A := if b then k else None.

(** A step of one goroutine of session [i]. *)
Definition session_step (i : nat) (f : attachmentSession -> option attachmentSession) (t : TunAdapter)
    : option TunAdapter :=
  match sessions t !! i with
  | Some s => match f s with Some s' => Some (set_sessions (<[i := s']> (sessions t)) t) | None => None end
  | None => None
  end.

(** tun.reportCh <- r *)
Definition send_report (r : sessionReport) (t : TunAdapter) : option TunAdapter :=
  guard (length (reportCh t) <? 64)%nat (Some (set_reportCh (reportCh t ++ [r]) t)).

Definition rest_of_batch (packets : list bytes) : reader_pc :=
  match packets with [] => RRead | _ => RBatch packets end.

(** The queue goroutine. *)
Definition queue_read (k : option nat) (data : bytes) (t : TunAdapter) : option TunAdapter :=
  match queue t with
  | QRead =>
      guard (Z.of_nat (length data) <=? bufPoolSize)
        match pool_Get k (pool t) with
        | None => None
        | Some (b, bp) =>
            let r := mkRwc (rwc_mtu (rwc t)) (to_core (rwc t)) (from_core (rwc t) ++ [data]) in
            Some (set_rwc r (set_queue (QSend (b, length data)) (set_pool (write_buf b data bp) t)))
        end
  | _ => None
  end.

Definition queue_send (t : TunAdapter) : option TunAdapter :=
  match queue t with
  | QSend p => guard (length (packetCh t) <? 256)%nat
                 (Some (set_queue QRead (set_packetCh (packetCh t ++ [p]) t)))
  | _ => None
  end.

Definition queue_stop (t : TunAdapter) : option TunAdapter :=
  match queue t with
  | QSend p => guard (stopCh t) (Some (set_queue QDone (put p t)))
  | _ => None
  end.

(** The read loop. *)
Definition read_batch (i : nat) (packets : list bytes) (t : TunAdapter) : option TunAdapter :=
  session_step i (fun s =>
    match s_reader s with
    | RRead => Some (if negb (currentSessionID t =? s_id s) then s else set_reader (rest_of_batch packets) s)
    | _ => None
    end) t.

Definition read_error (i : nat) (closed : bool) : TunAdapter -> option TunAdapter :=
  session_step i (fun s =>
    match s_reader s with
    | RRead => Some (set_reader (if negb (s_stopping s) && negb closed then RReport else RDone) s)
    | _ => None
    end).

Definition forward (i : nat) (now : Z) (t : TunAdapter) : option TunAdapter :=
  match sessions t !! i with
  | Some s =>
      match s_reader s with
      | RBatch (p :: ps) =>
          let '(fw, ok) := AllowOutgoing (firewall t) p now in
          let t := set_firewall fw t in
          let t := if ok then
                     set_rwc (mkRwc (rwc_mtu (rwc t)) (to_core (rwc t) ++ [(i, p)]) (from_core (rwc t))) t
                   else t in
          Some (set_sessions (<[i := set_reader (rest_of_batch ps) s]> (sessions t)) t)
      | _ => None
      end
  | None => None
  end.

(** The write loop. *)
Definition write_batch (s : attachmentSession) : Z := if s_batch s <? 1 then 1 else s_batch s.

Definition writer_take (i : nat) : TunAdapter -> option TunAdapter :=
  session_step i (fun s =>
    match s_packetCh s, s_writer s with
    | p :: ch, WIdle => Some (set_chan ch (WDrain [p]) (s_written s) s)
    | p :: ch, WDrain batch =>
        guard (Z.of_nat (length batch) <? write_batch s)
          (Some (set_chan ch (WDrain (batch ++ [p])) (s_written s) s))
    | _, _ => None
    end).

(** [make([]byte, mwo+len)] with the packet copied behind the offset. *)
Definition make_buf (mwo : Z) (bs : bytes) : bytes := replicate (Z.to_nat mwo) 0 ++ bs.

Definition writer_drained (i : nat) (t : TunAdapter) : option TunAdapter :=
  match sessions t !! i with
  | Some s =>
      match s_writer s with
      | WDrain batch =>
          guard (bool_decide (s_packetCh s = []) || negb (Z.of_nat (length batch) <? write_batch s))
            (let bufs := map (fun p => make_buf (s_mwo s) (content (mem (pool t)) p)) batch in
             let t := set_pool (fold_left (fun bp p => pool_Put p bp) batch (pool t)) t in
             Some (set_sessions (<[i := set_chan (s_packetCh s) (WWrite bufs) (s_written s) s]> (sessions t)) t))
      | _ => None
      end
  | None => None
  end.

(** What the device is given: the buffers from the offset on. *)
Definition given (s : attachmentSession) (bufs : list bytes) : list bytes := map (drop (Z.to_nat (s_mwo s))) bufs.

Definition device_write (i written : nat) : TunAdapter -> option TunAdapter :=
  session_step i (fun s =>
    match s_writer s with
    | WWrite bufs =>
        Some (set_chan (s_packetCh s)
          (if (length bufs <=? written)%nat then WIdle else WWrite (drop written bufs))
          (s_written s ++ given s (take written bufs)) s)
    | _ => None
    end).

Definition device_write_error (i consumed : nat) (closed : bool) : TunAdapter -> option TunAdapter :=
  session_step i (fun s =>
    match s_writer s with
    | WWrite bufs =>
        Some (set_chan (s_packetCh s)
          (if negb (s_stopping s) && negb closed then WReport else WDone)
          (s_written s ++ given s (take consumed bufs)) s)
    | _ => None
    end).

(** The event loop. *)
Definition device_event (i : nat) (event : Z) (mtu : option Z) : TunAdapter -> option TunAdapter :=
  session_step i (fun s =>
    match s_events s with
    | EvWait =>
        let has bit := negb (Z.land event bit =? 0) in
        Some (if has 1 || has 2 || has 4 then
                let m := if has 4 then
                           match mtu with Some m => getSupportedMTU (u64 m) | None => 0 end
                         else 0 in
                set_events (EvReport (mkReport i sessionReportEvent event m)) s
              else s)
    | _ => None
    end).

Definition events_closed (i : nat) : TunAdapter -> option TunAdapter :=
  session_step i (fun s =>
    match s_events s with
    | EvWait =>
        Some (set_events (if negb (s_stopping s)
                          then EvReport (mkReport i sessionReportEventsClosed 0 0) else EvDone) s)
    | _ => None
    end).

Definition event_report (i : nat) (t : TunAdapter) : option TunAdapter :=
  match sessions t !! i with
  | Some s =>
      match s_events s with
      | EvReport r =>
          let next := match r_kind r with sessionReportEvent => EvWait | _ => EvDone end in
          match send_report r t with
          | Some t => session_step i (fun s => Some (set_events next s)) t
          | None => None
          end
      | _ => None
      end
  | None => None
  end.

(** [attachmentSession.stop] up to its wait for the loops. *)
Definition stop_flag (s : attachmentSession) : option attachmentSession :=
  match s_stops s with
  | S n => Some (set_stop (s_stopCh s) true n (s_closed s) s)
  | O => None
  end.
Definition stop_chan (s : attachmentSession) : option attachmentSession :=
  guard (s_stopping s && negb (s_stopCh s)) (Some (set_stop true true (s_stops s) (s_closed s) s)).
Definition stop_close (s : attachmentSession) : option attachmentSession :=
  guard (s_stopCh s && negb (s_closed s)) (Some (set_stop true (s_stopping s) (s_stops s) true s)).

Definition exec (e : event) (t : TunAdapter) : option TunAdapter :=
  match e with
  | EAttach d opts => Some (Attach d opts t).2
  | EReplace d opts => Some (Replace d opts t).2
  | EDetach => Some (Detach t).2
  | EStopping => Some (set_stopped t)
  | EStop => if stopped t then Some (handleStop t).2 else None
  | ESetFirewall cfg => Some (set_firewall (SetConfig (firewall t) cfg) t)
  | ERoute now =>
      guard (negb (stopCh t))
        match packetCh t with
        | p :: ch => Some (routePacket p now (set_packetCh ch t))
        | [] => None
        end
  | EReport =>
      guard (negb (stopCh t))
        match reportCh t with
        | r :: ch => Some (handleReport r (set_reportCh ch t))
        | [] => None
        end
  | ECoreRead k data => queue_read k data t
  | ECoreError => match queue t with QRead => Some (set_queue QDone t) | _ => None end
  | EQueueSend => queue_send t
  | EQueueStop => queue_stop t
  | EDeviceRead i packets => read_batch i packets t
  | EDeviceReadError i closed => read_error i closed t
  | EForward i now => forward i now t
  | EReadReport i =>
      match sessions t !! i with
      | Some s => match s_reader s with
                  | RReport => match send_report (mkReport i sessionReportReadError 0 0) t with
                               | Some t => session_step i (fun s => Some (set_reader RDone s)) t
                               | None => None end
                  | _ => None end
      | None => None
      end
  | EWriterTake i => writer_take i t
  | EWriterDrained i => writer_drained i t
  | EWriterStop i =>
      session_step i (fun s =>
        match s_writer s with
        | WIdle => guard (s_stopCh s) (Some (set_chan (s_packetCh s) WDone (s_written s) s))
        | _ => None
        end) t
  | EDeviceWrite i n => device_write i n t
  | EDeviceWriteError i n closed => device_write_error i n closed t
  | EWriteReport i =>
      match sessions t !! i with
      | Some s => match s_writer s with
                  | WReport => match send_report (mkReport i sessionReportWriteError 0 0) t with
                               | Some t => session_step i (fun s =>
                                             Some (set_chan (s_packetCh s) WDone (s_written s) s)) t
                               | None => None end
                  | _ => None end
      | None => None
      end
  | EDeviceEvent i event mtu => device_event i event mtu t
  | EEventsClosed i => events_closed i t
  | EEventsStop i =>
      session_step i (fun s =>
        match s_events s with EvWait => guard (s_stopCh s) (Some (set_events EvDone s)) | _ => None end) t
  | EEventReport i => event_report i t
  | EStopFlag i => session_step i stop_flag t
  | EStopChan i => session_step i stop_chan t
  | EStopClose i => session_step i stop_close t
  end.

Inductive reachable (opts : list SetupOption) : TunAdapter -> Prop :=
| reach_New : reachable opts (New opts)
| reach_step t e t' : reachable opts t -> exec e t = Some t' -> reachable opts t'.

(** A schedule: every event must be possible when its turn comes. *)
Fixpoint exec_all (es : list event) (t : TunAdapter) : option TunAdapter :=
  match es with
  | [] => Some t
  | e :: es => match exec e t with Some t => exec_all es t | None => None end
  end.

End Adapter.

(** ** The packets of the core on their way to a device *)

#[local] Opaque bufPoolSize.

Definition writer_batch (w : writer_pc) : list packet := match w with WDrain batch => batch | _ => [] end.
Definition s_held (s : attachmentSession) : list packet := s_packetCh s ++ writer_batch (s_writer s).
Definition queue_held (q : queue_pc) : list packet := match q with QSend p => [p] | _ => [] end.

(** Every buffer that somebody holds: the pool, the queue goroutine, the
    supervisor's channel, the channels and write loops of the sessions. *)
Definition in_use (t : TunAdapter) : list packet :=
  queue_held (queue t) ++ packetCh t ++ concat (map s_held (sessions t)).
Definition held (t : TunAdapter) : list Z := free (pool t) ++ map fst (in_use t).

Definition routed_to (i : nat) (t : TunAdapter) : list bytes :=
  map snd (filter (fun ib => ib.1 = i) (routed t)).

(** What the session still has for its device. *)
Definition pending (m : gmap Z bytes) (s : attachmentSession) : list bytes :=
  match s_writer s with
  | WDrain batch => map (content m) batch
  | WWrite bufs => given s bufs
  | _ => []
  end ++ map (content m) (s_packetCh s).

Definition writer_ended (s : attachmentSession) : bool :=
  match s_writer s with WReport | WDone => true | _ => false end.

Definition session_ok (m : gmap Z bytes) (l : list bytes) (s : attachmentSession) : Prop :=
  s_written s `prefix_of` l /\ (writer_ended s = false -> s_written s ++ pending m s = l).

Record flow_inv (t : TunAdapter) : Prop := {
  fi_own : NoDup (held t);
  fi_next : forall b, b ∈ held t -> b < next_buf (pool t);
  fi_mem : forall b, b ∈ held t ->
    exists bs, mem (pool t) !! b = Some bs /\ length bs = Z.to_nat bufPoolSize;
  fi_order : map snd (routed t) ++ map (content (mem (pool t))) (packetCh t ++ queue_held (queue t))
             `sublist_of` from_core (rwc t);
  fi_sessions : forall i s, sessions t !! i = Some s -> session_ok (mem (pool t)) (routed_to i t) s;
  fi_routed : forall i bs, (i, bs) ∈ routed t -> (i < length (sessions t))%nat
}.

Lemma list_alter_as_insert {A} (f : A -> A) (i : nat) (l : list A) x : l !! i = Some x -> alter f i l = <[i := f x]> l.
Proof.
  intros H. apply list_eq. intros j. destruct (decide (i = j)) as [<-|Hn].
  - rewrite list_lookup_alter_eq, list_lookup_insert_eq, H; [done|]. by eapply lookup_lt_Some.
  - by rewrite list_lookup_alter_ne, list_lookup_insert_ne.
Qed.

(** Replacing an element replaces its part of the concatenation. *)
Lemma concat_map_insert {A B} (f : A -> list B) (l : list A) i x y :
  l !! i = Some x -> concat (map f (<[i := y]> l)) ++ f x ≡ₚ concat (map f l) ++ f y.
Proof.
  intros H. rewrite <- (take_drop_middle l i x H) at 2. rewrite (insert_take_drop l i y) by (by eapply lookup_lt_Some).
  rewrite !map_app, !concat_app. simpl. solve_Permutation.
Qed.

Lemma concat_map_insert_same {A B} (f : A -> list B) (l : list A) i x y :
  l !! i = Some x -> f y = f x -> concat (map f (<[i := y]> l)) = concat (map f l).
Proof.
  intros H E. rewrite <- (take_drop_middle l i x H) at 2. rewrite (insert_take_drop l i y) by (by eapply lookup_lt_Some).
  rewrite !map_app, !concat_app. simpl. by rewrite E.
Qed.

Lemma content_write_ne b data bp p : p.1 <> b -> content (mem (write_buf b data bp)) p = content (mem bp) p.
Proof. intros H. unfold content, write_buf. simpl. by rewrite lookup_insert_ne. Qed.

Lemma contents_frame m m' (ps : list packet) :
  (forall p, p ∈ ps -> content m' p = content m p) -> map (content m') ps = map (content m) ps.
Proof. intros H. apply map_ext_in. intros p Hp. by apply H, list_elem_of_In. Qed.

Lemma session_ok_frame m m' l s :
  (forall p, p ∈ s_held s -> content m' p = content m p) -> session_ok m l s -> session_ok m' l s.
Proof.
  intros Hm [Hp Hw]. split; [done|]. intros E. rewrite <- (Hw E). f_equal. unfold pending, s_held in *.
  rewrite (contents_frame m m' (s_packetCh s)) by (intros; apply Hm, elem_of_app; by left).
  destruct (s_writer s); simpl in *; try done. f_equal. apply contents_frame.
  intros p Hp'. apply Hm, elem_of_app. by right.
Qed.

(** The steps of a goroutine that does not touch packets. *)
Definition same_packets (s s' : attachmentSession) : Prop :=
  s_packetCh s' = s_packetCh s /\ s_writer s' = s_writer s /\ s_written s' = s_written s /\ s_mwo s' = s_mwo s.

Lemma session_ok_same m l s s' : same_packets s s' -> session_ok m l s -> session_ok m l s'.
Proof.
  intros (E1 & E2 & E3 & E4) [Hp Hw]. unfold session_ok, writer_ended, pending, given in *.
  by rewrite E1, E2, E3, E4.
Qed.

(** Everything the flow invariant looks at, up to the order of the buffers. *)
Lemma flow_inv_frame t t' :
  flow_inv t -> held t' ≡ₚ held t -> next_buf (pool t') = next_buf (pool t) -> mem (pool t') = mem (pool t) ->
  routed t' = routed t -> from_core (rwc t') = from_core (rwc t) ->
  (map (content (mem (pool t))) (packetCh t' ++ queue_held (queue t')) `sublist_of`
   map (content (mem (pool t))) (packetCh t ++ queue_held (queue t))) ->
  (length (sessions t) <= length (sessions t'))%nat ->
  (forall i s', sessions t' !! i = Some s' -> session_ok (mem (pool t)) (routed_to i t) s') -> flow_inv t'.
Proof.
  intros [H1 H2 H2' H3 H4 H5] Eh En Em Er Ef Hs Hl Hss. constructor.
  - by rewrite Eh.
  - intros b Hb. rewrite En. apply H2. by rewrite <- Eh.
  - intros b Hb. rewrite Em. apply H2'. by rewrite <- Eh.
  - rewrite Er, Ef, Em. etrans; [|exact H3]. by apply sublist_app.
  - intros i s Hi. unfold routed_to. rewrite Em, Er. by apply Hss.
  - intros i bs Hi. rewrite Er in Hi. apply H5 in Hi. lia.
Qed.

(** ... when one session changes and its buffers stay with it. *)
Lemma flow_inv_session t i s s' :
  flow_inv t -> sessions t !! i = Some s -> s_held s' ≡ₚ s_held s ->
  session_ok (mem (pool t)) (routed_to i t) s' -> flow_inv (set_sessions (<[i := s']> (sessions t)) t).
Proof.
  intros H Hi Eh Hok. apply (flow_inv_frame t); try done.
  - unfold held, in_use. simpl. f_equiv. apply fmap_Permutation. do 2 f_equiv.
    pose proof (concat_map_insert s_held (sessions t) i s s' Hi) as Hc. rewrite Eh in Hc. by apply Permutation_app_inv_r in Hc.
  - simpl. by rewrite length_insert.
  - simpl. intros j s2 Hj. apply list_lookup_insert_Some in Hj as [(<- & <- & _)|[_ Hj]]; [done|].
    by apply (fi_sessions _ H).
Qed.

Lemma same_packets_refl s : same_packets s s.
Proof. done. Qed.

Lemma flow_inv_same t i s s' :
  flow_inv t -> sessions t !! i = Some s -> same_packets s s' ->
  flow_inv (set_sessions (<[i := s']> (sessions t)) t).
Proof.
  intros H Hi Hs. eapply flow_inv_session; [done|exact Hi| |].
  - destruct Hs as (E1 & E2 & _). unfold s_held. by rewrite E1, E2.
  - eapply session_ok_same; [exact Hs|]. by apply (fi_sessions _ H).
Qed.

(** Parts of the state that packets do not pass through. *)
Lemma flow_inv_firewall fw t : flow_inv t -> flow_inv (set_firewall fw t).
Proof. intros []; by constructor. Qed.
Lemma flow_inv_reportCh ch t : flow_inv t -> flow_inv (set_reportCh ch t).
Proof. intros []; by constructor. Qed.
Lemma flow_inv_rwc_SetMTU m t : flow_inv t -> flow_inv (rwc_SetMTU m t).
Proof. intros []; by constructor. Qed.
Lemma flow_inv_set_sup id st t : flow_inv t -> flow_inv (set_sup id st (sessions t) t).
Proof. intros []; by constructor. Qed.
Lemma flow_inv_stopped t : flow_inv t -> flow_inv (set_stopped t).
Proof. intros []; by constructor. Qed.
Lemma flow_inv_close t : flow_inv t -> flow_inv (close_stopCh t).
Proof. intros []; by constructor. Qed.
#[local] Hint Resolve flow_inv_firewall flow_inv_reportCh flow_inv_rwc_SetMTU flow_inv_set_sup
  flow_inv_stopped flow_inv_close : ygg.

Lemma flow_inv_alter f i t :
  (forall s, same_packets s (f s)) -> flow_inv t -> flow_inv (set_sessions (alter f i (sessions t)) t).
Proof.
  intros Hf H. destruct (sessions t !! i) as [s|] eqn:E.
  - rewrite (list_alter_as_insert _ _ _ _ E). by apply (flow_inv_same t i s).
  - replace (alter f i (sessions t)) with (sessions t); [by destruct t|].
    symmetry. apply list_eq. intros j. destruct (decide (i = j)) as [<-|Hn].
    + by rewrite list_lookup_alter_eq, E.
    + by rewrite list_lookup_alter_ne.
Qed.

Lemma flow_inv_session_step i f t t' :
  (forall s s', f s = Some s' -> same_packets s s') -> flow_inv t -> session_step i f t = Some t' -> flow_inv t'.
Proof.
  intros Hf H. unfold session_step. destruct (sessions t !! i) as [s|] eqn:E; [|done].
  destruct (f s) as [s'|] eqn:Ef; [|done]. intros [= <-]. eapply flow_inv_same; eauto.
Qed.

Lemma flow_inv_start next t :
  s_held next = [] -> s_written next = [] -> writer_ended next = false -> pending (mem (pool t)) next = [] ->
  flow_inv t -> flow_inv (set_sessions (sessions t ++ [next]) t).
Proof.
  intros Eh Ew Ee Ep H. apply (flow_inv_frame t); try done.
  - unfold held, in_use. simpl. rewrite (map_app s_held), concat_app. simpl. by rewrite Eh, !app_nil_r.
  - simpl. rewrite length_app. lia.
  - simpl. intros i s Hi. apply lookup_app_Some in Hi as [Hi|[Hl Hi]]; [by apply (fi_sessions _ H)|].
    apply list_lookup_singleton_Some in Hi as [Hi <-].
    assert (E : routed_to i t = []).
    { unfold routed_to. destruct (filter _ _) as [|[j bs] r] eqn:Ef; [done|].
      assert (Hin : (j, bs) ∈ filter (fun ib => ib.1 = i) (routed t)) by (rewrite Ef; by left).
      apply list_elem_of_filter in Hin as [Hj Hin]. simpl in Hj. subst j. apply (fi_routed _ H) in Hin. lia. }
    rewrite E. split; [by rewrite Ew|]. intros _. by rewrite Ew, Ep.
Qed.

Lemma flow_inv_handleAttach spec replace t : flow_inv t -> flow_inv (handleAttach spec replace t).2.
Proof.
  intros H. unfold handleAttach. case_decide; [done|].
  assert (Hn : flow_inv (set_sessions (sessions t ++ [(nextSession spec (sup t)).1]) t)) by by apply flow_inv_start.
  apply (flow_inv_set_sup (s_id (nextSession spec (sup t)).1)
    (mkSup (session_status (nextSession spec (sup t)).1 true StateAttached) (Some (length (sessions t)))
       (nextID (nextSession spec (sup t)).2))) in Hn.
  apply (flow_inv_rwc_SetMTU (s_mtu (nextSession spec (sup t)).1)) in Hn.
  destruct (current (sup t)) as [i|], replace; try done.
  all: try (by apply (flow_inv_alter spawn_stop i) in Hn).
Qed.

Lemma flow_inv_detachCurrent M st t : flow_inv t -> flow_inv (detachCurrent M st t).2.
Proof.
  intros H. unfold detachCurrent. destruct (current (sup t)) as [i|]; simpl; [|auto with ygg].
  match goal with |- flow_inv (set_sessions _ ?x) => apply (flow_inv_alter spawn_stop i x) end; [done|].
  auto with ygg.
Qed.

(** Dropping the packet the supervisor has just received. *)
Lemma flow_inv_drop p ch t : packetCh t = p :: ch -> flow_inv t -> flow_inv (put p (set_packetCh ch t)).
Proof.
  intros E H. apply (flow_inv_frame t); try done.
  - unfold held, in_use. simpl. rewrite E, !map_app. simpl. solve_Permutation.
  - simpl. rewrite E. simpl. by apply sublist_cons.
  - apply (fi_sessions _ H).
Qed.

Lemma routed_to_snoc i j bs t l :
  routed t = l ++ [(j, bs)] ->
  routed_to i t = map snd (filter (fun ib => ib.1 = i) l) ++ (if decide (j = i) then [bs] else []).
Proof.
  intros E. unfold routed_to. rewrite E, filter_app, map_app. f_equal.
  rewrite filter_cons, filter_nil. simpl. by case_decide.
Qed.

(** Queueing it for the current session. *)
Lemma flow_inv_enqueue i s p ch t :
  packetCh t = p :: ch -> sessions t !! i = Some s -> flow_inv t ->
  let bs := content (mem (pool t)) p in
  flow_inv (set_routed (routed t ++ [(i, bs)])
    (set_sessions (<[i := set_chan (s_packetCh s ++ [p]) (s_writer s) (s_written s) s]> (sessions t))
       (set_packetCh ch t))).
Proof.
  intros E Hi H bs. destruct H as [H1 H2 H2' H3 H4 H5].
  set (s' := set_chan (s_packetCh s ++ [p]) (s_writer s) (s_written s) s).
  assert (Hh : held (set_routed (routed t ++ [(i, bs)]) (set_sessions (<[i := s']> (sessions t)) (set_packetCh ch t)))
                 ≡ₚ held t).
  { unfold held, in_use. simpl. f_equiv. apply fmap_Permutation. rewrite E. simpl.
    pose proof (concat_map_insert s_held _ _ _ s' Hi) as Hc.
    assert (Es : s_held s' ≡ₚ p :: s_held s) by (unfold s_held; simpl; solve_Permutation).
    rewrite Es in Hc. apply (Permutation_app_inv_r (s_held s)). rewrite <- !app_assoc, Hc. solve_Permutation. }
  constructor.
  - by rewrite Hh.
  - intros b Hb. apply H2. by rewrite <- Hh.
  - intros b Hb. apply H2'. by rewrite <- Hh.
  - simpl. rewrite E in H3. rewrite map_app. simpl in *. by rewrite <- app_assoc.
  - intros j s2 Hj. simpl in *. rewrite (routed_to_snoc j i bs _ (routed t)) by done. fold (routed_to j t).
    apply list_lookup_insert_Some in Hj as [(<- & <- & _)|[Hn Hj]].
    + destruct (H4 _ _ Hi) as [Hp Hw]. rewrite decide_True by done. split.
      * simpl. by apply prefix_app_r.
      * intros Ee. rewrite <- (Hw Ee). unfold pending, s', given. simpl. rewrite map_app. by rewrite !app_assoc.
    + rewrite decide_False by done. rewrite app_nil_r. by apply H4.
  - intros j b Hj. simpl in *. rewrite length_insert. apply elem_of_app in Hj as [Hj|Hj]; [by eapply H5|].
    apply list_elem_of_singleton in Hj as [= -> ->]. by eapply lookup_lt_Some.
Qed.

Lemma current_session_Some t i s :
  current_session t = Some (i, s) -> current (sup t) = Some i /\ sessions t !! i = Some s.
Proof.
  unfold current_session. destruct (current (sup t)) as [j|]; simpl; [|done].
  destruct (sessions t !! j) as [s'|] eqn:E; simpl; [|done]. by intros [= <- <-].
Qed.

Lemma flow_inv_routePacket p ch now t :
  packetCh t = p :: ch -> flow_inv t -> flow_inv (routePacket p now (set_packetCh ch t)).
Proof.
  intros E H. pose proof (flow_inv_drop p ch t E H) as Hd. unfold routePacket.
  destruct (current_session _) as [[i s]|] eqn:Es; [|done]. apply current_session_Some in Es as [_ Es].
  destruct (negb _); [done|]. destruct (_ && _); [done|].
  destruct (AllowIncoming _ _ _) as [fw ok]. destruct (negb ok); [by apply (flow_inv_firewall fw) in Hd|].
  destruct (_ <? _); [|by apply (flow_inv_firewall fw) in Hd].
  apply (flow_inv_firewall fw _ (flow_inv_enqueue i s p ch t E Es H)).
Qed.

Lemma flow_inv_handleReport M up down upd r t : flow_inv t -> flow_inv (handleReport M up down upd r t).
Proof.
  intros H. unfold handleReport. destruct (current_session t) as [[i s]|]; [|done].
  destruct (sessions t !! r_session r); [|done]. case_decide; [done|].
  destruct (r_kind r); try by apply flow_inv_detachCurrent.
  destruct (negb (Z.land (r_event r) upd =? 0)).
  - apply flow_inv_rwc_SetMTU. apply (flow_inv_alter (set_mtu (r_mtu r)) i) in H; [|done].
    by destruct H; constructor.
  - by apply flow_inv_set_sup.
Qed.

(** The queue goroutine takes a buffer that nobody holds, so the packets that
    are on their way keep their bytes. *)
Lemma pool_Get_spec k t b bp :
  flow_inv t -> pool_Get k (pool t) = Some (b, bp) ->
  NoDup (b :: free bp ++ map fst (in_use t)) /\ (b < next_buf bp) /\
  (forall c, c ∈ free bp ++ map fst (in_use t) -> c < next_buf bp /\ mem bp !! c = mem (pool t) !! c /\ c ∈ held t) /\
  exists bs, mem bp !! b = Some bs /\ length bs = Z.to_nat bufPoolSize.
Proof.
  intros [H1 H2 H2' _ _ _]. unfold pool_Get. destruct k as [k|].
  - destruct (free (pool t) !! k) as [b0|] eqn:Ek; [|done]. intros [= -> <-]. simpl.
    assert (Ep : held t ≡ₚ b :: delete k (free (pool t)) ++ map fst (in_use t)).
    { unfold held. rewrite app_comm_cons. f_equiv. by apply delete_Permutation. }
    rewrite <- Ep. split; [done|]. split; [apply H2; rewrite Ep; by left|]. split; [|apply H2'; rewrite Ep; by left].
    intros c Hc. assert (c ∈ held t) by (rewrite Ep; by right). auto.
  - intros [= <- <-]. simpl. assert (Hn : next_buf (pool t) ∉ held t) by (intros Hb; apply H2 in Hb; lia).
    split; [by constructor|]. split; [lia|]. split.
    + intros c Hc. fold (held t) in Hc. assert (c <> next_buf (pool t)) by congruence.
      rewrite lookup_insert_ne by done. apply H2 in Hc as ?. split; [lia|done].
    + eexists. rewrite lookup_insert_eq. split; [done|]. apply length_replicate.
Qed.

Lemma flow_inv_queue_read k data t t' : flow_inv t -> queue_read k data t = Some t' -> flow_inv t'.
Proof.
  intros H. unfold queue_read. destruct (queue t) eqn:Eq; try done.
  unfold guard. destruct (_ <=? _) eqn:El; [|done]. bool_props.
  destruct (pool_Get k (pool t)) as [[b bp]|] eqn:Eg; [|done]. intros [= <-].
  destruct (pool_Get_spec k t b bp H Eg) as (Hn & Hb & Hc & bs & Em & Hl).
  destruct H as [_ _ H2 H3 H4 H5]. apply NoDup_cons in Hn as [Hb2 Hn].
  assert (Hin : in_use t = packetCh t ++ concat (map s_held (sessions t))) by (unfold in_use; by rewrite Eq).
  assert (Hcont : forall p, p ∈ in_use t -> content (mem (write_buf b data bp)) p = content (mem (pool t)) p).
  { intros p Hp. assert (Hp' : p.1 ∈ free bp ++ map fst (in_use t)).
    { apply elem_of_app. right. by apply list_elem_of_fmap_2. }
    rewrite content_write_ne by congruence. unfold content. by rewrite (proj1 (proj2 (Hc _ Hp'))). }
  assert (Hnew : content (mem (write_buf b data bp)) (b, length data) = data).
  { unfold content, write_buf. simpl. rewrite lookup_insert_eq, Em. simpl. unfold copy.
    rewrite take_app_le by (rewrite length_take; lia). rewrite take_take, take_ge by lia. done. }
  match goal with |- flow_inv ?t' => assert (Hh : held t' ≡ₚ b :: free bp ++ map fst (in_use t)) end.
  { unfold held, in_use. simpl. rewrite Eq. simpl. solve_Permutation. }
  constructor.
  - rewrite Hh. by constructor.
  - intros c Hc'. rewrite Hh in Hc'. simpl. apply elem_of_cons in Hc' as [->|Hc']; [done|]. by apply Hc.
  - intros c Hc'. rewrite Hh in Hc'. simpl. destruct (decide (c = b)) as [->|Hne].
    + rewrite lookup_insert_eq, Em. eexists. split; [done|]. by rewrite length_copy.
    + apply elem_of_cons in Hc' as [->|Hc']; [done|]. rewrite lookup_insert_ne by done.
      destruct (Hc c Hc') as (_ & -> & Hh'). by apply H2.
  - simpl. rewrite Eq, app_nil_r in H3. rewrite map_app. simpl in *. rewrite Hnew, app_assoc.
    apply sublist_app; [|done]. rewrite (contents_frame (mem (pool t))); [done|].
    intros p Hp. apply Hcont. rewrite Hin. apply elem_of_app. by left.
  - intros i s Hi. simpl in *. eapply session_ok_frame; [|by apply H4].
    intros p Hp. apply Hcont. rewrite Hin. apply elem_of_app. right.
    apply list_elem_of_In, in_concat. exists (s_held s). split; [|by apply list_elem_of_In].
    apply in_map, list_elem_of_In. by eapply list_elem_of_lookup_2.
  - exact H5.
Qed.

Lemma flow_inv_queue_send t t' : flow_inv t -> queue_send t = Some t' -> flow_inv t'.
Proof.
  intros H. unfold queue_send. destruct (queue t) as [|p|] eqn:Eq; try done.
  unfold guard. destruct (_ <? _)%nat; [|done]. intros [= <-]. apply (flow_inv_frame t); try done.
  - unfold held, in_use. simpl. rewrite Eq, !map_app. simpl. solve_Permutation.
  - simpl. rewrite Eq. simpl. by rewrite app_nil_r.
  - apply (fi_sessions _ H).
Qed.

Lemma flow_inv_queue_end t q :
  (exists p, queue t = QSend p /\ q = put p t) \/ (queue t = QRead /\ q = t) ->
  flow_inv t -> flow_inv (set_queue QDone q).
Proof.
  intros [(p & Eq & ->)|[Eq ->]] H; (apply (flow_inv_frame t); try done; [| |apply (fi_sessions _ H)]).
  - unfold held, in_use. simpl. rewrite Eq. simpl. solve_Permutation.
  - simpl. rewrite app_nil_r, map_app. by apply sublist_inserts_r.
  - unfold held, in_use. simpl. by rewrite Eq.
  - simpl. by rewrite Eq.
Qed.

(** The steps of the write loop. *)
Lemma flow_inv_writer_take i t t' : flow_inv t -> writer_take i t = Some t' -> flow_inv t'.
Proof.
  intros H. unfold writer_take, session_step. destruct (sessions t !! i) as [s|] eqn:Es; [|done].
  destruct (fi_sessions _ H _ _ Es) as [Hp Hw]. unfold pending, writer_ended in Hw.
  destruct (s_packetCh s) as [|p ch] eqn:Ec; [done|].
  destruct (s_writer s) as [|batch|bufs| |] eqn:Ew; simpl; try done.
  - intros [= <-]. eapply flow_inv_session; [done|exact Es| |].
    + unfold s_held. rewrite Ec, Ew. simpl. solve_Permutation.
    + split; [done|]. intros _. by apply Hw.
  - unfold guard. destruct (_ <? _); [|done]. intros [= <-]. eapply flow_inv_session; [done|exact Es| |].
    + unfold s_held. rewrite Ec, Ew. simpl. solve_Permutation.
    + split; [done|]. intros _. rewrite <- (Hw eq_refl). unfold pending. simpl.
      by rewrite map_app, <- app_assoc.
Qed.

Lemma fold_Put batch bp :
  mem (fold_left (fun bp p => pool_Put p bp) batch bp) = mem bp /\
  next_buf (fold_left (fun bp p => pool_Put p bp) batch bp) = next_buf bp /\
  free (fold_left (fun bp p => pool_Put p bp) batch bp) ≡ₚ map fst batch ++ free bp.
Proof.
  revert bp. induction batch as [|p batch IH]; intros bp; [done|]. simpl.
  destruct (IH (pool_Put p bp)) as (-> & -> & ->). simpl. split_and!; [done|done|]. solve_Permutation.
Qed.

Lemma given_make_buf s m batch :
  given s (map (fun p => make_buf (s_mwo s) (content m p)) batch) = map (content m) batch.
Proof.
  unfold given. rewrite map_map. apply map_ext. intros p. unfold make_buf.
  rewrite drop_app_le by (rewrite length_replicate; lia). by rewrite drop_ge by (rewrite length_replicate; lia).
Qed.

Lemma flow_inv_writer_drained i t t' : flow_inv t -> writer_drained i t = Some t' -> flow_inv t'.
Proof.
  intros H. unfold writer_drained. destruct (sessions t !! i) as [s|] eqn:Es; [|done].
  destruct (fi_sessions _ H _ _ Es) as [Hp Hw]. unfold pending, writer_ended in Hw.
  destruct (s_writer s) as [|batch|bufs| |] eqn:Ew; try done.
  unfold guard. destruct (_ || _); [|done]. intros [= <-].
  destruct (fold_Put batch (pool t)) as (Em & En & Ef).
  apply (flow_inv_frame t); simpl; try done.
  - unfold held, in_use. simpl. rewrite Ef.
    match goal with |- context [<[i := ?s']> _] => pose proof (concat_map_insert s_held _ _ _ s' Es) as Hc end.
    unfold s_held at 2 4 in Hc. simpl in Hc. rewrite Ew, app_nil_r in Hc. simpl in Hc.
    rewrite (Permutation_app_comm (s_packetCh s)), app_assoc in Hc. apply Permutation_app_inv_r in Hc.
    apply (Permutation_map fst) in Hc. rewrite map_app in Hc.
    rewrite !map_app, <- Hc. solve_Permutation.
  - by rewrite length_insert.
  - intros j s2 Hj. apply list_lookup_insert_Some in Hj as [(<- & <- & _)|[_ Hj]]; [|by apply (fi_sessions _ H)].
    split; [done|]. intros _. rewrite <- (Hw eq_refl). unfold pending, given. simpl.
    fold (given s (map (fun p => make_buf (s_mwo s) (content (mem (pool t)) p)) batch)). by rewrite given_make_buf.
Qed.

(** The device takes the first [n] buffers of a write. *)
Lemma flow_inv_write n i s bufs w t :
  flow_inv t -> sessions t !! i = Some s -> s_writer s = WWrite bufs ->
  w = (if (length bufs <=? n)%nat then WIdle else WWrite (drop n bufs)) \/ w = WReport \/ w = WDone ->
  flow_inv (set_sessions
    (<[i := set_chan (s_packetCh s) w (s_written s ++ given s (take n bufs)) s]> (sessions t)) t).
Proof.
  intros H Es Ew Hw. destruct (fi_sessions _ H _ _ Es) as [Hp Hl]. unfold pending, writer_ended in Hl.
  rewrite Ew in Hl. specialize (Hl eq_refl).
  assert (E : given s bufs = given s (take n bufs) ++ given s (drop n bufs)).
  { unfold given. by rewrite <- map_app, take_drop. }
  eapply flow_inv_session; [done|exact Es| |].
  - unfold s_held. rewrite Ew. simpl.
    destruct Hw as [->|[->| ->]]; simpl; try done. by destruct (_ <=? _)%nat.
  - split.
    + simpl. exists (given s (drop n bufs) ++ map (content (mem (pool t))) (s_packetCh s)).
      rewrite <- Hl, E. by rewrite !app_assoc.
    + destruct Hw as [->|[->| ->]]; try done. intros _. rewrite <- Hl, E. unfold pending. simpl.
      destruct (_ <=? _)%nat eqn:En; bool_props; [|unfold given; simpl; by rewrite !app_assoc].
      rewrite (drop_ge bufs) by done. unfold given. simpl. by rewrite app_nil_r, !app_assoc.
Qed.

(** The write loop returns. *)
Lemma flow_inv_writer_done i s t :
  flow_inv t -> sessions t !! i = Some s -> writer_batch (s_writer s) = [] ->
  flow_inv (set_sessions (<[i := set_chan (s_packetCh s) WDone (s_written s) s]> (sessions t)) t).
Proof.
  intros H Es Eb. eapply flow_inv_session; [done|exact Es| |].
  - unfold s_held. rewrite Eb. done.
  - split; [apply (fi_sessions _ H _ _ Es)|done].
Qed.

Lemma flow_inv_send_report r t t' : flow_inv t -> send_report r t = Some t' -> flow_inv t'.
Proof. intros H. unfold send_report, guard. destruct (_ <? _)%nat; [|done]. intros [= <-]. auto with ygg. Qed.

Ltac same_packets_tac :=
  let s := fresh "s" in let s' := fresh "s'" in
  intros s s'; unfold guard; repeat case_match; intros; simplify_eq; done.

(** The steps of the loops of the sessions, and of stopping one. *)
Definition of_session (e : event) : bool :=
  match e with
  | EAttach _ _ | EReplace _ _ | EDetach | EStopping | EStop | ESetFirewall _ | ERoute _ | EReport | ECoreRead _ _ | ECoreError | EQueueSend | EQueueStop => false
  | _ => true
  end.

Lemma flow_inv_exec_adapter M up down upd e t t' : flow_inv t -> of_session e = false -> exec M up down upd e t = Some t' -> flow_inv t'.
Proof.
  intros H He.
  destruct e; try discriminate He; simpl.
  - intros [= <-]. unfold Attach, submitAttach. repeat case_match; try done. by apply flow_inv_handleAttach.
  - intros [= <-]. unfold Replace, submitAttach. repeat case_match; try done. by apply flow_inv_handleAttach.
  - intros [= <-]. unfold Detach. case_match; [done|]. by apply flow_inv_detachCurrent.
  - intros [= <-]. by apply flow_inv_stopped.
  - destruct (stopped t); [|done]. intros [= <-]. unfold handleStop. case_match; [done|].
    pose proof (flow_inv_detachCurrent M StateStopped _ H) as Hd. destruct (detachCurrent _ _ _) as [err u]. by apply flow_inv_close.
  - intros [= <-]. auto with ygg.
  - unfold guard. destruct (negb _); [|done]. destruct (packetCh t) as [|p ch] eqn:E; [done|].
    intros [= <-]. by apply flow_inv_routePacket.
  - unfold guard. destruct (negb _); [|done]. destruct (reportCh t) as [|r ch] eqn:E; [done|].
    intros [= <-]. apply flow_inv_handleReport. auto with ygg.
  - by apply flow_inv_queue_read.
  - destruct (queue t) eqn:E; try done. intros [= <-]. apply (flow_inv_queue_end t); [by right|done].
  - by apply flow_inv_queue_send.
  - unfold queue_stop. destruct (queue t) as [|p|] eqn:E; try done. unfold guard. destruct (stopCh t); [|done].
    intros [= <-]. apply (flow_inv_queue_end t); [by left; exists p|done].
Qed.

Lemma flow_inv_exec_session M up down upd e t t' : flow_inv t -> of_session e = true -> exec M up down upd e t = Some t' -> flow_inv t'.
Proof.
  intros H He.
  destruct e; try discriminate He; simpl.
  - apply flow_inv_session_step; [same_packets_tac|done].
  - apply flow_inv_session_step; [same_packets_tac|done].
  - unfold forward. destruct (sessions t !! i) as [s|] eqn:Es; [|done].
    destruct (s_reader s) as [|[|p ps]| |]; try done. destruct (AllowOutgoing _ _ _) as [fw ok].
    intros [= <-]. apply (flow_inv_same t i s (set_reader (rest_of_batch ps) s)) in H; [|done|done].
    destruct ok; by destruct H; constructor.
  - destruct (sessions t !! i) as [s|] eqn:Es; [|done]. destruct (s_reader s); try done.
    destruct (send_report _ t) as [u|] eqn:Eu; [|done]. apply flow_inv_session_step; [same_packets_tac|].
    by eapply flow_inv_send_report.
  - by apply flow_inv_writer_take.
  - by apply flow_inv_writer_drained.
  - unfold session_step. destruct (sessions t !! i) as [s|] eqn:Es; [|done].
    destruct (s_writer s) eqn:Ew; try done. unfold guard. destruct (s_stopCh s); [|done].
    intros [= <-]. apply flow_inv_writer_done; [done|done|by rewrite Ew].
  - unfold device_write, session_step. destruct (sessions t !! i) as [s|] eqn:Es; [|done].
    destruct (s_writer s) as [| |bufs| |] eqn:Ew; try done. intros [= <-]. eapply flow_inv_write; eauto.
  - unfold device_write_error, session_step. destruct (sessions t !! i) as [s|] eqn:Es; [|done].
    destruct (s_writer s) as [| |bufs| |] eqn:Ew; try done. intros [= <-]. eapply flow_inv_write; eauto.
    right. destruct (_ && _); auto.
  - destruct (sessions t !! i) as [s|] eqn:Es; [|done]. destruct (s_writer s) eqn:Ew; try done.
    unfold send_report, guard. destruct (_ <? _)%nat; [|done]. unfold session_step. simpl. rewrite Es.
    intros [= <-]. apply (flow_inv_writer_done i s (set_reportCh _ t)); [auto with ygg|done|by rewrite Ew].
  - apply flow_inv_session_step; [same_packets_tac|done].
  - apply flow_inv_session_step; [same_packets_tac|done].
  - apply flow_inv_session_step; [same_packets_tac|done].
  - unfold event_report. destruct (sessions t !! i) as [s|] eqn:Es; [|done]. destruct (s_events s); try done.
    destruct (send_report _ t) as [u|] eqn:Eu; [|done]. apply flow_inv_session_step; [same_packets_tac|].
    by eapply flow_inv_send_report.
  - apply flow_inv_session_step; [unfold stop_flag; same_packets_tac|done].
  - apply flow_inv_session_step; [unfold stop_chan; same_packets_tac|done].
  - apply flow_inv_session_step; [unfold stop_close; same_packets_tac|done].
Qed.

Lemma flow_inv_exec M up down upd e t t' : flow_inv t -> exec M up down upd e t = Some t' -> flow_inv t'.
Proof.
  intros H. destruct (of_session e) eqn:He; [by eapply flow_inv_exec_session; eauto|by eapply flow_inv_exec_adapter; eauto].
Qed.

Lemma flow_inv_New M opts : flow_inv (New M opts).
Proof.
  unfold New. destruct (fold_left _ _ _) as [mtu fw]. apply flow_inv_rwc_SetMTU.
  constructor; simpl; try done; try (by intros ? ?%elem_of_nil); try (by intros ? ? ?%elem_of_nil).
  apply NoDup_nil_2.
Qed.

Lemma flow_inv_reachable M up down upd opts t : reachable M up down upd opts t -> flow_inv t.
Proof. induction 1; [apply flow_inv_New|by eapply flow_inv_exec]. Qed.

(** ** A write loop that runs empties its channel *)

Definition writer_work (s : attachmentSession) : nat :=
  3 * length (s_packetCh s) + match s_writer s with WDrain _ => 2 | WWrite _ => 1 | _ => 0 end.

Lemma lookup_set_session i (s : attachmentSession) t :
  (i < length (sessions t))%nat -> sessions (set_sessions (<[i := s]> (sessions t)) t) !! i = Some s.
Proof. intros. simpl. by apply list_lookup_insert_eq. Qed.

(** One step of a write loop that has something to do. *)
Lemma writer_progress M up down upd t i s :
  sessions t !! i = Some s -> writer_ended s = false -> writer_work s <> 0%nat ->
  exists e t' s', exec M up down upd e t = Some t' /\ sessions t' !! i = Some s' /\ writer_ended s' = false /\
    (writer_work s' < writer_work s)%nat /\ routed t' = routed t.
Proof.
  intros Es Ee Hw. assert (Hi : (i < length (sessions t))%nat) by (by eapply lookup_lt_Some).
  unfold writer_ended, writer_work in Hw, Ee.
  destruct (s_writer s) as [|batch|bufs| |] eqn:Ew; try done.
  - destruct (s_packetCh s) as [|p ch] eqn:Ec; [done|].
    exists (EWriterTake i). do 2 eexists. simpl. unfold writer_take, session_step. rewrite Es, Ec, Ew.
    split; [done|]. rewrite lookup_set_session by done. split; [done|]. unfold writer_work. rewrite Ec, Ew. simpl.
    repeat split; lia.
  - destruct (bool_decide (s_packetCh s = []) || negb (Z.of_nat (length batch) <? write_batch s)) eqn:Eb.
    + exists (EWriterDrained i). do 2 eexists. simpl. unfold writer_drained. rewrite Es, Ew, Eb. simpl.
      split; [done|]. simpl. rewrite list_lookup_insert_eq by done. split; [done|].
      unfold writer_work. rewrite Ew. simpl. repeat split; lia.
    + apply orb_false_iff in Eb as [Eb1 Eb2]. bool_props. destruct (s_packetCh s) as [|p ch] eqn:Ec; [done|].
      exists (EWriterTake i). do 2 eexists. simpl. unfold writer_take, session_step. rewrite Es, Ec, Ew. simpl.
      rewrite (proj2 (Z.ltb_lt _ _)) by done. simpl. split; [done|]. simpl. rewrite list_lookup_insert_eq by done.
      split; [done|]. unfold writer_work. rewrite Ec, Ew. simpl. repeat split; lia.
  - exists (EDeviceWrite i (length bufs)). do 2 eexists. simpl. unfold device_write, session_step.
    rewrite Es, Ew, (proj2 (Nat.leb_le _ _)) by done. split; [done|]. rewrite lookup_set_session by done.
    split; [done|]. unfold writer_work. rewrite Ew. simpl. repeat split; lia.
Qed.

Lemma writer_drains M up down upd t i s :
  flow_inv t -> sessions t !! i = Some s -> writer_ended s = false ->
  exists es t' s', exec_all M up down upd es t = Some t' /\ sessions t' !! i = Some s' /\
    routed t' = routed t /\ s_written s' = routed_to i t.
Proof.
  remember (writer_work s) as n eqn:En. revert t s En.
  induction (lt_wf n) as [n _ IH]; intros t s En H Es Ee.
  destruct (decide (n = 0)%nat) as [->|Hn].
  - exists [], t, s. split_and!; try done. destruct (fi_sessions _ H _ _ Es) as [_ Hw]. rewrite <- (Hw Ee).
    unfold pending, writer_work in *. destruct (s_packetCh s); [|simpl in En; lia].
    destruct (s_writer s); simpl in *; try lia; by rewrite app_nil_r.
  - destruct (writer_progress M up down upd t i s Es Ee) as (e & t1 & s1 & E1 & Es1 & Ee1 & Hlt & Er); [lia|].
    assert (H1 : flow_inv t1) by (by eapply flow_inv_exec).
    destruct (IH _ ltac:(rewrite En; exact Hlt) t1 s1 eq_refl H1 Es1 Ee1) as (es & t2 & s2 & E2 & Es2 & Er2 & Ew).
    exists (e :: es), t2, s2. simpl. rewrite E1. split_and!; try done; [congruence|].
    rewrite Ew. unfold routed_to. by rewrite Er.
Qed.

(** ** The supervisor *)

(** Stop goroutines that were started for a session. *)
Definition stops_of (s : attachmentSession) : nat := (s_stops s + if s_stopping s then 1 else 0)%nat.

Definition session_inv (j : nat) (is_current : bool) (s : attachmentSession) : Prop :=
  s_id s = u64 (Z.of_nat (S j)) /\ stops_of s = (if is_current then 0 else 1)%nat /\
  (s_stopCh s = true -> s_stopping s = true) /\ (s_closed s = true -> s_stopCh s = true).

Definition is_current (t : TunAdapter) (j : nat) : bool := bool_decide (current (sup t) = Some j).

Record sup_inv (M : Z) (t : TunAdapter) : Prop := {
  si_detached : current (sup t) = None ->
    status (sup t) = only_state (if stopCh t then StateStopped else StateDetached) /\
    currentSessionID t = 0 /\ rwc_mtu (rwc t) = desiredMTU M t;
  si_attached : forall i, current (sup t) = Some i ->
    stopCh t = false /\ exists s, sessions t !! i = Some s /\
      status (sup t) = session_status s (st_Enabled (status (sup t))) StateAttached /\
      currentSessionID t = s_id s /\ rwc_mtu (rwc t) = s_mtu s;
  si_sessions : forall j s, sessions t !! j = Some s -> session_inv j (is_current t j) s;
  si_nextID : nextID (sup t) = u64 (Z.of_nat (length (sessions t)));
  si_stopped : stopCh t = true -> stopped t = true
}.

(** What the supervisor's view keeps from a session. *)
Definition same_view (s s' : attachmentSession) : Prop :=
  s_id s' = s_id s /\ s_kind s' = s_kind s /\ s_name s' = s_name s /\ s_mtu s' = s_mtu s /\
  s_mro s' = s_mro s /\ s_mwo s' = s_mwo s.

Lemma session_status_same s s' b st : same_view s s' -> session_status s' b st = session_status s b st.
Proof. intros (_ & E1 & E2 & E3 & E4 & E5). unfold session_status. congruence. Qed.

(** Steps of the other goroutines. *)
Definition same_sup (t t' : TunAdapter) : Prop :=
  sup t' = sup t /\ stopCh t' = stopCh t /\ stopped t' = stopped t /\ currentSessionID t' = currentSessionID t /\
  config_mtu t' = config_mtu t /\ rwc_mtu (rwc t') = rwc_mtu (rwc t).

Lemma sup_inv_frame M t t' : sup_inv M t -> same_sup t t' -> sessions t' = sessions t -> sup_inv M t'.
Proof.
  intros [H1 H2 H3 H4 H5] (E1 & E2 & E3 & E4 & E5 & E6) Es. unfold is_current in *.
  constructor; unfold desiredMTU, is_current in *; rewrite ?E1, ?E2, ?E3, ?E4, ?E5, ?E6, ?Es; assumption.
Qed.

Lemma sup_inv_session M t i s s' :
  sup_inv M t -> sessions t !! i = Some s -> same_view s s' -> session_inv i (is_current t i) s' ->
  sup_inv M (set_sessions (<[i := s']> (sessions t)) t).
Proof.
  intros [H1 H2 H3 H4 H5] Es Hv Hs. constructor; simpl; try done.
  - intros j Hj. destruct (H2 j Hj) as (Hst & s0 & Es0 & Est & Eid & Em). split; [done|].
    destruct (decide (i = j)) as [<-|Hn].
    + rewrite list_lookup_insert_eq by (by eapply lookup_lt_Some). rewrite Es in Es0. injection Es0 as <-.
      exists s'. rewrite (session_status_same s s') by done. destruct Hv as (-> & _ & _ & -> & _). done.
    + rewrite list_lookup_insert_ne by done. by exists s0.
  - intros j s2 Hj. apply list_lookup_insert_Some in Hj as [(<- & <- & _)|[_ Hj]]; [done|by apply H3].
  - by rewrite length_insert.
Qed.

Lemma sup_inv_session_step M i f t t' :
  (forall s s' b, f s = Some s' -> session_inv i b s -> same_view s s' /\ session_inv i b s') ->
  sup_inv M t -> session_step i f t = Some t' -> sup_inv M t'.
Proof.
  intros Hf H. unfold session_step. destruct (sessions t !! i) as [s|] eqn:Es; [|done].
  destruct (f s) as [s'|] eqn:Ef; [|done]. intros [= <-].
  destruct (Hf s s' (is_current t i) Ef) as [Hv Hs]; [by apply (si_sessions _ _ H)|].
  by eapply sup_inv_session.
Qed.

Lemma is_current_true t j : is_current t j = true <-> current (sup t) = Some j.
Proof. apply bool_decide_eq_true. Qed.

Lemma session_inv_spawn j s : session_inv j true s -> session_inv j false (spawn_stop s).
Proof. intros (E1 & E2 & E3 & E4). unfold session_inv, stops_of in *. simpl. split_and!; auto; lia. Qed.

(** The sessions after the current one was retired. *)
Lemma sessions_retired t j s :
  (forall j s, sessions t !! j = Some s -> session_inv j (is_current t j) s) ->
  match current (sup t) with Some i => alter spawn_stop i (sessions t) | None => sessions t end !! j = Some s ->
  session_inv j false s.
Proof.
  intros H. destruct (current (sup t)) as [i|] eqn:Ec.
  - destruct (decide (i = j)) as [<-|Hn].
    + rewrite list_lookup_alter_eq. destruct (sessions t !! i) as [s0|] eqn:Es; [|done]. intros [= <-].
      apply session_inv_spawn. pose proof (H i s0 Es) as H0. by rewrite (proj2 (is_current_true t i) Ec) in H0.
    + rewrite list_lookup_alter_ne by done. intros Hj. pose proof (H j s Hj) as H0.
      replace (is_current t j) with false in H0; [done|]. symmetry. apply bool_decide_eq_false. congruence.
  - intros Hj. pose proof (H j s Hj) as H0.
    replace (is_current t j) with false in H0; [done|]. symmetry. apply bool_decide_eq_false. congruence.
Qed.

(** What an attachment that succeeds leaves behind. *)
Definition attached_state (spec : attachSpec) (t : TunAdapter) : TunAdapter :=
  let next := (nextSession spec (sup t)).1 in
  let ss := match current (sup t) with Some i => alter spawn_stop i (sessions t) | None => sessions t end in
  rwc_SetMTU (s_mtu next)
    (set_sup (s_id next) (mkSup (session_status next true StateAttached) (Some (length (sessions t)))
                            (u64 (nextID (sup t) + 1))) (ss ++ [next]) t).

Lemma alter_snoc {A} (f : A -> A) (i : nat) (l : list A) x :
  (i < length l)%nat -> alter f i (l ++ [x]) = alter f i l ++ [x].
Proof. intros H. by rewrite alter_app_l. Qed.

Lemma handleAttach_spec M spec replace t :
  sup_inv M t -> stopCh t = false ->
  handleAttach spec replace t =
    match current_session t, replace with
    | Some (_, s), false => (Some (ErrAlreadyAttached (s_name s)), t)
    | _, _ => (None, attached_state spec t)
    end.
Proof.
  intros H Hs. unfold handleAttach, current_session, attached_state.
  destruct (current (sup t)) as [i|] eqn:Ec; simpl.
  - destruct (si_attached _ _ H i Ec) as (_ & s & Es & Est & _). rewrite Est, Es. simpl.
    destruct replace; [|done]. rewrite alter_snoc by (by eapply lookup_lt_Some). done.
  - destruct (si_detached _ _ H Ec) as (Est & _). rewrite Est, Hs. simpl. by destruct replace.
Qed.

Lemma sup_inv_attached M spec t : sup_inv M t -> stopCh t = false -> sup_inv M (attached_state spec t).
Proof.
  intros H Hs. set (ss := match current (sup t) with Some i => alter spawn_stop i (sessions t) | None => sessions t end).
  assert (Hl : length ss = length (sessions t)).
  { subst ss. destruct (current (sup t)); [|done]. apply length_alter. }
  constructor.
  - done.
  - intros i [= <-]. split; [done|]. exists (nextSession spec (sup t)).1. simpl. fold ss.
    rewrite lookup_app_r, Hl, Nat.sub_diag by lia. done.
  - intros j s Hj. simpl in Hj. fold ss in Hj. apply lookup_app_Some in Hj as [Hj|[Hge Hj]].
    + replace (is_current _ j) with false.
      * by apply (sessions_retired t j s (si_sessions _ _ H)).
      * symmetry. apply bool_decide_eq_false. simpl. intros [= <-]. apply lookup_lt_Some in Hj. lia.
    + apply list_lookup_singleton_Some in Hj as [Hz <-].
      replace (is_current _ j) with true by (symmetry; apply bool_decide_eq_true; simpl; f_equal; lia).
      unfold session_inv, stops_of. simpl. rewrite (si_nextID _ _ H). split_and!; try done. unfold u64.
      rewrite Zplus_mod_idemp_l. f_equal. lia.
  - simpl. fold ss. rewrite length_app, Hl. simpl. rewrite (si_nextID _ _ H). unfold u64. rewrite Zplus_mod_idemp_l.
    f_equal. lia.
  - apply (si_stopped _ _ H).
Qed.

(** ... and what a detachment does. *)
Definition detached_state (M : Z) (st : State) (t : TunAdapter) : TunAdapter :=
  let ss := match current (sup t) with Some i => alter spawn_stop i (sessions t) | None => sessions t end in
  rwc_SetMTU (desiredMTU M t) (set_sup 0 (mkSup (only_state st) None (nextID (sup t))) ss t).

Lemma detachCurrent_spec M st t : sup_inv M t -> detachCurrent M st t = (None, detached_state M st t).
Proof.
  intros H. unfold detachCurrent, detached_state. destruct (current (sup t)) as [i|] eqn:Ec; [done|].
  by destruct (si_detached _ _ H Ec) as (_ & -> & _).
Qed.

Lemma sup_inv_detached M t : sup_inv M t -> stopCh t = false -> sup_inv M (detached_state M StateDetached t).
Proof.
  intros H Hs. constructor; simpl; try done.
  - intros _. by rewrite Hs.
  - intros j s Hj. apply (sessions_retired t j s (si_sessions _ _ H)) in Hj. done.
  - rewrite (si_nextID _ _ H). destruct (current (sup t)); [|done]. by rewrite length_alter.
  - apply (si_stopped _ _ H).
Qed.

Lemma sup_inv_stopped M t :
  sup_inv M t -> stopCh t = false -> stopped t = true -> sup_inv M (close_stopCh (detached_state M StateStopped t)).
Proof.
  intros H Hs Ht. constructor; simpl; try done.
  - intros j s Hj. apply (sessions_retired t j s (si_sessions _ _ H)) in Hj. done.
  - rewrite (si_nextID _ _ H). destruct (current (sup t)); [|done]. by rewrite length_alter.
Qed.

Lemma sup_inv_set_stopped M t : sup_inv M t -> sup_inv M (set_stopped t).
Proof. intros [H1 H2 H3 H4 H5]. by constructor. Qed.

(** Only the enabled flag of the status changes. *)
Definition same_but_enabled (st st' : supervisorState) : Prop :=
  current st' = current st /\ nextID st' = nextID st /\
  status st' = status (set_enabled (st_Enabled (status st')) st).

Lemma sup_inv_enabled M st t :
  sup_inv M t -> current (sup t) <> None -> same_but_enabled (sup t) st ->
  sup_inv M (set_sup (currentSessionID t) st (sessions t) t).
Proof.
  intros [H1 H2 H3 H4 H5] Hc (E1 & E2 & E3). constructor; simpl; unfold is_current in *; simpl;
    rewrite ?E1, ?E2; try done.
  intros i Hi. destruct (H2 i Hi) as (Hs & s & Es & Est & Eid & Em). split; [done|]. exists s.
  split_and!; try done. rewrite E3. simpl. rewrite Est. done.
Qed.

Lemma sup_inv_mtu M m st i s t :
  sup_inv M t -> current (sup t) = Some i -> sessions t !! i = Some s -> same_but_enabled (sup t) st ->
  sup_inv M (rwc_SetMTU m (set_sup (currentSessionID t) (set_status_mtu m st) (alter (set_mtu m) i (sessions t)) t)).
Proof.
  intros [H1 H2 H3 H4 H5] Hc Es (E1 & E2 & E3). destruct (H2 i Hc) as (Hs & s0 & Es0 & Est & Eid & Em).
  rewrite Es in Es0. injection Es0 as <-.
  constructor; simpl; unfold is_current in *; simpl; rewrite ?E1, ?E2; try done.
  - congruence.
  - intros j Hj. assert (j = i) as -> by congruence. split; [done|]. exists (set_mtu m s).
    rewrite list_lookup_alter_eq, Es. split_and!; try done. rewrite E3. simpl. rewrite Est. done.
  - intros j s2 Hj. destruct (decide (i = j)) as [<-|Hn].
    + rewrite list_lookup_alter_eq, Es in Hj. injection Hj as <-. by apply (H3 i s).
    + rewrite list_lookup_alter_ne in Hj by done. by apply H3.
  - by rewrite length_alter.
Qed.

Lemma sup_inv_handleReport M up down upd r t :
  sup_inv M t -> stopCh t = false -> sup_inv M (handleReport M up down upd r t).
Proof.
  intros H Hs. unfold handleReport. destruct (current_session t) as [[i s]|] eqn:Ec; [|done].
  apply current_session_Some in Ec as [Ec Es]. destruct (sessions t !! r_session r); [|done].
  case_decide; [done|].
  destruct (r_kind r); try (rewrite (detachCurrent_spec M) by done; by apply sup_inv_detached).
  set (st := if negb (Z.land (r_event r) up =? 0) then _ else _).
  assert (He : same_but_enabled (sup t) st).
  { subst st. destruct (negb (Z.land (r_event r) up =? 0)), (negb (Z.land (r_event r) down =? 0));
      unfold same_but_enabled, set_enabled; simpl; try done. by destruct (status (sup t)). }
  destruct (negb (Z.land (r_event r) upd =? 0)).
  - by apply (sup_inv_mtu M (r_mtu r) st i s t).
  - apply sup_inv_enabled; [done|congruence|done].
Qed.

Lemma sup_inv_routePacket M p now t : sup_inv M t -> sup_inv M (routePacket p now t).
Proof.
  intros H. unfold routePacket. destruct (current_session t) as [[i s]|] eqn:Ec; [|by eapply sup_inv_frame].
  apply current_session_Some in Ec as [Ec Es].
  destruct (negb _); [by eapply sup_inv_frame|]. destruct (_ && _); [by eapply sup_inv_frame|].
  destruct (AllowIncoming _ _ _) as [fw ok]. destruct (negb ok); [by eapply sup_inv_frame|].
  destruct (_ <? _); [|by eapply sup_inv_frame].
  apply (sup_inv_frame M (set_sessions
    (<[i := set_chan (s_packetCh s ++ [p]) (s_writer s) (s_written s) s]> (sessions t)) t)); [|done|done].
  eapply sup_inv_session; [done|exact Es|done|]. exact (si_sessions _ _ H i s Es).
Qed.

Lemma sup_inv_send_report M r t t' : sup_inv M t -> send_report r t = Some t' -> sup_inv M t'.
Proof.
  intros H. unfold send_report, guard. destruct (_ <? _)%nat; [|done]. intros [= <-]. by eapply sup_inv_frame.
Qed.

(** Steps of a loop keep what the supervisor sees and the stop state. *)
Ltac same_view_tac :=
  let s := fresh "s" in let s' := fresh "s'" in let b := fresh "b" in
  intros s s' b; unfold guard; repeat case_match; intros; simplify_eq; split; done.

Lemma sup_inv_exec_adapter M up down upd e t t' : sup_inv M t -> of_session e = false -> exec M up down upd e t = Some t' -> sup_inv M t'.
Proof.
  intros H He.
  destruct e; try discriminate He; simpl.
  - intros [= <-]. unfold Attach, submitAttach. case_match; [|done]. case_match; [done|].
    rewrite (handleAttach_spec M) by done. repeat case_match; try done; by apply sup_inv_attached.
  - intros [= <-]. unfold Replace, submitAttach. case_match; [|done]. case_match; [done|].
    rewrite (handleAttach_spec M) by done. repeat case_match; try done; by apply sup_inv_attached.
  - intros [= <-]. unfold Detach. case_match; [done|]. rewrite detachCurrent_spec by done. by apply sup_inv_detached.
  - intros [= <-]. by apply sup_inv_set_stopped.
  - destruct (stopped t) eqn:Et; [|done]. intros [= <-]. unfold handleStop. destruct (stopCh t) eqn:Es; [done|].
    rewrite detachCurrent_spec by done. by apply sup_inv_stopped.
  - intros [= <-]. by eapply sup_inv_frame.
  - unfold guard. destruct (negb _); [|done]. destruct (packetCh t) as [|p ch]; [done|].
    intros [= <-]. apply sup_inv_routePacket. by eapply sup_inv_frame.
  - unfold guard. destruct (stopCh t) eqn:Es; [done|]. destruct (reportCh t) as [|r ch]; [done|].
    intros [= <-]. apply sup_inv_handleReport; [|done]. by eapply sup_inv_frame.
  - unfold queue_read, guard. repeat case_match; try done. intros [= <-]. by eapply sup_inv_frame.
  - destruct (queue t); try done. intros [= <-]. by eapply sup_inv_frame.
  - unfold queue_send, guard. repeat case_match; try done. intros [= <-]. by eapply sup_inv_frame.
  - unfold queue_stop, guard. repeat case_match; try done. intros [= <-]. by eapply sup_inv_frame.
Qed.

Lemma sup_inv_exec_session M up down upd e t t' : sup_inv M t -> of_session e = true -> exec M up down upd e t = Some t' -> sup_inv M t'.
Proof.
  intros H He.
  destruct e; try discriminate He; simpl.
  - apply sup_inv_session_step; [same_view_tac|done].
  - apply sup_inv_session_step; [same_view_tac|done].
  - unfold forward. destruct (sessions t !! i) as [s|] eqn:Es; [|done].
    destruct (s_reader s) as [|[|p ps]| |]; try done. destruct (AllowOutgoing _ _ _) as [fw ok]. intros [= <-].
    eapply (sup_inv_frame M (set_sessions (<[i := set_reader (rest_of_batch ps) s]> (sessions t)) t));
      [|destruct ok; done|by destruct ok].
    eapply sup_inv_session; [done|exact Es|done|]. exact (si_sessions _ _ H i s Es).
  - destruct (sessions t !! i); [|done]. destruct (s_reader _); try done.
    destruct (send_report _ t) as [u|] eqn:Eu; [|done]. apply sup_inv_session_step; [same_view_tac|].
    by eapply sup_inv_send_report.
  - apply sup_inv_session_step; [same_view_tac|done].
  - unfold writer_drained, guard. destruct (sessions t !! i) as [s|] eqn:Es; [|done].
    destruct (s_writer s); try done. destruct (_ || _); [|done]. intros [= <-].
    match goal with |- sup_inv _ (set_sessions (<[_ := ?s']> _) _) =>
      eapply (sup_inv_frame M (set_sessions (<[i := s']> (sessions t)) t)); [|done|reflexivity] end.
    eapply sup_inv_session; [done|exact Es|done|]. exact (si_sessions _ _ H i s Es).
  - apply sup_inv_session_step; [same_view_tac|done].
  - apply sup_inv_session_step; [same_view_tac|done].
  - apply sup_inv_session_step; [same_view_tac|done].
  - destruct (sessions t !! i); [|done]. destruct (s_writer _); try done.
    destruct (send_report _ t) as [u|] eqn:Eu; [|done]. apply sup_inv_session_step; [same_view_tac|].
    by eapply sup_inv_send_report.
  - apply sup_inv_session_step; [same_view_tac|done].
  - apply sup_inv_session_step; [same_view_tac|done].
  - apply sup_inv_session_step; [same_view_tac|done].
  - unfold event_report. destruct (sessions t !! i); [|done]. destruct (s_events _); try done.
    destruct (send_report _ t) as [u|] eqn:Eu; [|done]. apply sup_inv_session_step; [same_view_tac|].
    by eapply sup_inv_send_report.
  - apply sup_inv_session_step; [|done]. intros s s' b. unfold stop_flag. destruct (s_stops s) eqn:E; [done|].
    intros [= <-] (E1 & E2 & E3 & E4). split; [done|]. unfold session_inv, stops_of in *. simpl.
    rewrite E in E2. split_and!; auto. destruct b, (s_stopping s); lia.
  - apply sup_inv_session_step; [|done]. intros s s' b. unfold stop_chan, guard.
    destruct (s_stopping s) eqn:E; [|done]. destruct (s_stopCh s); [done|]. simpl.
    intros [= <-] (E1 & E2 & E3 & E4). split; [done|]. unfold session_inv, stops_of in *. simpl. by rewrite E in E2.
  - apply sup_inv_session_step; [|done]. intros s s' b. unfold stop_close, guard.
    destruct (s_stopCh s) eqn:E; [|done]. destruct (s_closed s); [done|]. simpl.
    intros [= <-] (E1 & E2 & E3 & E4). split; [done|]. unfold session_inv, stops_of in *. simpl. auto.
Qed.

Lemma sup_inv_exec M up down upd e t t' : sup_inv M t -> exec M up down upd e t = Some t' -> sup_inv M t'.
Proof.
  intros H. destruct (of_session e) eqn:He; [by eapply sup_inv_exec_session; eauto|by eapply sup_inv_exec_adapter; eauto].
Qed.

Lemma sup_inv_New M opts : sup_inv M (New M opts).
Proof.
  unfold New. destruct (fold_left _ _ _) as [mtu fw]. by constructor.
Qed.

Lemma sup_inv_reachable M up down upd opts t : reachable M up down upd opts t -> sup_inv M t.
Proof. induction 1; [apply sup_inv_New|by eapply sup_inv_exec]. Qed.

(** ** A session that is not current *)

Definition sent_by (i : nat) (t : TunAdapter) : list bytes :=
  map snd (filter (fun ib => ib.1 = i) (to_core (rwc t))).
Definition batch_of (s : attachmentSession) : list bytes :=
  match s_reader s with RBatch packets => packets | _ => [] end.

(** The step [t -> t'] leaves session [i] retired, and lets at most packets of
    the batch that its read loop has begun through. *)
Definition silent (i : nat) (s : attachmentSession) (t t' : TunAdapter) : Prop :=
  current (sup t') <> Some i /\ (length (sessions t) <= length (sessions t'))%nat /\
  exists s' l, sessions t' !! i = Some s' /\ sent_by i t' = sent_by i t ++ l /\
    (l ++ batch_of s') `sublist_of` batch_of s.

Lemma silent_frame i s s' t t' :
  current (sup t') <> Some i -> (length (sessions t) <= length (sessions t'))%nat ->
  to_core (rwc t') = to_core (rwc t) -> sessions t' !! i = Some s' -> batch_of s' `sublist_of` batch_of s ->
  silent i s t t'.
Proof.
  intros Hc Hl Et Es Hb. split; [done|]. split; [done|]. exists s', []. split; [done|]. split; [|done].
  unfold sent_by. by rewrite Et, app_nil_r.
Qed.

Lemma silent_session j i s f t t' :
  (forall s s', f s = Some s' -> batch_of s' `sublist_of` batch_of s) ->
  sessions t !! i = Some s -> current (sup t) <> Some i -> session_step j f t = Some t' -> silent i s t t'.
Proof.
  intros Hf Es Hc. unfold session_step. destruct (sessions t !! j) as [s0|] eqn:E0; [|done].
  destruct (f s0) as [s1|] eqn:Ef; [|done]. intros [= <-].
  destruct (decide (j = i)) as [->|Hn].
  - rewrite Es in E0. injection E0 as <-. eapply (silent_frame i s s1); simpl; try done; [by rewrite length_insert| |by apply Hf].
    apply list_lookup_insert_eq. by eapply lookup_lt_Some.
  - eapply (silent_frame i s s); simpl; try done; [by rewrite length_insert|]. by rewrite list_lookup_insert_ne.
Qed.

Lemma retired_lookup t i s :
  sessions t !! i = Some s -> current (sup t) <> Some i ->
  match current (sup t) with Some j => alter spawn_stop j (sessions t) | None => sessions t end !! i = Some s.
Proof.
  intros Es Hc. destruct (current (sup t)) as [j|]; [|done]. rewrite list_lookup_alter_ne; [done|congruence].
Qed.

Lemma silent_attached spec t i s :
  sessions t !! i = Some s -> current (sup t) <> Some i -> silent i s t (attached_state spec t).
Proof.
  intros Es Hc. pose proof (retired_lookup t i s Es Hc) as Hr. apply lookup_lt_Some in Es as Hi.
  eapply silent_frame; [| |done| |done].
  - simpl. intros [= <-]. lia.
  - simpl. rewrite length_app. destruct (current (sup t)); rewrite ?length_alter; lia.
  - simpl. apply lookup_app_l_Some. exact Hr.
Qed.

Lemma silent_detached M st t i s :
  sessions t !! i = Some s -> current (sup t) <> Some i -> silent i s t (detached_state M st t).
Proof.
  intros Es Hc. pose proof (retired_lookup t i s Es Hc) as Hr.
  eapply silent_frame; [done| |done|exact Hr|done].
  simpl. destruct (current (sup t)); by rewrite ?length_alter.
Qed.

Lemma silent_handleReport M up down upd r t i s :
  sup_inv M t -> sessions t !! i = Some s -> current (sup t) <> Some i ->
  silent i s t (handleReport M up down upd r t).
Proof.
  intros H Es Hc. assert (Hself : silent i s t t) by by eapply silent_frame.
  unfold handleReport. destruct (current_session t) as [[j s0]|] eqn:Ec; [|done].
  apply current_session_Some in Ec as [Ec _]. destruct (sessions t !! r_session r); [|done]. case_decide; [done|].
  destruct (r_kind r); try (rewrite (detachCurrent_spec M) by done; by apply silent_detached).
  set (st := if negb (Z.land (r_event r) up =? 0) then _ else _).
  assert (Est : current st = current (sup t)) by (subst st; by repeat case_match).
  destruct (negb (Z.land (r_event r) upd =? 0)).
  - eapply (silent_frame i s s); simpl; try done; [by rewrite Est|by rewrite length_alter|].
    rewrite list_lookup_alter_ne; [done|congruence].
  - eapply silent_frame; simpl; try done. by rewrite Est.
Qed.

Lemma silent_routePacket p now t i s :
  sessions t !! i = Some s -> current (sup t) <> Some i -> silent i s t (routePacket p now t).
Proof.
  intros Es Hc. unfold routePacket. destruct (current_session t) as [[j s0]|] eqn:Ec; [|by eapply silent_frame].
  apply current_session_Some in Ec as [Ec _]. repeat case_match; try by eapply silent_frame.
  eapply (silent_frame i s s); simpl; try done; [by rewrite length_insert|].
  rewrite list_lookup_insert_ne; [done|congruence].
Qed.

Lemma silent_trans i s t t1 t2 :
  silent i s t t1 -> (forall s1, sessions t1 !! i = Some s1 -> silent i s1 t1 t2) -> silent i s t t2.
Proof.
  intros (_ & Hl & s1 & l1 & Es1 & E1 & Hb1) H2. destruct (H2 s1 Es1) as (Hc & Hl2 & s2 & l2 & Es2 & E2 & Hb2).
  split; [done|]. split; [lia|]. exists s2, (l1 ++ l2). split; [done|]. split; [by rewrite E2, E1, app_assoc|].
  etrans; [|exact Hb1]. rewrite <- app_assoc. by apply sublist_app.
Qed.

(** Session identifiers do not repeat before 2^64 attachments. *)
Lemma session_ids_differ M t i j s s' :
  sup_inv M t -> sessions t !! i = Some s -> sessions t !! j = Some s' ->
  Z.of_nat (length (sessions t)) < 2 ^ 64 -> s_id s = s_id s' -> i = j.
Proof.
  intros H Ei Ej Hl E. destruct (si_sessions _ _ H i s Ei) as (Hi & _), (si_sessions _ _ H j s' Ej) as (Hj & _).
  apply lookup_lt_Some in Ei. apply lookup_lt_Some in Ej. rewrite Hi, Hj in E. unfold u64 in E.
  rewrite !Z.mod_small in E by lia. lia.
Qed.

Lemma retired_not_selected M t i s :
  sup_inv M t -> sessions t !! i = Some s -> current (sup t) <> Some i ->
  Z.of_nat (length (sessions t)) < 2 ^ 64 -> currentSessionID t <> s_id s.
Proof.
  intros H Es Hc Hl E. destruct (current (sup t)) as [j|] eqn:Ec.
  - destruct (si_attached _ _ H j Ec) as (_ & s' & Es' & _ & Eid & _).
    assert (i = j) by (eapply session_ids_differ; eauto; congruence). congruence.
  - destruct (si_detached _ _ H Ec) as (_ & Eid & _). destruct (si_sessions _ _ H i s Es) as (Hi & _).
    rewrite Eid, Hi in E. apply lookup_lt_Some in Es. unfold u64 in E. rewrite Z.mod_small in E by lia. lia.
Qed.

Lemma silent_forward j now t t' i s :
  sessions t !! i = Some s -> current (sup t) <> Some i -> forward j now t = Some t' -> silent i s t t'.
Proof.
  intros Es Hc. unfold forward. destruct (sessions t !! j) as [s0|] eqn:E0; [|done].
  destruct (s_reader s0) as [|[|p ps]| |] eqn:Er; try done. destruct (AllowOutgoing _ _ _) as [fw ok]. intros [= <-].
  split; [by destruct ok|]. split; [destruct ok; simpl; by rewrite length_insert|].
  destruct (decide (j = i)) as [->|Hn].
  - rewrite Es in E0. injection E0 as <-.
    assert (Hb : batch_of (set_reader (rest_of_batch ps) s) = ps) by (unfold batch_of, rest_of_batch; by destruct ps).
    exists (set_reader (rest_of_batch ps) s), (if ok then [p] else []). split; [|split].
    + destruct ok; simpl; apply list_lookup_insert_eq; by eapply lookup_lt_Some.
    + unfold sent_by. destruct ok; simpl; [|by rewrite app_nil_r].
      rewrite filter_app, map_app. f_equal. rewrite filter_cons, filter_nil. by rewrite decide_True.
    + rewrite Hb. unfold batch_of. rewrite Er. destruct ok; [done|by apply sublist_cons].
  - exists s, []. split; [|split; [|done]].
    + destruct ok; simpl; by rewrite list_lookup_insert_ne.
    + unfold sent_by. destruct ok; simpl; [|by rewrite app_nil_r].
      rewrite filter_app, map_app. f_equal. rewrite filter_cons, filter_nil. by rewrite decide_False.
Qed.

Ltac same_batch_tac :=
  let s := fresh "s" in let s' := fresh "s'" in
  intros s s'; unfold guard; repeat case_match; intros; simplify_eq;
  solve [done | unfold batch_of; simpl; repeat case_match; simplify_eq; apply sublist_nil_l].

Lemma silent_exec_adapter M up down upd e t t' i s : sup_inv M t -> Z.of_nat (length (sessions t)) < 2 ^ 64 ->
  sessions t !! i = Some s -> current (sup t) <> Some i -> of_session e = false -> exec M up down upd e t = Some t' -> silent i s t t'.
Proof.
  intros H Hl Es Hc He. assert (Hself : silent i s t t) by by eapply silent_frame.
  destruct e; try discriminate He; simpl.
  - intros [= <-]. unfold Attach, submitAttach. case_match; [|done]. case_match; [done|].
    rewrite (handleAttach_spec M) by done. repeat case_match; try done; by apply silent_attached.
  - intros [= <-]. unfold Replace, submitAttach. case_match; [|done]. case_match; [done|].
    rewrite (handleAttach_spec M) by done. repeat case_match; try done; by apply silent_attached.
  - intros [= <-]. unfold Detach. case_match; [done|]. rewrite detachCurrent_spec by done. by apply silent_detached.
  - intros [= <-]. by eapply silent_frame.
  - destruct (stopped t); [|done]. intros [= <-]. unfold handleStop. destruct (stopCh t) eqn:Et; [done|].
    rewrite detachCurrent_spec by done. simpl. apply (silent_detached M StateStopped t i s Es Hc).
  - intros [= <-]. by eapply silent_frame.
  - unfold guard. destruct (negb _); [|done]. destruct (packetCh t) as [|p ch]; [done|]. intros [= <-].
    apply (silent_routePacket p now (set_packetCh ch t) i s); done.
  - unfold guard. destruct (negb _); [|done]. destruct (reportCh t) as [|r ch]; [done|]. intros [= <-].
    apply (silent_handleReport M up down upd r (set_reportCh ch t) i s); try done. by eapply sup_inv_frame.
  - unfold queue_read, guard. repeat case_match; try done. intros [= <-]. by eapply silent_frame.
  - destruct (queue t); try done. intros [= <-]. by eapply silent_frame.
  - unfold queue_send, guard. repeat case_match; try done. intros [= <-]. by eapply silent_frame.
  - unfold queue_stop, guard. repeat case_match; try done. intros [= <-]. by eapply silent_frame.
Qed.

Lemma silent_exec_session M up down upd e t t' i s : sup_inv M t -> Z.of_nat (length (sessions t)) < 2 ^ 64 ->
  sessions t !! i = Some s -> current (sup t) <> Some i -> of_session e = true -> exec M up down upd e t = Some t' -> silent i s t t'.
Proof.
  intros H Hl Es Hc He. assert (Hself : silent i s t t) by by eapply silent_frame.
  destruct e; try discriminate He; simpl.
  - unfold read_batch, session_step. rename i0 into j. destruct (sessions t !! j) as [s0|] eqn:E0; [|done].
    destruct (s_reader s0) eqn:Er; try done. intros [= <-]. destruct (decide (j = i)) as [->|Hn].
    + rewrite Es in E0. injection E0 as <-.
      rewrite (proj2 (Z.eqb_neq _ _)) by (by eapply retired_not_selected). simpl.
      eapply (silent_frame i s s); simpl; try done; [by rewrite length_insert|]. by rewrite list_insert_id.
    + eapply (silent_frame i s s); simpl; try done; [by rewrite length_insert|]. by rewrite list_lookup_insert_ne.
  - apply silent_session; [same_batch_tac|done|done].
  - by apply silent_forward.
  - destruct (sessions t !! i0); [|done]. destruct (s_reader _); try done.
    unfold send_report, guard. destruct (_ <? _)%nat; [|done].
    intros Hs. apply (silent_session i0 i s _ (set_reportCh _ t) _) in Hs; [exact Hs|same_batch_tac|done|done].
  - apply silent_session; [same_batch_tac|done|done].
  - unfold writer_drained, guard. destruct (sessions t !! i0) as [s0|] eqn:E0; [|done].
    destruct (s_writer s0) eqn:Ew; try done. destruct (_ || _); [|done]. intros [= <-].
    destruct (decide (i0 = i)) as [->|Hn].
    + rewrite Es in E0. injection E0 as <-.
      eapply silent_frame; [done|simpl; by rewrite length_insert|done|simpl; apply list_lookup_insert_eq; by eapply lookup_lt_Some|done].
    + eapply (silent_frame i s s); simpl; try done; [by rewrite length_insert|]. by rewrite list_lookup_insert_ne.
  - apply silent_session; [same_batch_tac|done|done].
  - apply silent_session; [same_batch_tac|done|done].
  - apply silent_session; [same_batch_tac|done|done].
  - destruct (sessions t !! i0); [|done]. destruct (s_writer _); try done.
    unfold send_report, guard. destruct (_ <? _)%nat; [|done].
    intros Hs. apply (silent_session i0 i s _ (set_reportCh _ t) _) in Hs; [exact Hs|same_batch_tac|done|done].
  - apply silent_session; [same_batch_tac|done|done].
  - apply silent_session; [same_batch_tac|done|done].
  - apply silent_session; [same_batch_tac|done|done].
  - unfold event_report. destruct (sessions t !! i0); [|done]. destruct (s_events _); try done.
    unfold send_report, guard. destruct (_ <? _)%nat; [|done].
    intros Hs. apply (silent_session i0 i s _ (set_reportCh _ t) _) in Hs; [exact Hs|same_batch_tac|done|done].
  - apply silent_session; [unfold stop_flag; same_batch_tac|done|done].
  - apply silent_session; [unfold stop_chan; same_batch_tac|done|done].
  - apply silent_session; [unfold stop_close; same_batch_tac|done|done].
Qed.

Lemma silent_exec M up down upd e t t' i s :
  sup_inv M t -> Z.of_nat (length (sessions t)) < 2 ^ 64 ->
  sessions t !! i = Some s -> current (sup t) <> Some i -> exec M up down upd e t = Some t' -> silent i s t t'.
Proof.
  intros H Hl Es Hc. destruct (of_session e) eqn:He; [by eapply silent_exec_session; eauto|by eapply silent_exec_adapter; eauto].
Qed.

Lemma exec_length M up down upd e t t' :
  exec M up down upd e t = Some t' -> (length (sessions t) <= length (sessions t'))%nat.
Proof.
  destruct e; simpl; unfold Attach, Replace, submitAttach, handleAttach, Detach, handleStop, detachCurrent,
    guard, routePacket, handleReport, detachCurrent, queue_read, queue_send, queue_stop, read_batch, read_error,
    forward, writer_take, writer_drained, device_write, device_write_error, device_event, events_closed,
    event_report, send_report, session_step, guard; intros Hx; repeat case_match; simplify_eq/=;
    rewrite ?length_alter, ?length_insert, ?length_app, ?length_insert; simpl; lia.
Qed.

Lemma exec_all_length M up down upd es t t' :
  exec_all M up down upd es t = Some t' -> (length (sessions t) <= length (sessions t'))%nat.
Proof.
  revert t. induction es as [|e es IH]; intros t; simpl; [by intros [= <-]|].
  destruct (exec M up down upd e t) as [t1|] eqn:E; [|done]. intros H%IH. apply exec_length in E. lia.
Qed.

Lemma exec_all_silent M up down upd es t t' i s :
  sup_inv M t -> exec_all M up down upd es t = Some t' -> Z.of_nat (length (sessions t')) < 2 ^ 64 ->
  sessions t !! i = Some s -> current (sup t) <> Some i -> silent i s t t'.
Proof.
  revert t s. induction es as [|e es IH]; intros t s H; simpl.
  - intros [= <-] _ Es Hc. by eapply silent_frame.
  - destruct (exec M up down upd e t) as [t1|] eqn:E1; [|done]. intros E2 Hl Es Hc.
    pose proof (exec_length _ _ _ _ _ _ _ E1). pose proof (exec_all_length _ _ _ _ _ _ _ E2).
    assert (Hs : silent i s t t1) by (eapply silent_exec; eauto; lia).
    eapply silent_trans; [exact Hs|]. intros s1 Es1. apply IH; try done; [by eapply sup_inv_exec|apply Hs].
Qed.

(** The stop goroutine of a retired session gets to close its device. *)
Lemma retired_closes M up down upd t j s :
  session_inv j false s -> sessions t !! j = Some s ->
  exists es t' s', exec_all M up down upd es t = Some t' /\ sessions t' !! j = Some s' /\ s_closed s' = true.
Proof.
  intros (_ & Hst & Hc & Hd) Es. apply lookup_lt_Some in Es as Hl. unfold stops_of in Hst.
  assert (Hstep : forall e f s1 s2 u, exec M up down upd e u = session_step j f u ->
    sessions u !! j = Some s1 -> f s1 = Some s2 -> length (sessions u) = length (sessions t) ->
    exec M up down upd e u = Some (set_sessions (<[j := s2]> (sessions u)) u)).
  { intros e f s1 s2 u -> E1 E2 _. unfold session_step. by rewrite E1, E2. }
  assert (Hlk : forall s1 u, length (sessions u) = length (sessions t) ->
    sessions (set_sessions (<[j := s1]> (sessions u)) u) !! j = Some s1).
  { intros s1 u Hu. apply lookup_set_session. lia. }
  destruct (s_closed s) eqn:Ecl; [by exists [], t, s|].
  (* the last step, from a closed channel *)
  assert (Hlast : forall u s1, sessions u !! j = Some s1 -> length (sessions u) = length (sessions t) ->
    s_stopCh s1 = true -> s_closed s1 = false ->
    exists t' s', exec M up down upd (EStopClose j) u = Some t' /\ sessions t' !! j = Some s' /\ s_closed s' = true).
  { intros u s1 E1 Hu H1 H2. do 2 eexists. split; [eapply (Hstep _ stop_close); [done|exact E1| |done]|].
    - unfold stop_close. by rewrite H1, H2.
    - split; [by apply Hlk|done]. }
  assert (Hmid : forall u s1, sessions u !! j = Some s1 -> length (sessions u) = length (sessions t) ->
    s_stopping s1 = true -> s_closed s1 = false ->
    exists es t' s', exec_all M up down upd es u = Some t' /\ sessions t' !! j = Some s' /\ s_closed s' = true).
  { intros u s1 E1 Hu H1 H2. destruct (s_stopCh s1) eqn:H3.
    - destruct (Hlast u s1) as (t' & s' & E & ?); try done. exists [EStopClose j], t', s'. cbn [exec_all]. by rewrite E.
    - set (s2 := set_stop true true (s_stops s1) (s_closed s1) s1).
      assert (E : exec M up down upd (EStopChan j) u = Some (set_sessions (<[j := s2]> (sessions u)) u)).
      { eapply (Hstep _ stop_chan); [done|exact E1| |done]. unfold stop_chan. by rewrite H1, H3. }
      destruct (Hlast (set_sessions (<[j := s2]> (sessions u)) u) s2) as (t' & s' & E' & ?); try done.
      { by apply Hlk. } { simpl. by rewrite length_insert. }
      exists [EStopChan j; EStopClose j], t', s'. cbn [exec_all]. by rewrite E, E'. }
  destruct (s_stopping s) eqn:Esp; [by eapply Hmid|].
  destruct (s_stops s) as [|n] eqn:En; [lia|].
  set (s2 := set_stop (s_stopCh s) true n (s_closed s) s).
  assert (E : exec M up down upd (EStopFlag j) t = Some (set_sessions (<[j := s2]> (sessions t)) t)).
  { eapply (Hstep _ stop_flag); [done|exact Es| |done]. unfold stop_flag. by rewrite En. }
  destruct (Hmid (set_sessions (<[j := s2]> (sessions t)) t) s2) as (es & t' & s' & E' & ?); try done.
  { by apply Hlk. } { simpl. by rewrite length_insert. }
  exists (EStopFlag j :: es), t', s'. cbn [exec_all]. by rewrite E.
Qed.

Lemma exec_stopCh M up down upd e t t' :
  exec M up down upd e t = Some t' -> stopCh t = true -> stopCh t' = true.
Proof.
  destruct e; simpl; unfold Attach, Replace, submitAttach, handleAttach, Detach, handleStop, detachCurrent,
    guard, routePacket, handleReport, detachCurrent, queue_read, queue_send, queue_stop, read_batch, read_error,
    forward, writer_take, writer_drained, device_write, device_write_error, device_event, events_closed,
    event_report, send_report, session_step, guard; intros Hx; repeat case_match; simplify_eq/=; congruence.
Qed.

Lemma exec_all_stopCh M up down upd es t t' :
  exec_all M up down upd es t = Some t' -> stopCh t = true -> stopCh t' = true.
Proof.
  revert t. induction es as [|e es IH]; intros t; simpl; [by intros [= <-]|].
  destruct (exec M up down upd e t) as [t1|] eqn:E; [|done]. intros H Hs. eapply IH; [done|]. by eapply exec_stopCh.
Qed.

Lemma buildAttachSpec_fields d types spec :
  buildAttachSpec d types = Ok spec ->
  sp_kind spec = default "external"%string (last types) /\ Some (sp_name spec) = d_Name d /\
  Some (sp_mtu spec) = option_map (fun m => getSupportedMTU (u64 m)) (d_MTU d) /\
  sp_mro spec = d_MRO d /\ sp_mwo spec = d_MWO d /\ 1280 <= sp_mtu spec /\ 1 <= sp_batch spec.
Proof.
  unfold buildAttachSpec. destruct (d_Name d) as [name|]; [|done]. destruct (d_MTU d) as [m|]; [|done].
  intros [= <-]. simpl. split_and!; try done.
  - assert (Hk : forall l s, sp_kind (fold_left applyAttach l s) = default (sp_kind s) (last l)).
    { clear. intros l. induction l as [|x l IH] using rev_ind; intros s; [done|].
      by rewrite fold_left_app, last_snoc. }
    apply Hk.
  - unfold getSupportedMTU. destruct (_ <? _) eqn:E; bool_props; lia.
  - destruct (_ <=? _) eqn:E; bool_props; lia.
Qed.

(** ** Theorems *)

Section Theorems.
Context (MaxMTU EventUp EventDown EventMTUUpdate : Z).
#[local] Abbreviation reachable := (reachable MaxMTU EventUp EventDown EventMTUUpdate).
#[local] Abbreviation exec_all := (exec_all MaxMTU EventUp EventDown EventMTUUpdate).

(** C8: packets are queued for the devices in the order in which they were
    read from the core and with the bytes that were read, although their
    buffers are reused; a device is given exactly a prefix of what was queued
    for its session, and as long as its write loop runs it gets all of it. *)
Theorem packets_reach_device opts t i s :
  reachable opts t -> sessions t !! i = Some s ->
  map snd (routed t) `sublist_of` from_core (rwc t) /\
  s_written s `prefix_of` routed_to i t /\
  (writer_ended s = false ->
   exists es t' s', exec_all es t = Some t' /\ sessions t' !! i = Some s' /\
     routed t' = routed t /\ s_written s' = routed_to i t).
Proof.
  intros Hr Es. pose proof (flow_inv_reachable _ _ _ _ _ _ Hr) as H. split; [|split].
  - etrans; [|apply (fi_order _ H)]. by apply sublist_inserts_r.
  - apply (fi_sessions _ H i s Es).
  - intros Ee. by eapply writer_drains.
Qed.

(** What the flag says of the channel that the supervisor closes. *)
Lemma started_or_stopping t : sup_inv MaxMTU t ->
  (stopCh t = false -> IsStarted t = negb (stopping t)) /\ IsStarted t || stopping t = negb (stopCh t).
Proof.
  intros H. unfold IsStarted, stopping. pose proof (si_stopped _ _ H) as Hs.
  destruct (stopped t), (stopCh t); cbn; by split; [|try specialize (Hs eq_refl)].
Qed.

(** C22: in every interleaving the reported status, the session that may write
    to the core and the MTU the core was told belong together: they are those
    of the attached session, or those of a detached or stopped adapter; the adapter
    is started unless it is stopped or a Stop has announced itself; and every
    session that was replaced or detached has exactly one stop goroutine, which
    can go on to close its device. *)
Theorem supervisor_consistent opts t :
  reachable opts t ->
  match current (sup t) with
  | Some i => exists s, sessions t !! i = Some s /\
      TunAdapter_Status t = session_status s (st_Enabled (TunAdapter_Status t)) StateAttached /\
      currentSessionID t = s_id s /\ rwc_mtu (rwc t) = s_mtu s /\ stops_of s = 0%nat /\ IsStarted t = negb (stopping t)
  | None =>
      TunAdapter_Status t = only_state (if IsStarted t || stopping t then StateDetached else StateStopped) /\
      currentSessionID t = 0 /\ rwc_mtu (rwc t) = desiredMTU MaxMTU t
  end /\
  forall j s, sessions t !! j = Some s -> current (sup t) <> Some j ->
    stops_of s = 1%nat /\
    exists es t' s', exec_all es t = Some t' /\ sessions t' !! j = Some s' /\ s_closed s' = true.
Proof.
  intros Hr. pose proof (sup_inv_reachable _ _ _ _ _ _ Hr) as H. split.
  - unfold TunAdapter_Status. destruct (started_or_stopping t H) as [Hrun Hstop]. destruct (current (sup t)) as [i|] eqn:Ec.
    + destruct (si_attached _ _ H i Ec) as (Et & s & Es & Est & Eid & Em). rewrite Et. exists s. split_and!; try done; [|by apply Hrun].
      destruct (si_sessions _ _ H i s Es) as (_ & Hs & _). by rewrite (proj2 (is_current_true t i) Ec) in Hs.
    + destruct (si_detached _ _ H Ec) as (Est & Eid & Em). rewrite Hstop. split_and!; try done.
      rewrite Est. by destruct (stopCh t).
  - intros j s Es Hc. pose proof (si_sessions _ _ H j s Es) as Hs.
    replace (is_current t j) with false in Hs by (symmetry; by apply bool_decide_eq_false).
    split; [apply Hs|]. by eapply retired_closes.
Qed.

(** Attach refuses when a session is attached, Replace does not, neither
    works once the adapter is stopped, and a refusal changes nothing; what
    succeeds makes the device the current session with the MTU, offsets and
    type it was built from. *)
Theorem attach_spec opts t d types (replace : bool) spec :
  reachable opts t -> buildAttachSpec d types = Ok spec ->
  let r := if replace then Replace d types t else Attach d types t in
  (r.1 = None <-> IsStarted t || stopping t = true /\ (replace = true \/ current (sup t) = None)) /\
  (r.1 <> None -> r.2 = t) /\
  (r.1 = None ->
   TunAdapter_Status r.2 = mkStatus StateAttached true true (default "external"%string (last types)) (sp_name spec)
                            (sp_mtu spec) (d_MRO d) (d_MWO d) /\
   Some (sp_name spec) = d_Name d /\ Some (sp_mtu spec) = option_map (fun m => getSupportedMTU (u64 m)) (d_MTU d) /\
   current (sup r.2) = Some (length (sessions t)) /\ rwc_mtu (rwc r.2) = sp_mtu spec /\ 1280 <= sp_mtu spec).
Proof.
  intros Hr Hb r. pose proof (sup_inv_reachable _ _ _ _ _ _ Hr) as H.
  destruct (buildAttachSpec_fields d types spec Hb) as (E1 & E2 & E3 & E4 & E5 & E6 & _).
  assert (Er : r = if stopCh t then (Some ErrClosedPipe, t) else handleAttach spec replace t).
  { subst r. unfold Replace, Attach, submitAttach. rewrite Hb. by destruct replace. }
  assert (Hok : r.1 = None -> r.2 = attached_state spec t /\ stopCh t = false).
  { rewrite Er. destruct (stopCh t) eqn:Es; [done|]. rewrite (handleAttach_spec MaxMTU) by done.
    by repeat case_match. }
  split; [|split].
  - rewrite (proj2 (started_or_stopping t H)), Er. destruct (stopCh t) eqn:Es; [by split; [|intros []]|].
    rewrite (handleAttach_spec MaxMTU) by done. unfold current_session.
    destruct (current (sup t)) as [i|] eqn:Ec; simpl; [|destruct replace; tauto].
    destruct (si_attached _ _ H i Ec) as (_ & s & -> & _). destruct replace; simpl; [tauto|].
    split; [done|]. intros [_ [?|?]]; done.
  - rewrite Er. destruct (stopCh t) eqn:Es; [done|]. rewrite (handleAttach_spec MaxMTU) by done.
    by repeat case_match.
  - intros Hn. destruct (Hok Hn) as [-> Hs]. unfold TunAdapter_Status, session_status. simpl. rewrite Hs, E1, E4, E5. done.
Qed.

(** Stop never fails, retires the current session, and is final: in every
    later state the adapter reports stopped, has no session that may write to
    the core, and every attachment is refused. *)
Theorem stop_is_final opts t es t' d types spec :
  reachable opts t -> exec_all (EStop :: es) t = Some t' -> buildAttachSpec d types = Ok spec ->
  (Stop MaxMTU t).1 = None /\ TunAdapter_Status t' = only_state StateStopped /\ IsStarted t' = false /\
  current (sup t') = None /\ currentSessionID t' = 0 /\
  Attach d types t' = (Some ErrClosedPipe, t') /\ Replace d types t' = (Some ErrClosedPipe, t').
Proof.
  intros Hr He Hb. pose proof (sup_inv_reachable _ _ _ _ _ _ Hr) as H. cbn [Tun.exec_all Tun.exec] in He.
  destruct (stopped t) eqn:Et; [|done].
  assert (Hs1 : forall u, sup_inv MaxMTU u -> (handleStop MaxMTU u).1 = None /\ stopCh (handleStop MaxMTU u).2 = true).
  { intros u Hu. unfold handleStop. destruct (stopCh u) eqn:Es; [done|]. by rewrite detachCurrent_spec. }
  assert (H1 : sup_inv MaxMTU (handleStop MaxMTU t).2).
  { apply (sup_inv_exec MaxMTU EventUp EventDown EventMTUUpdate EStop t); [done|]. cbn. by rewrite Et. }
  pose proof (Hs1 t H) as Hs0.
  assert (Hs : stopCh t' = true) by (eapply exec_all_stopCh; [exact He|apply Hs0]).
  assert (H' : sup_inv MaxMTU t').
  { clear -He H1. revert H1 He. generalize (handleStop MaxMTU t).2. induction es as [|e es IH]; intros u H1; simpl.
    - by intros [= <-].
    - destruct (Tun.exec _ _ _ _ e u) as [u1|] eqn:E; [|done]. apply IH. by eapply sup_inv_exec. }
  assert (Hc : current (sup t') = None).
  { destruct (current (sup t')) as [i|] eqn:Ec; [|done]. destruct (si_attached _ _ H' i Ec). congruence. }
  destruct (si_detached _ _ H' Hc) as (_ & Hid & _). unfold TunAdapter_Status, IsStarted, Attach, Replace, submitAttach.
  rewrite (si_stopped _ _ H' Hs), Hs, Hb. split_and!; try done. apply Hs1. by apply sup_inv_set_stopped.
Qed.

(** C10: once a session is no longer current, whatever happens, nothing more
    comes from its device to the core than what is left of the one batch that
    its read loop had begun to forward. *)
Theorem detached_device_silent opts t es t' i s :
  reachable opts t -> exec_all es t = Some t' -> Z.of_nat (length (sessions t')) < 2 ^ 64 ->
  sessions t !! i = Some s -> current (sup t) <> Some i ->
  exists l, sent_by i t' = sent_by i t ++ l /\ l `sublist_of` batch_of s.
Proof.
  intros Hr He Hl Es Hc. pose proof (sup_inv_reachable _ _ _ _ _ _ Hr) as H.
  destruct (exec_all_silent _ _ _ _ _ _ _ _ _ H He Hl Es Hc) as (_ & _ & s' & l & _ & El & Hb).
  exists l. split; [done|]. etrans; [|exact Hb]. by apply sublist_inserts_r.
Qed.
End Theorems.

(** ** A device and the witnesses *)

Definition device (id : Z) (name : string) : Device := mkDevice id (Some name) (Some 1400) 0 4 2.
Definition device_spec (id : Z) (name : string) : attachSpec := mkSpec id "external" name 1400 0 4 2.

(** Attached, with a packet of the core routed to the device. *)
Definition sample_schedule : list event :=
  [EAttach (device 7 "tun0") []; ECoreRead None [96; 1]; EQueueSend; ERoute 0].

Definition run_sample (es : list event) : TunAdapter :=
  default (New 9000 []) (exec_all 9000 1 2 4 es (New 9000 [])).

Lemma exec_all_reachable M up down upd opts es t t' :
  reachable M up down upd opts t -> exec_all M up down upd es t = Some t' -> reachable M up down upd opts t'.
Proof.
  revert t. induction es as [|e es IH]; intros t Hr; simpl; [by intros [= <-]|].
  destruct (exec M up down upd e t) as [t1|] eqn:E; [|done]. apply IH. by eapply reach_step.
Qed.

Definition runs (es : list event) : bool :=
  match exec_all 9000 1 2 4 es (New 9000 []) with Some _ => true | None => false end.

Lemma runs_exec_all es : runs es = true -> exec_all 9000 1 2 4 es (New 9000 []) = Some (run_sample es).
Proof. unfold runs, run_sample. by destruct (exec_all _ _ _ _ es _). Qed.

Lemma run_sample_reachable es : runs es = true -> reachable 9000 1 2 4 [] (run_sample es).
Proof. intros H%runs_exec_all. eapply exec_all_reachable; [apply reach_New|exact H]. Qed.

Lemma run_sample_app es es' :
  runs (es ++ es') = true -> exec_all 9000 1 2 4 es' (run_sample es) = Some (run_sample (es ++ es')).
Proof.
  intros H%runs_exec_all. revert H. generalize (run_sample (es ++ es')). intros t. unfold run_sample.
  generalize (New 9000 []) at 1 3. induction es as [|e es IH]; intros u; simpl; [done|].
  destruct (exec 9000 1 2 4 e u) as [u1|]; [|done]. apply IH.
Qed.

Definition failed_lookup_schedule : list event :=
  [EAttach (device 7 "tun0") []; EDeviceEvent 0 4 None; EEventReport 0; EReport;
   ECoreRead None (replicate 2000 96); EQueueSend; ERoute 0; EWriterTake 0; EWriterDrained 0; EDeviceWrite 0 1].

(** Counterexample to the MTU limit: when the device cannot report its MTU
    after an MTU event, the session gets MTU 0, which the status reports and
    which disables the check for oversized packets. *)
Theorem failed_mtu_lookup_lifts_limit :
  exists es t s, exec_all 9000 1 2 4 es (New 9000 []) = Some t /\ current_session t = Some (0%nat, s) /\
    st_MTU (TunAdapter_Status t) = 0 /\ rwc_mtu (rwc t) = 0 /\ s_written s = [replicate 2000 96].
Proof.
  exists failed_lookup_schedule, (run_sample failed_lookup_schedule),
    (default (nextSession (device_spec 7 "tun0") (sup (New 9000 []))).1
       (sessions (run_sample failed_lookup_schedule) !! 0%nat)).
  split; [apply runs_exec_all; vm_compute; reflexivity|]. split_and!; vm_compute; reflexivity.
Qed.

Lemma packets_reach_device_witness :
  exists es t' s', exec_all 9000 1 2 4 es (run_sample sample_schedule) = Some t' /\ sessions t' !! 0%nat = Some s' /\
    s_written s' = [[96; 1]].
Proof.
  destruct (packets_reach_device 9000 1 2 4 [] (run_sample sample_schedule) 0
    (default (nextSession (device_spec 7 "tun0") (sup (New 9000 []))).1 (sessions (run_sample sample_schedule) !! 0%nat)))
    as (_ & _ & H).
  - apply run_sample_reachable. vm_compute. reflexivity.
  - vm_compute. reflexivity.
  - destruct H as (es & t' & s' & E1 & E2 & _ & E3); [vm_compute; reflexivity|]. exists es, t', s'.
    split; [exact E1|]. split; [exact E2|]. rewrite E3. vm_compute. reflexivity.
Defined.

Lemma supervisor_consistent_witness :
  exists s, sessions (run_sample sample_schedule) !! 0%nat = Some s /\ rwc_mtu (rwc (run_sample sample_schedule)) = s_mtu s.
Proof.
  destruct (supervisor_consistent 9000 1 2 4 [] (run_sample sample_schedule)) as [H _].
  - apply run_sample_reachable. vm_compute. reflexivity.
  - destruct H as (s & E1 & _ & _ & E2 & _). exists s. split; [exact E1|exact E2].
Defined.

Lemma attach_spec_witness :
  (Attach (device 8 "tun1") [] (run_sample sample_schedule)).1 <> None /\
  (Replace (device 8 "tun1") [] (run_sample sample_schedule)).1 = None.
Proof.
  destruct (attach_spec 9000 1 2 4 [] (run_sample sample_schedule) (device 8 "tun1") [] false (device_spec 8 "tun1"))
    as [H1 _]; [apply run_sample_reachable; vm_compute; reflexivity|reflexivity|].
  destruct (attach_spec 9000 1 2 4 [] (run_sample sample_schedule) (device 8 "tun1") [] true (device_spec 8 "tun1"))
    as [H2 _]; [apply run_sample_reachable; vm_compute; reflexivity|reflexivity|].
  split.
  - intros H. apply H1 in H as [_ [H|H]]; discriminate H.
  - apply H2. split; [reflexivity|left; reflexivity].
Defined.

Lemma stop_is_final_witness :
  TunAdapter_Status (run_sample (sample_schedule ++ [EStopping; EStop; EStopFlag 0; EDetach])) = only_state StateStopped.
Proof.
  destruct (stop_is_final 9000 1 2 4 [] (run_sample (sample_schedule ++ [EStopping])) [EStopFlag 0; EDetach]
    (run_sample (sample_schedule ++ [EStopping; EStop; EStopFlag 0; EDetach])) (device 8 "tun1") [] (device_spec 8 "tun1"))
    as (_ & H & _); [apply run_sample_reachable; vm_compute; reflexivity|
      apply (run_sample_app (sample_schedule ++ [EStopping]) [EStop; EStopFlag 0; EDetach]); vm_compute; reflexivity|reflexivity|exact H].
Defined.

(** A read loop that has begun a batch of two packets when it is replaced. *)
Definition replaced_schedule : list event :=
  [EAttach (device 7 "tun0") []; EDeviceRead 0 [[96]; [97]]; EForward 0 0; EReplace (device 8 "tun1") []].

Lemma detached_device_silent_witness :
  exists l, sent_by 0 (run_sample (replaced_schedule ++ [EForward 0 1; EDeviceRead 0 [[98]]])) = [[96]] ++ l /\
    l `sublist_of` [[97]].
Proof.
  destruct (detached_device_silent 9000 1 2 4 [] (run_sample replaced_schedule) [EForward 0 1; EDeviceRead 0 [[98]]]
    (run_sample (replaced_schedule ++ [EForward 0 1; EDeviceRead 0 [[98]]])) 0
    (default (nextSession (device_spec 7 "tun0") (sup (New 9000 []))).1 (sessions (run_sample replaced_schedule) !! 0%nat)))
    as (l & H1 & H2).
  - apply run_sample_reachable. vm_compute. reflexivity.
  - apply run_sample_app. vm_compute. reflexivity.
  - vm_compute. reflexivity.
  - vm_compute. reflexivity.
  - vm_compute. discriminate.
  - assert (E1 : sent_by 0 (run_sample replaced_schedule) = [[96]]) by (vm_compute; reflexivity).
    assert (E2 : batch_of (default (nextSession (device_spec 7 "tun0") (sup (New 9000 []))).1
      (sessions (run_sample replaced_schedule) !! 0%nat)) = [[97]]) by (vm_compute; reflexivity).
    rewrite E1 in H1. rewrite E2 in H2. exists l. exact (conj H1 H2).
Defined.
