(* ===== verification/Multicast.v ===== *)
(** * Multicast: peer discovery on the local network
    (ygglib/multicast/multicast.go, advertisement.go, options.go)

    An actor announces the node on the allowed interfaces and keeps a link
    listener on each of them; the listen goroutine turns beacons of other nodes
    into calls to peers.  The actor's inbox, its timers and the pending message
    of the listen goroutine are part of the state, and [exec] runs one step.
    [WriteToControl] and [JoinGroup] only produce log lines when they fail.  The
    group address is an IPv6 literal, so resolving it cannot fail. *)

From S2P Require Import Prelude GoStd Address Handshake Links.

(** ** Beacons *)

Record multicastAdvertisement := mkAdv {
  MajorVersion : Z; MinorVersion : Z; PublicKey : bytes; Port : Z; Hash : bytes
}.

Definition MarshalBinary (m : multicastAdvertisement) : bytes :=
  be16_put (MajorVersion m) ++ be16_put (MinorVersion m) ++ PublicKey m ++ be16_put (Port m) ++
  be16_put (u16 (Z.of_nat (length (Hash m)))) ++ Hash m.

Definition UnmarshalBinary (b : bytes) : option multicastAdvertisement :=
  let headerLen := (PublicKeySize + 8)%nat in
  if (length b <? headerLen)%nat then None
  else
    let dl := Z.to_nat (be16 (slice (6 + PublicKeySize) (8 + PublicKeySize) b)) in
    if (length b <? headerLen + dl)%nat then None
    else Some (mkAdv (be16 (slice 0 2 b)) (be16 (slice 2 4 b)) (slice 4 (4 + PublicKeySize) b)
                 (be16 (slice (4 + PublicKeySize) (6 + PublicKeySize) b)) (slice headerLen (headerLen + dl) b)).

(** ** Configuration and environment *)

(** [Regex] stands for the method MatchString of the compiled expression. *)
Record MulticastInterface := mkMulticastInterface {
  Regex : string -> bool; Beacon : bool; Listen : bool; cfg_Port : Z; Priority : Z; Password : string
}.

(** A network interface of the system: [Addrs] can fail, and gives the address
    of each entry that net.ParseCIDR accepts. *)
Record NetworkInterface := mkNetworkInterface {
  if_Name : string; if_Flags : Z; if_Addrs : option (list (option bytes))
}.

Definition FlagUp : Z := 1.
Definition FlagPointToPoint : Z := 8.
Definition FlagMulticast : Z := 16.
Definition FlagRunning : Z := 32.

Record Listener := mkListener { l_id : Z; l_IP : bytes; l_Port : Z }.

Record interfaceInfo := mkInterfaceInfo {
  iface : NetworkInterface; addrs : list bytes; beacon : bool; ii_listen : bool; port : Z; ii_priority : Z;
  ii_password : string; hash : bytes
}.

Record listenerInfo := mkListenerInfo { li_listener : Listener; li_time : Z; li_interval : Z; li_port : Z }.

(** The URLs that the module builds, with the host still in its parts: address,
    zone and port of [net.JoinHostPort] and [UDPAddr.String]. *)
Record peerURL := mkPeerURL {
  pu_Scheme : string; pu_ip : bytes; pu_zone : string; pu_port : Z; pu_Query : list (string * string)
}.

(** Messages of the actor. *)
Inductive message :=
| MStarted                                             (* _multicastStarted *)
| MAnnounce                                            (* _announce *)
| MAnnounceNow                                         (* the block of AnnounceNow *)
| MStop                                                (* the block of Stop *)
| MBeacon (adv : multicastAdvertisement) (ip : bytes) (zone : string).   (* the block of listen *)

(** The actor waits for messages, or waits forever in a handler. *)
Inductive actor_pc := AReady | AHung.
Inductive listen_pc := LNone | LRead | LWait | LDone.
Inductive timer_pc := TArmed | TFired.

Record Multicast := mkMulticast {
  running : bool;
  sock_open : option bool;                 (* None: nil *)
  _listeners : gmap string listenerInfo;
  _interfaces : gmap string interfaceInfo;
  _timer : option nat;
  timers : gmap nat timer_pc;              (* those that have not delivered yet *)
  next_timer : nat;
  inbox : list message;
  actor : actor_pc;
  listener_pc : listen_pc;
  opened : list Listener;                  (* results of core.ListenLocal *)
  stopped : list Listener;                 (* listeners that were stopped *)
  sent : list (string * bytes);            (* beacons written, oldest first *)
  joined : list string;                    (* JoinGroup *)
  called : list (peerURL * string)         (* core.CallPeer, oldest first *)
}.

Definition set_announced ls st op se jo (m : Multicast) : Multicast :=
  mkMulticast (running m) (sock_open m) ls (_interfaces m) (_timer m) (timers m) (next_timer m) (inbox m) (actor m)
    (listener_pc m) op st se jo (called m).
Definition set_interfaces ifs (m : Multicast) : Multicast :=
  mkMulticast (running m) (sock_open m) (_listeners m) ifs (_timer m) (timers m) (next_timer m) (inbox m) (actor m)
    (listener_pc m) (opened m) (stopped m) (sent m) (joined m) (called m).
Definition set_timers tm ts n (m : Multicast) : Multicast :=
  mkMulticast (running m) (sock_open m) (_listeners m) (_interfaces m) tm ts n (inbox m) (actor m)
    (listener_pc m) (opened m) (stopped m) (sent m) (joined m) (called m).
Definition set_inbox q (m : Multicast) : Multicast :=
  mkMulticast (running m) (sock_open m) (_listeners m) (_interfaces m) (_timer m) (timers m) (next_timer m) q (actor m)
    (listener_pc m) (opened m) (stopped m) (sent m) (joined m) (called m).
Definition set_actor a (m : Multicast) : Multicast :=
  mkMulticast (running m) (sock_open m) (_listeners m) (_interfaces m) (_timer m) (timers m) (next_timer m) (inbox m) a
    (listener_pc m) (opened m) (stopped m) (sent m) (joined m) (called m).
Definition set_running r s l (m : Multicast) : Multicast :=
  mkMulticast r s (_listeners m) (_interfaces m) (_timer m) (timers m) (next_timer m) (inbox m) (actor m)
    l (opened m) (stopped m) (sent m) (joined m) (called m).
Definition set_called l c (m : Multicast) : Multicast :=
  mkMulticast (running m) (sock_open m) (_listeners m) (_interfaces m) (_timer m) (timers m) (next_timer m) (inbox m) (actor m)
    l (opened m) (stopped m) (sent m) (joined m) c.

(** [m.Act(nil, f)] *)
Definition Act (msg : message) (m : Multicast) : Multicast := set_inbox (inbox m ++ [msg]) m.

Section Module.
Context (blake2b : bytes -> bytes -> bytes).
(** The core's key, the protocol version and the configured interfaces, the keys
    of a map. *)
Context (public : bytes) (version : Z * Z) (config : list MulticastInterface) (groupIP : bytes).

(** ** Interfaces *)

Definition make_info (i : NetworkInterface) (ifcfg : MulticastInterface) : option interfaceInfo :=
  if negb (Beacon ifcfg) && negb (Listen ifcfg) then None
  else if negb (Regex ifcfg (if_Name i)) then None
  else match key_hash blake2b (string_bytes (Password ifcfg)) public with
  | Err _ => None
  | Ok h => Some (mkInterfaceInfo i [] (Beacon ifcfg) (Listen ifcfg) (cfg_Port ifcfg) (Priority ifcfg)
                    (Password ifcfg) h)
  end.

(** The order in which a range over the map runs: the entries at [visits] first, in
    that order, and then the others.  Coming to one again makes no difference. *)
Definition ranged (visits : list nat) : list MulticastInterface := omap (fun k => config !! k) visits ++ config.

(** The first configuration in an order that fits the interface. *)
Fixpoint first_info (i : NetworkInterface) (cfgs : list MulticastInterface) : option interfaceInfo :=
  match cfgs with
  | [] => None
  | ifcfg :: cfgs => match make_info i ifcfg with Some info => Some info | None => first_info i cfgs end
  end.

Definition has_flag (flags bit : Z) : bool := negb (Z.land flags bit =? 0).

Definition allowed_flags (flags : Z) : bool :=
  has_flag flags FlagUp && has_flag flags FlagRunning && has_flag flags FlagMulticast &&
  negb (has_flag flags FlagPointToPoint).

(** Each interface of the system comes with the order of the range for it. *)
Definition _getAllowedInterfaces (allifaces : option (list (NetworkInterface * list nat))) : gmap string interfaceInfo :=
  match allifaces with
  | None => ∅
  | Some l =>
      fold_left (fun m '(i, visits) =>
        if allowed_flags (if_Flags i) then
          match first_info i (ranged visits) with Some info => <[if_Name i := info]> m | None => m end
        else m) l ∅
  end.

Definition usable (ip : bytes) : bool :=
  match To4 ip with Some _ => false | None => IsLinkLocalUnicast ip end.

Definition with_addrs (info : interfaceInfo) : option interfaceInfo :=
  match if_Addrs (iface info) with
  | None => None
  | Some l => Some (mkInterfaceInfo (iface info) (addrs info ++ filter (fun ip => usable ip = true) (omap id l)) (beacon info)
                      (ii_listen info) (port info) (ii_priority info) (ii_password info) (hash info))
  end.

Definition _updateInterfaces (allifaces : option (list (NetworkInterface * list nat))) (m : Multicast) : Multicast :=
  set_interfaces (omap with_addrs (_getAllowedInterfaces allifaces)) m.

(** ** Announcing *)

Definition stop_listener (name : string) (info : listenerInfo) (m : Multicast) : Multicast :=
  set_announced (delete name (_listeners m)) (stopped m ++ [li_listener info]) (opened m) (sent m) (joined m) m.

(** net.ResolveTCPAddr("tcp6", listener.Addr().String()) *)
Definition tcp6_addr (l : Listener) : option bytes :=
  match To4 (l_IP l) with Some _ => None | None => Some (l_IP l) end.

Definition prune_listener (m : Multicast) (name : string) : Multicast :=
  match _listeners m !! name with
  | None => m
  | Some info =>
      match _interfaces m !! name with
      | None => stop_listener name info m
      | Some ii =>
          match tcp6_addr (li_listener info) with
          | None => stop_listener name info m
          | Some ip => if existsb (fun a => IP_Equal a ip) (addrs ii) then m else stop_listener name info m
          end
      end
  end.

Definition listen_url (info : interfaceInfo) (ip : bytes) : peerURL :=
  mkPeerURL "tls" ip "" (port info)
    [("priority"%string, format_uint8 (ii_priority info)); ("password"%string, ii_password info)].

Definition advertisement (info : interfaceInfo) (l : Listener) : multicastAdvertisement :=
  mkAdv version.1 version.2 public (u16 (l_Port l)) (hash info).

Section Announce.
Context (ListenLocal : peerURL -> string -> option Listener) (now : Z).

(** One beacon, after which the interval to the next one grows. *)
Definition send_beacon (name : string) (info : interfaceInfo) (linfo : listenerInfo) (m : Multicast) : Multicast :=
  let interval := if li_interval linfo <? 15 * Second then li_interval linfo + Second else li_interval linfo in
  set_announced (<[name := mkListenerInfo (li_listener linfo) now interval (li_port linfo)]> (_listeners m))
    (stopped m) (opened m) (sent m ++ [(name, MarshalBinary (advertisement info (li_listener linfo)))]) (joined m) m.

(** The listener of the interface, new if there is none. *)
Definition get_listener (name : string) (info : interfaceInfo) (ip : bytes) (m : Multicast)
    : option listenerInfo * Multicast :=
  match _listeners m !! name with
  | Some linfo => (Some linfo, m)
  | None =>
      match ListenLocal (listen_url info ip) name with
      | Some li =>
          let linfo := mkListenerInfo li now 0 (port info) in
          (Some linfo, set_announced (<[name := linfo]> (_listeners m)) (stopped m) (opened m ++ [li])
                         (sent m) (joined m) m)
      | None => (None, m)
      end
  end.

Fixpoint announce_addrs (name : string) (info : interfaceInfo) (l : list bytes) (m : Multicast) : Multicast :=
  match l with
  | [] => m
  | ip :: l =>
      if negb (usable ip) then announce_addrs name info l m
      else
        let m := if ii_listen info then
                   set_announced (_listeners m) (stopped m) (opened m) (sent m) (joined m ++ [name]) m
                 else m in
        if negb (beacon info) then m
        else match get_listener name info ip m with
        | (None, m) => announce_addrs name info l m
        | (Some linfo, m) =>
            if now - li_time linfo <? li_interval linfo then announce_addrs name info l m
            else send_beacon name info linfo m
        end
  end.

Definition announce_interface (m : Multicast) (name : string) : Multicast :=
  match _interfaces m !! name with
  | None => m
  | Some info => announce_addrs name info (addrs info) m
  end.

(** time.AfterFunc *)
Definition new_timer (m : Multicast) : Multicast :=
  set_timers (Some (next_timer m)) (<[next_timer m := TArmed]> (timers m)) (S (next_timer m)) m.

(** [lorder] and [iorder] are the orders of the two ranges over maps. *)
Definition _announce (allifaces : option (list (NetworkInterface * list nat))) (lorder iorder : list string)
    (m : Multicast) : Multicast :=
  if negb (running m) then m
  else
    let m := _updateInterfaces allifaces m in
    let m := fold_left prune_listener lorder m in
    let m := fold_left announce_interface iorder m in
    new_timer m.
End Announce.

(** ** Starting, stopping, announcing now *)

Definition empty : Multicast :=
  mkMulticast false None ∅ ∅ None ∅ 0 [] AReady LNone [] [] [] [] [].

(** [_start]: whether it failed.  [sock_ok]: ListenMulticastUDP succeeded. *)
Definition _start (sock_ok : bool) (m : Multicast) : bool * Multicast :=
  if running m then (false, m)
  else if bool_decide (version = (0, 0)) then (false, m)
  else if negb (existsb (fun intf => Beacon intf || Listen intf) config) then (true, m)
  else if negb sock_ok then (false, m)
  else (true, Act MAnnounce (Act MStarted (set_running true (Some true) LRead m))).

(** The state that [New] leaves behind; it has the actor run [_start]. *)
Definition New (sock_ok : bool) : Multicast := (_start sock_ok empty).2.

Definition _stop (m : Multicast) : Multicast :=
  if negb (running m) then m
  else set_running false (match sock_open m with Some _ => Some false | None => None end) (listener_pc m) m.

(** timer.Stop: whether it stopped the timer before it fired. *)
Definition timer_Stop (t : nat) (m : Multicast) : bool * Multicast :=
  match timers m !! t with
  | Some TArmed => (true, set_timers (_timer m) (delete t (timers m)) (next_timer m) m)
  | _ => (false, m)
  end.

(** The block of AnnounceNow.  The channel of a timer made by time.AfterFunc
    is nil, and a receive from it never returns. *)
Definition announce_now (m : Multicast) : Multicast :=
  match _timer m with
  | None => Act MAnnounce m
  | Some t =>
      match timer_Stop t m with
      | (true, m) => Act MAnnounce m
      | (false, m) => set_actor AHung m
      end
  end.

(** ** The listen goroutine *)

(** A datagram: its destination if the socket reports one (with no address
    when that cannot be parsed), its bytes, and its source if it is UDP. *)
Record datagram := mkDatagram {
  dg_dst : option (option bytes); dg_bytes : bytes; dg_from : option (bytes * string)
}.

Definition for_group (dst : option (option bytes)) : bool :=
  match dst with
  | None => true
  | Some None => false
  | Some (Some ip) => IsLinkLocalMulticast ip && IP_Equal ip groupIP
  end.

(** The checks before the actor is asked for the interfaces. *)
Definition check_beacon (d : datagram) : option (multicastAdvertisement * bytes * string) :=
  if negb (for_group (dg_dst d)) then None
  else match UnmarshalBinary (dg_bytes d) with
  | None => None
  | Some adv =>
      if negb (MajorVersion adv =? version.1) then None
      else if negb (MinorVersion adv =? version.2) then None
      else if bool_decide (PublicKey adv = public) then None
      else match dg_from d with
      | None => None
      | Some (ip, zone) => Some (adv, ip, zone)
      end
  end.

Definition call_url (info : interfaceInfo) (adv : multicastAdvertisement) (ip : bytes) (zone : string) : peerURL :=
  mkPeerURL "tls" ip zone (Port adv)
    [("key"%string, hex_EncodeToString (PublicKey adv)); ("priority"%string, format_uint8 (ii_priority info));
     ("password"%string, ii_password info)].

(** What the goroutine does with the interfaces it gets. *)
Definition call_peer (interfaces : gmap string interfaceInfo) (adv : multicastAdvertisement) (ip : bytes)
    (zone : string) : option (peerURL * string) :=
  match interfaces !! zone with
  | Some info =>
      if ii_listen info then
        match key_hash blake2b (string_bytes (ii_password info)) (PublicKey adv) with
        | Err _ => None
        | Ok h => if bool_decide (h = Hash adv) then Some (call_url info adv ip zone, zone) else None
        end
      else None
  | None => None
  end.

(** ** Steps *)

(** The loop of the listen goroutine checks whether to go on before each read. *)
Definition next_read (m : Multicast) : listen_pc := if running m then LRead else LDone.

(** The answers of the system to one announcement. *)
Record environment := mkEnv {
  env_interfaces : option (list (NetworkInterface * list nat));
  env_ListenLocal : peerURL -> string -> option Listener;
  env_now : Z;
  env_lorder : list string;
  env_iorder : list string
}.

Inductive event :=
| EStop
| EAnnounceNow
| EFire (t : nat)                (* a timer fires *)
| ERun (t : nat)                 (* ... and its function enqueues the announcement *)
| ERead (d : datagram)           (* the listen goroutine reads a datagram *)
| EReadError
| EActor (env : environment).    (* the actor handles its next message *)

Definition handle (env : environment) (msg : message) (m : Multicast) : Multicast :=
  match msg with
  | MStarted => m
  | MAnnounce => _announce (env_ListenLocal env) (env_now env) (env_interfaces env) (env_lorder env) (env_iorder env) m
  | MAnnounceNow => announce_now m
  | MStop => _stop m
  | MBeacon adv ip zone =>
      set_called (next_read m) (called m ++ option_list (call_peer (_interfaces m) adv ip zone)) m
  end.

Definition exec (e : event) (m : Multicast) : option Multicast :=
  match e with
  | EStop => Some (Act MStop m)
  | EAnnounceNow => Some (Act MAnnounceNow m)
  | EFire t =>
      match timers m !! t with
      | Some TArmed => Some (set_timers (_timer m) (<[t := TFired]> (timers m)) (next_timer m) m)
      | _ => None
      end
  | ERun t =>
      match timers m !! t with
      | Some TFired => Some (Act MAnnounce (set_timers (_timer m) (delete t (timers m)) (next_timer m) m))
      | _ => None
      end
  | ERead d =>
      match listener_pc m with
      | LRead =>
          match check_beacon d with
          | None => Some (set_called (next_read m) (called m) m)
          | Some (adv, ip, zone) => Some (Act (MBeacon adv ip zone) (set_called LWait (called m) m))
          end
      | _ => None
      end
  | EReadError =>
      match listener_pc m with
      | LRead => Some (set_called (next_read m) (called m) m)
      | _ => None
      end
  | EActor env =>
      match inbox m, actor m with
      | msg :: q, AReady => Some (handle env msg (set_inbox q m))
      | _, _ => None
      end
  end.

Inductive reachable : Multicast -> Prop :=
| reach_New sock_ok : reachable (New sock_ok)
| reach_step m e m' : reachable m -> exec e m = Some m' -> reachable m'.

Fixpoint exec_all (es : list event) (m : Multicast) : option Multicast :=
  match es with
  | [] => Some m
  | e :: es => match exec e m with Some m => exec_all es m | None => None end
  end.

End Module.

(** ** What the admin interface shows (ygglib/multicast/admin.go)

    [is_Address] is the address of the listener; [None] is "-". *)
Record InterfaceState := mkInterfaceState {
  is_Name : string; is_Address : option (bytes * Z); is_Beacon : bool; is_Listen : bool; is_Password : bool
}.
Definition interface_state (m : Multicast) (e : string * interfaceInfo) : InterfaceState :=
  mkInterfaceState (if_Name (iface e.2))
    ((fun li => (l_IP (li_listener li), l_Port (li_listener li))) <$> _listeners m !! e.1)
    (beacon e.2) (ii_listen e.2) (negb (bool_decide (ii_password e.2 = EmptyString))).
(** [order]: the order of a map range. *)
Definition InterfaceStates (order : list (string * interfaceInfo)) (m : Multicast) : list InterfaceState :=
  SortStableFunc (by_string is_Name) (map (interface_state m) order).

(** ** Beacons as bytes *)

Lemma slice_app_at {A} (l k r : list A) n m : length l = n -> length k = (m - n)%nat -> slice n m (l ++ k ++ r) = k.
Proof.
  intros <- Hk. unfold slice. rewrite drop_app_length. by rewrite <- Hk, take_app_length.
Qed.

Lemma be16_put_exact v : 0 <= v < 65536 -> be16 (be16_put v) = v.
Proof. intros Hv. rewrite <- (app_nil_r (be16_put v)). by apply be16_put_get. Qed.

(** A beacon is read back as it was written. *)
Lemma beacon_roundtrip adv :
  0 <= MajorVersion adv < 65536 -> 0 <= MinorVersion adv < 65536 -> 0 <= Port adv < 65536 ->
  length (PublicKey adv) = PublicKeySize -> Z.of_nat (length (Hash adv)) < 65536 ->
  UnmarshalBinary (MarshalBinary adv) = Some adv.
Proof.
  intros H1 H2 H3 Hk Hh. destruct adv as [ma mi key po ha]. cbn [MajorVersion MinorVersion PublicKey Port Hash] in *. unfold MarshalBinary.
  cbn [MajorVersion MinorVersion PublicKey Port Hash].
  set (b1 := be16_put ma). set (b2 := be16_put mi). set (b3 := be16_put po).
  set (b4 := be16_put (u16 (Z.of_nat (length ha)))).
  assert (Hlen : length (b1 ++ b2 ++ key ++ b3 ++ b4 ++ ha) = (40 + length ha)%nat).
  { rewrite !length_app, Hk. subst b1 b2 b3 b4. rewrite !length_be16_put. unfold PublicKeySize. lia. }
  assert (S1 : slice 0 2 (b1 ++ b2 ++ key ++ b3 ++ b4 ++ ha) = b1) by (by apply (slice_app_at [])).
  assert (S2 : slice 2 4 (b1 ++ b2 ++ key ++ b3 ++ b4 ++ ha) = b2) by (by apply slice_app_at).
  assert (S3 : slice 4 (4 + PublicKeySize) (b1 ++ b2 ++ key ++ b3 ++ b4 ++ ha) = key).
  { rewrite (app_assoc b1 b2). apply slice_app_at; [done|]. by rewrite Hk. }
  assert (S4 : slice (4 + PublicKeySize) (6 + PublicKeySize) (b1 ++ b2 ++ key ++ b3 ++ b4 ++ ha) = b3).
  { rewrite !(app_assoc _ _ (b3 ++ _)). apply slice_app_at; [|done]. rewrite !length_app, Hk. done. }
  assert (S5 : slice (6 + PublicKeySize) (8 + PublicKeySize) (b1 ++ b2 ++ key ++ b3 ++ b4 ++ ha) = b4).
  { rewrite !(app_assoc _ _ (b4 ++ _)). apply slice_app_at; [|done]. rewrite !length_app, Hk. done. }
  unfold UnmarshalBinary. rewrite Hlen, S1, S2, S3, S4, S5. clear S1 S2 S3 S4 S5.
  assert (Hdl : be16 b4 = Z.of_nat (length ha)).
  { subst b4. unfold u16. rewrite Z.mod_small by lia. apply be16_put_exact. lia. }
  rewrite Hdl, Nat2Z.id, !(proj2 (Nat.ltb_ge _ _)) by (unfold PublicKeySize; lia).
  subst b1 b2 b3. rewrite !be16_put_exact by done. do 2 f_equal.
  rewrite !app_assoc. rewrite <- (app_nil_r ha) at 2. apply slice_app_at; [|lia].
  rewrite !length_app, Hk. done.
Qed.

(** ** Discovery *)

Lemma length_string_bytes s : length (string_bytes s) = String.length s.
Proof.
  unfold string_bytes. rewrite length_map. unfold to_chars.
  induction s as [|c s IH]; simpl; [done|]. by rewrite IH.
Qed.

Lemma make_info_Some blake2b public i ifcfg info :
  make_info blake2b public i ifcfg = Some info ->
  key_hash blake2b (string_bytes (Password ifcfg)) public = Ok (hash info) /\
  ii_password info = Password ifcfg /\ ii_listen info = Listen ifcfg /\ beacon info = Beacon ifcfg /\
  ii_priority info = Priority ifcfg /\ Regex ifcfg (if_Name i) = true /\ iface info = i.
Proof.
  unfold make_info. destruct (_ && _); [done|]. destruct (Regex ifcfg _) eqn:Er; [|done].
  destruct (key_hash _ _ _) as [h|e] eqn:E; [|done]. by intros [= <-].
Qed.

(** The URL of a call parses to a link that pins the advertised key. *)
Lemma call_url_options ParseDuration info adv ip zone :
  length (PublicKey adv) = PublicKeySize -> wf_bytes (PublicKey adv) -> wf_byte (ii_priority info) ->
  (length (string_bytes (ii_password info)) <= BlakeSize)%nat ->
  add_options ParseDuration (pu_Query (call_url info adv ip zone)) =
    Ok (mkLinkOptions {[PublicKey adv]} (ii_priority info) (string_bytes (ii_password info)) defaultBackoffLimit).
Proof.
  intros Hk Hwk Hp Hpw. destruct (uint8_roundtrip _ Hp) as [E1 E2]. rewrite length_string_bytes in Hpw.
  unfold add_options. cbn [call_url pu_Query].
  change (query_all _ "key") with [hex_EncodeToString (PublicKey adv)]. simpl parse_keys.
  rewrite hex_roundtrip, copy_all, (right_id_L ∅ (∪)) by (try done; by rewrite length_replicate).
  unfold parse_priority, parse_password, parse_backoff, query_get.
  change (query_all _ "priority") with [format_uint8 (ii_priority info)].
  change (query_all _ "password") with [ii_password info].
  change (query_all _ "maxbackoff") with (@nil string). simpl.
  rewrite bool_decide_false, E1 by done. simpl.
  rewrite (u8_small (ii_priority info)) by done. case_bool_decide as Hz; simpl; [by rewrite Hz|].
  by rewrite (proj2 (Nat.ltb_ge _ _)).
Qed.

(** A node that hears a beacon of another node with its protocol version
    on an interface where it listens with the same password calls that node:
    at the address the beacon came from and the port it names, with options
    that pin exactly the key of the beacon's sender. *)
Theorem beacon_discovered blake2b ParseDuration pa pb version group i ifcfg ia ib interfaces l d ip zone :
  (forall password key, length (blake2b password key) = BlakeSize) ->
  make_info blake2b pa i ifcfg = Some ia -> wf_bytes pa -> pa <> pb ->
  0 <= version.1 < 65536 -> 0 <= version.2 < 65536 ->
  for_group group (dg_dst d) = true -> dg_from d = Some (ip, zone) ->
  dg_bytes d = MarshalBinary (advertisement pa version ia l) ->
  interfaces !! zone = Some ib -> ii_listen ib = true -> ii_password ib = ii_password ia -> wf_byte (ii_priority ib) ->
  exists adv url, check_beacon pb version group d = Some (adv, ip, zone) /\
    call_peer blake2b interfaces adv ip zone = Some (url, zone) /\
    pu_Scheme url = "tls"%string /\ pu_ip url = ip /\ pu_zone url = zone /\ pu_port url = u16 (l_Port l) /\
    add_options ParseDuration (pu_Query url) =
      Ok (mkLinkOptions {[pa]} (ii_priority ib) (string_bytes (ii_password ia)) defaultBackoffLimit).
Proof.
  intros Hb Hi Hwf Hne Hv1 Hv2 Hg Hfrom Hbytes Hz Hl Hpw Hprio.
  apply make_info_Some in Hi as (Hh & Epw & _). pose proof Hh as (Hlp & Hlk & Eh)%key_hash_Ok.
  set (adv := advertisement pa version ia l) in *.
  assert (Hport : 0 <= u16 (l_Port l) < 65536) by (apply Z.mod_pos_bound; lia).
  assert (Hr : UnmarshalBinary (dg_bytes d) = Some adv).
  { rewrite Hbytes. apply beacon_roundtrip; try done. simpl. rewrite Eh, Hb. done. }
  exists adv, (call_url ib adv ip zone). split; [|split].
  - unfold check_beacon. rewrite Hg, Hr, Hfrom. simpl. rewrite !Z.eqb_refl. simpl. by rewrite bool_decide_false.
  - unfold call_peer. rewrite Hz, Hl. replace (key_hash blake2b _ (PublicKey adv)) with (key_hash blake2b (string_bytes (Password ifcfg)) pa) by (rewrite Hpw, Epw; done).
    rewrite Hh. by rewrite bool_decide_true.
  - split_and!; try done. rewrite <- Hpw. apply (call_url_options ParseDuration ib adv ip zone); try done.
    rewrite Hpw, Epw. done.
Qed.

(** What an announcement leaves alone. *)
Definition same_inputs (m m' : Multicast) : Prop :=
  _interfaces m' = _interfaces m /\ inbox m' = inbox m /\ called m' = called m /\ running m' = running m /\
  actor m' = actor m /\ listener_pc m' = listener_pc m /\ timers m' = timers m /\ _timer m' = _timer m /\
  next_timer m' = next_timer m.

Lemma same_inputs_refl m : same_inputs m m.
Proof. done. Qed.

Lemma same_inputs_trans m1 m2 m3 : same_inputs m1 m2 -> same_inputs m2 m3 -> same_inputs m1 m3.
Proof. unfold same_inputs. intuition congruence. Qed.

Lemma same_inputs_announced ls st op se jo m : same_inputs m (set_announced ls st op se jo m).
Proof. done. Qed.

Lemma same_inputs_prune m name : same_inputs m (prune_listener m name).
Proof. unfold prune_listener, stop_listener. by repeat case_match. Qed.

Lemma same_inputs_addrs public version LL now name info l m :
  same_inputs m (announce_addrs public version LL now name info l m).
Proof.
  revert m. induction l as [|ip l IH]; intros m; [done|]. cbn [announce_addrs].
  destruct (negb (usable ip)); [apply IH|].
  set (m1 := if ii_listen info then _ else m).
  assert (H1 : same_inputs m m1) by (subst m1; by destruct (ii_listen info)).
  destruct (negb (beacon info)); [done|].
  destruct (get_listener LL now name info ip m1) as [o m2] eqn:E.
  assert (H2 : same_inputs m m2).
  { unfold get_listener in E. repeat case_match; simplify_eq; done. }
  destruct o as [linfo|]; [|eapply same_inputs_trans; [exact H2|apply IH]].
  destruct (_ <? _); [eapply same_inputs_trans; [exact H2|apply IH]|done].
Qed.

Lemma same_inputs_interface public version LL now m name :
  same_inputs m (announce_interface public version LL now m name).
Proof. unfold announce_interface. case_match; [apply same_inputs_addrs|done]. Qed.

Lemma same_inputs_fold (f : Multicast -> string -> Multicast) l m :
  (forall m n, same_inputs m (f m n)) -> same_inputs m (fold_left f l m).
Proof.
  intros Hf. revert m. induction l as [|n l IH]; intros m; simpl; [done|].
  eapply same_inputs_trans; [apply Hf|apply IH].
Qed.

(** ** Every call answers an authentic beacon *)

Section Authentic.
Context (blake2b : bytes -> bytes -> bytes) (public : bytes) (version : Z * Z)
  (config : list MulticastInterface) (groupIP : bytes).
#[local] Abbreviation exec := (exec blake2b public version config groupIP).
#[local] Abbreviation check_beacon := (check_beacon public version groupIP).

(** The interface was configured like this. *)
Definition from_config (name : string) (info : interfaceInfo) (ifcfg : MulticastInterface) : Prop :=
  ifcfg ∈ config /\ Regex ifcfg name = true /\ ii_listen info = Listen ifcfg /\
  ii_password info = Password ifcfg /\ ii_priority info = Priority ifcfg /\ beacon info = Beacon ifcfg.

(** The datagrams that were read, and the beacons that wait for the actor. *)
Definition received (es : list event) : list datagram :=
  omap (fun e => match e with ERead d => Some d | _ => None end) es.
Definition beacons (q : list message) : list (multicastAdvertisement * bytes * string) :=
  omap (fun msg => match msg with MBeacon adv ip zone => Some (adv, ip, zone) | _ => None end) q.

(** The call [c] is justified by the datagram [d]: a beacon for the multicast
    group, with this node's protocol version and another key, that came from
    the address and interface called, and whose hash proves the password of a
    configuration that listens on that interface; the call has the key and the
    port of the beacon and the priority and password of that configuration. *)
Definition authentic (d : datagram) (c : peerURL * string) : Prop :=
  exists adv ip ifcfg,
    for_group groupIP (dg_dst d) = true /\ UnmarshalBinary (dg_bytes d) = Some adv /\ dg_from d = Some (ip, c.2) /\
    (MajorVersion adv, MinorVersion adv) = version /\ PublicKey adv <> public /\
    length (PublicKey adv) = PublicKeySize /\
    ifcfg ∈ config /\ Listen ifcfg = true /\ Regex ifcfg c.2 = true /\
    Hash adv = blake2b (string_bytes (Password ifcfg)) (PublicKey adv) /\
    c.1 = mkPeerURL "tls" ip c.2 (Port adv)
            [("key"%string, hex_EncodeToString (PublicKey adv)); ("priority"%string, format_uint8 (Priority ifcfg));
             ("password"%string, Password ifcfg)].

Record call_inv (rs : list datagram) (m : Multicast) : Prop := {
  ci_interfaces : forall name info, _interfaces m !! name = Some info -> exists ifcfg, from_config name info ifcfg;
  ci_called : exists ds waiting, (ds ++ waiting) `sublist_of` rs /\ Forall2 authentic ds (called m) /\
    Forall2 (fun d b => check_beacon d = Some b) waiting (beacons (inbox m))
}.

Lemma called_authentic interfaces d adv ip zone c :
  (forall name info, interfaces !! name = Some info -> exists ifcfg, from_config name info ifcfg) ->
  check_beacon d = Some (adv, ip, zone) -> call_peer blake2b interfaces adv ip zone = Some c -> authentic d c.
Proof.
  intros Hi Hd Hc. unfold call_peer in Hc. destruct (interfaces !! zone) as [info|] eqn:Ei; [|done].
  destruct (ii_listen info) eqn:El; [|done]. destruct (key_hash _ _ _) as [h|] eqn:Eh; [|done].
  case_bool_decide as Hh; [|done]. injection Hc as <-. destruct (Hi _ _ Ei) as (ifcfg & Hin & Hx & E1 & E2 & E3 & _).
  unfold Multicast.check_beacon in Hd. destruct (for_group groupIP (dg_dst d)) eqn:F1; [|done]. simpl in Hd.
  destruct (UnmarshalBinary (dg_bytes d)) as [adv'|] eqn:F2; [|done].
  destruct (MajorVersion adv' =? _) eqn:F3; [|done]. destruct (MinorVersion adv' =? _) eqn:F4; [|done]. simpl in Hd.
  case_bool_decide as F5; [done|]. destruct (dg_from d) as [[ip' zone']|] eqn:F6; [|done]. injection Hd as -> -> ->. bool_props.
  rewrite E2 in Eh. apply key_hash_Ok in Eh as (_ & Hlen & Eh). exists adv, ip, ifcfg. simpl. split_and!; try done; [|congruence|congruence|].
  - rewrite F3, F4. by destruct version.
  - unfold call_url. by rewrite E2, E3.
Qed.

Lemma beacons_snoc q msg : beacons (q ++ [msg]) =
  beacons q ++ match msg with MBeacon adv ip zone => [(adv, ip, zone)] | _ => [] end.
Proof. unfold beacons. rewrite omap_app. by destruct msg. Qed.

(** A step that reads no datagram, calls nobody and enqueues no beacon. *)
Lemma call_inv_same rs m m' :
  call_inv rs m -> (forall name info, _interfaces m' !! name = Some info -> exists ifcfg, from_config name info ifcfg) ->
  called m' = called m -> beacons (inbox m') = beacons (inbox m) -> call_inv rs m'.
Proof. intros [_ H] Hi Ec Eb. split; [done|]. by rewrite Ec, Eb. Qed.

Lemma first_info_config i cfgs info :
  first_info blake2b public i cfgs = Some info ->
  exists ifcfg, ifcfg ∈ cfgs /\ make_info blake2b public i ifcfg = Some info.
Proof.
  induction cfgs as [|c cfgs IH]; simpl; [done|]. destruct (make_info _ _ i c) as [x|] eqn:E.
  - intros [= <-]. exists c. split; [by left|done].
  - intros H. destruct (IH H) as (c' & ? & ?). exists c'. split; [by right|done].
Qed.

Lemma ranged_config visits c : c ∈ ranged config visits -> c ∈ config.
Proof.
  unfold ranged. rewrite elem_of_app, list_elem_of_omap. intros [(k & _ & Hk)|?]; [|done]. by eapply list_elem_of_lookup_2.
Qed.

Lemma allowed_config l name info :
  _getAllowedInterfaces blake2b public config l !! name = Some info -> exists ifcfg, from_config name info ifcfg.
Proof.
  unfold _getAllowedInterfaces. destruct l as [l|]; [|by rewrite lookup_empty].
  assert (H0 : forall n i, (∅ : gmap string interfaceInfo) !! n = Some i -> exists ifcfg, from_config n i ifcfg).
  { intros n i. by rewrite lookup_empty. }
  revert H0. generalize (∅ : gmap string interfaceInfo).
  induction l as [|[i visits] l IH]; intros g H0; simpl; [by apply H0|].
  apply IH. intros n x. destruct (allowed_flags _); [|apply H0].
  destruct (first_info _ _ _ _) as [info'|] eqn:E; [|apply H0].
  intros [[<- <-]|[_ Hx]]%lookup_insert_Some; [|by apply (H0 n)].
  apply first_info_config in E as (c & Hc%ranged_config & Hm). apply make_info_Some in Hm as (_ & E1 & E2 & E3 & E4 & E5 & _).
  exists c. repeat split; congruence.
Qed.

Lemma updated_config l m name info :
  _interfaces (_updateInterfaces blake2b public config l m) !! name = Some info -> exists ifcfg, from_config name info ifcfg.
Proof.
  unfold _updateInterfaces. simpl. rewrite lookup_omap. intros (i & Hi & Hw)%bind_Some.
  apply allowed_config in Hi as (c & ? & ? & ? & ? & ? & ?). exists c.
  unfold with_addrs in Hw. destruct (if_Addrs _); [|done]. injection Hw as <-. done.
Qed.

Lemma call_inv_actor rs env m msg q :
  call_inv rs m -> inbox m = msg :: q ->
  call_inv rs (handle blake2b public version config env msg (set_inbox q m)).
Proof.
  intros H Eq. pose proof (ci_interfaces _ _ H) as Hi.
  assert (Hq : beacons (msg :: q) = match msg with MBeacon adv ip zone => [(adv, ip, zone)] | _ => [] end ++ beacons q)
    by (unfold beacons; by destruct msg).
  destruct msg; cbn [handle app] in *.
  - apply (call_inv_same _ m); simpl; [done..|]. by rewrite Eq, Hq.
  - unfold _announce. destruct (negb _); [apply (call_inv_same _ m); simpl; [done..|]; by rewrite Eq, Hq|].
    match goal with |- call_inv _ (new_timer ?x) =>
      assert (Hs : same_inputs (_updateInterfaces blake2b public config (env_interfaces env) (set_inbox q m)) x) end.
    { eapply same_inputs_trans; apply same_inputs_fold; [apply same_inputs_prune|apply same_inputs_interface]. }
    destruct Hs as (E1 & E2 & E3 & _). apply (call_inv_same _ m); [done|simpl; rewrite E1|simpl; by rewrite E3|simpl; by rewrite E2; simpl; rewrite Eq, Hq].
    intros name info Hn. by eapply (updated_config (env_interfaces env) (set_inbox q m)).
  - unfold announce_now. apply (call_inv_same _ m); [done|..]; repeat case_match; simpl; rewrite ?beacons_snoc, ?Eq, ?Hq, ?app_nil_r; try done.
    all: match goal with H : timer_Stop _ _ = _ |- _ => unfold timer_Stop in H; repeat case_match; by simplify_eq/= end.
  - unfold _stop. apply (call_inv_same _ m); [done|..]; destruct (negb _); simpl; rewrite ?Eq, ?Hq; done.
  - destruct H as [_ (ds & ws & Hs & Hc & Hb)]. rewrite Eq, Hq in Hb.
    apply Forall2_cons_inv_r in Hb as (d & ws' & Hd & Hb & ->). split; [exact Hi|]. simpl.
    destruct (call_peer blake2b (_interfaces m) adv ip zone) as [c|] eqn:Ec; simpl.
    + exists (ds ++ [d]), ws'. rewrite <- (assoc_L (++)). split; [done|]. split; [|done].
      apply Forall2_app; [done|]. constructor; [|done]. by eapply called_authentic.
    + exists ds, ws'. rewrite app_nil_r. split; [|done]. etrans; [|exact Hs]. apply sublist_app; [done|]. by apply sublist_cons.
Qed.

Lemma call_inv_exec rs m e m' : call_inv rs m -> exec e m = Some m' -> call_inv (rs ++ received [e]) m'.
Proof.
  intros H. pose proof (ci_interfaces _ _ H) as Hi.
  destruct e; simpl; rewrite ?app_nil_r.
  - intros [= <-]. apply (call_inv_same _ m); simpl; rewrite ?beacons_snoc, ?app_nil_r; done.
  - intros [= <-]. apply (call_inv_same _ m); simpl; rewrite ?beacons_snoc, ?app_nil_r; done.
  - destruct (timers m !! t) as [[]|]; try done. intros [= <-]. by apply (call_inv_same _ m).
  - destruct (timers m !! t) as [[]|]; try done. intros [= <-]. apply (call_inv_same _ m); simpl; rewrite ?beacons_snoc, ?app_nil_r; done.
  - destruct H as [_ (ds & ws & Hs & Hc & Hb)]. destruct (listener_pc m); try done.
    destruct (check_beacon d) as [[[adv ip] zone]|] eqn:E; intros [= <-]; (split; [done|]); simpl.
    + exists ds, (ws ++ [d]). rewrite beacons_snoc, (assoc_L (++)). split; [by apply sublist_app|]. split; [done|].
      apply Forall2_app; [done|]. by constructor.
    + exists ds, ws. split; [|done]. by apply sublist_inserts_r.
  - destruct (listener_pc m); try done. intros [= <-]. by apply (call_inv_same _ m).
  - destruct (inbox m) as [|msg q] eqn:Eq; [done|]. destruct (actor m); [|done]. intros [= <-]. by apply call_inv_actor.
Qed.

Lemma call_inv_all es rs m m' : call_inv rs m -> exec_all blake2b public version config groupIP es m = Some m' ->
  call_inv (rs ++ received es) m'.
Proof.
  revert rs m. induction es as [|e es IH]; intros rs m H; cbn [exec_all]; [intros [= <-]; by rewrite app_nil_r|].
  destruct (exec e m) as [m1|] eqn:E; [|done]. intros Hes.
  replace (received (e :: es)) with (received [e] ++ received es) by (by destruct e).
  rewrite (assoc_L (++)). eapply IH; [|exact Hes]. by eapply call_inv_exec.
Qed.

Lemma call_inv_New sock_ok : call_inv [] (New version config sock_ok).
Proof.
  unfold New, _start. simpl. repeat case_match; (split; [intros name info; simpl; by rewrite lookup_empty|]); exists [], []; simpl; by repeat constructor.
Qed.

End Authentic.

(** ** One announcement *)

Section Announcement.
Context (blake2b : bytes -> bytes -> bytes) (public : bytes) (version : Z * Z)
  (config : list MulticastInterface) (groupIP : bytes).

(** The listener that survives the look at the system's interfaces. *)
Definition keeps (info : option interfaceInfo) (li : listenerInfo) : bool :=
  match info, tcp6_addr (li_listener li) with
  | Some ii, Some ip => existsb (fun a => IP_Equal a ip) (addrs ii)
  | _, _ => false
  end.

Definition kept (info : option interfaceInfo) (old : option listenerInfo) : option listenerInfo :=
  match old with
  | Some li => if keeps info li then Some li else None
  | None => None
  end.

Definition bumped (now : Z) (li : listenerInfo) : listenerInfo :=
  mkListenerInfo (li_listener li) now
    (if li_interval li <? 15 * Second then li_interval li + Second else li_interval li) (li_port li).

(** What one announcement does on one interface, from the listener [old] that
    it has kept: the listener afterwards and the beacons that are sent. *)
Definition outcome (LL : peerURL -> string -> option Listener) (now : Z) (name : string) (info : interfaceInfo)
    (old new : option listenerInfo) (beacons : list bytes) : Prop :=
  let adv l := MarshalBinary (advertisement public version info l) in
  match old with
  | Some li =>
      (beacons = [] /\ new = Some li) \/
      (beacon info = true /\ beacons = [adv (li_listener li)] /\ li_time li + li_interval li <= now /\
       new = Some (bumped now li))
  | None =>
      (beacons = [] /\ new = None) \/
      (beacon info = true /\ exists ip l, ip ∈ addrs info /\ usable ip = true /\ LL (listen_url info ip) name = Some l /\
        beacons = [adv l] /\ new = Some (mkListenerInfo l now Second (port info)))
  end.

Lemma prune_listener_lookup m name n :
  _listeners (prune_listener m name) !! n =
    if decide (n = name) then kept (_interfaces m !! name) (_listeners m !! name) else _listeners m !! n.
Proof.
  unfold prune_listener, kept, keeps, stop_listener.
  destruct (_listeners m !! name) as [li|] eqn:El.
  - destruct (_interfaces m !! name) as [ii|]; simpl.
    + destruct (tcp6_addr (li_listener li)) as [ip|]; simpl.
      * destruct (existsb _ _); [case_decide; by subst|].
        simpl. case_decide as Hd; [subst; apply lookup_delete_eq|by apply lookup_delete_ne].
      * case_decide as Hd; [subst; apply lookup_delete_eq|by apply lookup_delete_ne].
    + case_decide as Hd; [subst; apply lookup_delete_eq|by apply lookup_delete_ne].
  - case_decide; by subst.
Qed.

Lemma kept_idem info old : kept info (kept info old) = kept info old.
Proof. destruct old as [li|]; simpl; [|done]. destruct (keeps info li) eqn:E; simpl; [by rewrite E|done]. Qed.

Lemma prune_fold_lookup l m n :
  (forall li, _listeners m !! n = Some li -> n ∈ l) ->
  _listeners (fold_left prune_listener l m) !! n = kept (_interfaces m !! n) (_listeners m !! n).
Proof.
  intros Hl.
  assert (Hg : _listeners (fold_left prune_listener l m) !! n =
    if decide (n ∈ l) then kept (_interfaces m !! n) (_listeners m !! n) else _listeners m !! n).
  { clear Hl. revert m. induction l as [|x l IH]; intros m; simpl; [done|].
    rewrite IH, (proj1 (same_inputs_prune m x)), prune_listener_lookup.
    destruct (decide (n = x)) as [->|Hn].
    - rewrite (decide_True (P := x ∈ x :: l)) by by left. case_decide; [apply kept_idem|done].
    - destruct (decide (n ∈ l)); [by rewrite decide_True by (by right)|].
      rewrite decide_False; [done|]. intros [?|?]%elem_of_cons; done. }
  rewrite Hg. case_decide as Hd; [done|]. destruct (_listeners m !! n) as [li|] eqn:E; [|done].
  exfalso. eauto.
Qed.

(** The addresses of one interface. *)
Lemma announce_addrs_outcome LL now name info l m m' :
  (forall ip, ip ∈ l -> ip ∈ addrs info) ->
  announce_addrs public version LL now name info l m = m' ->
  (forall n, n <> name -> _listeners m' !! n = _listeners m !! n) /\
  exists beacons, sent m' = sent m ++ map (pair name) beacons /\
    outcome LL now name info (_listeners m !! name) (_listeners m' !! name) beacons.
Proof.
  revert m. induction l as [|ip l IH]; intros m Hl Hm; simpl in Hm.
  - subst m'. split; [done|]. exists []. split; [by rewrite app_nil_r|].
    unfold outcome. destruct (_listeners m !! name); by left.
  - assert (Hl' : forall ip, ip ∈ l -> ip ∈ addrs info) by (intros; apply Hl; by right).
    destruct (usable ip) eqn:Eu; [|by apply IH]. cbn [negb] in Hm.
    set (m1 := if ii_listen info then _ else m) in Hm.
    assert (E1 : _listeners m1 = _listeners m /\ sent m1 = sent m) by (subst m1; by destruct (ii_listen info)).
    destruct E1 as [E1 E2]. rewrite <- E1, <- E2. clearbody m1. clear E1 E2 m.
    destruct (beacon info) eqn:Eb; cbn [negb] in Hm.
    2: { subst m'. split; [done|]. exists []. split; [by rewrite app_nil_r|].
         unfold outcome. destruct (_listeners m1 !! name); by left. }
    unfold get_listener in Hm. destruct (_listeners m1 !! name) as [li|] eqn:El.
    + destruct (now - li_time li <? li_interval li) eqn:Et.
      * rewrite <- El. by apply IH.
      * subst m'. simpl. split; [intros n Hn; by apply lookup_insert_ne|].
        exists [MarshalBinary (advertisement public version info (li_listener li))]. split; [done|].
        rewrite lookup_insert_eq. right. bool_props. split_and!; [done|done|lia|done].
    + destruct (LL (listen_url info ip) name) as [li|] eqn:Ell.
      * cbn [li_time li_interval] in Hm. rewrite (proj2 (Z.ltb_ge (now - now) 0)) in Hm by lia.
        subst m'. simpl. rewrite insert_insert_eq. split; [intros n Hn; by apply lookup_insert_ne|].
        exists [MarshalBinary (advertisement public version info li)]. split; [done|].
        rewrite lookup_insert_eq. right. split; [done|]. exists ip, li. split_and!; try done. apply Hl. by left.
      * rewrite <- El. by apply IH.
Qed.

(** All interfaces, in any order. *)
Lemma announce_fold_outcome LL now l m :
  NoDup l ->
  let m' := fold_left (announce_interface public version LL now) l m in
  (forall n, n ∉ l -> _listeners m' !! n = _listeners m !! n) /\
  exists beacons : string -> list bytes,
    sent m' = sent m ++ concat (map (fun n => map (pair n) (beacons n)) l) /\
    forall n info, n ∈ l -> _interfaces m !! n = Some info ->
      outcome LL now n info (_listeners m !! n) (_listeners m' !! n) (beacons n).
Proof.
  revert m. induction l as [|x l IH]; intros m Hn; simpl.
  - split; [done|]. exists (fun _ => []). split; [by rewrite app_nil_r|]. intros n info Hin. by apply elem_of_nil in Hin.
  - apply NoDup_cons in Hn as [Hx Hn].
    set (m1 := announce_interface public version LL now m x).
    destruct (IH m1 Hn) as (Hout & bs & Hs & Hb).
    assert (Hm1 : (forall n, n <> x -> _listeners m1 !! n = _listeners m !! n) /\
      exists b, sent m1 = sent m ++ map (pair x) b /\
        forall info, _interfaces m !! x = Some info ->
          outcome LL now x info (_listeners m !! x) (_listeners m1 !! x) b).
    { subst m1. unfold announce_interface. destruct (_interfaces m !! x) as [info|] eqn:Ei.
      - destruct (announce_addrs_outcome LL now x info (addrs info) m _ (fun ip H => H) eq_refl) as (H1 & b & H2 & H3).
        split; [done|]. exists b. split; [done|]. by intros ? [= <-].
      - split; [done|]. exists []. split; [by rewrite app_nil_r|]. done. }
    destruct Hm1 as (H1 & b & H2 & H3).
    assert (Ei : _interfaces m1 = _interfaces m) by apply (same_inputs_interface public version LL now m x).
    split.
    + intros n Hnin. apply not_elem_of_cons in Hnin as [Hnx Hnl]. rewrite Hout by done. by apply H1.
    + exists (fun n => if decide (n = x) then b else bs n). split.
      * rewrite Hs, H2, <- app_assoc. do 2 f_equal; [by rewrite decide_True|].
        f_equal. apply map_ext_in. intros n Hin. rewrite decide_False; [done|]. intros ->. by apply Hx, list_elem_of_In.
      * intros n info Hin Hi. destruct (decide (n = x)) as [->|Hnx].
        -- rewrite Hout by done. by apply H3.
        -- apply elem_of_cons in Hin as [?|Hin]; [done|]. rewrite <- (H1 n Hnx). apply Hb; [done|]. by rewrite Ei.
Qed.

(** An announcement of a running node, in whatever orders it ranges over
    its maps: the interfaces are the ones the system and the configuration
    allow now; a listener survives exactly when its address is still on its
    interface, and each interface that is allowed gets at most one listener
    and one beacon, which carries the port of that listener, and not before
    the interval since the last one, which grows by a second up to 15. *)
Theorem announce_spec LL now ifs lorder iorder m :
  running m = true -> NoDup iorder ->
  (forall n li, _listeners m !! n = Some li -> n ∈ lorder) ->
  let m' := _announce blake2b public version config LL now ifs lorder iorder m in
  (forall n info, _interfaces m' !! n = Some info -> n ∈ iorder) ->
  _interfaces m' = omap with_addrs (_getAllowedInterfaces blake2b public config ifs) /\
  exists beacons : string -> list bytes,
    sent m' = sent m ++ concat (map (fun n => map (pair n) (beacons n)) iorder) /\
    forall n, match _interfaces m' !! n with
      | Some info => outcome LL now n info (kept (Some info) (_listeners m !! n)) (_listeners m' !! n) (beacons n)
      | None => _listeners m' !! n = None
      end.
Proof.
  intros Hr Hnd Hl. unfold _announce. rewrite Hr. cbn [negb].
  set (m1 := _updateInterfaces blake2b public config ifs m).
  set (m2 := fold_left prune_listener lorder m1). cbv zeta. intros Hio.
  destruct (announce_fold_outcome LL now iorder m2 Hnd) as (Hout & bs & Hs & Hb).
  set (m3 := fold_left _ iorder m2) in *.
  assert (Es : sent m2 = sent m).
  { subst m2. assert (H : forall l x, sent (fold_left prune_listener l x) = sent x); [|by rewrite H].
    clear. induction l as [|n l IH]; intros x; simpl; [done|]. rewrite IH. unfold prune_listener, stop_listener.
    by repeat case_match. }
  assert (E2 : _interfaces m2 = _interfaces m1) by apply same_inputs_fold, same_inputs_prune.
  assert (E3 : _interfaces m3 = _interfaces m2) by apply same_inputs_fold, same_inputs_interface.
  assert (El : forall n, _listeners m2 !! n = kept (_interfaces m1 !! n) (_listeners m !! n)).
  { intros n. subst m2. rewrite prune_fold_lookup by exact (Hl n). done. }
  change (_interfaces (new_timer m3)) with (_interfaces m3) in *.
  change (sent (new_timer m3)) with (sent m3).
  change (_listeners (new_timer m3)) with (_listeners m3).
  rewrite E3, E2 in *. split; [done|]. exists bs. split; [by rewrite Hs, Es|].
  intros n. destruct (_interfaces m1 !! n) as [info|] eqn:Ei.
  - pose proof (Hb n info) as Hbn. rewrite El, Ei in Hbn. apply Hbn; [by apply (Hio n info)|done].
  - destruct (decide (n ∈ iorder)) as [Hin|Hin].
    + clear -Ei E2 El Hin Hnd. subst m3.
      assert (Hno : forall l x, _interfaces x !! n = None ->
        _listeners (fold_left (announce_interface public version LL now) l x) !! n = _listeners x !! n).
      { clear. induction l as [|y l IH]; intros x Hx; simpl; [done|].
        rewrite IH by by rewrite (proj1 (same_inputs_interface public version LL now x y)).
        unfold announce_interface. destruct (_interfaces x !! y) as [info|] eqn:Ey; [|done].
        destruct (announce_addrs_outcome LL now y info (addrs info) x _ (fun ip H => H) eq_refl) as [H1 _].
        apply H1. congruence. }
      rewrite Hno by by rewrite E2. rewrite El, Ei. by destruct (_listeners m !! n).
    + rewrite Hout, El, Ei by done. by destruct (_listeners m !! n).
Qed.
End Announcement.

(** ** Listeners over the life of the module *)

Definition held_by (ls : gmap string listenerInfo) : list Listener :=
  map (fun kv => li_listener kv.2) (map_to_list ls).
Definition tracked (m : Multicast) : Prop := opened m ≡ₚ stopped m ++ held_by (_listeners m).

Lemma held_by_delete ls name li :
  ls !! name = Some li -> held_by ls ≡ₚ li_listener li :: held_by (delete name ls).
Proof. intros H. unfold held_by. rewrite <- (map_to_list_delete ls name li H). done. Qed.

Lemma held_by_insert ls name li : ls !! name = None -> held_by (<[name := li]> ls) ≡ₚ li_listener li :: held_by ls.
Proof. intros H. unfold held_by. rewrite (map_to_list_insert ls name li H). done. Qed.

Lemma held_by_update ls name li li' :
  ls !! name = Some li -> li_listener li' = li_listener li -> held_by (<[name := li']> ls) ≡ₚ held_by ls.
Proof.
  intros H E. rewrite (held_by_delete ls name li H), <- insert_delete_eq, held_by_insert, E by apply lookup_delete_eq.
  done.
Qed.

Section Life.
Context (blake2b : bytes -> bytes -> bytes) (public : bytes) (version : Z * Z)
  (config : list MulticastInterface) (groupIP : bytes).
#[local] Abbreviation exec := (exec blake2b public version config groupIP).
#[local] Abbreviation exec_all := (exec_all blake2b public version config groupIP).
#[local] Abbreviation reachable := (reachable blake2b public version config groupIP).

Lemma tracked_stop name li m : _listeners m !! name = Some li -> tracked m -> tracked (stop_listener name li m).
Proof.
  unfold tracked. intros H Ht. simpl. rewrite Ht, (held_by_delete _ _ _ H). by rewrite <- app_assoc.
Qed.

Lemma tracked_prune m name : tracked m -> tracked (prune_listener m name).
Proof.
  intros H. unfold prune_listener. destruct (_listeners m !! name) as [li|] eqn:E; [|done].
  repeat case_match; try done; by apply tracked_stop.
Qed.

Lemma tracked_addrs LL now name info l m :
  tracked m -> tracked (announce_addrs public version LL now name info l m).
Proof.
  revert m. induction l as [|ip l IH]; intros m H; [done|]. cbn [announce_addrs].
  destruct (negb (usable ip)); [by apply IH|].
  set (m1 := if ii_listen info then _ else m).
  assert (H1 : tracked m1) by (subst m1; by destruct (ii_listen info)). clearbody m1. clear H.
  destruct (negb (beacon info)); [done|].
  unfold get_listener. destruct (_listeners m1 !! name) as [li|] eqn:El.
  - destruct (_ <? _); [by apply IH|]. unfold tracked, send_beacon. simpl.
    rewrite (held_by_update _ _ li) by done. exact H1.
  - destruct (LL (listen_url info ip) name) as [li|]; [|by apply IH].
    assert (H2 : tracked (set_announced (<[name := mkListenerInfo li now 0 (port info)]> (_listeners m1))
      (stopped m1) (opened m1 ++ [li]) (sent m1) (joined m1) m1)).
    { unfold tracked in *. simpl. rewrite held_by_insert, H1 by done. simpl. solve_Permutation. }
    destruct (_ <? _); [by apply IH|]. unfold tracked, send_beacon in *. simpl in *.
    rewrite (held_by_update _ _ (mkListenerInfo li now 0 (port info))); [exact H2|apply lookup_insert_eq|done].
Qed.

Lemma tracked_fold (f : Multicast -> string -> Multicast) l m :
  (forall m n, tracked m -> tracked (f m n)) -> tracked m -> tracked (fold_left f l m).
Proof. intros Hf. revert m. induction l as [|n l IH]; intros m H; simpl; auto. Qed.

Lemma tracked_announce LL now ifs lo io m :
  tracked m -> tracked (_announce blake2b public version config LL now ifs lo io m).
Proof.
  intros H. unfold _announce. destruct (negb _); [done|].
  match goal with |- tracked (new_timer ?x) => change (tracked x) end.
  apply tracked_fold; [|apply tracked_fold; [intros; by apply tracked_prune|exact H]].
  intros x n Hx. unfold announce_interface. destruct (_interfaces x !! n); [by apply tracked_addrs|done].
Qed.

(** Listeners are only touched by announcements of a running module. *)
Lemma exec_listeners m e m' :
  exec e m = Some m' ->
  (opened m' = opened m /\ stopped m' = stopped m /\ _listeners m' = _listeners m) \/
  (running m = true /\ exists LL now ifs lo io q,
    m' = _announce blake2b public version config LL now ifs lo io (set_inbox q m)).
Proof.
  destruct e; simpl.
  7: { destruct (inbox m) as [|msg q]; [done|]. destruct (actor m); [|done]. intros [= <-].
       destruct msg; simpl; try (by left).
       - destruct (running m) eqn:Er; [right|left; unfold _announce; simpl; by rewrite Er].
         split; [done|]. by do 6 eexists.
       - left. unfold announce_now, timer_Stop. by repeat case_match; simplify_eq.
       - left. unfold _stop. by case_match. }
  all: intros Hx; left; repeat case_match; by simplify_eq.
Qed.

(** In every state each listener that the core ever opened for discovery is
    either held for exactly one interface or was stopped exactly once; but only
    an announcement of a running module stops any, so those held when the
    module is stopped stay open for good. *)
Theorem listeners_tracked m :
  reachable m ->
  opened m ≡ₚ stopped m ++ held_by (_listeners m) /\
  (running m = false -> forall es m', exec_all es m = Some m' ->
     stopped m' = stopped m /\ _listeners m' = _listeners m /\ running m' = false).
Proof.
  intros Hr. split.
  - induction Hr as [sock_ok|m e m' _ IH He].
    + unfold New, _start. by repeat case_match.
    + destruct (exec_listeners m e m' He) as [(E1 & E2 & E3)|(_ & LL & now & ifs & lo & io & q & ->)].
      * by rewrite E1, E2, E3.
      * by apply tracked_announce.
  - intros Hn es. revert m Hr Hn. induction es as [|e es IH]; intros m Hr Hn m'; simpl; [by intros [= <-]|].
    destruct (exec e m) as [m1|] eqn:E; [|done]. intros Hes.
    destruct (exec_listeners m e m1 E) as [(E1 & E2 & E3)|[? _]]; [|congruence].
    assert (Hn1 : running m1 = false).
    { clear IH Hes E1 E2 E3. destruct e; simpl in E;
        try (repeat case_match; simplify_eq; done).
      destruct (inbox m) as [|msg q]; [done|]. destruct (actor m); [|done]. injection E as <-.
      destruct msg; simpl; try done; unfold _announce, _stop, announce_now, timer_Stop; simpl; rewrite ?Hn; simpl; try done.
      by repeat case_match; simplify_eq. }
    destruct (IH m1 ltac:(by eapply reach_step) Hn1 m' Hes) as (-> & -> & ->). done.
Qed.

(** ** The timer of the actor *)

Definition is_announce (msg : message) : bool := match msg with MAnnounce => true | _ => false end.
Definition announces (q : list message) : nat := length (filter (fun msg => is_announce msg = true) q).

(** Announcements that are due: in the inbox, or on a timer. *)
Definition due (m : Multicast) : nat := (announces (inbox m) + size (timers m))%nat.

Definition no_announce_now (e : event) : bool := match e with EAnnounceNow => false | _ => true end.

Record beat_inv (m : Multicast) : Prop := {
  bi_ready : actor m = AReady;
  bi_due : running m = true -> due m = 1%nat;
  bi_no_now : MAnnounceNow ∉ inbox m;
  bi_fresh : forall t, t ∈ dom (timers m) -> (t < next_timer m)%nat
}.

Lemma announces_snoc q msg : announces (q ++ [msg]) = (announces q + if is_announce msg then 1 else 0)%nat.
Proof. unfold announces. rewrite filter_app, length_app. f_equal. by destruct msg. Qed.

Lemma size_replace (ts : gmap nat timer_pc) t x y : ts !! t = Some x -> size (<[t := y]> ts) = size ts.
Proof.
  intros H. rewrite <- insert_delete_eq. rewrite map_size_insert_None by apply lookup_delete_eq.
  rewrite map_size_delete_Some by done. assert (size ts <> 0%nat); [|lia].
  intros Hz%map_size_empty_iff. subst. by rewrite lookup_empty in H.
Qed.

Lemma beat_inv_exec m e m' : beat_inv m -> no_announce_now e = true -> exec e m = Some m' -> beat_inv m'.
Proof.
  intros [H1 H2 H3 H4] He. destruct e; simpl; try done.
  - intros [= <-]. constructor; simpl; try done.
    + intros Hr. unfold due. simpl. rewrite announces_snoc. simpl. rewrite Nat.add_0_r. by apply H2.
    + rewrite not_elem_of_app. split; [done|]. by intros ?%list_elem_of_singleton.
  - destruct (timers m !! t) as [[]|] eqn:Et; try done. intros [= <-]. constructor; simpl; try done.
    + intros Hr. unfold due. simpl. rewrite (size_replace _ _ _ _ Et). by apply H2.
    + intros t' Ht'. apply H4. rewrite dom_insert in Ht'. apply elem_of_dom_2 in Et. set_solver.
  - destruct (timers m !! t) as [[]|] eqn:Et; try done. intros [= <-]. constructor; simpl; try done.
    + intros Hr. unfold due. simpl. rewrite announces_snoc, map_size_delete_Some by done. simpl.
      specialize (H2 Hr). unfold due in H2. assert (size (timers m) <> 0%nat); [|lia].
      intros Hz%map_size_empty_iff. rewrite Hz in Et. by rewrite lookup_empty in Et.
    + rewrite not_elem_of_app. split; [done|]. by intros ?%list_elem_of_singleton.
    + intros t' Ht'. apply H4. rewrite dom_delete in Ht'. set_solver.
  - destruct (listener_pc m); try done. destruct (check_beacon _ _ _ d) as [[[adv ip] zone]|]; intros [= <-].
    + constructor; simpl; try done.
      * intros Hr. unfold due. simpl. rewrite announces_snoc. simpl. rewrite Nat.add_0_r. by apply H2.
      * rewrite not_elem_of_app. split; [done|]. by intros ?%list_elem_of_singleton.
    + by constructor.
  - destruct (listener_pc m); try done. intros [= <-]. by constructor.
  - destruct (inbox m) as [|msg q] eqn:Eq; [done|]. rewrite H1. intros [= <-].
    assert (Hq : MAnnounceNow ∉ q) by (intros ?; apply H3; by right).
    assert (Hdue : running m = true -> (announces q + size (timers m) = 1 - if is_announce msg then 1 else 0)%nat).
    { intros Hr. specialize (H2 Hr). unfold due in H2. rewrite Eq in H2. unfold announces in *.
      rewrite filter_cons in H2. destruct (is_announce msg); simpl in *; lia. }
    destruct msg; simpl.
    + by constructor.
    + unfold _announce. simpl. destruct (running m) eqn:Er; [|constructor; simpl; try done; congruence].
      cbn [negb]. match goal with |- beat_inv (new_timer ?x) =>
        assert (Hs : same_inputs (_updateInterfaces blake2b public config (env_interfaces env) (set_inbox q m)) x) end.
      { eapply same_inputs_trans; apply same_inputs_fold;
          [apply same_inputs_prune|apply same_inputs_interface]. }
      destruct Hs as (_ & E2 & _ & _ & E5 & _ & E7 & _ & E9). simpl in *. specialize (Hdue eq_refl). simpl in Hdue.
      assert (Hfresh : timers m !! next_timer m = None).
      { apply not_elem_of_dom. intros Hf. apply H4 in Hf. lia. }
      constructor; simpl; rewrite ?E2, ?E5, ?E7, ?E9; simpl; try done.
      * intros _. unfold due. simpl. rewrite E2, E7, E9. simpl. rewrite map_size_insert_None by done. lia.
      * intros t Ht. rewrite dom_insert in Ht. apply elem_of_union in Ht as [Ht|Ht]; [apply elem_of_singleton in Ht; lia|].
        apply H4 in Ht. lia.
    + exfalso. apply H3. by left.
    + unfold _stop. simpl. destruct (running m) eqn:Er; simpl; [|constructor; simpl; try done; congruence].
      by constructor.
    + by constructor.
Qed.

Lemma beat_inv_New sock_ok : beat_inv (New version config sock_ok).
Proof.
  unfold New, _start. simpl. repeat case_match; constructor; simpl; try done; try set_solver.
Qed.

(** The actor gets to an announcement that is in its inbox. *)
Lemma announce_reached (env : environment) m p q :
  inbox m = p ++ MAnnounce :: q -> actor m = AReady -> running m = true ->
  (forall msg, msg ∈ p -> msg <> MStop /\ msg <> MAnnounceNow /\ msg <> MAnnounce) ->
  exists es m', exec_all es m = Some m' /\ inbox m' = MAnnounce :: q /\ actor m' = AReady /\ running m' = true.
Proof.
  revert m. induction p as [|msg p IH]; intros m Hi Ha Hr Hp; [by exists [], m|].
  assert (He : exec (EActor env) m = Some (handle blake2b public version config env msg (set_inbox (p ++ MAnnounce :: q) m))).
  { simpl. by rewrite Hi, Ha. }
  destruct (Hp msg) as (H1 & H2 & H3); [by left|].
  destruct (IH (handle blake2b public version config env msg (set_inbox (p ++ MAnnounce :: q) m))) as (es & m' & E & ?).
  - by destruct msg.
  - by destruct msg.
  - by destruct msg.
  - intros x Hx. apply Hp. by right.
  - exists (EActor env :: es), m'. cbn [Multicast.exec_all]. by rewrite He.
Qed.

(** As long as AnnounceNow is not called, whatever else happens, the actor
    never gets stuck and a running module has exactly one announcement due, on
    its timer or in the inbox; unless a Stop is waiting, the actor gets to it. *)
Theorem announcements_go_on sock_ok es m :
  forallb no_announce_now es = true -> exec_all es (New version config sock_ok) = Some m ->
  actor m = AReady /\
  (running m = true -> due m = 1%nat /\
    (MStop ∉ inbox m -> exists es' m' q, exec_all es' m = Some m' /\ inbox m' = MAnnounce :: q /\
       actor m' = AReady /\ running m' = true)).
Proof.
  intros Hes He. assert (H : beat_inv m).
  { revert He Hes. pose proof (beat_inv_New sock_ok) as H0. revert H0. generalize (New version config sock_ok).
    induction es as [|e es IH]; intros x Hx; simpl; [by intros [= <-]|].
    destruct (exec e x) as [x1|] eqn:E; [|done]. intros He [H1 H2]%andb_true_iff.
    apply (IH x1); [by eapply beat_inv_exec|done|done]. }
  split; [apply H|]. intros Hr. split; [by apply (bi_due _ H)|]. intros Hstop.
  (* an announcement in the inbox, first one split off *)
  assert (Hin : forall x, MAnnounce ∈ inbox x -> actor x = AReady -> running x = true ->
    MStop ∉ inbox x -> MAnnounceNow ∉ inbox x ->
    exists es' m' q, exec_all es' x = Some m' /\ inbox m' = MAnnounce :: q /\ actor m' = AReady /\ running m' = true).
  { intros x Hx Ha Hrx Hs Hn. assert (Hsplit : exists p q, inbox x = p ++ MAnnounce :: q /\ MAnnounce ∉ p).
    { clear -Hx. induction (inbox x) as [|y l IH]; [by apply elem_of_nil in Hx|]. destruct y.
      1,3,4,5: apply elem_of_cons in Hx as [?|Hx]; [done|]; destruct (IH Hx) as (p & q & -> & Hp);
        match goal with |- context [?y :: _ ++ _] => exists (y :: p), q end; (split; [done|]);
        by intros [?|?]%elem_of_cons.
      exists [], l. split; [done|]. apply not_elem_of_nil. }
    destruct Hsplit as (p & q & E & Hp). destruct (announce_reached (mkEnv None (fun _ _ => None) 0 [] []) x p q E Ha Hrx) as (es' & m' & ?).
    - intros msg Hmsg. rewrite E in Hs, Hn. rewrite !not_elem_of_app in Hs, Hn.
      split_and!; intros ->; [by apply (proj1 Hs)|by apply (proj1 Hn)|done].
    - by exists es', m', q. }
  destruct (filter (fun msg => is_announce msg = true) (inbox m)) as [|y l] eqn:Ef.
  2: { apply Hin; try done; [|apply H|apply (bi_no_now _ H)].
       assert (Hy : y ∈ filter (fun msg => is_announce msg = true) (inbox m)) by (rewrite Ef; by left).
       apply list_elem_of_filter in Hy as [Hy ?]. by destruct y. }
  assert (Hz : announces (inbox m) = 0%nat) by (unfold announces; by rewrite Ef).
  pose proof (bi_due _ H Hr) as Hd. unfold due in Hd. rewrite Hz in Hd.
  assert (Ht : exists t x, timers m !! t = Some x).
  { destruct (map_to_list (timers m)) as [|[t x] l] eqn:El.
    - apply map_to_list_empty_iff in El. rewrite El in Hd. by rewrite map_size_empty in Hd.
    - exists t, x. apply elem_of_map_to_list. rewrite El. by left. }
  destruct Ht as (t & x & Ht).
  assert (Hrun : forall y, timers y !! t = Some TFired -> inbox y = inbox m -> actor y = AReady -> running y = true ->
    exists es' m' q, exec_all es' y = Some m' /\ inbox m' = MAnnounce :: q /\ actor m' = AReady /\ running m' = true).
  { intros y Hy Ei Ha Hry.
    set (y1 := Act MAnnounce (set_timers (_timer y) (delete t (timers y)) (next_timer y) y)).
    assert (Hy1 : exec (ERun t) y = Some y1) by (simpl; by rewrite Hy).
    destruct (Hin y1) as (es' & m' & q & E & ?); try done; simpl; rewrite ?Ei.
    - apply elem_of_app. right. by left.
    - rewrite not_elem_of_app. split; [done|]. by intros ?%list_elem_of_singleton.
    - rewrite not_elem_of_app. split; [apply (bi_no_now _ H)|]. by intros ?%list_elem_of_singleton.
    - exists (ERun t :: es'), m', q. cbn [Multicast.exec_all]. by rewrite Hy1. }
  destruct x; [|by apply Hrun; try apply H].
  set (y := set_timers (_timer m) (<[t := TFired]> (timers m)) (next_timer m) m).
  assert (Hf : exec (EFire t) m = Some y) by (simpl; by rewrite Ht).
  destruct (Hrun y) as (es' & m' & q & E & ?); try done; [apply lookup_insert_eq|apply H|].
  exists (EFire t :: es'), m', q. cbn [Multicast.exec_all]. by rewrite Hf.
Qed.

(** A hung actor stays hung. *)
Lemma hung_exec_all es m m' :
  exec_all es m = Some m' -> actor m = AHung ->
  actor m' = AHung /\ running m' = running m /\ sent m' = sent m /\ called m' = called m /\
  _listeners m' = _listeners m.
Proof.
  revert m. induction es as [|e es IH]; intros m; simpl; [by intros [= <-]|].
  destruct (exec e m) as [m1|] eqn:E; [|done]. intros Hes Ha.
  assert (H1 : actor m1 = AHung /\ running m1 = running m /\ sent m1 = sent m /\ called m1 = called m /\
    _listeners m1 = _listeners m).
  { destruct e; simpl in E; repeat case_match; simplify_eq; done. }
  destruct H1 as (Ha1 & E1 & E2 & E3 & E4). destruct (IH m1 Hes Ha1) as (? & -> & -> & -> & ->). done.
Qed.

Lemma announce_now_armed t m :
  _timer m = Some t -> timers m !! t = Some TArmed ->
  announce_now m = Act MAnnounce (set_timers (_timer m) (delete t (timers m)) (next_timer m) m).
Proof. intros E1 E2. unfold announce_now, timer_Stop. by rewrite E1, E2. Qed.

(** Counterexample to AnnounceNow: two calls of it before the actor gets to
    the first one hang the actor, for it then waits on the nil channel of a
    timer that is already stopped; after that nothing is announced, no beacon
    is answered and Stop has no effect. *)
Theorem announce_now_hangs m t env :
  actor m = AReady -> inbox m = [] -> _timer m = Some t -> timers m !! t = Some TArmed ->
  exists m', exec_all [EAnnounceNow; EAnnounceNow; EActor env; EActor env] m = Some m' /\ actor m' = AHung /\
    forall es m'', exec_all es m' = Some m'' ->
      actor m'' = AHung /\ running m'' = running m /\ sent m'' = sent m /\ called m'' = called m /\
      _listeners m'' = _listeners m.
Proof.
  intros Ha Hi Ht Hta.
  set (m1 := set_timers (_timer m) (delete t (timers m)) (next_timer m) (set_inbox [MAnnounceNow] m)).
  assert (E : exec_all [EAnnounceNow; EAnnounceNow; EActor env; EActor env] m =
    Some (set_actor AHung (set_inbox [MAnnounce] m1))).
  { subst m1. destruct m. simpl in *. subst. unfold handle. cbn [app Act set_inbox inbox actor].
    rewrite (announce_now_armed t) by done. simpl.
    unfold announce_now, timer_Stop. simpl. rewrite lookup_delete_eq. done. }
  eexists. split; [exact E|]. split; [done|]. intros es m'' Hes.
  by apply (hung_exec_all es _ m'') in Hes.
Qed.
End Life.

(** ** A node with one interface, for the witnesses *)

Definition toy_hash (password key : bytes) : bytes := copy (replicate 64 0) (password ++ key).
Definition link_local (x : Z) : bytes := [0xfe; 0x80; 0; 0; 0; 0; 0; 0; 0; 0; 0; 0; 0; 0; 0; x].
Definition group : bytes := [0xff; 2; 0; 0; 0; 0; 0; 0; 0; 0; 0; 0; 0; 0; 1; 0x14].
Definition any_interface : MulticastInterface := mkMulticastInterface (fun _ => true) true true 0 3 "secret".
Definition eth0 : NetworkInterface := mkNetworkInterface "eth0" 49 (Some [Some (link_local 1)]).
Definition eth0_listener : Listener := mkListener 1 (link_local 1) 4000.
Definition eth0_env (now : Z) : environment :=
  mkEnv (Some [(eth0, [])]) (fun _ _ => Some eth0_listener) now ["eth0"%string] ["eth0"%string].
Definition other_key : bytes := replicate 32 7.
Definition protocol : Z * Z := (0, 5).
Definition default_info : interfaceInfo := mkInterfaceInfo eth0 [] false false 0 0 "" [].

(** What a node with [other_key] and the same configuration sends. *)
Definition other_info : interfaceInfo := default default_info (make_info toy_hash other_key eth0 any_interface).
Definition other_beacon : datagram :=
  mkDatagram (Some (Some group)) (MarshalBinary (advertisement other_key protocol other_info (mkListener 9 (link_local 2) 5000)))
    (Some (link_local 2, "eth0"%string)).

(** The first announcement, a beacon of the other node, and its answer. *)
Definition discovery : list event :=
  [EActor (eth0_env 0); EActor (eth0_env 0); ERead other_beacon; EActor (eth0_env 1)].

Definition sample_exec (es : list event) : option Multicast :=
  exec_all toy_hash sample_key protocol [any_interface] group es (New protocol [any_interface] true).
Definition sample_run (es : list event) : Multicast := default empty (sample_exec es).

Lemma run_reachable b p v c g es m m' :
  reachable b p v c g m -> exec_all b p v c g es m = Some m' -> reachable b p v c g m'.
Proof.
  revert m. induction es as [|e es IH]; intros m Hr; simpl; [by intros [= <-]|].
  destruct (exec b p v c g e m) as [m1|] eqn:E; [|done]. apply IH. by eapply reach_step.
Qed.

Lemma sample_run_Some es :
  is_Some (sample_exec es) ->
  exec_all toy_hash sample_key protocol [any_interface] group es (New protocol [any_interface] true) = Some (sample_run es).
Proof. intros [m E]. unfold sample_run. rewrite E. exact E. Qed.

Lemma sample_reachable es :
  is_Some (sample_exec es) -> reachable toy_hash sample_key protocol [any_interface] group (sample_run es).
Proof. intros H%sample_run_Some. eapply run_reachable; [apply (reach_New _ _ _ _ _ true)|exact H]. Qed.

Lemma beacon_discovered_witness :
  exists adv url, check_beacon sample_key protocol group other_beacon = Some (adv, link_local 2, "eth0"%string) /\
    call_peer toy_hash (_interfaces (sample_run discovery)) adv (link_local 2) "eth0" = Some (url, "eth0"%string) /\
    pu_port url = 5000.
Proof.
  destruct (beacon_discovered toy_hash (fun _ => None) other_key sample_key protocol group eth0 any_interface other_info
    (default default_info (_interfaces (sample_run discovery) !! "eth0"%string)) (_interfaces (sample_run discovery))
    (mkListener 9 (link_local 2) 5000) other_beacon (link_local 2) "eth0") as (adv & url & H1 & H2 & _ & _ & _ & H3 & _).
  - intros pw k. unfold toy_hash. rewrite length_copy. reflexivity.
  - vm_compute. reflexivity.
  - apply (bool_decide_unpack _). vm_compute. exact I.
  - discriminate.
  - vm_compute. split; [discriminate|reflexivity].
  - vm_compute. split; [discriminate|reflexivity].
  - vm_compute. reflexivity.
  - vm_compute. reflexivity.
  - vm_compute. reflexivity.
  - vm_compute. reflexivity.
  - vm_compute. reflexivity.
  - vm_compute. reflexivity.
  - vm_compute. split; [discriminate|reflexivity].
  - exists adv, url. split; [exact H1|]. split; [exact H2|exact H3].
Defined.


Definition first_announced : Multicast :=
  _announce toy_hash sample_key protocol [any_interface] (fun _ _ => Some eth0_listener) 0 (Some [(eth0, [])])
    ["eth0"%string] ["eth0"%string] (set_inbox [] (sample_run [EActor (eth0_env 0)])).

Lemma first_interfaces :
  _interfaces first_announced =
    {["eth0"%string := default default_info (_interfaces (sample_run discovery) !! "eth0"%string)]}.
Proof. vm_compute. reflexivity. Qed.

Lemma announce_spec_witness :
  sent (sample_run [EActor (eth0_env 0); EActor (eth0_env 0)]) =
    [("eth0"%string, MarshalBinary (advertisement sample_key protocol
        (default default_info (make_info toy_hash sample_key eth0 any_interface)) eth0_listener))] /\
  exists beacons : string -> list bytes,
    [] ++ concat (map (fun n => map (pair n) (beacons n)) ["eth0"%string]) =
      sent (sample_run [EActor (eth0_env 0); EActor (eth0_env 0)]).
Proof.
  split; [vm_compute; reflexivity|].
  destruct (announce_spec toy_hash sample_key protocol [any_interface] (fun _ _ => Some eth0_listener) 0 (Some [(eth0, [])])
    ["eth0"%string] ["eth0"%string] (set_inbox [] (sample_run [EActor (eth0_env 0)]))) as (_ & beacons & H & _).
  - vm_compute. reflexivity.
  - apply (bool_decide_unpack _). vm_compute. exact I.
  - intros n li H. vm_compute in H. discriminate H.
  - fold first_announced. rewrite first_interfaces. intros n info [<- _]%lookup_singleton_Some. by left.
  - exists beacons. fold first_announced in H.
    assert (E : sent first_announced = sent (sample_run [EActor (eth0_env 0); EActor (eth0_env 0)])) by (vm_compute; reflexivity).
    rewrite <- E. symmetry. exact H.
Defined.

Lemma listeners_tracked_witness :
  opened (sample_run discovery) ≡ₚ stopped (sample_run discovery) ++ held_by (_listeners (sample_run discovery)).
Proof.
  apply (listeners_tracked toy_hash sample_key protocol [any_interface] group (sample_run discovery)).
  apply sample_reachable. vm_compute. eexists. reflexivity.
Defined.

Lemma announcements_go_on_witness : due (sample_run discovery) = 1%nat.
Proof.
  destruct (announcements_go_on toy_hash sample_key protocol [any_interface] group true discovery (sample_run discovery))
    as [_ H].
  - reflexivity.
  - apply sample_run_Some. vm_compute. eexists. reflexivity.
  - destruct H as [H _]; [vm_compute; reflexivity|exact H].
Defined.

Lemma announce_now_hangs_witness :
  exists m', actor m' = AHung /\
    exec_all toy_hash sample_key protocol [any_interface] group
      [EAnnounceNow; EAnnounceNow; EActor (eth0_env 2); EActor (eth0_env 2)] (sample_run discovery) = Some m'.
Proof.
  destruct (announce_now_hangs toy_hash sample_key protocol [any_interface] group (sample_run discovery) 0 (eth0_env 2))
    as (m' & H1 & H2 & _).
  - vm_compute. reflexivity.
  - vm_compute. reflexivity.
  - vm_compute. reflexivity.
  - vm_compute. reflexivity.
  - exists m'. split; [exact H2|exact H1].
Defined.

(** ** The interfaces in the admin interface *)

Lemma updated_names blake2b public config l m name info :
  _interfaces (_updateInterfaces blake2b public config l m) !! name = Some info -> if_Name (iface info) = name.
Proof.
  unfold _updateInterfaces. simpl. rewrite lookup_omap. intros (i & Hi & Hw)%bind_Some.
  assert (if_Name (iface i) = name) as <-.
  { revert Hi. clear Hw. unfold _getAllowedInterfaces. destruct l as [l|]; [|by rewrite lookup_empty].
    assert (H0 : forall n i, (∅ : gmap string interfaceInfo) !! n = Some i -> if_Name (iface i) = n) by (intros n j; by rewrite lookup_empty).
    revert H0. generalize (∅ : gmap string interfaceInfo).
    induction l as [|[x visits] l IH]; intros g H0; simpl; [by apply H0|].
    apply IH. intros n y. destruct (allowed_flags _); [|apply H0].
    destruct (first_info _ _ _ _) as [info'|] eqn:E; [|apply H0].
    intros [[<- <-]|[_ Hx]]%lookup_insert_Some; [|by apply (H0 n)].
    apply first_info_config in E as (c & _ & Hm). apply make_info_Some in Hm as (_ & _ & _ & _ & _ & _ & ->). done. }
  unfold with_addrs in Hw. destruct (if_Addrs _); [|done]. by injection Hw as <-.
Qed.

(** GetMulticastInterfaces shows every allowed interface once, in the order of
    their names, whatever order the map is walked in. *)
Theorem interface_states_spec blake2b public config l m order :
  let m := _updateInterfaces blake2b public config l m in
  Permutation order (map_to_list (_interfaces m)) ->
  map is_Name (InterfaceStates order m) = SortStableFunc (by_string id) (map fst (map_to_list (_interfaces m))) /\
  StronglySorted (fun x y => String.le (is_Name x) (is_Name y)) (InterfaceStates order m) /\
  NoDup (map is_Name (InterfaceStates order m)) /\
  (forall name info, _interfaces m !! name = Some info -> interface_state m (name, info) ∈ InterfaceStates order m).
Proof.
  cbv zeta. set (m' := _updateInterfaces _ _ _ _ _). intros Hp. unfold InterfaceStates.
  assert (Hnames : map is_Name (map (interface_state m') order) = map fst order).
  { rewrite map_map. apply map_ext_in. intros [n info] Hin%list_elem_of_In. cbn. rewrite Hp in Hin.
    apply elem_of_map_to_list in Hin. by eapply updated_names. }
  assert (Hn : NoDup (map fst order)) by (rewrite Hp; apply NoDup_fst_map_to_list).
  split_and!; [|apply by_string_sorted|by rewrite SortStableFunc_permutation, Hnames|].
  - apply (sorted_keys_unique id); [|apply by_string_sorted| |].
    + assert (Hs := by_string_sorted is_Name (map (interface_state m') order)). revert Hs. generalize (SortStableFunc (by_string is_Name) (map (interface_state m') order)).
      induction 1 as [|x k Hk IH Hx]; cbn; constructor; [done|]. by apply Forall_map.
    + rewrite map_id. by rewrite SortStableFunc_permutation, Hnames.
    + by rewrite !SortStableFunc_permutation, Hnames, Hp.
  - intros name info Hi. rewrite SortStableFunc_permutation, list_elem_of_In, in_map_iff. exists (name, info). split; [done|].
    rewrite <-list_elem_of_In, Hp. by apply elem_of_map_to_list.
Qed.

Lemma interface_states_spec_witness :
  let m := _updateInterfaces toy_hash sample_key [any_interface] (Some [(eth0, [])]) (New protocol [any_interface] true) in
  map is_Name (InterfaceStates (map_to_list (_interfaces m)) m) = ["eth0"%string] /\
  NoDup (map is_Name (InterfaceStates (map_to_list (_interfaces m)) m)).
Proof.
  cbv zeta. destruct (interface_states_spec toy_hash sample_key [any_interface] (Some [(eth0, [])]) (New protocol [any_interface] true) _ (reflexivity _))
    as (H1 & _ & H3 & _). split; [|exact H3]. rewrite H1. vm_compute. reflexivity.
Defined.
