(* ===== verification/Jumper.v ===== *)
(** * Jumper: opportunistic direct links (ygglib/jumper/manager.go)

    The manager watches the keys that traffic is sent to, fetches the addresses
    that these nodes publish in their node info and adds them as peers.

    A goroutine is a [prog], a tree of the instructions between two points at
    which other goroutines can run: a section that holds the mutex, a call into
    the core, a channel operation, an unlocked read.  [step_prog] runs one
    instruction on the shared state, [exec] lets any goroutine take its next
    one, so calls of the API, the loop and the fetches interleave freely.  The
    core is the environment: its answers are arguments of the step. *)

From Stdlib Require Import Ascii.
From S2P Require Import Prelude GoStd Transport Links Core.

(** ** Data *)

Definition NodeInfoKey : string := "jumper".
Definition Second : Z := 1000000000.
Definition defaultCheckInterval : Z := 10 * Second.
Definition defaultLinkTimeout : Z := 30 * Second.
Definition minimumLinkTimeout : Z := Second.

Record Config := mkConfig { CheckInterval : Z; LinkTimeout : Z }.

Record ownedLink := mkOwned { o_target : string; o_uri : string; o_added : Z }.

Record targetState := mkTarget {
  pending : bool;
  fetching : bool;
  fetched : bool;
  addrs : list string;
  tried : gset string
}.

(** [stop] and [done] name channels, [wake] says whether the buffered channel
    holds its one element. *)
Record Manager := mkManager {
  config : Config;
  active : bool;
  stopping : bool;
  closed : bool;
  targets : gmap string targetState;
  owned : gmap string ownedLink;
  stop : option Z;
  done : option Z;
  wake : bool
}.

Definition normalizeConfig (c : Config) : Config :=
  let c := if CheckInterval c <=? 0 then mkConfig defaultCheckInterval (LinkTimeout c) else c in
  let c := if LinkTimeout c <=? 0 then mkConfig (CheckInterval c) defaultLinkTimeout else c in
  if LinkTimeout c <? minimumLinkTimeout then mkConfig (CheckInterval c) minimumLinkTimeout else c.

Definition NewManager (c : Config) : Manager :=
  mkManager (normalizeConfig c) false false false ∅ ∅ None None false.

Definition IsStarted (m : Manager) : bool := active m && negb (stopping m) && negb (closed m).

Definition uriConfigured (peers : list PeerInfo) (uri : string) : bool :=
  existsb (fun peer => bool_decide (URI peer = uri)) peers.
Definition peerUpWithURI (peers : list PeerInfo) (uri : string) : bool :=
  existsb (fun peer => bool_decide (URI peer = uri) && Up peer) peers.

(** ** State updates *)

Definition set_config (c : Config) (m : Manager) : Manager :=
  mkManager c (active m) (stopping m) (closed m) (targets m) (owned m) (stop m) (done m) (wake m).
Definition set_flags (a s c : bool) (m : Manager) : Manager :=
  mkManager (config m) a s c (targets m) (owned m) (stop m) (done m) (wake m).
Definition set_targets (t : gmap string targetState) (m : Manager) : Manager :=
  mkManager (config m) (active m) (stopping m) (closed m) t (owned m) (stop m) (done m) (wake m).
Definition set_owned (o : gmap string ownedLink) (m : Manager) : Manager :=
  mkManager (config m) (active m) (stopping m) (closed m) (targets m) o (stop m) (done m) (wake m).
Definition set_channels (s d : option Z) (m : Manager) : Manager :=
  mkManager (config m) (active m) (stopping m) (closed m) (targets m) (owned m) s d (wake m).
Definition set_wake (b : bool) (m : Manager) : Manager :=
  mkManager (config m) (active m) (stopping m) (closed m) (targets m) (owned m) (stop m) (done m) b.

(** [stateForTargetLocked]: the entry, created when it is missing. *)
Definition stateForTargetLocked (target : string) (m : Manager) : targetState :=
  default (mkTarget false false false [] ∅) (targets m !! target).

Definition put_target (target : string) (st : targetState) (m : Manager) : Manager :=
  set_targets (<[target := st]> (targets m)) m.

(** ** Instructions *)

Inductive prog (A : Type) : Type :=
| Ret (a : A)
| Locked {X : Set} (f : Z -> Z -> Manager -> X * Manager) (k : X -> prog A)
| Now (k : Z -> prog A)
| ReadStop (k : option Z -> prog A)
| ReadDone (k : option Z -> prog A)
| GetPeers (k : list PeerInfo -> prog A)
| AddPeer (target addr : string) (u : URL) (k : option linkError -> prog A)
| RemovePeer (o : ownedLink) (u : URL) (k : option linkError -> prog A)
| GetNodeInfo (target : string) (k : bytes -> prog A)
| SignalWake (k : prog A)
| CloseChan (c : option Z) (k : prog A)
| Receive (c : option Z) (k : prog A)
| GoLoop (k : prog A)
| GoFetch (target : string) (k : prog A)
| Select (c : option Z) (deadline : Z).
Arguments Ret {A}. Arguments Locked {A X}. Arguments Now {A}. Arguments ReadStop {A}.
Arguments ReadDone {A}. Arguments GetPeers {A}. Arguments AddPeer {A}.
Arguments RemovePeer {A}. Arguments GetNodeInfo {A}. Arguments SignalWake {A}.
Arguments CloseChan {A}. Arguments Receive {A}. Arguments GoLoop {A}.
Arguments GoFetch {A}. Arguments Select {A}.

(** Sequencing; [Select] is the end of a run of the loop body. *)
Fixpoint pbind {A B} (p : prog A) (g : A -> prog B) : prog B :=
  match p with
  | Ret a => g a
  | Locked f k => Locked f (fun x => pbind (k x) g)
  | Now k => Now (fun x => pbind (k x) g)
  | ReadStop k => ReadStop (fun x => pbind (k x) g)
  | ReadDone k => ReadDone (fun x => pbind (k x) g)
  | GetPeers k => GetPeers (fun x => pbind (k x) g)
  | AddPeer t a u k => AddPeer t a u (fun x => pbind (k x) g)
  | RemovePeer o u k => RemovePeer o u (fun x => pbind (k x) g)
  | GetNodeInfo t k => GetNodeInfo t (fun x => pbind (k x) g)
  | SignalWake k => SignalWake (pbind k g)
  | CloseChan c k => CloseChan c (pbind k g)
  | Receive c k => Receive c (pbind k g)
  | GoLoop k => GoLoop (pbind k g)
  | GoFetch t k => GoFetch t (pbind k g)
  | Select c d => Select c d
  end.

Notation "'let*' x ':=' p 'in' q" := (pbind p (fun x => q))
  (at level 10, x pattern, p at level 100, q at level 200) : go_scope.
Notation "p ;;; q" := (pbind p (fun _ => q)) (at level 100, q at level 200, right associativity) : go_scope.

(** The instructions as programs of their own. *)
Definition locked {X : Set} (f : Z -> Z -> Manager -> X * Manager) : prog X := Locked f Ret.
Definition modify (f : Manager -> Manager) : prog unit := Locked (fun _ _ m => (tt, f m)) Ret.
Definition reads {X : Set} (f : Manager -> X) : prog X := Locked (fun _ _ m => (f m, m)) Ret.
Definition getPeers : prog (list PeerInfo) := GetPeers Ret.
Definition signalWake : prog unit := SignalWake (Ret tt).

#[export] Instance linkError_eq_dec : EqDecision linkError.
Proof. solve_decision. Defined.

Section Manager.
(** [url.Parse], [URL.String], and the decoding of the node info: the addresses
    listed under "jumper", or nothing when it is not the expected JSON. *)
Context (url_Parse : string -> option URL) (url_String : URL -> string).
Context (Unmarshal : bytes -> option (list string)).

(** ** Addresses *)

Fixpoint normalize_loop (seen : gset string) (addresses : list string) : list string :=
  match addresses with
  | [] => []
  | addr :: rest =>
      let addr := TrimSpace addr in
      if bool_decide (addr = EmptyString) then normalize_loop seen rest
      else match url_Parse addr with
           | None => normalize_loop seen rest
           | Some u =>
               if bool_decide (Scheme u = EmptyString) || bool_decide (Host u = EmptyString)
               then normalize_loop seen rest
               else
                 let addr := url_String u in
                 if bool_decide (addr ∈ seen) then normalize_loop seen rest
                 else addr :: normalize_loop ({[addr]} ∪ seen) rest
           end
  end.
Definition normalizeAddresses (addresses : list string) : list string := normalize_loop ∅ addresses.

Definition AdvertisedNodeInfo (addresses : list string) : option (gmap string (gmap string (list string))) :=
  match normalizeAddresses addresses with
  | [] => None
  | clean => Some {[ NodeInfoKey := {[ "addresses"%string := clean ]} ]}
  end.

Definition parseNodeInfoAddresses (info : bytes) : list string :=
  match info with
  | [] => []
  | _ => match Unmarshal info with
         | None => []
         | Some Addresses => normalizeAddresses Addresses
         end
  end.

(** ** The API *)

Definition Start (has_core : bool) : prog bool :=
  if negb has_core then Ret false
  else
    let* started := locked (fun _ fresh m =>
      if active m || stopping m || closed m then (false, m)
      else (true, set_flags true (stopping m) (closed m) (set_channels (Some fresh) (Some (fresh + 1)) m))) in
    if started then GoLoop (signalWake ;;; Ret true) else Ret false.

Definition Stop : prog unit :=
  let* r := locked (fun _ _ m =>
    if negb (active m) && negb (stopping m) then (None, m)
    else if stopping m then (Some (stop m, done m, true), m)
    else (Some (stop m, done m, false), set_flags (active m) true (closed m) m)) in
  match r with
  | None => Ret tt
  | Some (stop, done, true) => Receive done (Ret tt)
  | Some (stop, done, false) => CloseChan stop (Receive done (Ret tt))
  end.

Definition Close : prog unit :=
  let* was := locked (fun _ _ m => (closed m, set_flags (active m) (stopping m) true m)) in
  if was then Ret tt else Stop.

Definition NotifyTraffic (key : bytes) : prog unit :=
  if negb (length key =? 32)%nat then Ret tt
  else
    let target := hex_EncodeToString key in
    modify (fun m =>
      let st := stateForTargetLocked target m in
      put_target target (mkTarget true (fetching st) (fetched st) (addrs st) (tried st)) m) ;;;
    signalWake.

Definition SetConfig (c : Config) : prog unit :=
  modify (set_config (normalizeConfig c)) ;;; signalWake.

(** ** Helpers of the loop *)

(** The sorted targets. *)
Definition targetsSnapshot : prog (list string) :=
  reads (fun m => merge_sort String.le (elements (dom (targets m)))).
Definition stateForTarget (target : string) : prog (option targetState) :=
  reads (fun m => targets m !! target).
Definition markTried (target uri : string) : prog unit :=
  modify (fun m =>
    let st := stateForTargetLocked target m in
    put_target target (mkTarget (pending st) (fetching st) (fetched st) (addrs st) ({[uri]} ∪ tried st)) m).
Definition rememberOwned (target uri : string) : prog unit :=
  locked (fun now _ m => (tt, set_owned (<[uri := mkOwned target uri now]> (owned m)) m)).
Definition configSnapshot : prog Config := reads config.
Definition checkInterval : prog Z := let* c := configSnapshot in Ret (CheckInterval c).

Definition targetDirectlyConnected (target : string) : prog bool :=
  match hex_DecodeString target with
  | None => Ret false
  | Some key =>
      let* peers := getPeers in
      Ret (existsb (fun peer => Up peer && bool_decide (Key peer = key)) peers)
  end.

Definition targetHasPublishedLinkConfigured (target : string) : prog bool :=
  let* state := stateForTarget target in
  match state with
  | None => Ret false
  | Some state =>
      match addrs state with
      | [] => Ret false
      | l => let* peers := getPeers in Ret (existsb (uriConfigured peers) l)
      end
  end.

(** The goroutine that fetches the node info of a target. *)
Definition fetch (target : string) : prog unit :=
  let* info := GetNodeInfo target Ret in
  let l := parseNodeInfoAddresses info in
  modify (fun m =>
    let st := stateForTargetLocked target m in
    put_target target (mkTarget (pending st) false true l (tried st)) m) ;;;
  signalWake.

Definition fetchTargetNodeInfo (target : string) : prog unit :=
  let* go := locked (fun _ _ m =>
    let st := stateForTargetLocked target m in
    if fetching st then (false, put_target target st m)
    else (true, put_target target (mkTarget (pending st) true (fetched st) (addrs st) (tried st)) m)) in
  if go then GoFetch target (Ret tt) else Ret tt.

(** [cleanupOwned(force)] with the map range in the order of [map_to_list]; the
    removals commute. *)
Definition removable (force : bool) (peers : list PeerInfo) (now : Z) (c : Config) (o : ownedLink) (uri : string) : bool :=
  negb (peerUpWithURI peers uri && negb force) &&
  negb (negb force && (now - o_added o <? LinkTimeout c)).

Fixpoint remove_all (remove : list ownedLink) : prog unit :=
  match remove with
  | [] => Ret tt
  | o :: remove =>
      match url_Parse (o_uri o) with
      | None => remove_all remove
      | Some u =>
          let* err := RemovePeer o u Ret in
          match err with
          | None | Some ErrLinkNotConfigured => signalWake ;;; remove_all remove
          | Some _ => remove_all remove
          end
      end
  end.

Definition cleanupOwned (force : bool) : prog unit :=
  let* peers := getPeers in
  let* c := configSnapshot in
  let* now := Now Ret in
  let* remove := locked (fun _ _ m =>
    let gone := filter (fun '(uri, o) => removable force peers now c o uri = true) (map_to_list (owned m)) in
    (map snd gone, set_owned (filter (fun '(uri, o) => removable force peers now c o uri = false) (owned m)) m)) in
  remove_all remove.

(** The loop over the published addresses, with the copy of the state taken
    before it. *)
Fixpoint try_addrs (target : string) (state : targetState) (l : list string) : prog unit :=
  match l with
  | [] => Ret tt
  | addr :: l =>
      if bool_decide (addr ∈ tried state) then try_addrs target state l
      else
        let* peers := getPeers in
        if uriConfigured peers addr then Ret tt
        else
          match url_Parse addr with
          | None => markTried target addr ;;; try_addrs target state l
          | Some u =>
              let* err := AddPeer target addr u Ret in
              match err with
              | Some ErrLinkAlreadyConfigured => Ret tt
              | Some _ => markTried target addr ;;; try_addrs target state l
              | None => rememberOwned target (url_String u) ;;; markTried target addr ;;; Ret tt
              end
          end
  end.

Definition checkTarget (target : string) : prog unit :=
  let* direct := targetDirectlyConnected target in
  if direct then Ret tt
  else
    let* configured := targetHasPublishedLinkConfigured target in
    if configured then Ret tt
    else
      let* state := stateForTarget target in
      match state with
      | None => Ret tt
      | Some state =>
          if negb (pending state) then Ret tt
          else match addrs state with
               | [] => if negb (fetched state) then fetchTargetNodeInfo target else Ret tt
               | l => try_addrs target state l
               end
      end.

Fixpoint check_all (l : list string) : prog unit :=
  match l with [] => Ret tt | target :: l => checkTarget target ;;; check_all l end.

Definition checkNow : prog unit :=
  cleanupOwned false ;;; let* l := targetsSnapshot in check_all l.

(** ** The loop *)

(** The timer is set to the interval and the loop waits in its select. *)
Definition to_select {A} : prog A :=
  let* d := checkInterval in
  let* now := Now Ret in
  let* stop := ReadStop Ret in
  Select stop (now + d).

Definition loop_start {A} : prog A := to_select.
Definition loop_body {A} : prog A := checkNow ;;; to_select.

(** The deferred function. *)
Definition loop_end : prog unit :=
  cleanupOwned false ;;;
  modify (fun m => set_flags false false (closed m) m) ;;;
  let* d := ReadDone Ret in
  match d with None => Ret tt | Some _ => ReadDone (fun d => CloseChan d (Ret tt)) end.

(** ** The world

    What the goroutines share: the manager, the clock, the next unused channel,
    the closed channels, whether a goroutine has panicked, and the history, with
    the newest entry first. *)

Inductive entry :=
| HNotify (key : bytes)
| HInfo (target : string) (info : bytes)
| HPeers (peers : list PeerInfo)
| HAdd (target addr : string) (u : URL) (r : option linkError) (at_ : Z)
| HRemove (o : ownedLink) (u : URL) (r : option linkError) (at_ : Z)
| HCheck.

Record Shared := mkShared {
  mgr : Manager;
  clk : Z;
  fresh : Z;
  closedch : gset Z;
  panicked : bool;
  hist : list entry
}.

Definition set_mgr (m : Manager) (s : Shared) : Shared :=
  mkShared m (clk s) (fresh s) (closedch s) (panicked s) (hist s).
Definition log (e : entry) (s : Shared) : Shared :=
  mkShared (mgr s) (clk s) (fresh s) (closedch s) (panicked s) (e :: hist s).
Definition alloc (s : Shared) : Shared :=
  mkShared (mgr s) (clk s) (fresh s + 2) (closedch s) (panicked s) (hist s).
Definition tick (d : Z) (s : Shared) : Shared :=
  mkShared (mgr s) (clk s + d) (fresh s) (closedch s) (panicked s) (hist s).
Definition panic (s : Shared) : Shared :=
  mkShared (mgr s) (clk s) (fresh s) (closedch s) true (hist s).

(** Closing a nil or a closed channel panics. *)
Definition close_chan (c : option Z) (s : Shared) : Shared :=
  match c with
  | None => panic s
  | Some c => if bool_decide (c ∈ closedch s) then panic s
              else mkShared (mgr s) (clk s) (fresh s) ({[c]} ∪ closedch s) (panicked s) (hist s)
  end.
Definition is_closed (c : option Z) (s : Shared) : bool :=
  match c with None => false | Some c => bool_decide (c ∈ closedch s) end.

(** What the environment answers: the core to a call, the runtime which case of
    the select it takes. *)
Inductive case := CStop | CWake | CTimer.
Inductive answer :=
| ANone
| APeers (peers : list PeerInfo)
| AErr (r : option linkError)
| AInfo (info : bytes)
| ACase (c : case).

(** A goroutine is the API call or the loop body it is in the middle of. *)
Abbreviation thread := (prog (option bool)).
Definition returning (p : prog unit) : thread := p ;;; Ret None.

(** One instruction: the rest of the program, the state, and the goroutine that
    it started. *)
Definition step_prog (p : thread) (a : answer) (s : Shared) : option (thread * Shared * list thread) :=
  match p, a with
  | Locked f k, ANone => let '(x, m) := f (clk s) (fresh s) (mgr s) in Some (k x, alloc (set_mgr m s), [])
  | Now k, ANone => Some (k (clk s), s, [])
  | ReadStop k, ANone => Some (k (stop (mgr s)), s, [])
  | ReadDone k, ANone => Some (k (done (mgr s)), s, [])
  | GetPeers k, APeers peers => Some (k peers, log (HPeers peers) s, [])
  | AddPeer t addr u k, AErr r => Some (k r, log (HAdd t addr u r (clk s)) s, [])
  | RemovePeer o u k, AErr r => Some (k r, log (HRemove o u r (clk s)) s, [])
  | GetNodeInfo t k, AInfo info => Some (k info, log (HInfo t info) s, [])
  | SignalWake k, ANone => Some (k, set_mgr (set_wake true (mgr s)) s, [])
  | CloseChan c k, ANone => Some (k, close_chan c s, [])
  | Receive c k, ANone => if is_closed c s then Some (k, s, []) else None
  | GoLoop k, ANone => Some (k, s, [loop_start])
  | GoFetch t k, ANone => Some (k, s, [returning (fetch t)])
  | Select c d, ACase CStop => if is_closed c s then Some (returning loop_end, s, []) else None
  | Select c d, ACase CWake =>
      if wake (mgr s) then Some (loop_body, log HCheck (set_mgr (set_wake false (mgr s)) s), []) else None
  | Select c d, ACase CTimer => if d <=? clk s then Some (loop_body, log HCheck s, []) else None
  | _, _ => None
  end.

Record World := mkWorld { shared : Shared; threads : list thread }.

Definition World_init (c : Config) : World := mkWorld (mkShared (NewManager c) 0 0 ∅ false []) [].

Inductive call := CallStart (has_core : bool) | CallStop | CallClose | CallNotify (key : bytes) | CallSetConfig (c : Config).

Definition call_prog (c : call) : thread :=
  match c with
  | CallStart has_core => let* b := Start has_core in Ret (Some b)
  | CallStop => returning Stop
  | CallClose => returning Close
  | CallNotify key => returning (NotifyTraffic key)
  | CallSetConfig c => returning (SetConfig c)
  end.

Inductive event := Call (c : call) | Run (i : nat) (a : answer) | Tick (d : Z).

Definition exec (e : event) (w : World) : option World :=
  if panicked (shared w) then None
  else match e with
       | Call c =>
           let s := match c with CallNotify key => log (HNotify key) (shared w) | _ => shared w end in
           Some (mkWorld s (threads w ++ [call_prog c]))
       | Run i a =>
           match threads w !! i with
           | None => None
           | Some p =>
               match step_prog p a (shared w) with
               | None => None
               | Some (p, s, new) => Some (mkWorld s (<[i := p]> (threads w) ++ new))
               end
           end
       | Tick d => if 0 <=? d then Some (mkWorld (tick d (shared w)) (threads w)) else None
       end.

Fixpoint exec_list (es : list event) (w : World) : option World :=
  match es with
  | [] => Some w
  | e :: es => match exec e w with None => None | Some w => exec_list es w end
  end.

Inductive reachable (c : Config) : World -> Prop :=
| reach_init : reachable c (World_init c)
| reach_step e w w' : reachable c w -> exec e w = Some w' -> reachable c w'.


(** ** What is true of the shared state *)

Definition notified (h : list entry) (target : string) : Prop :=
  exists key, HNotify key ∈ h /\ length key = 32%nat /\ hex_EncodeToString key = target.
Definition published (h : list entry) (target addr : string) : Prop :=
  exists info, HInfo target info ∈ h /\ addr ∈ parseNodeInfoAddresses info.

(** The peer list the loop has looked at last. *)
Fixpoint last_peers (h : list entry) : list PeerInfo :=
  match h with [] => [] | HPeers peers :: _ => peers | _ :: h => last_peers h end.

Definition is_add (uri : string) (e : entry) : bool :=
  match e with HAdd _ _ u None _ => bool_decide (url_String u = uri) | _ => false end.
Definition is_remove (uri : string) (e : entry) : bool :=
  match e with HRemove o _ _ _ => bool_decide (o_uri o = uri) | _ => false end.
Definition count (p : entry -> bool) (h : list entry) : nat := length (filter (fun e => p e = true) h).

(** A dial goes to an address that a node with traffic publishes, that is not
    in the peer list, and that was not dialed before, unless the link was there
    already. *)
Definition add_ok (h : list entry) (target addr : string) (u : URL) : Prop :=
  notified h target /\ published h target addr /\ url_Parse addr = Some u /\
  uriConfigured (last_peers h) addr = false /\
  forall u' r t, HAdd target addr u' r t ∈ h -> r = Some ErrLinkAlreadyConfigured.

(** A link is removed only if the manager added it for this target at least a
    second ago, it is not up, and it was not removed since. *)
Definition remove_ok (h : list entry) (o : ownedLink) (u : URL) (now : Z) : Prop :=
  url_Parse (o_uri o) = Some u /\
  (exists addr u0 t, HAdd (o_target o) addr u0 None t ∈ h /\ url_String u0 = o_uri o /\ t + minimumLinkTimeout <= now) /\
  peerUpWithURI (last_peers h) (o_uri o) = false /\
  (count (is_remove (o_uri o)) h < count (is_add (o_uri o)) h)%nat.

Fixpoint hist_ok (h : list entry) : Prop :=
  match h with
  | [] => True
  | e :: h =>
      match e with
      | HAdd target addr u _ _ => add_ok h target addr u
      | HRemove o u _ now => remove_ok h o u now
      | _ => True
      end /\ hist_ok h
  end.

Definition owned_ok (h : list entry) (now : Z) (uri : string) (o : ownedLink) : Prop :=
  o_uri o = uri /\
  exists addr u0 t, HAdd (o_target o) addr u0 None t ∈ h /\ url_String u0 = uri /\ t <= o_added o <= now.

(** What is true when the loop waits: every dialed address is marked, and no
    link is owned twice.  [unmarked] is a dial that is about to be marked,
    [extra] counts links that are being added or removed. *)
Definition tried_of (target : string) (m : Manager) : gset string := tried (stateForTargetLocked target m).
Definition dials_marked (unmarked : option (string * string)) (s : Shared) : Prop :=
  forall target addr u r t, HAdd target addr u r t ∈ hist s -> r <> Some ErrLinkAlreadyConfigured ->
    addr ∈ tried_of target (mgr s) \/ unmarked = Some (target, addr).
Definition owned_count (uri : string) (m : Manager) : nat :=
  match owned m !! uri with Some _ => 1 | None => 0 end.
Definition balanced (extra : string -> nat) (s : Shared) : Prop :=
  forall uri, (count (is_remove uri) (hist s) + owned_count uri (mgr s) + extra uri <= count (is_add uri) (hist s))%nat.
Definition at_select (s : Shared) : Prop := dials_marked None s /\ balanced (fun _ => 0%nat) s.

Record inv (s : Shared) : Prop := mkInv {
  inv_targets : forall target st, targets (mgr s) !! target = Some st ->
    (pending st = true -> notified (hist s) target) /\
    NoDup (addrs st) /\ (forall addr, addr ∈ addrs st -> published (hist s) target addr);
  inv_config : minimumLinkTimeout <= LinkTimeout (config (mgr s));
  inv_owned : forall uri o, owned (mgr s) !! uri = Some o -> owned_ok (hist s) (clk s) uri o;
  inv_hist : hist_ok (hist s);
  inv_rest : active (mgr s) = false -> at_select s
}.

(** ** Rely and guarantee

    The goroutine that has set [active] owns the link bookkeeping.  [quiet]
    entries are the ones that the other goroutines make. *)
Definition quiet (e : entry) : Prop := match e with HNotify _ | HInfo _ _ => True | _ => False end.

Definition extends (own : bool) (s s' : Shared) : Prop :=
  (exists es, hist s' = es ++ hist s /\ (own = true -> Forall quiet es)) /\ clk s <= clk s'.

Definition same_books (m m' : Manager) : Prop :=
  (forall target, tried_of target m' = tried_of target m) /\ owned m' = owned m.

(** What a goroutine relies on while it is not running. *)
Definition rely (own : bool) (s s' : Shared) : Prop :=
  inv s' /\ extends own s s' /\
  (own = true -> same_books (mgr s) (mgr s') /\ active (mgr s') = true).

(** What a section with the mutex does: only an owner touches the books, and
    ownership is taken when [active] is set. *)
Definition move (own own' : bool) (m m' : Manager) : Prop :=
  (own = false -> same_books m m') /\
  (if own then active m' = own' else if own' then active m = false /\ active m' = true else active m' = active m).

(** Every step of the program keeps its side of this, and what it returns
    satisfies [Q]. *)
Fixpoint safe {A} (Q : bool -> A -> Shared -> Prop) (own : bool) (p : prog A) (s : Shared) : Prop :=
  match p with
  | Ret a => Q own a s
  | Select _ _ => own = true /\ at_select s
  | Locked f k => forall s1, rely own s s1 ->
      let '(x, m) := f (clk s1) (fresh s1) (mgr s1) in let s2 := alloc (set_mgr m s1) in
      exists own', move own own' (mgr s1) m /\ inv s2 /\ safe Q own' (k x) s2
  | Now k => forall s1, rely own s s1 -> safe Q own (k (clk s1)) s1
  | ReadStop k => forall s1, rely own s s1 -> safe Q own (k (stop (mgr s1))) s1
  | ReadDone k => forall s1, rely own s s1 -> safe Q own (k (done (mgr s1))) s1
  | GetPeers k => own = true /\ forall s1 peers, rely own s s1 -> safe Q own (k peers) (log (HPeers peers) s1)
  | AddPeer t addr u k => own = true /\ forall s1, rely own s s1 ->
      add_ok (hist s1) t addr u /\ forall r, safe Q own (k r) (log (HAdd t addr u r (clk s1)) s1)
  | RemovePeer o u k => own = true /\ forall s1, rely own s s1 ->
      remove_ok (hist s1) o u (clk s1) /\ forall r, safe Q own (k r) (log (HRemove o u r (clk s1)) s1)
  | GetNodeInfo t k => forall s1 info, rely own s s1 -> safe Q own (k info) (log (HInfo t info) s1)
  | SignalWake k => forall s1, rely own s s1 -> safe Q own k (set_mgr (set_wake true (mgr s1)) s1)
  | CloseChan c k => forall s1, rely own s s1 -> safe Q own k (close_chan c s1)
  | Receive c k => forall s1, rely own s s1 -> safe Q own k s1
  | GoLoop k => own = true /\ forall s1, rely own s s1 -> at_select s1 /\ safe Q false k s1
  | GoFetch t k => forall s1, rely own s s1 -> safe Q own k s1
  end.

Lemma extends_refl own s : extends own s s.
Proof. split; [exists []; by split|lia]. Qed.

Lemma extends_trans own s1 s2 s3 : extends own s1 s2 -> extends own s2 s3 -> extends own s1 s3.
Proof.
  intros [(es & E & Hq) Hc] [(es' & E' & Hq') Hc']. split; [|lia].
  exists (es' ++ es). split; [by rewrite E', E, (assoc_L (++))|]. intros Ho. apply Forall_app. auto.
Qed.

Lemma same_books_refl m : same_books m m.
Proof. by split. Qed.
Lemma same_books_trans m1 m2 m3 : same_books m1 m2 -> same_books m2 m3 -> same_books m1 m3.
Proof. intros [H1 H2] [H3 H4]. split; [intros t; by rewrite H3|congruence]. Qed.

Lemma rely_refl own s : inv s -> (own = true -> active (mgr s) = true) -> rely own s s.
Proof. intros H Ha. split_and!; [done|apply extends_refl|]. intros Ho. split; [apply same_books_refl|auto]. Qed.

Lemma rely_trans own s1 s2 s3 : rely own s1 s2 -> rely own s2 s3 -> rely own s1 s3.
Proof.
  intros (_ & E1 & B1) (I2 & E2 & B2). split_and!; [done|by eapply extends_trans|].
  intros Ho. destruct (B1 Ho) as [S1 A1]. destruct (B2 Ho) as [S2 A2].
  split; [by eapply same_books_trans|done].
Qed.

(** *** The invariant under logging *)

Lemma notified_app es h t : notified h t -> notified (es ++ h) t.
Proof. intros (key & Hk & H). exists key. rewrite elem_of_app. eauto. Qed.
Lemma published_app es h t a : published h t a -> published (es ++ h) t a.
Proof. intros (i & Hi & H). exists i. rewrite elem_of_app. eauto. Qed.
Lemma owned_ok_app es h now now' uri o : owned_ok h now uri o -> now <= now' -> owned_ok (es ++ h) now' uri o.
Proof.
  intros (H1 & addr & u0 & t & Hin & Hu & Ht) Hn. split; [done|]. exists addr, u0, t.
  rewrite elem_of_app. split_and!; [by right|done|lia|lia].
Qed.

(** The invariant holds in a state with the same targets, configuration and
    owned links, a longer history and a later clock. *)
Lemma inv_weaken s s' es :
  inv s -> targets (mgr s') = targets (mgr s) -> config (mgr s') = config (mgr s) -> owned (mgr s') = owned (mgr s) ->
  hist s' = es ++ hist s -> clk s <= clk s' -> hist_ok (hist s') -> (active (mgr s') = false -> at_select s') -> inv s'.
Proof.
  intros [H1 H2 H3 _ _] Et Ec Eo Eh Hc Hok Hr. split; rewrite ?Et, ?Ec, ?Eo; [| |rewrite Eh|..]; try done.
  - rewrite Eh. intros t st Hst. destruct (H1 t st Hst) as (Hp & Hn & Ha).
    split_and!; [intros Hp'; by apply notified_app, Hp|done|intros a Hin; by apply published_app, Ha].
  - intros u o Ho. eapply owned_ok_app; eauto.
Qed.

Lemma at_select_same s s' :
  targets (mgr s') = targets (mgr s) -> owned (mgr s') = owned (mgr s) -> hist s' = hist s -> at_select s -> at_select s'.
Proof.
  intros Et Eo Eh [H1 H2]. split.
  - intros t a u r n. unfold tried_of, stateForTargetLocked. rewrite Et, Eh. apply H1.
  - intros uri. unfold owned_count. rewrite Eo, Eh. apply H2.
Qed.

(** Same history, targets, owned links and timeout. *)
Lemma inv_same s s' :
  inv s -> targets (mgr s') = targets (mgr s) -> owned (mgr s') = owned (mgr s) -> hist s' = hist s -> clk s <= clk s' ->
  config (mgr s') = config (mgr s) -> (active (mgr s') = false -> active (mgr s) = false \/ at_select s) -> inv s'.
Proof.
  intros H Et Eo Eh Hc Ec Ha. eapply (inv_weaken s s' []); try done; [rewrite Eh; apply H|].
  intros Hf. apply (at_select_same s); try done. destruct (Ha Hf) as [Hf'|]; [by apply (inv_rest s)|done].
Qed.

Lemma inv_wake b s : inv s -> inv (set_mgr (set_wake b (mgr s)) s).
Proof. intros H. apply (inv_same s); simpl; auto; lia. Qed.

Lemma inv_close_chan c s : inv s -> inv (close_chan c s).
Proof.
  intros H. unfold close_chan, panic. destruct c as [c|]; [case_bool_decide|];
    apply (inv_same s); simpl; auto; lia.
Qed.

(** *** What the owner knows does not change behind its back *)

Lemma quiet_not_add es t a u r n : Forall quiet es -> HAdd t a u r n ∉ es.
Proof. rewrite Forall_forall. intros H Hin. by apply H in Hin. Qed.

Lemma count_quiet p es h :
  Forall quiet es -> (forall e, quiet e -> p e = false) -> count p (es ++ h) = count p h.
Proof.
  intros Hq Hp. unfold count. rewrite filter_app, length_app.
  induction Hq as [|e es He _ IH]; [done|]. rewrite filter_cons, decide_False; [done|].
  by rewrite Hp.
Qed.

Lemma dials_marked_rely unmarked s s' : rely true s s' -> dials_marked unmarked s -> dials_marked unmarked s'.
Proof.
  intros (_ & [(es & E & Hq) _] & B) H t a u r n. destruct (B eq_refl) as [[S _] _]. rewrite E, S.
  intros [Hin|Hin]%elem_of_app; [by apply quiet_not_add in Hin; auto|by eapply H].
Qed.

Lemma balanced_rely extra s s' : rely true s s' -> balanced extra s -> balanced extra s'.
Proof.
  intros (_ & [(es & E & Hq) _] & B) H uri. destruct (B eq_refl) as [[_ S] _].
  unfold owned_count. rewrite E, S, !count_quiet by (auto; by intros []). apply H.
Qed.

Lemma dials_marked_log unmarked s e :
  (forall t a u r n, e <> HAdd t a u r n) -> dials_marked unmarked s -> dials_marked unmarked (log e s).
Proof. intros He H t a u r n [Hin|Hin]%elem_of_cons; [by destruct (He t a u r n)|by eapply H]. Qed.

Lemma count_cons p e h : count p (e :: h) = ((if p e then 1 else 0) + count p h)%nat.
Proof. unfold count. rewrite filter_cons. destruct (p e) eqn:E; [by rewrite decide_True|by rewrite decide_False by congruence]. Qed.

Lemma balanced_log extra s e :
  (forall uri, is_add uri e = false /\ is_remove uri e = false) -> balanced extra s -> balanced extra (log e s).
Proof. intros He H uri. simpl. rewrite !count_cons. destruct (He uri) as [-> ->]. apply H. Qed.

Lemma inv_log e s :
  inv s -> match e with
           | HAdd target addr u _ _ => add_ok (hist s) target addr u
           | HRemove o u _ now => remove_ok (hist s) o u now
           | _ => True
           end -> (active (mgr s) = true \/ quiet e) -> inv (log e s).
Proof.
  intros H He Hq. eapply (inv_weaken s _ [e]); try done; [split; [done|apply H]|].
  intros Hf. change (active (mgr s) = false) in Hf. destruct Hq as [Hq|Hq]; [congruence|].
  destruct (inv_rest s H Hf). split; [apply dials_marked_log|apply balanced_log]; try done; by destruct e.
Qed.

Lemma last_peers_quiet es h : Forall quiet es -> last_peers (es ++ h) = last_peers h.
Proof. induction 1 as [|e es He _ IH]; [done|]. by destruct e. Qed.

Lemma last_peers_rely s s' : rely true s s' -> last_peers (hist s') = last_peers (hist s).
Proof. intros (_ & [(es & E & Hq) _] & _). rewrite E. apply last_peers_quiet. auto. Qed.

Lemma at_select_rely s s' : rely true s s' -> at_select s -> at_select s'.
Proof. intros H [H1 H2]. split; [by eapply dials_marked_rely|by eapply balanced_rely]. Qed.

(** *** Laws of [safe] *)

Lemma safe_rely {A} (Q : bool -> A -> Shared -> Prop) own p s s' :
  (forall own a s s', rely own s s' -> Q own a s -> Q own a s') ->
  rely own s s' -> safe Q own p s -> safe Q own p s'.
Proof.
  intros HQ Hr. destruct p; simpl; try (intros H; intros; eapply H; by eapply rely_trans);
    try (intros [Ho H]; split; [done|]; intros; eapply H; by eapply rely_trans).
  - by apply HQ.
  - intros [-> H]. split; [done|]. by eapply at_select_rely.
Qed.

Lemma safe_bind {A B} (Q : bool -> A -> Shared -> Prop) (Q' : bool -> B -> Shared -> Prop)
    own (p : prog A) (g : A -> prog B) s :
  safe Q own p s -> (forall own a s, Q own a s -> safe Q' own (g a) s) -> safe Q' own (pbind p g) s.
Proof.
  intros H HQ. revert own s H.
  induction p as [a|X f k IH|k IH|k IH|k IH|k IH|t a u k IH|o u k IH|t k IH|k IH|c k IH|c k IH|k IH|t k IH|];
    simpl; intros own s; try done; try (intros H; intros; by apply IH, H);
    try (intros [Ho H]; split; [done|]; intros; by apply IH, H).
  - apply HQ.
  - intros H s1 Hr. specialize (H s1 Hr). destruct (f _ _ _) as [x m]. destruct H as (own' & Hm & Hi & H).
    exists own'. split_and!; [done..|]. by apply IH.
  - intros [Ho H]. split; [done|]. intros s1 Hr. destruct (H s1 Hr) as [H1 H2]. split; [done|].
    intros r. by apply IH.
  - intros [Ho H]. split; [done|]. intros s1 Hr. destruct (H s1 Hr) as [H1 H2]. split; [done|].
    intros r. by apply IH.
  - intros [Ho H]. split; [done|]. intros s1 Hr. destruct (H s1 Hr) as [H1 H2]. split; [done|]. by apply IH.
Qed.


(** *** The programs are safe *)

Definition waiting (own : bool) {A} (_ : A) (s : Shared) : Prop :=
  own = true /\ at_select s /\ inv s /\ active (mgr s) = true.
Definition stable {A} (Q : bool -> A -> Shared -> Prop) : Prop :=
  forall own a s s', rely own s s' -> Q own a s -> Q own a s'.

Lemma rely_active s s' : rely true s s' -> active (mgr s') = true.
Proof. intros (_ & _ & H). by apply H. Qed.
Lemma rely_inv own s s' : rely own s s' -> inv s'.
Proof. by intros []. Qed.

Lemma waiting_stable {A} : stable (fun own (a : A) => waiting own a).
Proof.
  intros own a s s' H (-> & Hs & Hi & Ha).
  split_and!; [done|by eapply at_select_rely|by eapply rely_inv|by eapply rely_active].
Qed.

(** A section that only reads. *)
Lemma safe_reads {A} {X : Set} Q own (f : Manager -> X) (k : X -> prog A) s :
  stable Q -> (forall s1, rely own s s1 -> safe Q own (k (f (mgr s1))) s1) ->
  (own = true -> active (mgr s) = true) ->
  safe Q own (Locked (fun _ _ m => (f m, m)) k) s.
Proof.
  intros HQ H Ha s1 Hr. simpl. exists own. assert (Hi : inv s1) by apply Hr.
  assert (Ha1 : own = true -> active (mgr s1) = true) by (intros ->; by apply Hr).
  assert (Hi2 : inv (alloc (set_mgr (mgr s1) s1))) by (apply (inv_same s1); simpl; auto; lia).
  split_and!; [|done|].
  - split; [intros _; apply same_books_refl|]. by destruct own; [apply Ha1|].
  - eapply safe_rely; [done| |by apply H]. split_and!; [done|split; [exists []; by split|done]|].
    intros Ho. split; [apply same_books_refl|by apply Ha1].
Qed.

(** The links that a cleanup is about to remove. *)
Definition uris_of (uri : string) (l : list ownedLink) : nat := length (filter (fun o => o_uri o = uri) l).
Definition removing (l : list ownedLink) (s : Shared) : Prop :=
  active (mgr s) = true /\ inv s /\ dials_marked None s /\ balanced (fun uri => uris_of uri l) s /\
  forall o, o ∈ l -> peerUpWithURI (last_peers (hist s)) (o_uri o) = false /\
    exists addr u0 t, HAdd (o_target o) addr u0 None t ∈ hist s /\ url_String u0 = o_uri o /\ t + minimumLinkTimeout <= clk s.

Lemma removing_rely l s s' : rely true s s' -> removing l s -> removing l s'.
Proof.
  intros Hr (_ & _ & H1 & H2 & H3). split_and!;
    [by eapply rely_active|by eapply rely_inv|by eapply dials_marked_rely|by eapply balanced_rely|].
  intros o Ho. destruct (H3 o Ho) as (Hp & addr & u0 & t & Hin & Hu & Ht).
  rewrite (last_peers_rely _ _ Hr). split; [done|]. exists addr, u0, t.
  destruct Hr as (_ & [(es & E & _) Hc] & _). rewrite E, elem_of_app. split_and!; [by right|done|lia].
Qed.

Lemma removing_tail o l s : removing (o :: l) s -> removing l s.
Proof.
  intros (H0 & Hi & H1 & H2 & H3). split_and!; try done; [|intros o' Ho'; apply H3; by right].
  intros uri. specialize (H2 uri). unfold uris_of in *. rewrite filter_cons in H2.
  destruct (decide _); simpl in *; lia.
Qed.

Lemma removing_wake b l s : removing l s -> removing l (set_mgr (set_wake b (mgr s)) s).
Proof.
  intros (H0 & Hi & H1 & H2 & H3). split_and!; try done. by apply inv_wake.
Qed.

Lemma remove_ok_removing o l u s : url_Parse (o_uri o) = Some u -> removing (o :: l) s -> remove_ok (hist s) o u (clk s).
Proof.
  intros Hu (_ & _ & _ & Hb & H3). destruct (H3 o) as (Hp & addr & u0 & t & Hin & Es & Ht); [by left|].
  split_and!; [done|by exists addr, u0, t|done|]. specialize (Hb (o_uri o)). unfold uris_of in Hb.
  rewrite filter_cons, decide_True in Hb by done. simpl in Hb. lia.
Qed.

Lemma removing_log o l u r s :
  url_Parse (o_uri o) = Some u -> removing (o :: l) s -> removing l (log (HRemove o u r (clk s)) s).
Proof.
  intros Hu H. pose proof (remove_ok_removing _ _ _ _ Hu H) as Hok. destruct H as (H0 & Hi & H1 & H2 & H3).
  split_and!; [done|apply inv_log; auto|by apply dials_marked_log| |].
  - intros uri. simpl. rewrite !count_cons. simpl. specialize (H2 uri). unfold uris_of in *. simpl in *.
    rewrite filter_cons in H2. case_bool_decide; [rewrite decide_True in H2 by done|rewrite decide_False in H2 by done];
      simpl in *; unfold owned_count in *; simpl in *; lia.
  - intros o' Ho'. destruct (H3 o') as (Hp & addr & u0 & t & Hin & Es & Ht); [by right|].
    split; [done|]. exists addr, u0, t. split_and!; try done. by right.
Qed.

Lemma safe_remove_all l s : removing l s -> safe (fun own a => waiting own a) true (remove_all l) s.
Proof.
  revert s. induction l as [|o l IH]; intros s H; simpl.
  { destruct H as (Ha & Hi & H1 & H2 & _). by split_and!. }
  destruct (url_Parse (o_uri o)) as [u|] eqn:Eu; [|by eapply IH, removing_tail]. simpl.
  split; [done|]. intros s1 Hr. pose proof (removing_rely _ _ _ Hr H) as H'.
  split; [by eapply remove_ok_removing|]. intros r.
  pose proof (removing_log _ _ _ r _ Eu H') as Hl.
  assert (Hgo : safe (fun own a => waiting own a) true (signalWake ;;; remove_all l) (log (HRemove o u r (clk s1)) s1)).
  { simpl. intros s2 Hr2. apply IH, removing_wake. by eapply removing_rely. }
  destruct r as [e|]; [|done]. destruct e; try done; by apply IH.
Qed.

Lemma uris_of_filter (P : string * ownedLink -> Prop) `{!forall x, Decision (P x)} l uri :
  NoDup l.*1 -> (forall u o, (u, o) ∈ l -> o_uri o = u) ->
  (uris_of uri (map snd (filter P l)) <= 1)%nat /\
  ((0 < uris_of uri (map snd (filter P l)))%nat -> exists o, (uri, o) ∈ l /\ P (uri, o)).
Proof.
  intros Hn Hk. unfold uris_of. induction l as [|[u o] l IH]; [simpl; split; lia|].
  apply NoDup_cons in Hn as [Hu Hn]. destruct IH as [IH1 IH2]; [done|by intros; apply Hk; right|].
  assert (Ho : o_uri o = u) by (apply Hk; left).
  rewrite filter_cons. destruct (decide (P (u, o))) as [HP|HP]; cycle 1.
  { split; [done|]. intros Hpos. destruct (IH2 Hpos) as (o' & Hin & HP'). exists o'. split; [by right|done]. }
  simpl. rewrite filter_cons. destruct (decide (o_uri o = uri)) as [E|E]; cycle 1.
  { split; [done|]. intros Hpos. destruct (IH2 Hpos) as (o' & Hin & HP'). exists o'. split; [by right|done]. }
  rewrite E in Ho. subst u. simpl. split.
  - destruct (length (filter _ _)) eqn:El; [lia|]. destruct IH2 as (o' & Hin & _); [lia|].
    destruct Hu. apply list_elem_of_fmap. by exists (uri, o').
  - intros _. exists o. split; [left|done].
Qed.

Lemma safe_cleanupOwned s :
  inv s -> active (mgr s) = true -> at_select s ->
  safe (fun own a => waiting own a) true (cleanupOwned false) s.
Proof.
  intros Hi Ha Hs. unfold cleanupOwned, getPeers, configSnapshot, reads, locked. cbn [pbind].
  split; [done|]. intros s1 peers Hr1. fold (@safe unit).
  assert (Hs1 : at_select s1) by (by eapply at_select_rely).
  assert (Ha1 : active (mgr s1) = true) by (by eapply rely_active).
  set (s1' := log (HPeers peers) s1).
  assert (Hi1' : inv s1') by (apply inv_log; [by eapply rely_inv|done|by left]).
  assert (Hs1' : at_select s1') by (destruct Hs1; split; [by apply dials_marked_log|by apply balanced_log]).
  apply safe_reads; [apply waiting_stable| |done]. intros s2 Hr2.
  assert (Hc : minimumLinkTimeout <= LinkTimeout (config (mgr s2))) by apply Hr2.
  generalize dependent (config (mgr s2)). intros c Hc s3 Hr3 s4 Hr4. fold (@safe unit).
  pose proof (rely_trans _ _ _ _ (rely_trans _ _ _ _ Hr2 Hr3) Hr4) as Hr.
  assert (Hi4 : inv s4) by apply Hr4. assert (Ha4 : active (mgr s4) = true) by (by eapply rely_active).
  destruct (at_select_rely _ _ Hr Hs1') as [Hm Hb].
  assert (Hp4 : last_peers (hist s4) = peers) by apply (last_peers_rely _ _ Hr).
  assert (Hkey : forall u o, (u, o) ∈ map_to_list (owned (mgr s4)) -> o_uri o = u).
  { intros u o Ho%elem_of_map_to_list. by apply (inv_owned _ Hi4) in Ho as [? _]. }
  cbv beta iota zeta.
  set (P := fun '(uri, o) => removable false peers (clk s3) c o uri = true).
  set (kept := filter _ (owned (mgr s4))). exists true.
  assert (Hi5 : inv (alloc (set_mgr (set_owned kept (mgr s4)) s4))).
  { destruct Hi4 as [I1 I2 I3 I4 I5]. split; simpl; try done; [|congruence].
    intros u o Ho. apply I3. by apply map_lookup_filter_Some in Ho as [Ho _]. }
  split_and!; [split; [done|exact Ha4]|exact Hi5|]. apply safe_remove_all. split_and!; try done.
  - intros uri. specialize (Hb uri). simpl. unfold owned_count in *. simpl.
    destruct (uris_of_filter P _ uri (NoDup_fst_map_to_list (owned (mgr s4))) Hkey) as [Hle Hex].
    destruct (decide (0 < uris_of uri (map snd (filter P (map_to_list (owned (mgr s4))))))%nat) as [Hpos|Hz].
    + destruct (Hex Hpos) as (o & Hin%elem_of_map_to_list & HP). rewrite Hin in Hb.
      assert (Hk : kept !! uri = None).
      { apply map_lookup_filter_None. right. intros o' Ho' HP'. simplify_map_eq. unfold P in HP. congruence. }
      rewrite Hk. simpl in *. lia.
    + assert (Hl : match kept !! uri with Some _ => 1 | None => 0 end <= match owned (mgr s4) !! uri with Some _ => 1 | None => 0 end).
      { destruct (kept !! uri) eqn:El; [|destruct (owned _ !! _); lia].
        apply map_lookup_filter_Some in El as [-> _]. lia. }
      destruct (kept !! uri), (owned (mgr s4) !! uri); simpl in *; lia.
  - intros o Ho. apply list_elem_of_fmap in Ho as ((u & o') & -> & Hin). simpl.
    apply list_elem_of_filter in Hin as [HP Hin]. pose proof (Hkey _ _ Hin) as Hu.
    apply elem_of_map_to_list in Hin. apply (inv_owned _ Hi4) in Hin as (_ & addr & u0 & t & Hin & Es & Ht).
    unfold P, removable in HP. simpl in *. bool_props. simpl in *. rewrite andb_true_r in *. bool_props.
    rewrite Hp4, Hu. split; [done|]. exists addr, u0, t.
    split_and!; [done|congruence|]. destruct Hr4 as (_ & [_ Hclk] & _). lia.
Qed.


(** A section that rewrites the entry of one target. *)
Lemma tried_of_put t target st m :
  tried_of t (put_target target st m) = if decide (t = target) then tried st else tried_of t m.
Proof.
  unfold tried_of, stateForTargetLocked, put_target. simpl.
  destruct (decide (t = target)) as [->|]; by simplify_map_eq.
Qed.

Lemma inv_put_target target st s :
  inv s -> (pending st = true -> notified (hist s) target) -> NoDup (addrs st) ->
  (forall addr, addr ∈ addrs st -> published (hist s) target addr) ->
  tried_of target (mgr s) ⊆ tried st ->
  inv (alloc (set_mgr (put_target target st (mgr s)) s)).
Proof.
  intros [I1 I2 I3 I4 I5] Hp Hn Ha Ht. split; simpl; try done.
  - intros t st'. destruct (decide (t = target)) as [->|]; [|rewrite lookup_insert_ne by done; apply I1].
    rewrite lookup_insert_eq. intros [= <-]. done.
  - intros Hf. destruct (I5 Hf) as [H1 H2]. split; [|exact H2].
    intros t a u r n Hin Hr. left. destruct (H1 t a u r n Hin Hr) as [Hd|]; [|done]. simpl.
    rewrite tried_of_put. destruct (decide (t = target)) as [->|]; [by apply Ht|done].
Qed.

(** The entry of a target, also when it is not there yet. *)
Lemma inv_target s target : inv s ->
  (pending (stateForTargetLocked target (mgr s)) = true -> notified (hist s) target) /\
  NoDup (addrs (stateForTargetLocked target (mgr s))) /\
  (forall addr, addr ∈ addrs (stateForTargetLocked target (mgr s)) -> published (hist s) target addr).
Proof.
  intros Hi. unfold stateForTargetLocked. destruct (targets (mgr s) !! target) eqn:E; simpl.
  - by apply (inv_targets s Hi).
  - split_and!; [done|constructor|]. intros addr []%elem_of_nil.
Qed.

(** In the loop over the addresses of a target: [l] are those still to come. *)
Record trying (unmarked : option (string * string)) (extra : string -> nat)
    (target : string) (state : targetState) (l : list string) (s : Shared) : Prop := mkTrying {
  try_active : active (mgr s) = true;
  try_inv : inv s;
  try_marked : dials_marked unmarked s;
  try_balanced : balanced extra s;
  try_notified : notified (hist s) target;
  try_nodup : NoDup l;
  try_published : forall addr, addr ∈ l -> published (hist s) target addr;
  try_fresh : forall addr, addr ∈ l -> addr ∈ tried_of target (mgr s) -> addr ∈ tried state
}.

Lemma trying_rely un ex target state l s s' :
  rely true s s' -> trying un ex target state l s -> trying un ex target state l s'.
Proof.
  intros Hr [H1 H2 H3 H4 H5 H6 H7 H8]. split;
    [by eapply rely_active|by eapply rely_inv|by eapply dials_marked_rely|by eapply balanced_rely|..|done| |];
    destruct Hr as (_ & [(es & E & _) _] & B).
  - rewrite E. by apply notified_app.
  - intros a Ha. rewrite E. by apply published_app, H7.
  - destruct (B eq_refl) as [[-> _] _]. done.
Qed.

Lemma trying_tail un ex target state a l s :
  trying un ex target state (a :: l) s -> trying un ex target state l s.
Proof.
  intros [H1 H2 H3 H4 H5 H6%NoDup_cons H7 H8]. split; try done; [apply H6|..]; intros b Hb; [apply H7|apply H8]; by right.
Qed.

Lemma trying_log_peers un ex target state l s peers :
  trying un ex target state l s -> trying un ex target state l (log (HPeers peers) s).
Proof.
  intros [H1 H2 H3 H4 H5 H6 H7 H8]. split; try done; try (by apply inv_log; auto); try (by apply dials_marked_log); try (by apply balanced_log).
  - by apply (notified_app [_]).
  - intros a Ha. by apply (published_app [_]), H7.
Qed.

Lemma trying_add_ok target state addr l u s :
  trying None (fun _ => 0%nat) target state (addr :: l) s -> addr ∉ tried state -> url_Parse addr = Some u ->
  uriConfigured (last_peers (hist s)) addr = false -> add_ok (hist s) target addr u.
Proof.
  intros [H1 H2 H3 H4 H5 H6 H7 H8] Ht Hu Hc. split_and!; try done; [apply H7; left|].
  intros u' r t Hin. destruct (decide (r = Some ErrLinkAlreadyConfigured)) as [|Hr]; [done|].
  destruct (H3 _ _ _ _ _ Hin Hr) as [Hd|]; [|done]. destruct Ht. apply H8; [left|done].
Qed.

(** After the answer of AddPeer. *)
Lemma trying_log_add target state addr l u r s :
  trying None (fun _ => 0%nat) target state (addr :: l) s -> add_ok (hist s) target addr u ->
  trying (if decide (r = Some ErrLinkAlreadyConfigured) then None else Some (target, addr))
    (fun uri => if decide (r = None /\ url_String u = uri) then 1 else 0)%nat
    target state (addr :: l) (log (HAdd target addr u r (clk s)) s).
Proof.
  intros [H1 H2 H3 H4 H5 H6 H7 H8] Hok. split; try done; try (by apply inv_log; auto).
  - intros t a u' r' n [Hin|Hin]%elem_of_cons Hr'.
    + injection Hin as -> -> -> -> ->. right. by rewrite decide_False.
    + left. destruct (H3 _ _ _ _ _ Hin Hr') as [?|?]; done.
  - intros uri. simpl. rewrite !count_cons. simpl. specialize (H4 uri). unfold owned_count in *. simpl in *.
    destruct r as [e|]; [rewrite decide_False by (by intros [])|].
    + lia.
    + case_bool_decide; [rewrite decide_True by done|rewrite decide_False by (by intros [])]; lia.
  - by apply (notified_app [_]).
  - intros a Ha. by apply (published_app [_]), H7.
Qed.

Lemma trying_mark ex target state addr l s :
  trying (Some (target, addr)) ex target state (addr :: l) s \/ trying None ex target state (addr :: l) s ->
  let st := stateForTargetLocked target (mgr s) in
  trying None ex target state l
    (alloc (set_mgr (put_target target (mkTarget (pending st) (fetching st) (fetched st) (addrs st) ({[addr]} ∪ tried st)) (mgr s)) s)).
Proof.
  intros H st. assert (H' : trying (Some (target, addr)) ex target state (addr :: l) s).
  { destruct H as [|[]]; [done|]. split; try done. intros t a u r n Hin Hr. left. by destruct (try_marked0 _ _ _ _ _ Hin Hr). }
  destruct H' as [H1 H2 H3 H4 H5 [H6 H6']%NoDup_cons H7 H8]. destruct (inv_target s target H2) as (P1 & P2 & P3).
  split; try done.
  - apply inv_put_target; try done. unfold tried_of. simpl. set_solver.
  - intros t a u r n Hin Hr. left. simpl. rewrite tried_of_put.
    destruct (H3 _ _ _ _ _ Hin Hr) as [Hd|[= <- <-]].
    + destruct (decide (t = target)) as [->|]; [|done]. simpl. apply elem_of_union. by right.
    + rewrite decide_True by done. simpl. set_solver.
  - intros a Ha. apply H7. by right.
  - intros a Ha. simpl. rewrite tried_of_put, decide_True by done. simpl.
    intros [->%elem_of_singleton|Hd]%elem_of_union; [done|]. apply H8; [by right|done].
Qed.


(** The owner of a step keeps what it owns. *)
Lemma move_owner m m' : active m' = true -> move true true m m'.
Proof. by split. Qed.

Lemma trying_waiting target state l s {A} (a : A) : trying None (fun _ => 0%nat) target state l s -> waiting true a s.
Proof. intros []. by split_and!. Qed.

(** [markTried] at the end of an attempt. *)
Lemma safe_markTried {A} Q un ex target state addr l (k : prog A) s :
  trying un ex target state (addr :: l) s -> un = Some (target, addr) \/ un = None ->
  (forall s1, trying None ex target state l s1 -> safe Q true k s1) ->
  safe Q true (markTried target addr ;;; k) s.
Proof.
  intros H Hun Hk. intros s1 Hr. fold (@safe A). cbv beta iota zeta. exists true.
  pose proof (trying_rely _ _ _ _ _ _ _ Hr H) as H1.
  assert (H2 := trying_mark ex target state addr l s1 ltac:(destruct Hun as [->| ->]; auto)).
  split_and!; [apply move_owner; by eapply rely_active|apply H2|]. by apply Hk.
Qed.

(** [rememberOwned] after an accepted dial. *)
Lemma trying_remember target state l addr u t s :
  HAdd target addr u None t ∈ hist s -> t <= clk s ->
  forall un, trying un (fun uri => if decide (url_String u = uri) then 1 else 0)%nat target state l s ->
  trying un (fun _ => 0%nat) target state l
    (alloc (set_mgr (set_owned (<[url_String u := mkOwned target (url_String u) (clk s)]> (owned (mgr s))) (mgr s)) s)).
Proof.
  intros Hin Ht un [H1 H2 H3 H4 H5 H6 H7 H8]. split; try done.
  - destruct H2 as [I1 I2 I3 I4 I5]. split; simpl; try done; [|intros Hf; simpl in *; congruence].
    intros uri o. destruct (decide (uri = url_String u)) as [->|]; [|rewrite lookup_insert_ne by done; apply I3].
    rewrite lookup_insert_eq. intros [= <-]. split; [done|]. exists addr, u, t. simpl. split_and!; done || lia.
  - intros uri. specialize (H4 uri). unfold owned_count in *. simpl.
    destruct (decide (url_String u = uri)) as [->|]; [rewrite lookup_insert_eq|rewrite lookup_insert_ne by done];
      destruct (owned (mgr s) !! uri); lia.
Qed.

Lemma safe_rememberOwned {A} Q target state l addr u t un (k : prog A) s :
  trying un (fun uri => if decide (url_String u = uri) then 1 else 0)%nat target state l s ->
  HAdd target addr u None t ∈ hist s -> t <= clk s ->
  (forall s1, trying un (fun _ => 0%nat) target state l s1 -> safe Q true k s1) ->
  safe Q true (rememberOwned target (url_String u) ;;; k) s.
Proof.
  intros H Hin Ht Hk s1 Hr. fold (@safe A). cbv beta iota zeta. exists true.
  pose proof (trying_rely _ _ _ _ _ _ _ Hr H) as H1.
  assert (Hin1 : HAdd target addr u None t ∈ hist s1).
  { destruct Hr as (_ & [(es & E & _) _] & _). rewrite E. apply elem_of_app. by right. }
  assert (Ht1 : t <= clk s1) by (destruct Hr as (_ & [_ Hc] & _); lia).
  pose proof (trying_remember _ _ _ _ _ _ _ Hin1 Ht1 _ H1) as H2.
  split_and!; [apply move_owner; by eapply rely_active|apply H2|]. by apply Hk.
Qed.

Lemma trying_extra un ex ex' target state l s :
  (forall uri, (ex' uri <= ex uri)%nat) -> trying un ex target state l s -> trying un ex' target state l s.
Proof.
  intros Hx [H1 H2 H3 H4 H5 H6 H7 H8]. split; try done.
  intros uri. specialize (H4 uri). specialize (Hx uri). lia.
Qed.

Lemma safe_try_addrs target state l s :
  trying None (fun _ => 0%nat) target state l s ->
  safe (fun own a => waiting own a) true (try_addrs target state l) s.
Proof.
  revert s. induction l as [|addr l IH]; intros s H; simpl.
  { by eapply trying_waiting. }
  case_bool_decide as Ht; [by eapply IH, trying_tail|]. simpl.
  split; [done|]. intros s1 peers Hr.
  pose proof (trying_log_peers _ _ _ _ _ _ peers (trying_rely _ _ _ _ _ _ _ Hr H)) as H1.
  destruct (uriConfigured peers addr) eqn:Ec; [by eapply trying_waiting|].
  destruct (url_Parse addr) as [u|] eqn:Eu.
  2: { eapply safe_markTried; [exact H1|by right|done]. }
  split; [done|]. intros s2 Hr2. pose proof (trying_rely _ _ _ _ _ _ _ Hr2 H1) as H2.
  assert (Hok : add_ok (hist s2) target addr u).
  { eapply trying_add_ok; try done. by rewrite (last_peers_rely _ _ Hr2). }
  split; [done|]. intros r. pose proof (trying_log_add _ _ _ _ _ r _ H2 Hok) as H3. fold (@safe unit).
  assert (Hfail : forall e, r = Some e -> trying (if decide (r = Some ErrLinkAlreadyConfigured) then None else Some (target, addr))
     (fun _ => 0%nat) target state (addr :: l) (log (HAdd target addr u r (clk s2)) s2)).
  { intros e ->. eapply trying_extra; [|exact H3]. simpl. lia. }
  destruct r as [e|]; cycle 1.
  { eapply safe_rememberOwned; [eapply trying_extra; [|exact H3]|left|done|].
    { simpl. intros uri. destruct (decide (url_String u = uri)); [rewrite decide_True by done|]; lia. } intros s3 H4.
    apply (safe_markTried _ _ _ _ _ _ _ (Ret tt) _ H4); [by left|]. intros s4 H5. by eapply trying_waiting. }
  destruct (decide (e = ErrLinkAlreadyConfigured)) as [->|Hne].
  { eapply trying_waiting, (Hfail _ eq_refl). }
  specialize (Hfail _ eq_refl). rewrite decide_False in Hfail by congruence.
  assert (Hgo : safe (fun own a => waiting own a) true (markTried target addr;;; try_addrs target state l)
    (log (HAdd target addr u (Some e) (clk s2)) s2)) by (eapply safe_markTried; [exact Hfail|by left|done]).
  destruct e; done.
Qed.


(** Parts of the loop that start and end while nothing is pending. *)
Definition calm {A} (p : prog A) : Prop := forall s, waiting true tt s -> safe (fun own a => waiting own a) true p s.

Lemma calm_ret {A} (a : A) : calm (Ret a).
Proof. intros s (_ & H). by split. Qed.

Lemma calm_bind {A B} (p : prog A) (g : A -> prog B) : calm p -> (forall a, calm (g a)) -> calm (pbind p g).
Proof. intros Hp Hg s H. eapply safe_bind; [by apply Hp|]. intros own a s' (-> & H'). apply Hg. by split. Qed.

Lemma calm_getPeers : calm getPeers.
Proof.
  intros s H. split; [done|]. intros s1 peers Hr.
  destruct (waiting_stable _ _ _ _ Hr H) as (_ & [Hm Hb] & Hi & Ha).
  split_and!; [done|split; [by apply dials_marked_log|by apply balanced_log]|apply inv_log; auto|done].
Qed.

Lemma calm_reads {X : Set} (f : Manager -> X) : calm (reads f).
Proof.
  intros s H. apply (safe_reads _ true f Ret); [apply waiting_stable| |by intros _; apply H].
  intros s1 Hr. by apply (waiting_stable true tt s).
Qed.

Lemma calm_direct target : calm (targetDirectlyConnected target).
Proof.
  unfold targetDirectlyConnected. destruct (hex_DecodeString target); [|apply calm_ret].
  apply calm_bind; [apply calm_getPeers|intros; apply calm_ret].
Qed.

Lemma calm_configured target : calm (targetHasPublishedLinkConfigured target).
Proof.
  apply calm_bind; [apply calm_reads|]. intros [st|]; [|apply calm_ret].
  destruct (addrs st); [apply calm_ret|]. apply calm_bind; [apply calm_getPeers|intros; apply calm_ret].
Qed.

Lemma calm_fetch target : calm (fetchTargetNodeInfo target).
Proof.
  unfold fetchTargetNodeInfo, locked. cbn [pbind]. intros s H s1 Hr. fold (@safe unit).
  destruct (waiting_stable _ _ _ _ Hr H) as (_ & [Hm Hb] & Hi & Ha).
  destruct (inv_target s1 target Hi) as (P1 & P2 & P3).
  set (st := stateForTargetLocked target (mgr s1)) in *.
  assert (Hput : forall b, waiting true tt (alloc (set_mgr
    (put_target target (mkTarget (pending st) b (fetched st) (addrs st) (tried st)) (mgr s1)) s1))).
  { intros b. split_and!; [done| |by apply inv_put_target|done].
    split; [|done]. intros t a u r n Hin Hne. left. destruct (Hm _ _ _ _ _ Hin Hne) as [Hd|]; [|done]. simpl.
    rewrite tried_of_put. by destruct (decide (t = target)) as [->|]. }
  destruct (fetching st) eqn:Ef; exists true.
  - assert (Heq : st = mkTarget (pending st) true (fetched st) (addrs st) (tried st)) by (by destruct st; simpl in *; subst).
    rewrite Heq. split_and!; [by apply move_owner|apply Hput|apply calm_ret, Hput].
  - split_and!; [by apply move_owner|apply Hput|]. intros s2 Hr2. by apply (waiting_stable true tt _ _ Hr2).
Qed.

Lemma calm_checkTarget target : calm (checkTarget target).
Proof.
  apply calm_bind; [apply calm_direct|]. intros [|]; [apply calm_ret|].
  apply calm_bind; [apply calm_configured|]. intros [|]; [apply calm_ret|].
  intros s H. unfold stateForTarget, reads. cbn [pbind].
  apply (safe_reads (fun own a => waiting own a) true (fun m => targets m !! target)); [apply waiting_stable| |by intros _; apply H].
  intros s1 Hr. pose proof (waiting_stable _ _ _ _ Hr H) as H1.
  destruct (targets (mgr s1) !! target) as [st|] eqn:Et; [|by apply calm_ret].
  destruct (pending st) eqn:Ep; [|by apply calm_ret]. cbn [negb].
  destruct (addrs st) as [|a l] eqn:Ea.
  { destruct (fetched st); cbn [negb]; [by apply calm_ret|by apply calm_fetch]. }
  destruct H1 as (_ & [Hm Hb] & Hi & Ha). destruct (inv_targets _ Hi _ _ Et) as (Hn & Hd & Hp).
  rewrite Ea in Hd, Hp. apply safe_try_addrs. split; try done; [by apply Hn|].
  intros b _. unfold tried_of, stateForTargetLocked. by rewrite Et.
Qed.

Lemma calm_checkNow : calm checkNow.
Proof.
  apply calm_bind; [|intros _; apply calm_bind; [apply calm_reads|]].
  - intros s (_ & Hs & Hi & Ha). by apply safe_cleanupOwned.
  - intros l. induction l as [|t l IH]; [apply calm_ret|]. apply calm_bind; [apply calm_checkTarget|done].
Qed.

(** *** Goroutines *)

Definition thread_ok (own : bool) (p : thread) (s : Shared) : Prop := safe (fun own _ _ => own = false) own p s.

Lemma thread_ok_rely own p s s' : rely own s s' -> thread_ok own p s -> thread_ok own p s'.
Proof. apply safe_rely. done. Qed.

Lemma to_select_ok s : waiting true tt s -> thread_ok true to_select s.
Proof.
  intros H. unfold thread_ok, to_select. eapply safe_bind.
  { apply (calm_bind configSnapshot (fun c => Ret (CheckInterval c)));
      [apply calm_reads|intros; apply calm_ret|exact H]. }
  intros own d s1 (-> & H1) s2 Hr2 s3 Hr3. split; [done|].
  eapply at_select_rely; [exact Hr3|]. eapply at_select_rely; [exact Hr2|]. exact (proj1 H1).
Qed.

Lemma loop_body_ok s : waiting true tt s -> thread_ok true loop_body s.
Proof.
  intros H. eapply safe_bind; [by apply calm_checkNow|]. intros own [] s1 H1.
  destruct (H1) as (-> & _). by apply to_select_ok.
Qed.

Lemma loop_end_ok s : waiting true tt s -> thread_ok true (returning loop_end) s.
Proof.
  intros (_ & Hs & Hi & Ha). eapply (safe_bind (fun own _ _ => own = false)); [|intros own [] s1 H1; exact H1].
  eapply safe_bind; [by apply safe_cleanupOwned|]. intros own [] s1 (-> & Hs1 & Hi1 & Ha1).
  intros s2 Hr2. cbv beta iota zeta. fold (@safe unit).
  pose proof (at_select_rely _ _ Hr2 Hs1) as Hs2. exists false. split_and!.
  - by split.
  - apply (inv_same s2); simpl; auto; [by eapply rely_inv|lia].
  - intros s3 Hr3. fold (@safe unit). destruct (done (mgr s3)); [|done]. intros s4 Hr4 s5 Hr5. done.
Qed.

(** A section of a goroutine that does not own the books. *)
Lemma not_owner_step {A} {X : Set} Q (f : Z -> Z -> Manager -> X * Manager) (k : X -> prog A) s :
  (forall s1, rely false s s1 -> let '(x, m) := f (clk s1) (fresh s1) (mgr s1) in
     same_books (mgr s1) m /\ active m = active (mgr s1) /\ inv (alloc (set_mgr m s1)) /\
     safe Q false (k x) (alloc (set_mgr m s1))) ->
  safe Q false (Locked f k) s.
Proof.
  intros H s1 Hr. specialize (H s1 Hr). destruct (f _ _ _) as [x m]. destruct H as (H1 & H2 & H3 & H4).
  exists false. split_and!; [by split|done|done].
Qed.

Lemma inv_flags a st c s :
  inv s -> (a = false -> active (mgr s) = false) -> inv (alloc (set_mgr (set_flags a st c (mgr s)) s)).
Proof. intros Hi Ha. apply (inv_same s); simpl; auto; lia. Qed.

Lemma signalWake_ok {A} Q (a : A) own s :
  (forall s, Q own a s) -> safe Q own (signalWake ;;; Ret a) s.
Proof. intros HQ s1 Hr. apply HQ. Qed.

Lemma Stop_ok s : safe (fun own _ _ => own = false) false Stop s.
Proof.
  apply not_owner_step. intros s1 Hr. assert (Hi : inv s1) by apply Hr. cbv beta.
  destruct (negb (active (mgr s1)) && negb (stopping (mgr s1))).
  { split_and!; [done..|by apply (inv_same s1); simpl; auto; lia|done]. }
  destruct (stopping (mgr s1)).
  - split_and!; [done..|by apply (inv_same s1); simpl; auto; lia|by intros s2 _].
  - split_and!; [done..|by apply inv_flags|by intros s2 _ s3 _].
Qed.

Lemma Close_ok s : safe (fun own _ _ => own = false) false Close s.
Proof.
  apply not_owner_step. intros s1 Hr. assert (Hi : inv s1) by apply Hr. cbv beta iota.
  split_and!; [done..|by apply inv_flags|]. fold (@safe unit).
  destruct (closed (mgr s1)); [done|apply Stop_ok].
Qed.

Lemma Start_ok has_core s : safe (fun own _ _ => own = false) false (Start has_core) s.
Proof.
  unfold Start. destruct has_core; [|done]. intros s1 Hr. assert (Hi : inv s1) by apply Hr. cbv beta zeta.
  destruct (active (mgr s1)) eqn:Ha; simpl.
  { exists false. split_and!; [by split; [|congruence]|by apply (inv_same s1); simpl; auto; lia|done]. }
  destruct (stopping (mgr s1) || closed (mgr s1)).
  { exists false. split_and!; [by split|by apply (inv_same s1); simpl; auto; lia|done]. }
  exists true. assert (Hs : at_select s1) by by apply inv_rest.
  split; [by split|]. split; [apply (inv_same s1); simpl; auto; lia|]. split; [done|].
  intros s2 Hr2. split; [|by intros s3 Hr3]. eapply at_select_rely; [exact Hr2|]. by apply (at_select_same s1).
Qed.


(** [a] is the normal form of an entry of the list. *)
Definition address_of (l : list string) (a : string) : Prop :=
  exists s u, s ∈ l /\ TrimSpace s <> EmptyString /\ url_Parse (TrimSpace s) = Some u /\
    Scheme u <> EmptyString /\ Host u <> EmptyString /\ a = url_String u.

Lemma normalize_loop_spec seen l :
  NoDup (normalize_loop seen l) /\
  forall a, a ∈ normalize_loop seen l <-> (~ a ∈ seen) /\ address_of l a.
Proof.
  revert seen. induction l as [|s l IH]; intros seen; simpl.
  unfold address_of in *.
  { split; [constructor|]. intros a. split; [by intros []%elem_of_nil|by intros (_ & s & u & []%elem_of_nil & _)]. }
  assert (Hskip : (forall u, TrimSpace s <> EmptyString -> url_Parse (TrimSpace s) = Some u ->
      Scheme u <> EmptyString -> Host u <> EmptyString -> url_String u ∈ seen) ->
    NoDup (normalize_loop seen l) /\
    forall a, a ∈ normalize_loop seen l <-> (~ a ∈ seen) /\ address_of (s :: l) a).
  { intros Hs. destruct (IH seen) as [IH1 IH2]. split; [done|]. intros a. rewrite IH2.
    split; intros [Ha (s' & u & Hin & H1 & H2 & H3 & H4 & ->)]; (split; [done|]); exists s', u; split_and!; try done.
    - by right.
    - apply elem_of_cons in Hin as [->|Hin]; [|done]. destruct Ha. by apply Hs. }
  case_bool_decide as E1; [apply Hskip; by intros u []|].
  destruct (url_Parse (TrimSpace s)) as [u|] eqn:Eu; [|by apply Hskip].
  case_bool_decide as E2; simpl; [apply Hskip; by intros ? _ [= ->] []|].
  case_bool_decide as E3; simpl; [apply Hskip; by intros ? _ [= ->] _ []|].
  case_bool_decide as E4; [apply Hskip; by intros ? _ [= ->] _ _|]. clear Hskip.
  destruct (IH ({[url_String u]} ∪ seen)) as [IH1 IH2]. split.
  { constructor; [|done]. rewrite IH2. set_solver. }
  intros a. rewrite elem_of_cons, IH2. split.
  - intros [->|[Ha (s' & u' & Hin & H1)]].
    + split; [done|]. exists s, u. split_and!; try done. left.
    + split; [set_solver|]. exists s', u'. split_and!; [by right|apply H1..].
  - intros [Ha (s' & u' & Hin & H1 & H2 & H3 & H4 & ->)]. destruct (decide (url_String u' = url_String u)) as [->|Hne]; [by left|].
    right. split; [set_solver|]. exists s', u'. split_and!; try done.
    apply elem_of_cons in Hin as [->|Hin]; [|done]. congruence.
Qed.

Lemma parse_nodup info : NoDup (parseNodeInfoAddresses info).
Proof.
  unfold parseNodeInfoAddresses. destruct info; [constructor|]. destruct (Unmarshal _); [|constructor].
  apply normalize_loop_spec.
Qed.

Lemma fetch_ok target s : thread_ok false (returning (fetch target)) s.
Proof.
  intros s1 info Hr1. fold (@safe (option bool)).
  change (safe (fun own (_ : option bool) _ => own = false) false
    (Locked (fun _ _ m => (tt, put_target target (mkTarget (pending (stateForTargetLocked target m)) false true
      (parseNodeInfoAddresses info) (tried (stateForTargetLocked target m))) m))
      (fun _ => returning signalWake)) (log (HInfo target info) s1)).
  apply not_owner_step. intros s2 Hr2. cbv beta iota zeta. assert (Hi : inv s2) by apply Hr2.
  destruct (inv_target s2 target Hi) as (P1 & P2 & P3). split_and!; [|done| |].
  - split; [|done]. intros t. rewrite tried_of_put. by destruct (decide (t = target)) as [->|].
  - apply inv_put_target; simpl; try done; [apply parse_nodup|]. intros addr Ha. exists info.
    split; [|done]. destruct Hr2 as (_ & [(es & E & _) _] & _). rewrite E, elem_of_app. right. left.
  - by intros s3 Hr3.
Qed.

Lemma NotifyTraffic_ok key s : HNotify key ∈ hist s -> thread_ok false (returning (NotifyTraffic key)) s.
Proof.
  intros Hin. unfold NotifyTraffic. destruct (length key =? 32)%nat eqn:E; [|done]. cbn [negb].
  apply Nat.eqb_eq in E. set (target := hex_EncodeToString key).
  apply not_owner_step. intros s2 Hr2. cbv beta iota zeta. assert (Hi : inv s2) by apply Hr2.
  destruct (inv_target s2 target Hi) as (P1 & P2 & P3). split_and!; [|done| |].
  - split; [|done]. intros t. rewrite tried_of_put. by destruct (decide (t = target)) as [->|].
  - apply inv_put_target; simpl; try done. intros _. exists key. split_and!; try done.
    destruct Hr2 as (_ & [(es & E' & _) _] & _). rewrite E', elem_of_app. by right.
  - by intros s3 Hr3.
Qed.

Lemma normalizeConfig_timeout c : minimumLinkTimeout <= LinkTimeout (normalizeConfig c) /\ 0 < CheckInterval (normalizeConfig c).
Proof.
  unfold normalizeConfig. destruct (CheckInterval c <=? 0) eqn:E1; simpl;
    (destruct (LinkTimeout c <=? 0) eqn:E2; simpl; [split; [vm_compute; congruence|]|destruct (LinkTimeout c <? _) eqn:E3; simpl; split]);
    bool_props; try done; lia.
Qed.

Lemma SetConfig_ok c s : thread_ok false (returning (SetConfig c)) s.
Proof.
  apply not_owner_step. intros s2 Hr2. cbv beta iota zeta. destruct Hr2 as ([I1 I2 I3 I4 I5] & _ & _).
  split_and!; [done..| |by intros s3 Hr3]. split; simpl; try done.
  apply normalizeConfig_timeout.
Qed.

Lemma call_ok c s : match c with CallNotify key => HNotify key ∈ hist s | _ => True end -> thread_ok false (call_prog c) s.
Proof.
  destruct c as [b| | |key|c]; intros H.
  - eapply safe_bind; [apply Start_ok|]. by intros own b' s' ->.
  - eapply (safe_bind (fun own _ _ => own = false)); [apply Stop_ok|]. by intros own [] s' ->.
  - eapply (safe_bind (fun own _ _ => own = false)); [apply Close_ok|]. by intros own [] s' ->.
  - by apply NotifyTraffic_ok.
  - by apply SetConfig_ok.
Qed.

(** *** Soundness *)

Definition world_inv (w : World) : Prop :=
  inv (shared w) /\ exists o : option nat,
    match o with
    | Some i => active (mgr (shared w)) = true /\ (i < length (threads w))%nat
    | None => active (mgr (shared w)) = false
    end /\
    forall i p, threads w !! i = Some p -> thread_ok (bool_decide (o = Some i)) p (shared w).

Lemma extends_log own e s : (own = true -> quiet e) -> extends own s (log e s).
Proof. intros H. split; [|done]. exists [e]. split; [done|]. intros Ho. by constructor; [apply H|constructor]. Qed.

(** What a step of a goroutine leaves: its new role, the role of the goroutine it
    starts, and what the others can rely on. *)
Definition stepped (own : bool) (s : Shared) (p' : thread) (s' : Shared) (new : list thread) : Prop :=
  exists own' child,
    thread_ok own' p' s' /\ (forall q, q ∈ new -> thread_ok child q s') /\ inv s' /\
    (own' = true -> child = true -> False) /\ (child = true -> length new = 1%nat) /\
    extends (negb own) s s' /\
    (own = false -> same_books (mgr s) (mgr s')) /\
    (if own then active (mgr s') = own' || child
     else if own' || child then active (mgr s) = false /\ active (mgr s') = true
     else active (mgr s') = active (mgr s)).

(** A step that keeps its role, the books and the loop. *)
Lemma stepped_same own s p' s' : (own = true -> active (mgr s) = true) -> thread_ok own p' s' -> inv s' ->
  mgr s' = mgr s \/ same_books (mgr s) (mgr s') /\ active (mgr s') = active (mgr s) -> extends (negb own) s s' -> stepped own s p' s' [].
Proof.
  intros Ha Hq Hi2 Hm He. assert (Hm' : same_books (mgr s) (mgr s') /\ active (mgr s') = active (mgr s)).
  { destruct Hm as [->|]; [split; [apply same_books_refl|]|]; done. }
  exists own, false. split; [done|]. split; [by intros ? []%elem_of_nil|]. do 4 (split; [done|]). split; [by intros _; apply Hm'|].
  destruct Hm' as [_ ->]. rewrite orb_false_r. by destruct own; [apply Ha|].
Qed.

(** The loop goes on from its select. *)
Lemma step_select_ok c d ch s p' s' new :
  step_prog (Select c d) (ACase ch) s = Some (p', s', new) -> at_select s -> inv s -> active (mgr s) = true -> stepped true s p' s' new.
Proof.
  intros Hs Hsel Hi Ha. assert (Hw : waiting true tt s) by (split_and!; auto).
  assert (Hw' : forall b, waiting true tt (log HCheck (set_mgr (set_wake b (mgr s)) s))).
  { intros b. split_and!; [done| |apply inv_log; auto; by apply inv_wake|by apply Ha].
    destruct Hsel. split; [apply dials_marked_log|apply balanced_log]; done. }
  destruct ch; simpl in Hs.
  - destruct (is_closed c s); [|done]. injection Hs as <- <- <-.
    apply stepped_same; [done|by apply loop_end_ok|done|by left|apply extends_refl].
  - destruct (wake (mgr s)); [|done]. injection Hs as <- <- <-. apply stepped_same; [done|by apply loop_body_ok|apply Hw'| |].
    + right. split; [by split|done].
    + split; [by exists [HCheck]|done].
  - destruct (d <=? clk s); [|done]. injection Hs as <- <- <-.
    assert (Hwc : waiting true tt (log HCheck s)).
    { split_and!; [done| |apply inv_log; auto|by apply Ha].
      destruct Hsel. split; [apply dials_marked_log|apply balanced_log]; done. }
    apply stepped_same; [done|by apply loop_body_ok|apply Hwc|by left|by apply extends_log].
Qed.

Lemma step_ok own p a s p' s' new :
  step_prog p a s = Some (p', s', new) -> thread_ok own p s -> inv s -> (own = true -> active (mgr s) = true) -> stepped own s p' s' new.
Proof.
  intros Hs Hok Hi Ha. pose proof (rely_refl own s Hi Ha) as Hr. pose proof (stepped_same own s) as Hsame.
  unfold thread_ok in Hok.
  destruct p, a; simpl in Hs; try done.
  - specialize (Hok s Hr). destruct (f _ _ _) as [x m]. injection Hs as <- <- <-.
    destruct Hok as (own' & [Hb Hm] & Hi' & Hok). exists own', false.
    split; [done|]. split; [by intros ? []%elem_of_nil|]. split; [done|]. split; [done|]. split; [done|].
    split; [split; [exists []; by split|done]|]. split; [done|]. rewrite orb_false_r. exact Hm.
  - injection Hs as <- <- <-. apply Hsame; [done|first [apply (Hok s Hr)|apply (Hok s _ Hr)]|done|by left|apply extends_refl].
  - injection Hs as <- <- <-. apply Hsame; [done|first [apply (Hok s Hr)|apply (Hok s _ Hr)]|done|by left|apply extends_refl].
  - injection Hs as <- <- <-. apply Hsame; [done|first [apply (Hok s Hr)|apply (Hok s _ Hr)]|done|by left|apply extends_refl].
  - injection Hs as <- <- <-. destruct Hok as [-> Hok].
    apply Hsame; [done|first [apply (Hok s Hr)|apply (Hok s _ Hr)]|apply inv_log; auto|by left|by apply extends_log].
  - injection Hs as <- <- <-. destruct Hok as [-> Hok]. destruct (Hok s Hr) as [Hadd Hok'].
    apply Hsame; [done|by apply Hok'|apply inv_log; auto|by left|by apply extends_log].
  - injection Hs as <- <- <-. destruct Hok as [-> Hok]. destruct (Hok s Hr) as [Hrem Hok'].
    apply Hsame; [done|by apply Hok'|apply inv_log; auto|by left|by apply extends_log].
  - injection Hs as <- <- <-. apply Hsame; [done|first [apply (Hok s Hr)|apply (Hok s _ Hr)]|apply inv_log; simpl; auto|by left|by apply extends_log].
  - injection Hs as <- <- <-. apply Hsame; [done|first [apply (Hok s Hr)|apply (Hok s _ Hr)]|by apply inv_wake|right|].
    + split; [by split|done].
    + split; [exists []; by split|done].
  - injection Hs as <- <- <-. apply Hsame; [done|first [apply (Hok s Hr)|apply (Hok s _ Hr)]|by apply inv_close_chan|left|].
    + unfold close_chan. destruct c; [case_bool_decide|]; done.
    + split; [exists []; split; [|done]|]; unfold close_chan; destruct c; try case_bool_decide; try done; simpl; lia.
  - destruct (is_closed c s); [|done]. injection Hs as <- <- <-. apply Hsame; [done|first [apply (Hok s Hr)|apply (Hok s _ Hr)]|done|by left|apply extends_refl].
  - injection Hs as <- <- <-. destruct Hok as [-> Hok]. destruct (Hok s Hr) as [Hsel Hk]. exists false, true.
    split; [done|]. split.
    { intros q ->%list_elem_of_singleton. apply to_select_ok. split_and!; auto. }
    do 2 (split; [done|]). split; [done|]. split; [apply extends_refl|]. split; [done|]. simpl. auto.
  - injection Hs as <- <- <-. exists own, false. split; [apply (Hok s Hr)|]. split.
    { intros q ->%list_elem_of_singleton. apply fetch_ok. }
    do 3 (split; [done|]). split; [apply extends_refl|]. split; [intros _; apply same_books_refl|].
    rewrite orb_false_r. destruct own; [by apply Ha|done].
  - destruct Hok as [-> Hsel]. by eapply step_select_ok; eauto.
Qed.

Lemma world_inv_init c : world_inv (World_init c).
Proof.
  split.
  - split; simpl; try done; [apply normalizeConfig_timeout|]. intros _. split.
    + by intros t a u r n []%elem_of_nil.
    + intros uri. unfold owned_count. simpl. by rewrite lookup_empty.
  - exists None. split; [done|]. by intros i p.
Qed.

(** What a goroutine with another role relies on holds after a step. *)
Lemma step_rely own other s s' :
  inv s' -> extends (negb own) s s' -> (own = false -> same_books (mgr s) (mgr s')) -> (other = true -> own = false) ->
  (other = true -> active (mgr s') = true) -> rely other s s'.
Proof.
  intros Hi [(es & E & Hq) Hc] Hb Hn Ha. split_and!; [done| |].
  - split; [|done]. exists es. split; [done|]. intros Ho. apply Hq. by rewrite (Hn Ho).
  - intros Ho. auto.
Qed.

(** Which goroutine runs the loop after a step of [i] among [n]. *)
Definition next_owner (o : option nat) (i : nat) (own' child : bool) (n : nat) : option nat :=
  if own' then Some i else if child then Some n else if bool_decide (o = Some i) then None else o.

Lemma next_owner_self o i own' child n : (i < n)%nat -> bool_decide (next_owner o i own' child n = Some i) = own'.
Proof.
  intros Hi. unfold next_owner. destruct own'; [by rewrite bool_decide_true|]. apply bool_decide_eq_false.
  destruct child; [intros [= ?]; lia|]. by case_bool_decide.
Qed.
Lemma next_owner_other o i own' child n j : i <> j -> (j < n)%nat -> (own' || child = true -> o <> Some j) ->
  bool_decide (next_owner o i own' child n = Some j) = bool_decide (o = Some j).
Proof.
  intros Hij Hj Hfree. unfold next_owner. apply bool_decide_ext.
  destruct own'; [split; [congruence|by intros ?%Hfree]|]. destruct child; [split; [intros [= ?]; lia|by intros ?%Hfree]|].
  case_bool_decide; split; congruence.
Qed.
Lemma next_owner_new o i own' child n k : (i < n)%nat -> (own' = true -> child = true -> False) -> (child = true -> k = 0%nat) ->
  (forall x, o = Some x -> (x < n)%nat) -> bool_decide (next_owner o i own' child n = Some (n + k)%nat) = child.
Proof.
  intros Hi Hnot Hk Ho. unfold next_owner. destruct child.
  - destruct own'; [by destruct Hnot|]. apply bool_decide_eq_true. rewrite Hk by done. f_equal. lia.
  - apply bool_decide_eq_false. destruct own'; [intros [= ?]; lia|]. case_bool_decide; [done|]. intros E. apply Ho in E. lia.
Qed.

(** The goroutines that do not run keep their roles when the shared state moves. *)
Lemma world_inv_move w s : world_inv w -> (forall own, (own = true -> active (mgr (shared w)) = true) -> rely own (shared w) s) ->
  mgr s = mgr (shared w) -> world_inv (mkWorld s (threads w)).
Proof.
  intros [Hi (o & Ho & Hok)] Hs Hm. split; [by apply (Hs false)|]. exists o. split; [by cbn; rewrite Hm|]. intros i p Hp.
  eapply thread_ok_rely; [|by apply Hok]. apply Hs. intros ->%bool_decide_eq_true. apply Ho.
Qed.

(** A call adds a goroutine that does not run the loop. *)
Lemma world_inv_call s ps p : thread_ok false p s -> world_inv (mkWorld s ps) -> world_inv (mkWorld s (ps ++ [p])).
Proof.
  intros Hp [Hi (o & Ho & Hok)]. split; [done|]. exists o. cbn in *. split.
  { destruct o; [|done]. rewrite length_app. split; [apply Ho|]. destruct Ho. lia. }
  intros i q [Hq|[Hlen Hq]]%lookup_app_Some; [by apply Hok|]. apply list_lookup_singleton_Some in Hq as [Hz <-].
  rewrite bool_decide_false; [done|]. intros ->. lia.
Qed.

Lemma world_inv_run i p a w p' s' new : world_inv w -> threads w !! i = Some p -> step_prog p a (shared w) = Some (p', s', new) ->
  world_inv (mkWorld s' (<[i := p']> (threads w) ++ new)).
Proof.
  intros [Hi (o & Ho & Hok)] Hp Hs.
  assert (Hact : forall i, bool_decide (o = Some i) = true -> active (mgr (shared w)) = true) by (intros x ->%bool_decide_eq_true; apply Ho).
  destruct (step_ok _ _ _ _ _ _ _ Hs (Hok _ _ Hp) Hi (Hact i)) as (own' & child & H1 & H2 & H3 & H4 & H5 & H6 & H7 & H8).
  split; [exact H3|]. assert (Hlt : (i < length (threads w))%nat) by (by eapply lookup_lt_Some).
  assert (Hfree : forall j, i <> j -> own' || child = true -> o <> Some j).
  { intros j Hj Hc ->. rewrite bool_decide_false in H8 by congruence. rewrite Hc in H8. destruct H8, Ho. congruence. }
  assert (Hothers : forall j q, i <> j -> threads w !! j = Some q -> thread_ok (bool_decide (o = Some j)) q s').
  { intros j q Hj Hq. eapply thread_ok_rely; [|by apply Hok].
    apply (step_rely (bool_decide (o = Some i))); try done; intros ->%bool_decide_eq_true.
    - apply bool_decide_eq_false. congruence.
    - rewrite bool_decide_false in H8 by congruence. destruct Ho as [Ho _].
      destruct (own' || child); [by destruct H8|congruence]. }
  exists (next_owner o i own' child (length (threads w))). cbn [threads shared]. rewrite length_app, length_insert. split.
  - unfold next_owner. destruct own'; [split; [|lia]; case_bool_decide; [done|apply H8]|].
    destruct child; [split; [|rewrite H5 by done; lia]; case_bool_decide; [done|apply H8]|].
    cbn in H8. case_bool_decide; [done|]. rewrite H8. destruct o; [|done]. destruct Ho. split; [done|lia].
  - intros j q [Hq|[Hj Hq]]%lookup_app_Some.
    + destruct (decide (i = j)) as [<-|Hij].
      { rewrite list_lookup_insert_eq in Hq by done. injection Hq as <-. by rewrite next_owner_self. }
      rewrite list_lookup_insert_ne in Hq by done. pose proof (lookup_lt_Some _ _ _ Hq) as Hjl.
      rewrite next_owner_other by auto. by apply Hothers.
    + rewrite length_insert in Hj, Hq. pose proof (lookup_lt_Some _ _ _ Hq) as Hk. replace j with (length (threads w) + (j - length (threads w)))%nat by lia.
      rewrite next_owner_new; [by eapply H2, list_elem_of_lookup_2|done|done|intros Hc; specialize (H5 Hc); lia|by intros x ->; apply Ho].
Qed.

Lemma world_inv_step e w w' : world_inv w -> exec e w = Some w' -> world_inv w'.
Proof.
  intros Hw. unfold exec. destruct (panicked (shared w)); [done|]. pose proof Hw as [Hi _]. destruct e as [c|i a|d].
  - intros [= <-]. set (s := match c with CallNotify key => log (HNotify key) (shared w) | _ => shared w end).
    apply world_inv_call; [apply call_ok; destruct c; try done; left|].
    apply world_inv_move; [done| |by destruct c]. intros own Ha. destruct c; try by apply rely_refl.
    apply (step_rely false); try done; [apply inv_log; simpl; auto|by apply extends_log].
  - destruct (threads w !! i) as [p|] eqn:Hp; [|done].
    destruct (step_prog p a (shared w)) as [[[p' s'] new]|] eqn:Hs; [|done]. intros [= <-]. by eapply world_inv_run.
  - destruct (0 <=? d) eqn:Ed; [|done]. intros [= <-]. bool_props. apply world_inv_move; [done| |done]. intros own Ha.
    split_and!; [apply (inv_same (shared w)); simpl; auto; lia| |intros Hown; split; [apply same_books_refl|auto]].
    split; [by exists []|simpl; lia].
Qed.

Lemma world_inv_reachable c w : reachable c w -> world_inv w.
Proof. induction 1 as [|e w w' _ IH H]; [apply world_inv_init|by eapply world_inv_step]. Qed.


(** ** Theorems about every interleaving *)

Lemma hist_ok_app es e h : hist_ok (es ++ e :: h) ->
  match e with
  | HAdd target addr u _ _ => add_ok h target addr u
  | HRemove o u _ now => remove_ok h o u now
  | _ => True
  end.
Proof. induction es as [|e' es IH]; simpl; [by intros []|by intros [_ ?]; apply IH]. Qed.

(** C16: Every peer that the manager dials is justified at that point of the
    history: the target is the key of a NotifyTraffic call, the address is in
    the normalised list of a node info that was fetched for this target, it is
    in no entry of the peer list looked at last, and it was not dialed for this
    target before, unless the core answered that the link was there already. *)
Theorem dials_justified c w newer target addr u r t older :
  reachable c w -> hist (shared w) = newer ++ HAdd target addr u r t :: older ->
  (exists key, HNotify key ∈ older /\ length key = 32%nat /\ hex_EncodeToString key = target) /\
  (exists info, HInfo target info ∈ older /\ addr ∈ parseNodeInfoAddresses info) /\
  url_Parse addr = Some u /\ uriConfigured (last_peers older) addr = false /\
  (forall u' r' t', HAdd target addr u' r' t' ∈ older -> r' = Some ErrLinkAlreadyConfigured).
Proof.
  intros Hr Eh. destruct (world_inv_reachable c w Hr) as [[_ _ _ Hh _] _]. rewrite Eh in Hh.
  exact (hist_ok_app _ _ _ Hh).
Qed.

(** Every link that the manager removes is its own: it was added successfully
    for this target under this URI at least a second earlier, in the peer list
    fetched by this cleanup it is not up, and there were more successful adds
    of the URI than removals before. *)
Theorem removals_justified c w newer o u r t older :
  reachable c w -> hist (shared w) = newer ++ HRemove o u r t :: older ->
  url_Parse (o_uri o) = Some u /\
  (exists addr u0 t0, HAdd (o_target o) addr u0 None t0 ∈ older /\ url_String u0 = o_uri o /\ t0 + minimumLinkTimeout <= t) /\
  peerUpWithURI (last_peers older) (o_uri o) = false /\
  (count (is_remove (o_uri o)) older < count (is_add (o_uri o)) older)%nat.
Proof.
  intros Hr Eh. destruct (world_inv_reachable c w Hr) as [[_ _ _ Hh _] _]. rewrite Eh in Hh.
  exact (hist_ok_app _ _ _ Hh).
Qed.

(** The goroutine is in the loop: it waits in the select or is about to call
    the core about peers. *)
Definition in_loop (p : thread) : bool :=
  match p with Select _ _ | GetPeers _ | AddPeer _ _ _ _ | RemovePeer _ _ _ => true | _ => false end.

(** At most one goroutine runs the loop, and only while the manager is active,
    however Start, Stop and Close race. *)
Theorem one_loop c w i j p q :
  reachable c w -> threads w !! i = Some p -> threads w !! j = Some q -> in_loop p = true -> in_loop q = true ->
  i = j /\ active (mgr (shared w)) = true.
Proof.
  intros Hr Hp Hq Hip Hiq. destruct (world_inv_reachable c w Hr) as [_ (o & Ho & Hok)].
  assert (Hown : forall k r, threads w !! k = Some r -> in_loop r = true -> o = Some k).
  { intros k r Hk Hir. specialize (Hok k r Hk). unfold thread_ok in Hok.
    destruct r; try done; simpl in Hok; destruct Hok as [Hb _]; by apply bool_decide_eq_true in Hb. }
  rewrite (Hown i p) in Ho by done. split; [|apply Ho].
  pose proof (Hown i p Hp Hip). pose proof (Hown j q Hq Hiq). congruence.
Qed.

(** ** A check that nobody interrupts *)

(** How the core answers meanwhile. *)
Record Env := mkEnv {
  e_peers : list PeerInfo;
  e_dial : URL -> option linkError;
  e_remove : URL -> option linkError;
  e_info : string -> bytes
}.

(** The program run to its end, with the goroutines it starts. *)
Fixpoint alone {A} (E : Env) (p : prog A) (s : Shared) : option (A * Shared * list thread) :=
  match p with
  | Ret a => Some (a, s, [])
  | Locked f k => let '(x, m) := f (clk s) (fresh s) (mgr s) in alone E (k x) (alloc (set_mgr m s))
  | Now k => alone E (k (clk s)) s
  | ReadStop k => alone E (k (stop (mgr s))) s
  | ReadDone k => alone E (k (done (mgr s))) s
  | GetPeers k => alone E (k (e_peers E)) (log (HPeers (e_peers E)) s)
  | AddPeer t addr u k => alone E (k (e_dial E u)) (log (HAdd t addr u (e_dial E u) (clk s)) s)
  | RemovePeer o u k => alone E (k (e_remove E u)) (log (HRemove o u (e_remove E u) (clk s)) s)
  | GetNodeInfo t k => alone E (k (e_info E t)) (log (HInfo t (e_info E t)) s)
  | SignalWake k => alone E k (set_mgr (set_wake true (mgr s)) s)
  | GoFetch t k => match alone E k s with
                   | Some (a, s, new) => Some (a, s, returning (fetch t) :: new)
                   | None => None
                   end
  | GoLoop _ | CloseChan _ _ | Receive _ _ | Select _ _ => None
  end.

Definition only (i : nat) (es : list event) : Prop := forall e, e ∈ es -> exists ans, e = Run i ans.

Lemma step_then w i p ans q s1 sp s' r new :
  panicked (shared w) = false -> threads w !! i = Some p -> step_prog p ans (shared w) = Some (q, s1, sp) ->
  (exists es, only i es /\ exec_list es (mkWorld s1 (<[i := q]> (threads w) ++ sp)) =
     Some (mkWorld s' (<[i := r]> (<[i := q]> (threads w) ++ sp) ++ new))) ->
  exists es, only i es /\ exec_list es w = Some (mkWorld s' (<[i := r]> (threads w) ++ sp ++ new)).
Proof.
  intros Hp Hi Hs (es & Ho & He). exists (Run i ans :: es). split.
  { intros e [->|Hin]%elem_of_cons; [by exists ans|by apply Ho]. }
  cbn [exec_list]. unfold exec. rewrite Hp, Hi, Hs, He, insert_app_l by (rewrite length_insert; by eapply lookup_lt_Some).
  by rewrite list_insert_insert_eq, (assoc_L (++)).
Qed.

(** It is a schedule of the world in which only this goroutine takes steps. *)
Lemma alone_runs {A} E (p : prog A) (g : A -> thread) w i a s' new :
  panicked (shared w) = false -> threads w !! i = Some (pbind p g) -> alone E p (shared w) = Some (a, s', new) ->
  exists es, only i es /\ exec_list es w = Some (mkWorld s' (<[i := g a]> (threads w) ++ new)).
Proof.
  assert (Hlook : forall (q : thread) sp w, (i < length (threads w))%nat -> (<[i := q]> (threads w) ++ sp) !! i = Some q).
  { intros q sp w' Hlt. rewrite lookup_app_l by (by rewrite length_insert). by apply list_lookup_insert_eq. }
  revert w new. induction p as [b|X f k IH|k IH|k IH|k IH|k IH|t addr u k IH|o u k IH|t k IH|k IH|c k IH|c k IH|k IH|t k IH|];
    intros w new Hp Hi Ha; simpl in Ha; try done; pose proof (lookup_lt_Some _ _ _ Hi) as Hlt.
  - injection Ha as -> <- <-. exists []. split; [by intros e []%elem_of_nil|]. simpl.
    rewrite app_nil_r, list_insert_id by done. by destruct w.
  - destruct (f _ _ _) as [x m] eqn:Ef. eapply (step_then _ _ _ ANone _ _ []); [done..|simpl; by rewrite Ef|].
    by eapply IH; [|apply Hlook|].
  - eapply (step_then _ _ _ ANone _ _ []); [done..|]. by eapply IH; [|apply Hlook|].
  - eapply (step_then _ _ _ ANone _ _ []); [done..|]. by eapply IH; [|apply Hlook|].
  - eapply (step_then _ _ _ ANone _ _ []); [done..|]. by eapply IH; [|apply Hlook|].
  - eapply (step_then _ _ _ (APeers (e_peers E)) _ _ []); [done..|]. by eapply IH; [|apply Hlook|].
  - eapply (step_then _ _ _ (AErr (e_dial E u)) _ _ []); [done..|]. by eapply IH; [|apply Hlook|].
  - eapply (step_then _ _ _ (AErr (e_remove E u)) _ _ []); [done..|]. by eapply IH; [|apply Hlook|].
  - eapply (step_then _ _ _ (AInfo (e_info E t)) _ _ []); [done..|]. by eapply IH; [|apply Hlook|].
  - eapply (step_then _ _ _ ANone _ _ []); [done..|]. by eapply IH; [|apply Hlook|].
  - destruct (alone E k (shared w)) as [[[a0 s0] new0]|] eqn:E1; [|done]. injection Ha as -> <- <-.
    eapply (step_then _ _ _ ANone _ _ [returning (fetch t)]); [done..|]. by eapply IH; [|apply Hlook|].
Qed.

Lemma alone_bind {A B} E (p : prog A) (g : A -> prog B) s a s1 new1 :
  alone E p s = Some (a, s1, new1) ->
  alone E (pbind p g) s = match alone E (g a) s1 with
                          | Some (b, s2, new2) => Some (b, s2, new1 ++ new2)
                          | None => None
                          end.
Proof.
  revert s new1. induction p as [b|X f k IH|k IH|k IH|k IH|k IH|t addr u k IH|o u k IH|t k IH|k IH|c k IH|c k IH|k IH|t k IH|];
    intros s new1 Ha; simpl in *; try done; try (by apply IH).
  - injection Ha as -> <- <-. by destruct (alone E (g a) s) as [[[]]|].
  - destruct (f _ _ _) as [x m]. by apply IH.
  - destruct (alone E k s) as [[[a0 s0] new0]|] eqn:E1; [|done]. injection Ha as -> <- <-.
    rewrite (IH _ _ E1). by destruct (alone E (g a) s0) as [[[]]|].
Qed.

(** *** What a check of one target does *)

Definition dials (h : list entry) : list (string * string * URL * option linkError) :=
  omap (fun e => match e with HAdd t a u r _ => Some (t, a, u, r) | _ => None end) h.

(** What becomes of an address, and whether the loop ends with it. *)
Definition outcome (E : Env) (addr : string) : option (URL * option linkError) :=
  match url_Parse addr with None => None | Some u => Some (u, e_dial E u) end.
Definition stops (E : Env) (addr : string) : bool :=
  match outcome E addr with Some (_, None) | Some (_, Some ErrLinkAlreadyConfigured) => true | _ => false end.

Fixpoint take_through {A} (P : A -> bool) (l : list A) : list A :=
  match l with [] => [] | a :: l => if P a then [a] else a :: take_through P l end.

(** The loop has gone through the addresses of [visited]. *)
Record effects (E : Env) (target : string) (visited : list string) (s s' : Shared) : Prop := mkEffects {
  eff_dials : dials (hist s') =
    rev (omap (fun addr => (fun '(u, r) => (target, addr, u, r)) <$> outcome E addr) visited) ++ dials (hist s);
  eff_tried : forall t, tried_of t (mgr s') = tried_of t (mgr s) ∪
    (if decide (t = target)
     then list_to_set (filter (fun addr => snd <$> outcome E addr <> Some (Some ErrLinkAlreadyConfigured)) visited) else ∅);
  eff_owned : owned (mgr s') =
    match last visited with
    | Some addr => match outcome E addr with
                   | Some (u, None) => <[url_String u := mkOwned target (url_String u) (clk s)]> (owned (mgr s))
                   | _ => owned (mgr s)
                   end
    | None => owned (mgr s)
    end;
  eff_clk : clk s' = clk s
}.


(** The same books, dials and clock. *)
Definition same_effects (s s' : Shared) : Prop :=
  dials (hist s') = dials (hist s) /\ (forall t, tried_of t (mgr s') = tried_of t (mgr s)) /\
  owned (mgr s') = owned (mgr s) /\ clk s' = clk s.

Lemma effects_before E target v s s1 s' : same_effects s s1 -> effects E target v s1 s' -> effects E target v s s'.
Proof.
  intros (H1 & H2 & H3 & H4) [E1 E2 E3 E4]. split; [by rewrite E1, H1|intros t; by rewrite E2, H2| |congruence].
  rewrite E3, H3, H4. done.
Qed.

Lemma effects_nil E target s s' : same_effects s s' -> effects E target [] s s'.
Proof.
  intros (H1 & H2 & H3 & H4). split; try done. intros t. rewrite H2.
  destruct (decide _); [rewrite filter_nil|]; set_solver.
Qed.

Lemma effects_cons E target a v s s1 s' :
  stops E a = false -> effects E target [a] s s1 -> effects E target v s1 s' -> effects E target (a :: v) s s'.
Proof.
  intros Hs [A1 A2 A3 A4] [B1 B2 B3 B4].
  assert (A3' : owned (mgr s1) = owned (mgr s)).
  { rewrite A3. simpl. unfold stops in Hs. by destruct (outcome E a) as [[u [e|]]|]. }
  split; [|intros t|..].
  - rewrite B1, A1. simpl. destruct (outcome E a) as [[u r]|]; simpl; [|done].
    by rewrite <- (assoc_L (++)).
  - rewrite B2, A2, filter_cons, filter_cons, filter_nil.
    destruct (decide (t = target)); destruct (decide (snd <$> outcome E a <> _)); simpl; set_solver.
  - rewrite B3, A3', A4. destruct v as [|b v]; [|done]. simpl.
    unfold stops in Hs. by destruct (outcome E a) as [[u [e|]]|].
  - congruence.
Qed.

(** [markTried] after an address that failed to parse or to be added. *)
Lemma effects_mark E target a st s :
  st = stateForTargetLocked target (mgr s) -> outcome E a = None ->
  effects E target [a] s (alloc (set_mgr (put_target target
    (mkTarget (pending st) (fetching st) (fetched st) (addrs st) ({[a]} ∪ tried st)) (mgr s)) s)).
Proof.
  intros -> Ho. split; simpl; rewrite ?Ho; try done. intros t. rewrite tried_of_put, filter_cons, filter_nil, Ho.
  rewrite (decide_True (P := _ <> _)) by done. destruct (decide (t = target)) as [->|]; simpl; [|by rewrite (right_id_L ∅ (∪))].
  unfold tried_of. set_solver.
Qed.

Lemma effects_add E target a st u r s s1 :
  outcome E a = Some (u, r) -> r <> Some ErrLinkAlreadyConfigured ->
  hist s1 = HAdd target a u r (clk s) :: hist s -> clk s1 = clk s ->
  (forall t, tried_of t (mgr s1) = tried_of t (mgr s)) ->
  owned (mgr s1) = match r with None => <[url_String u := mkOwned target (url_String u) (clk s)]> (owned (mgr s)) | Some _ => owned (mgr s) end ->
  st = stateForTargetLocked target (mgr s1) ->
  effects E target [a] s (alloc (set_mgr (put_target target
    (mkTarget (pending st) (fetching st) (fetched st) (addrs st) ({[a]} ∪ tried st)) (mgr s1)) s1)).
Proof.
  intros Ho Hr Hh Hc Ht Hw ->. split; simpl; [|intros t|..]; rewrite ?Ho, ?Hh, ?Hw; try done.
  rewrite tried_of_put, filter_cons, filter_nil, Ho. rewrite (decide_True (P := _ <> _)) by (simpl; congruence).
  destruct (decide (t = target)) as [->|]; simpl; [|by rewrite (right_id_L ∅ (∪)), Ht].
  fold (tried_of target (mgr s1)). rewrite Ht. set_solver.
Qed.

Lemma try_addrs_alone E target state l s :
  (forall a, a ∈ l -> uriConfigured (e_peers E) a = false) ->
  exists s', alone E (try_addrs target state l) s = Some (tt, s', []) /\
    effects E target (take_through (stops E) (filter (fun a => a ∉ tried state) l)) s s'.
Proof.
  revert s. induction l as [|a l IH]; intros s Hc; simpl.
  { exists s. split; [done|]. by apply effects_nil. }
  assert (IH' := fun s => IH s (fun a Ha => Hc a ltac:(by right))). clear IH.
  rewrite filter_cons. case_bool_decide as Ht.
  { rewrite decide_False by (intros Hn; by apply Hn). apply IH'. }
  rewrite decide_True by done. simpl. rewrite Hc by left.
  set (s1 := log (HPeers (e_peers E)) s). assert (Hs1 : same_effects s s1) by done.
  destruct (url_Parse a) as [u|] eqn:Eu; simpl.
  - assert (Ho : outcome E a = Some (u, e_dial E u)) by (unfold outcome; by rewrite Eu).
    destruct (e_dial E u) as [e|] eqn:Ed; cycle 1.
    + simpl. eexists. split; [done|]. replace (stops E a) with true by (unfold stops; by rewrite Ho).
      eapply effects_before; [exact Hs1|].
      by apply (effects_add E target a _ u None s1 (alloc (set_mgr (set_owned (<[url_String u := mkOwned target (url_String u) (clk s)]>
        (owned (mgr s))) (mgr s)) (log (HAdd target a u None (clk s)) s1)))).
    + assert (Hgo : e <> ErrLinkAlreadyConfigured -> exists s',
        alone E (markTried target a;;; try_addrs target state l) (log (HAdd target a u (Some e) (clk s1)) s1) = Some (tt, s', []) /\
        effects E target (take_through (stops E) (a :: filter (fun a => a ∉ tried state) l)) s s').
      { intros He. simpl. set (s2 := alloc _). destruct (IH' s2) as (s' & Hs' & Hv). exists s'. split; [exact Hs'|].
        assert (Hst : stops E a = false) by (unfold stops; rewrite Ho; by destruct e). rewrite Hst.
        eapply effects_before; [exact Hs1|]. eapply (effects_cons _ _ _ _ _ s2); [done| |done].
        apply (effects_add E target a _ u (Some e) s1 (log (HAdd target a u (Some e) (clk s1)) s1)); try done; congruence. }
      destruct e; try (apply Hgo; done). simpl. eexists. split; [done|].
      replace (stops E a) with true by (unfold stops; by rewrite Ho). split; simpl; rewrite ?Ho; try done.
      intros t. rewrite filter_cons, filter_nil, Ho, (decide_False (P := _ <> _)) by (intros Hn; by apply Hn).
      destruct (decide (t = target)); set_solver.
  - assert (Ho : outcome E a = None) by (unfold outcome; by rewrite Eu).
    set (s2 := alloc _). destruct (IH' s2) as (s' & Hs' & Hv). exists s'. split; [exact Hs'|].
    assert (Hst : stops E a = false) by (unfold stops; by rewrite Ho). rewrite Hst.
    eapply effects_before; [exact Hs1|]. eapply (effects_cons _ _ _ _ _ s2); [done| |done].
    exact (effects_mark E target a _ s1 eq_refl Ho).
Qed.

Definition directly_connected (E : Env) (target : string) : bool :=
  match hex_DecodeString target with
  | None => false
  | Some key => existsb (fun peer => Up peer && bool_decide (Key peer = key)) (e_peers E)
  end.

Lemma direct_alone E target s : exists s1 : Shared,
  alone E (targetDirectlyConnected target) s = Some (directly_connected E target, s1, []) /\
  same_effects s s1 /\ mgr s1 = mgr s.
Proof.
  unfold targetDirectlyConnected, directly_connected.
  destruct (hex_DecodeString target); simpl; eexists; by split.
Qed.

Lemma configured_alone E target s : exists s1 : Shared,
  alone E (targetHasPublishedLinkConfigured target) s =
    Some (existsb (uriConfigured (e_peers E)) (addrs (stateForTargetLocked target (mgr s))), s1, []) /\
  same_effects s s1 /\ targets (mgr s1) = targets (mgr s).
Proof.
  unfold targetHasPublishedLinkConfigured, stateForTargetLocked. simpl.
  destruct (targets (mgr s) !! target) as [st|]; simpl; [|by eexists].
  destruct (addrs st); simpl; eexists; by split.
Qed.

(** C17: A check of a target, with nobody interfering, dials nothing when a
    connected peer has the key of the target, one of its addresses is in the
    peer list, or it has no traffic.  Otherwise it dials, in the published
    order, the addresses that were not dialed before, up to and including the
    first one that the core accepts or knows already; failing and unparsable
    addresses are marked as tried like the accepted one, which also becomes
    an owned link.  The fetch of the node info is started exactly when there is
    traffic, no address is known and no fetch is running or has ended. *)
Theorem checkTarget_spec E s target :
  let st := stateForTargetLocked target (mgr s) in
  let quiet := directly_connected E target || existsb (uriConfigured (e_peers E)) (addrs st) || negb (pending st) in
  exists s' new, alone E (checkTarget target) s = Some (tt, s', new) /\
    effects E target (take_through (stops E) (if quiet then [] else filter (fun a => a ∉ tried st) (addrs st))) s s' /\
    new = (if negb quiet && bool_decide (addrs st = []) && negb (fetched st) && negb (fetching st)
           then [returning (fetch target)] else []).
Proof.
  intros st quiet. unfold checkTarget.
  destruct (direct_alone E target s) as (s1 & A1 & F1 & M1). rewrite (alone_bind _ _ _ _ _ _ _ A1).
  unfold quiet. destruct (directly_connected E target); cbn [orb negb andb alone].
  { exists s1, []. split_and!; try done. by apply effects_nil. }
  destruct (configured_alone E target s1) as (s2 & A2 & F2 & M2).
  assert (Est : stateForTargetLocked target (mgr s1) = st) by (by rewrite M1).
  rewrite (alone_bind _ _ _ _ _ _ _ A2), Est. clear Est A1 A2.
  assert (F12 : same_effects s s2).
  { destruct F1 as (? & Ht1 & ? & ?), F2 as (? & Ht2 & ? & ?). split_and!; try congruence; intros t; by rewrite Ht2, Ht1. }
  destruct (existsb _ (addrs st)) eqn:Ec; cbn [orb negb andb alone].
  { exists s2, []. split_and!; try done. by apply effects_nil. }
  set (s3 := alloc (set_mgr (mgr s2) s2)). assert (F3 : same_effects s s3) by exact F12.
  assert (A3 : alone E (stateForTarget target) s2 = Some (targets (mgr s) !! target, s3, [])) by (simpl; by rewrite M2, M1).
  rewrite (alone_bind _ _ _ _ _ _ _ A3). clear A3.
  unfold st in *. unfold stateForTargetLocked in Ec |- *. destruct (targets (mgr s) !! target) as [st'|] eqn:Et; cycle 1.
  { exists s3, []. split_and!; try done. by apply effects_nil. }
  cbn [default id] in *. destruct (pending st'); cbn [negb andb orb alone]; cycle 1.
  { exists s3, []. split_and!; try done. by apply effects_nil. }
  destruct (addrs st') as [|a l] eqn:Ea; cycle 1.
  { destruct (try_addrs_alone E target st' (a :: l) s3) as (s' & A & F).
    { intros b Hb. destruct (uriConfigured (e_peers E) b) eqn:Eb; [|done].
      assert (He : existsb (uriConfigured (e_peers E)) (a :: l) = true) by (apply existsb_exists; exists b; by rewrite <- list_elem_of_In).
      congruence. }
    exists s', []. split_and!; [by rewrite A|by eapply effects_before|done]. }
  rewrite filter_nil. cbn [take_through]. destruct (fetched st') eqn:Efd; cbn [negb andb].
  { exists s3, []. split_and!; try done. by apply effects_nil. }
  assert (Est : stateForTargetLocked target (mgr s2) = st') by (unfold stateForTargetLocked; by rewrite M2, M1, Et).
  assert (F4 : forall b, same_effects s (alloc (set_mgr (put_target target
      (mkTarget (pending st') b (fetched st') (addrs st') (tried st')) (mgr s3)) s3))).
  { intros b. split_and!; try apply F3. intros t. simpl. rewrite tried_of_put.
    destruct (decide (t = target)) as [->|]; [|apply F3]. unfold tried_of, stateForTargetLocked. by rewrite Et. }
  simpl. rewrite Est, Ea. destruct (fetching st') eqn:Ef.
  - exists (alloc (set_mgr (put_target target st' (mgr s2)) s3)), []. split_and!; [done| |done].
    apply effects_nil. specialize (F4 true). rewrite Ea, <- Ef in F4. rewrite <- Ea in F4. by destruct st'.
  - simpl. eexists _, _. split_and!; [done| |done]. apply effects_nil. specialize (F4 true). by rewrite Ea in F4.
Qed.


(** ** Publishing addresses *)

(** What the code relies on: a URL that was parsed is written without spaces
    around it and parses to itself, and JSON is read back as it was written. *)
Record url_laws : Prop := mkUrlLaws {
  url_reparse : forall s u, url_Parse s = Some u -> url_Parse (url_String u) = Some u;
  url_trimmed : forall s u, url_Parse s = Some u -> TrimSpace (url_String u) = url_String u;
  url_not_blank : forall s u, url_Parse s = Some u -> url_String u <> EmptyString
}.

Lemma normalize_loop_fixed seen l :
  url_laws -> normalize_loop seen (normalize_loop seen l) = normalize_loop seen l.
Proof.
  intros [L1 L2 L3]. revert seen. induction l as [|s l IH]; intros seen; simpl; [done|].
  case_bool_decide; [done|]. destruct (url_Parse (TrimSpace s)) as [u|] eqn:Eu; [|done].
  case_bool_decide as E2; [done|]. case_bool_decide as E3; [done|]. simpl.
  case_bool_decide as E4; [done|]. simpl.
  rewrite (L2 _ _ Eu), (L1 _ _ Eu), bool_decide_false by (by eapply L3).
  rewrite !bool_decide_false by done. simpl. by rewrite IH.
Qed.

(** What a node advertises is what another node reads out of its node info: the
    normal form of the configured addresses, without duplicates and in their
    order. *)
Theorem advertised_roundtrip (Marshal : gmap string (gmap string (list string)) -> bytes) addresses info :
  url_laws ->
  (forall m inner l, m !! NodeInfoKey = Some inner -> inner !! "addresses"%string = Some l ->
     Marshal m <> [] /\ Unmarshal (Marshal m) = Some l) ->
  AdvertisedNodeInfo addresses = Some info ->
  parseNodeInfoAddresses (Marshal info) = normalizeAddresses addresses /\
  NoDup (normalizeAddresses addresses) /\
  forall a, a ∈ normalizeAddresses addresses <-> address_of addresses a.
Proof.
  intros HL HM Ha. destruct (normalize_loop_spec ∅ addresses) as [Hn Hin]. split_and!; [|done|].
  - unfold AdvertisedNodeInfo in Ha. destruct (normalizeAddresses addresses) as [|a l] eqn:En; [done|].
    injection Ha as <-. destruct (HM {[NodeInfoKey := {["addresses"%string := a :: l]}]} {["addresses"%string := a :: l]} (a :: l)) as [H1 H2];
      [by rewrite lookup_singleton_eq..|].
    unfold parseNodeInfoAddresses. destruct (Marshal _) eqn:Em; [done|]. rewrite H2, <- En.
    by apply normalize_loop_fixed.
  - intros a. unfold normalizeAddresses. rewrite Hin. split; [by intros []|]. split; [set_solver|done].
Qed.

End Manager.

(** ** Concrete runs *)

Module Sample.
Definition Parse (s : string) : option URL := Some (mkURL "tls" s "" "" []).
Definition Decode (info : bytes) : option (list string) := match info with [1] => Some ["a"%string] | _ => None end.
Definition key : bytes := replicate 32 7.
Definition target : string := hex_EncodeToString key.

Definition run (i : nat) (l : list answer) : list event := map (Run i) l.
Definition quiet_cleanup : list answer := [APeers []; ANone; ANone; ANone].
Definition start : list event := Call (CallStart true) :: run 0 [ANone; ANone; ANone] ++ run 1 [ANone; ANone; ANone].

(** The target is notified, its node info fetched, its address dialed, and the
    link removed half a minute later. *)
Definition dial_and_remove : list event :=
  start ++ Call (CallNotify key) :: run 2 [ANone; ANone] ++
  run 1 (ACase CWake :: quiet_cleanup ++ [ANone; APeers []; ANone; ANone; ANone; ANone; ANone; ANone; ANone]) ++
  run 3 [AInfo [1]; ANone; ANone] ++
  run 1 (ACase CWake :: quiet_cleanup ++ [ANone; APeers []; ANone; APeers []; ANone; APeers []; AErr None; ANone; ANone; ANone; ANone; ANone]) ++
  Tick (31 * Second) :: run 1 (ACase CTimer :: quiet_cleanup ++ [AErr None; ANone]).

Definition after (es : list event) : option World := exec_list Parse Host Decode es (World_init (mkConfig 0 0)).

(** Its history. *)
Definition url_a : URL := mkURL "tls" "a" "" "" [].
Definition before_add : list entry :=
  [HPeers []; HPeers []; HPeers []; HPeers []; HCheck; HInfo target [1]; HPeers []; HPeers []; HCheck; HNotify key].
Definition before_remove : list entry :=
  HPeers [] :: HCheck :: HAdd target "a" url_a None 0 :: before_add.
Definition removed : entry := HRemove (mkOwned target "a" 0) url_a None (31 * Second).

(** A restart in the window between the end of the loop and the closing of its
    channel: Stop (goroutine 2) waits for channel 1 while the loop (1) ends;
    Start (3) replaces the channels before the loop closes [done]. *)
Definition race : list event :=
  start ++ Call CallStop :: run 2 [ANone; ANone] ++
  run 1 (ACase CStop :: quiet_cleanup ++ [ANone]) ++
  Call (CallStart true) :: run 3 [ANone; ANone; ANone] ++ run 1 [ANone; ANone; ANone] ++ run 4 [ANone; ANone; ANone].
(** The second Stop (5) and the end of the second loop (4). *)
Definition race_then : list event :=
  race ++ Call CallStop :: run 5 [ANone; ANone; ANone].
Definition race_panics : list event :=
  race_then ++ run 4 (ACase CStop :: quiet_cleanup ++ [ANone; ANone; ANone; ANone]).
End Sample.

Lemma run_list_reachable P S D c es w w' :
  reachable P S D c w -> exec_list P S D es w = Some w' -> reachable P S D c w'.
Proof.
  revert w. induction es as [|e es IH]; intros w Hr; cbn [exec_list]; [by intros [= <-]|].
  destruct (exec P S D e w) as [w1|] eqn:E; [|done]. apply IH. by eapply reach_step.
Qed.

Lemma sample_after_reachable es w :
  Sample.after es = Some w -> reachable Sample.Parse Host Sample.Decode (mkConfig 0 0) w.
Proof. apply run_list_reachable. constructor. Qed.

Definition sample_view (i : nat) (w : World) : list entry * option bool := (hist (shared w), in_loop <$> threads w !! i).

Lemma sample_computed :
  option_map (sample_view 1) (Sample.after (Sample.dial_and_remove ++ Sample.run 1 [ANone])) =
  Some (Sample.removed :: Sample.before_remove, Some true).
Proof. vm_compute. reflexivity. Qed.

Lemma sample_dial_and_remove : exists w, reachable Sample.Parse Host Sample.Decode (mkConfig 0 0) w /\
  hist (shared w) = Sample.removed :: Sample.before_remove /\
  (exists p, threads w !! 1%nat = Some p /\ in_loop p = true).
Proof.
  pose proof sample_computed as H. destruct (Sample.after _) as [w|] eqn:E; [|done].
  injection H as H1 H2. exists w. split_and!; [by eapply sample_after_reachable|done|].
  destruct (threads w !! 1%nat) as [p|]; [|done]. injection H2 as H2. eauto.
Qed.

Lemma dials_justified_witness : exists w older,
  hist (shared w) = [Sample.removed; HPeers []; HCheck] ++ HAdd Sample.target "a" Sample.url_a None 0 :: older /\
  uriConfigured (last_peers older) "a" = false.
Proof.
  destruct sample_dial_and_remove as (w & Hr & Hh & _). exists w, Sample.before_add. split; [exact Hh|].
  apply (dials_justified Sample.Parse Host Sample.Decode (mkConfig 0 0) w [Sample.removed; HPeers []; HCheck] Sample.target "a" Sample.url_a None 0);
    [exact Hr|exact Hh].
Defined.

Lemma removals_justified_witness : exists w older,
  hist (shared w) = [] ++ Sample.removed :: older /\
  (count (is_remove "a") older < count (is_add Host "a") older)%nat.
Proof.
  destruct sample_dial_and_remove as (w & Hr & Hh & _). exists w, Sample.before_remove. split; [exact Hh|].
  apply (removals_justified Sample.Parse Host Sample.Decode (mkConfig 0 0) w [] (mkOwned Sample.target "a" 0) Sample.url_a None (31 * Second));
    [exact Hr|exact Hh].
Defined.

Lemma one_loop_witness : exists w, active (mgr (shared w)) = true.
Proof.
  destruct sample_dial_and_remove as (w & Hr & _ & p & Hp & Hi). exists w.
  apply (one_loop Sample.Parse Host Sample.Decode (mkConfig 0 0) w 1 1 p p Hr Hp Hp Hi Hi).
Defined.

(** Two hosts, and a JSON of its own. *)
Definition sample_Parse2 (s : string) : option URL :=
  if bool_decide (s = "a"%string) || bool_decide (s = "b"%string) then Some (mkURL "tls" s "" "" []) else None.
Definition sample_Marshal (m : gmap string (gmap string (list string))) : bytes :=
  match m !! NodeInfoKey with
  | Some inner => match inner !! "addresses"%string with Some l => [Zpos (encode l)] | None => [0] end
  | None => [0]
  end.
Definition sample_Unmarshal (info : bytes) : option (list string) :=
  match info with [Zpos p] => decode p | _ => None end.

Lemma sample_url_laws : url_laws sample_Parse2 Host.
Proof.
  assert (H : forall s u, sample_Parse2 s = Some u -> (s = "a" \/ s = "b")%string /\ u = mkURL "tls" s "" "" []).
  { unfold sample_Parse2. intros s u. do 2 case_bool_decide; simpl; intros [= <-]; auto. }
  split; intros s u [[-> | ->] ->]%H; reflexivity || discriminate.
Qed.

Lemma sample_json m inner l :
  m !! NodeInfoKey = Some inner -> inner !! "addresses"%string = Some l ->
  sample_Marshal m <> [] /\ sample_Unmarshal (sample_Marshal m) = Some l.
Proof. intros H1 H2. unfold sample_Marshal. rewrite H1, H2. split; [done|]. apply decode_encode. Qed.

Lemma advertised_roundtrip_witness : exists info,
  AdvertisedNodeInfo sample_Parse2 Host ["a"; " "; "b"; "c"; "a"]%string = Some info /\
  parseNodeInfoAddresses sample_Parse2 Host sample_Unmarshal (sample_Marshal info) = ["a"; "b"]%string.
Proof.
  eexists. split; [reflexivity|].
  apply (advertised_roundtrip sample_Parse2 Host sample_Unmarshal sample_Marshal ["a"; " "; "b"; "c"; "a"]%string _
    sample_url_laws sample_json eq_refl).
Defined.

(** What the goroutines of the race are waiting for. *)
Definition waits_for (p : prog (option bool)) : option Z := match p with Receive c _ => c | _ => None end.
Definition ended (p : prog (option bool)) : bool := match p with Ret None => true | _ => false end.
Definition selects (p : prog (option bool)) : bool := match p with Select _ _ => true | _ => false end.
Definition race_view (w : World) : bool * list bool * list bool * list (option Z) * bool :=
  (active (mgr (shared w)), map ended (threads w), map selects (threads w), map waits_for (threads w),
   bool_decide (1 ∈ closedch (shared w))).

(** Counterexample: a restart that falls between the end of the loop and the
    closing of its channel.  The loop (goroutine 1) has ended, but the first
    Stop (2) waits for the channel 1 that is not closed; the second Stop (5)
    has returned while the loop it is to stop (4) is still in its select; and
    when that loop ends it closes a closed channel, which panics. *)
Theorem restart_race :
  option_map race_view (Sample.after Sample.race_then) =
    Some (true, [false; true; false; false; false; true], [false; false; false; false; true; false],
          [None; None; Some 1; None; None; None], false) /\
  option_map (fun w => panicked (shared w)) (Sample.after Sample.race_panics) = Some true.
Proof. split; vm_compute; reflexivity. Qed.
