(* ===== verification/Fetcher.v ===== *)
(** * Fetcher: the public peer lists (ygglib/autopeer/fetcher.go, types.go)

    The fetcher keeps an ordered list of sources, the network of each, the peers
    that each contributed last, and their concatenation, which it reports to a
    callback.  Every section that holds the mutex is a function on [Fetcher];
    what a goroutine still has to do after it is a [task], and [exec] lets any
    goroutine take its next step.  The answer of the HTTP request is an argument
    of the step; JSON is a parameter. *)

From Stdlib Require Import Ascii Floats.SpecFloat.
From S2P Require Import Prelude GoStd.

(** ** Documents *)

Definition BuiltinSource : string := "BUILTIN".

Record Uptime := mkUptime {
  Status : string; StatusClass : string; StatusSince : string;
  Uptime7DPercent : spec_float; Uptime7DRaw : string;
  ObservedCountry : string; ObservedAddress : string; ObservedAt : string
}.
Record Endpoint := mkEndpoint {
  ep_URL : string; ep_Protocol : string; ep_Host : string; ep_Port : Z;
  ep_Query : string; ep_SourceURL : string; ep_Normalized : bool;
  ep_Annotations : list string; ep_Uptime : option Uptime
}.
Record Peer := mkPeer {
  p_Source : string; p_Continent : string; p_Country : string;
  p_SourceFile : string; p_Label : string; p_Endpoints : list Endpoint
}.
Record Document := mkDocument {
  SchemaVersion : string; GeneratedAt : string;
  PublicPeersRepo : string; PublicPeersBranch : string; UptimePage : string;
  Peers : list Peer
}.

#[export] Instance spec_float_eq_dec : EqDecision spec_float.
Proof. solve_decision. Defined.
#[export] Instance Uptime_eq_dec : EqDecision Uptime.
Proof. solve_decision. Defined.
#[export] Instance Endpoint_eq_dec : EqDecision Endpoint.
Proof. solve_decision. Defined.
#[export] Instance Peer_eq_dec : EqDecision Peer.
Proof. solve_decision. Defined.

Definition blank (s : string) : bool := bool_decide (s = EmptyString).

Definition endpoint_missing (e : Endpoint) : bool :=
  blank (ep_URL e) || blank (ep_Protocol e) || blank (ep_Host e) || (ep_Port e <? 1) || (65535 <? ep_Port e).
Definition peer_missing (p : Peer) : bool :=
  blank (p_Continent p) || blank (p_Country p) || blank (p_SourceFile p) ||
  bool_decide (p_Endpoints p = []) || existsb endpoint_missing (p_Endpoints p).

(** [true] where the code returns nil. *)
Definition validateDocument (doc : Document) : bool :=
  negb (blank (SchemaVersion doc) || blank (GeneratedAt doc) || blank (PublicPeersRepo doc) ||
        blank (PublicPeersBranch doc) || blank (UptimePage doc) || existsb peer_missing (Peers doc)).

Definition set_source (source : string) (p : Peer) : Peer :=
  mkPeer source (p_Continent p) (p_Country p) (p_SourceFile p) (p_Label p) (p_Endpoints p).

(** ** State

    A network is a value of some Go type; [comparable] is that of the type. *)
Record Network := mkNetwork { net_id : Z; comparable : bool }.
#[export] Instance Network_eq_dec : EqDecision Network.
Proof. solve_decision. Defined.

Definition sameNetwork (a b : option Network) : bool :=
  match a, b with
  | Some a, Some b => comparable a && bool_decide (a = b)
  | None, None => true
  | _, _ => false
  end.

(** [peers] is a slice that may be nil; the channels are closed or not. *)
Record Fetcher := mkFetcher {
  interval : Z;
  active : bool;
  closed : bool;
  defaultNetwork : option Network;
  sourceOrder : list string;
  sourceNetworks : gmap string (option Network);
  sourcePeers : gmap string (list Peer);
  peers : option (list Peer);
  onChange : option Z;
  started : bool;
  stop : bool;
  done : bool;
  wake : bool
}.

Definition defaultFetchInterval : Z := 3600 * 1000000000.
Definition fix_interval (interval : Z) : Z := if interval <=? 0 then defaultFetchInterval else interval.

Definition NewFetcher (i : Z) : Fetcher :=
  mkFetcher (fix_interval i) false false None [] ∅ ∅ None None false false false false.

Definition set_flags (a c st : bool) (f : Fetcher) : Fetcher :=
  mkFetcher (interval f) a c (defaultNetwork f) (sourceOrder f) (sourceNetworks f) (sourcePeers f) (peers f) (onChange f) st (stop f) (done f) (wake f).
Definition set_interval (i : Z) (f : Fetcher) : Fetcher :=
  mkFetcher i (active f) (closed f) (defaultNetwork f) (sourceOrder f) (sourceNetworks f) (sourcePeers f) (peers f) (onChange f) (started f) (stop f) (done f) (wake f).
Definition set_networks (d : option Network) (ns : gmap string (option Network)) (f : Fetcher) : Fetcher :=
  mkFetcher (interval f) (active f) (closed f) d (sourceOrder f) ns (sourcePeers f) (peers f) (onChange f) (started f) (stop f) (done f) (wake f).
Definition set_sources (l : list string) (f : Fetcher) : Fetcher :=
  mkFetcher (interval f) (active f) (closed f) (defaultNetwork f) l (sourceNetworks f) (sourcePeers f) (peers f) (onChange f) (started f) (stop f) (done f) (wake f).
Definition set_sourcePeers (sp : gmap string (list Peer)) (f : Fetcher) : Fetcher :=
  mkFetcher (interval f) (active f) (closed f) (defaultNetwork f) (sourceOrder f) (sourceNetworks f) sp (peers f) (onChange f) (started f) (stop f) (done f) (wake f).
Definition set_peers (p : option (list Peer)) (f : Fetcher) : Fetcher :=
  mkFetcher (interval f) (active f) (closed f) (defaultNetwork f) (sourceOrder f) (sourceNetworks f) (sourcePeers f) p (onChange f) (started f) (stop f) (done f) (wake f).
Definition set_onChange (cb : option Z) (f : Fetcher) : Fetcher :=
  mkFetcher (interval f) (active f) (closed f) (defaultNetwork f) (sourceOrder f) (sourceNetworks f) (sourcePeers f) (peers f) cb (started f) (stop f) (done f) (wake f).
Definition set_channels (st dn w : bool) (f : Fetcher) : Fetcher :=
  mkFetcher (interval f) (active f) (closed f) (defaultNetwork f) (sourceOrder f) (sourceNetworks f) (sourcePeers f) (peers f) (onChange f) (started f) st dn w.

Section Fetcher.
(** The JSON decoder with [DisallowUnknownFields], and the built-in document. *)
Context (Decode : bytes -> option Document) (builtinData : bytes).

Definition parsePeers (source : string) (input : bytes) : option (list Peer) :=
  match Decode input with
  | None => None
  | Some doc => if validateDocument doc then Some (map (set_source source) (Peers doc)) else None
  end.

Definition getBuiltinPeers : option (list Peer) := parsePeers BuiltinSource builtinData.

(** ** Sections under the mutex *)

(** The network, and whether the source has one at all. *)
Definition networkForSourceLocked (source : string) (f : Fetcher) : option Network * bool :=
  if bool_decide (source = BuiltinSource) then (None, false)
  else match sourceNetworks f !! source with
       | Some network => (network, true)
       | None => (defaultNetwork f, true)
       end.
(** [ok && network != nil] *)
Definition effective (source : string) (f : Fetcher) : option Network :=
  match networkForSourceLocked source f with (Some n, true) => Some n | _ => None end.

Definition clonePeers (l : list Peer) : option (list Peer) := match l with [] => None | _ => Some l end.

Definition concatenated (f : Fetcher) : list Peer :=
  concat (map (fun source => default [] (sourcePeers f !! source)) (sourceOrder f)).

(** The new slice is not nil, so it is never deeply equal to a nil one. *)
Definition rebuildPeersLocked (f : Fetcher) : Fetcher * option (list Peer) :=
  let updated := concatenated f in
  if bool_decide (peers f = Some updated) then (f, None)
  else (set_peers (clonePeers updated) f, Some updated).

Definition keep_source (f : Fetcher) (source : string) : bool :=
  bool_decide (source ∈ sourceOrder f) &&
  (bool_decide (source = BuiltinSource) || bool_decide (effective source f <> None)).

Definition reconcileLocked (f : Fetcher) : Fetcher * option (list Peer) :=
  let kept := filter (fun '(source, _) => keep_source f source = true) (sourcePeers f) in
  let sp := if bool_decide (BuiltinSource ∈ sourceOrder f)
            then match getBuiltinPeers with
                 | None => delete BuiltinSource kept
                 | Some ps => <[BuiltinSource := ps]> kept
                 end
            else delete BuiltinSource kept in
  rebuildPeersLocked (set_sourcePeers sp f).

Definition replaceSourcePeers (source : string) (fetchedVia : Network) (ps : list Peer) (f : Fetcher) : Fetcher * option (list Peer) :=
  if negb (bool_decide (source ∈ sourceOrder f)) then (f, None)
  else if negb (bool_decide (source = BuiltinSource)) &&
          negb (match effective source f with Some n => sameNetwork (Some n) (Some fetchedVia) | None => false end)
  then rebuildPeersLocked (set_sourcePeers (delete source (sourcePeers f)) f)
  else rebuildPeersLocked (set_sourcePeers (<[source := ps]> (sourcePeers f)) f).

Definition fetchList (f : Fetcher) : list (string * Network) :=
  omap (fun source => if bool_decide (source = BuiltinSource) then None
                      else (fun n => (source, n)) <$> effective source f) (sourceOrder f).

(** [slices.Index] and the removal of one position. *)
Fixpoint remove_first (source : string) (l : list string) : list string :=
  match l with [] => [] | s :: l => if bool_decide (s = source) then l else s :: remove_first source l end.

(** ** Goroutines *)

(** What a goroutine does next.  [Fetching] is an HTTP request under way, of
    [FetchNow] or, with the list still to fetch, of the loop. *)
Inductive task :=
| Finished
| Fire (ps : list Peer) (k : task)
| CallBack (cb : Z) (ps : list Peer) (k : task)
| SignalWake (k : task)
| GoLoop
| FetchAll
| Fetching (rest : option (list (string * Network))) (source : string) (network : Network)
| Select
| Ending
| CloseStop
| CloseDone
| WaitDone.

(** [fireCallback(callbackPeers, changed)] *)
Definition fireCallback (changed : option (list Peer)) (k : task) : task :=
  match changed with Some ps => Fire ps k | None => k end.

Definition next (rest : option (list (string * Network))) : task :=
  match rest with
  | None => Finished
  | Some [] => Select
  | Some ((source, network) :: l) => Fetching (Some l) source network
  end.

(** A setter: change, reconcile, report, wake the loop. *)
Definition reconciled (f : Fetcher) (k : task) : Fetcher * option (list Peer) * task :=
  let '(f, changed) := reconcileLocked f in (f, changed, fireCallback changed k).

(** The first section of a call, what it reports, and what is left to do. *)
Definition Start (f : Fetcher) : Fetcher * option (list Peer) * task :=
  if active f || closed f then (f, None, Finished)
  else reconciled (set_flags true (closed f) true f) GoLoop.

Definition Close (f : Fetcher) : Fetcher * option (list Peer) * task :=
  if closed f then (f, None, Finished)
  else (set_flags (active f) true (started f) f, None, if active f then CloseStop else CloseDone).

Definition SetDefaultNetwork (n : option Network) (f : Fetcher) : Fetcher * option (list Peer) * task :=
  reconciled (set_networks n (sourceNetworks f) f) (SignalWake Finished).

Definition SetSourceNetwork (source : string) (n : option Network) (f : Fetcher) : Fetcher * option (list Peer) * task :=
  reconciled (set_networks (defaultNetwork f) (<[source := n]> (sourceNetworks f)) f) (SignalWake Finished).

Definition RemoveSourceNetwork (source : string) (f : Fetcher) : Fetcher * option (list Peer) * task :=
  reconciled (set_networks (defaultNetwork f) (delete source (sourceNetworks f)) f) (SignalWake Finished).

Definition SetSources (l : list string) (f : Fetcher) : Fetcher * option (list Peer) * task :=
  reconciled (set_sources l f) (SignalWake Finished).

Definition AddSource (source : string) (f : Fetcher) : Fetcher * option (list Peer) * task :=
  reconciled (if bool_decide (source ∈ sourceOrder f) then f else set_sources (sourceOrder f ++ [source]) f)
    (SignalWake Finished).

Definition RemoveSource (source : string) (f : Fetcher) : Fetcher * option (list Peer) * task :=
  reconciled (set_networks (defaultNetwork f) (delete source (sourceNetworks f))
    (set_sources (remove_first source (sourceOrder f)) f)) Finished.

Definition SetOnChange (cb : option Z) (f : Fetcher) : Fetcher * option (list Peer) * task :=
  (set_onChange cb f, None, Finished).

Definition SetInterval (i : Z) (f : Fetcher) : Fetcher * option (list Peer) * task :=
  (set_interval (fix_interval i) f, None, SignalWake Finished).

Definition FetchNow (source : string) (f : Fetcher) : Fetcher * option (list Peer) * task :=
  if bool_decide (source = BuiltinSource) then reconciled f Finished
  else if negb (bool_decide (source ∈ sourceOrder f)) then (f, None, Finished)
  else (f, None, match effective source f with Some n => Fetching None source n | None => Finished end).

Inductive api :=
| CStart | CClose
| CSetDefaultNetwork (n : option Network) | CSetSourceNetwork (source : string) (n : option Network)
| CRemoveSourceNetwork (source : string) | CSetSources (l : list string) | CAddSource (source : string)
| CRemoveSource (source : string) | CSetOnChange (cb : option Z) | CSetInterval (i : Z) | CFetchNow (source : string).

Definition call (c : api) (f : Fetcher) : Fetcher * option (list Peer) * task :=
  match c with
  | CStart => Start f
  | CClose => Close f
  | CSetDefaultNetwork n => SetDefaultNetwork n f
  | CSetSourceNetwork source n => SetSourceNetwork source n f
  | CRemoveSourceNetwork source => RemoveSourceNetwork source f
  | CSetSources l => SetSources l f
  | CAddSource source => AddSource source f
  | CRemoveSource source => RemoveSource source f
  | CSetOnChange cb => SetOnChange cb f
  | CSetInterval i => SetInterval i f
  | CFetchNow source => FetchNow source f
  end.

Inductive answer := ANone | ABody (body : option bytes) | AStop | AWake | ATick.

(** A step of a goroutine: the state, what its section reports, the next task,
    the goroutine it starts, and the call of the callback it makes. *)
Definition step_task (t : task) (a : answer) (f : Fetcher) : option (Fetcher * option (list Peer) * task * list task * list (Z * list Peer)) :=
  match t, a with
  | Fire ps k, ANone =>
      Some (f, None, match onChange f with Some cb => CallBack cb ps k | None => k end, [], [])
  | CallBack cb ps k, ANone => Some (f, None, k, [], [(cb, ps)])
  | SignalWake k, ANone => Some (set_channels (stop f) (done f) (wake f || started f) f, None, k, [], [])
  | GoLoop, ANone => Some (f, None, Finished, [FetchAll], [])
  | FetchAll, ANone => Some (f, None, next (Some (fetchList f)), [], [])
  | Fetching rest source network, ABody body =>
      match match body with Some b => parsePeers source b | None => None end with
      | None => Some (f, None, next rest, [], [])
      | Some ps =>
          let '(f, changed) := replaceSourcePeers source network ps f in
          Some (f, changed, fireCallback changed (next rest), [], [])
      end
  | Select, AStop => if stop f then Some (f, None, Ending, [], []) else None
  | Select, AWake => if wake f then Some (set_channels (stop f) (done f) false f, None, FetchAll, [], []) else None
  | Select, ATick => Some (f, None, FetchAll, [], [])
  | Ending, ANone => Some (set_flags false (closed f) (started f) f, None, CloseDone, [], [])
  | CloseStop, ANone => Some (set_channels true (done f) (wake f) f, None, WaitDone, [], [])
  | CloseDone, ANone => Some (set_channels (stop f) true (wake f) f, None, Finished, [], [])
  | WaitDone, ANone => if done f then Some (f, None, Finished, [], []) else None
  | _, _ => None
  end.

(** [reports] are the aggregates that sections reported, [calls] the calls of
    callbacks, newest first. *)
Record World := mkWorld {
  fetcher : Fetcher;
  tasks : list task;
  reports : list (list Peer);
  calls : list (Z * list Peer)
}.

Definition World_init (i : Z) : World := mkWorld (NewFetcher i) [] [] [].

Inductive event := Call (c : api) | Run (i : nat) (a : answer).

Definition exec (e : event) (w : World) : option World :=
  match e with
  | Call c =>
      let '(f, changed, t) := call c (fetcher w) in
      Some (mkWorld f (tasks w ++ [t]) (option_list changed ++ reports w) (calls w))
  | Run i a =>
      match tasks w !! i with
      | None => None
      | Some t =>
          match step_task t a (fetcher w) with
          | None => None
          | Some (f, changed, t, new, cbs) =>
              Some (mkWorld f (<[i := t]> (tasks w) ++ new) (option_list changed ++ reports w) (cbs ++ calls w))
          end
      end
  end.

Fixpoint exec_list (es : list event) (w : World) : option World :=
  match es with
  | [] => Some w
  | e :: es => match exec e w with None => None | Some w => exec_list es w end
  end.

Inductive reachable (i : Z) : World -> Prop :=
| reach_init : reachable i (World_init i)
| reach_step e w w' : reachable i w -> exec e w = Some w' -> reachable i w'.


(** ** The invariant *)

Definition current (f : Fetcher) : list Peer := default [] (peers f).

Record inv (f : Fetcher) : Prop := mkInv {
  inv_aggregate : current f = concatenated f;
  inv_not_empty : peers f <> Some [];
  inv_sources : forall source ps, sourcePeers f !! source = Some ps ->
    keep_source f source = true /\ exists body, parsePeers source body = Some ps;
  inv_builtin : BuiltinSource ∈ sourceOrder f -> sourcePeers f !! BuiltinSource = getBuiltinPeers
}.

(** What a section reports. *)
Definition reports_change (f f' : Fetcher) (changed : option (list Peer)) : Prop :=
  match changed with
  | None => current f' = current f
  | Some ps => ps = current f' /\ (current f' = current f -> ps = [])
  end.

(** The same sources, networks and peers. *)
Definition same_data (f f' : Fetcher) : Prop :=
  defaultNetwork f' = defaultNetwork f /\ sourceOrder f' = sourceOrder f /\ sourceNetworks f' = sourceNetworks f /\
  sourcePeers f' = sourcePeers f /\ peers f' = peers f.

Lemma keep_source_same f f' source :
  defaultNetwork f' = defaultNetwork f -> sourceOrder f' = sourceOrder f -> sourceNetworks f' = sourceNetworks f ->
  keep_source f' source = keep_source f source /\ effective source f' = effective source f.
Proof. intros E1 E2 E3. unfold keep_source, effective, networkForSourceLocked. by rewrite E1, E2, E3. Qed.

Lemma inv_same_data f f' : same_data f f' -> inv f -> inv f' /\ current f' = current f.
Proof.
  intros (E1 & E2 & E3 & E4 & E5) [H1 H2 H3 H4]. unfold current, concatenated in *. split; [|by rewrite E5].
  split; unfold current, concatenated; rewrite ?E2, ?E4, ?E5; try done.
  intros source ps Hs. destruct (keep_source_same f f' source E1 E2 E3) as [-> _]. by apply H3.
Qed.

Lemma rebuild_ok f : (peers f <> Some []) ->
  (forall source ps, sourcePeers f !! source = Some ps -> keep_source f source = true /\ exists body, parsePeers source body = Some ps) ->
  (BuiltinSource ∈ sourceOrder f -> sourcePeers f !! BuiltinSource = getBuiltinPeers) ->
  let '(f', changed) := rebuildPeersLocked f in
  inv f' /\ reports_change f f' changed /\ sourcePeers f' = sourcePeers f /\ sourceOrder f' = sourceOrder f.
Proof.
  intros Hp H3 H4. unfold rebuildPeersLocked. case_bool_decide as E.
  - split_and!; try done. split; try done. unfold current. by rewrite E.
  - assert (Ec : current (set_peers (clonePeers (concatenated f)) f) = concatenated f).
    { unfold current. simpl. by destruct (concatenated f). }
    split_and!; try done; [split; try done|].
    + simpl. by destruct (concatenated f).
    + split; [done|]. rewrite Ec. intros Hc. unfold current in Hc.
      destruct (peers f) as [l|] eqn:El; simpl in Hc; [congruence|done].
Qed.

Lemma reconcile_ok f : peers f <> Some [] ->
  (forall source ps, sourcePeers f !! source = Some ps -> exists body, parsePeers source body = Some ps) ->
  let '(f', changed) := reconcileLocked f in inv f' /\ reports_change f f' changed.
Proof.
  intros Hp Hb. unfold reconcileLocked. set (sp := if bool_decide _ then _ else _).
  pose proof (rebuild_ok (set_sourcePeers sp f) Hp) as Hr.
  destruct (rebuildPeersLocked _) as [f' changed]. destruct Hr as (H1 & H2 & _).
  - intros source ps Hs. unfold sp in Hs. simpl in Hs.
    assert (Hkept : filter (fun '(source, _) => keep_source f source = true) (sourcePeers f) !! source = Some ps ->
      keep_source f source = true /\ exists body, parsePeers source body = Some ps).
    { intros [Hin Hk]%map_lookup_filter_Some. split; [done|by apply Hb]. }
    case_bool_decide as Ei; [destruct getBuiltinPeers as [bp|] eqn:Eg|].
    + apply lookup_insert_Some in Hs as [[<- <-]|[_ Hs]]; [|by apply Hkept].
      split; [|by exists builtinData]. unfold keep_source. simpl. by rewrite !bool_decide_true.
    + apply lookup_delete_Some in Hs as [_ Hs]. by apply Hkept.
    + apply lookup_delete_Some in Hs as [_ Hs]. by apply Hkept.
  - intros Hin. simpl in *. unfold sp. rewrite bool_decide_true by done.
    destruct getBuiltinPeers; [by rewrite lookup_insert_eq|by rewrite lookup_delete_eq].
  - done.
Qed.

Lemma dropped_ok source f : source <> BuiltinSource -> inv f ->
  let '(f', changed) := rebuildPeersLocked (set_sourcePeers (delete source (sourcePeers f)) f) in
  inv f' /\ reports_change f f' changed.
Proof.
  intros Hne [H1 H2 H3 H4]. pose proof (rebuild_ok (set_sourcePeers (delete source (sourcePeers f)) f) H2) as Hr.
  destruct (rebuildPeersLocked _) as [f' changed]. destruct Hr as (R1 & R2 & _); [| |done].
  - intros s ps'. simpl. rewrite lookup_delete_Some. intros [_ Hs]. by apply H3.
  - simpl. intros Hb. rewrite lookup_delete_ne by done. by apply H4.
Qed.

Lemma replace_ok source network body ps f : source <> BuiltinSource -> parsePeers source body = Some ps -> inv f ->
  let '(f', changed) := replaceSourcePeers source network ps f in inv f' /\ reports_change f f' changed.
Proof.
  intros Hne Hps Hi. pose proof Hi as [H1 H2 H3 H4]. unfold replaceSourcePeers.
  case_bool_decide as Hin; cbn [negb]; [|by split]. rewrite bool_decide_false by done. cbn [negb andb].
  destruct (effective source f) as [n|] eqn:Ee; [destruct (sameNetwork (Some n) (Some network)) eqn:Es|]; cbn [negb].
  - pose proof (rebuild_ok (set_sourcePeers (<[source := ps]> (sourcePeers f)) f) H2) as Hr.
    destruct (rebuildPeersLocked _) as [f' changed]. destruct Hr as (R1 & R2 & _); [| |done].
    + intros s ps'. simpl. rewrite lookup_insert_Some. intros [[<- <-]|[_ Hs]]; [|by apply H3].
      split; [|by exists body]. unfold keep_source. simpl. rewrite bool_decide_true by done.
      change (effective source (set_sourcePeers _ f)) with (effective source f). rewrite Ee.
      by rewrite (bool_decide_true (Some n <> None)), orb_true_r.
    + simpl. intros Hb. rewrite lookup_insert_ne by done. by apply H4.
  - by apply (dropped_ok source).
  - by apply (dropped_ok source).
Qed.

(** ** Every interleaving *)

(** Only other sources than the built-in one are fetched. *)
Definition fetched_ok (l : list (string * Network)) : Prop := Forall (fun '(source, _) => source <> BuiltinSource) l.
Fixpoint task_ok (t : task) : Prop :=
  match t with
  | Fire _ k | CallBack _ _ k | SignalWake k => task_ok k
  | Fetching rest source _ => source <> BuiltinSource /\ fetched_ok (default [] rest)
  | _ => True
  end.

(** The reports that a goroutine still has to deliver. *)
Fixpoint pending (t : task) : list (list Peer) :=
  match t with
  | Fire ps k | CallBack _ ps k => ps :: pending k
  | SignalWake k => pending k
  | _ => []
  end.

(** Newest first: the first report is the current aggregate, and each differs
    from the one before it or is empty. *)
Fixpoint chained (now : list Peer) (l : list (list Peer)) : Prop :=
  match l with
  | [] => now = []
  | r :: l => r = now /\ exists before, chained before l /\ (r = before -> r = [])
  end.

Definition winv (w : World) : Prop :=
  inv (fetcher w) /\ Forall task_ok (tasks w) /\ chained (current (fetcher w)) (reports w) /\
  map snd (calls w) ++ concat (map pending (tasks w)) ⊆+ reports w.

Lemma fireCallback_ok changed k :
  (task_ok k -> task_ok (fireCallback changed k)) /\ pending (fireCallback changed k) = option_list changed ++ pending k.
Proof. by destruct changed. Qed.

Lemma next_ok rest : fetched_ok (default [] rest) -> task_ok (next rest) /\ pending (next rest) = [].
Proof. destruct rest as [[|[s n] l]|]; simpl; try done. intros [H1 H2]%Forall_cons. done. Qed.

Lemma fetchList_ok f : fetched_ok (fetchList f).
Proof.
  apply Forall_forall. intros [s n] (s' & Hin & Hs)%list_elem_of_omap. case_bool_decide; [done|].
  destruct (effective s' f); [|done]. by injection Hs as -> _.
Qed.

(** What a first section and what a step do to the state. *)
Definition section_ok (f f' : Fetcher) (changed : option (list Peer)) : Prop := inv f' /\ reports_change f f' changed.

Lemma reconciled_ok f0 f k : inv f0 -> peers f = peers f0 -> sourcePeers f = sourcePeers f0 -> task_ok k -> pending k = [] ->
  let '(f', changed, t) := reconciled f k in
  section_ok f0 f' changed /\ task_ok t /\ pending t = option_list changed.
Proof.
  intros [_ H1 H2 _] Ep Es Hk Hn. unfold reconciled. pose proof (reconcile_ok f) as Hr. rewrite Ep, Es in Hr.
  destruct (reconcileLocked f) as [f' changed]. destruct Hr as [R1 R2]; [done|by intros s ps Hs; eapply H2|].
  assert (Ec : current f = current f0) by (unfold current; by rewrite Ep).
  destruct (fireCallback_ok changed k) as [F1 F2].
  split_and!; [split; [done|]|auto|by rewrite F2, Hn, app_nil_r].
  unfold reports_change in *. by rewrite Ec in R2.
Qed.

Lemma first_section_ok c f : inv f ->
  let '(f', changed, t) := call c f in
  section_ok f f' changed /\ task_ok t /\ pending t = option_list changed.
Proof.
  intros Hi. assert (Hsame : forall f' t, same_data f f' -> task_ok t -> pending t = [] ->
    section_ok f f' None /\ task_ok t /\ pending t = option_list (None : option (list Peer))).
  { intros f' t Hs Ht Hp. destruct (inv_same_data f f' Hs Hi). by split_and!. }
  destruct c; cbn [call]; try (by apply reconciled_ok); try (by apply Hsame).
  - unfold Start. destruct (active f || closed f); [by apply Hsame|]. by apply reconciled_ok.
  - unfold Close. destruct (closed f); [by apply Hsame|]. apply Hsame; by destruct (active f).
  - unfold AddSource. by case_bool_decide; apply reconciled_ok.
  - unfold FetchNow. case_bool_decide as E; [by apply reconciled_ok|]. case_bool_decide; cbn [negb]; [|by apply Hsame].
    apply Hsame; destruct (effective source f); try done. by split; [|constructor].
Qed.

Lemma task_step_ok t a f f' changed t' new cbs : inv f -> task_ok t -> step_task t a f = Some (f', changed, t', new, cbs) ->
  section_ok f f' changed /\ task_ok t' /\ Forall task_ok new /\ concat (map pending new) = [] /\
  map snd cbs ++ pending t' ⊆+ option_list changed ++ pending t.
Proof.
  intros Hi Ht Hs. assert (Hsame : forall f1, same_data f f1 -> section_ok f f1 None).
  { intros f1 H. destruct (inv_same_data f f1 H Hi). by split. }
  destruct t, a; simpl in *; try done.
  - injection Hs as <- <- <- <- <-. split; [by apply Hsame|]. split_and!; try done; [by destruct (onChange f)|].
    destruct (onChange f); simpl; [done|]. by apply submseteq_cons.
  - injection Hs as <- <- <- <- <-. split; [by apply Hsame|by split_and!].
  - injection Hs as <- <- <- <- <-. split; [by apply Hsame|by split_and!].
  - injection Hs as <- <- <- <- <-. split; [by apply Hsame|split_and!; try done; by constructor].
  - injection Hs as <- <- <- <- <-. destruct (next_ok (Some (fetchList f)) (fetchList_ok f)) as [N1 N2].
    split; [by apply Hsame|]. split_and!; try done. simpl in *. by rewrite N2.
  - destruct Ht as [Hne Hrest]. destruct (next_ok rest Hrest) as [N1 N2].
    destruct (match body with Some b => parsePeers source b | None => None end) as [ps|] eqn:Eb.
    + destruct body as [b|]; [|done]. pose proof (replace_ok source network b ps f Hne Eb Hi) as Hr.
      destruct (replaceSourcePeers source network ps f) as [f1 ch]. injection Hs as <- <- <- <- <-.
      destruct (fireCallback_ok ch (next rest)) as [F1 F2]. split; [done|]. split_and!; try done; [auto|].
      simpl. by rewrite F2, N2.
    + injection Hs as <- <- <- <- <-. split; [by apply Hsame|]. split_and!; try done. by rewrite N2.
  - destruct (stop f); [|done]. injection Hs as <- <- <- <- <-. split; [by apply Hsame|by split_and!].
  - destruct (wake f); [|done]. injection Hs as <- <- <- <- <-. split; [by apply Hsame|by split_and!].
  - injection Hs as <- <- <- <- <-. split; [by apply Hsame|by split_and!].
  - injection Hs as <- <- <- <- <-. split; [by apply Hsame|by split_and!].
  - injection Hs as <- <- <- <- <-. split; [by apply Hsame|by split_and!].
  - injection Hs as <- <- <- <- <-. split; [by apply Hsame|by split_and!].
  - destruct (done f); [|done]. injection Hs as <- <- <- <- <-. split; [by apply Hsame|by split_and!].
Qed.


Lemma chained_section f f' changed l :
  reports_change f f' changed -> chained (current f) l -> chained (current f') (option_list changed ++ l).
Proof.
  destruct changed as [ps|]; simpl; [|by intros ->]. intros [-> He] H. split; [done|]. by exists (current f).
Qed.

Lemma pending_replace ts i t t' new :
  ts !! i = Some t -> concat (map pending new) = [] ->
  exists rest, concat (map pending ts) ≡ₚ pending t ++ rest /\ concat (map pending (<[i := t']> ts ++ new)) ≡ₚ pending t' ++ rest.
Proof.
  intros Hi Hn. exists (concat (map pending (take i ts)) ++ concat (map pending (drop (S i) ts))).
  rewrite map_app, concat_app, Hn, app_nil_r. split.
  - rewrite <- (take_drop_middle ts i t Hi) at 1. rewrite map_app, concat_app. simpl. solve_Permutation.
  - rewrite insert_take_drop by (by eapply lookup_lt_Some). rewrite map_app, concat_app. simpl. solve_Permutation.
Qed.

Lemma winv_reachable i w : reachable i w -> winv w.
Proof.
  induction 1 as [|e w w' _ IH He].
  { split; [|by split_and!]. split; try done. by intros ?%elem_of_nil. }
  destruct IH as (Hi & Ht & Hc & Hp). destruct e as [c|n a]; cbn [exec] in He.
  - pose proof (first_section_ok c (fetcher w) Hi) as Hk. destruct (call c (fetcher w)) as [[f' changed] t].
    destruct Hk as ([K1 K2] & K3 & K4). injection He as <-. split_and!; simpl; [done|by apply Forall_app; auto|by eapply chained_section|].
    rewrite map_app, concat_app, (assoc_L (++)). simpl. rewrite K4, app_nil_r.
    rewrite (comm (++) _ (option_list changed)). by apply submseteq_app.
  - destruct (tasks w !! n) as [t|] eqn:En; [|done].
    destruct (step_task t a (fetcher w)) as [[[[[f' changed] t'] new] cbs]|] eqn:Es; [|done]. injection He as <-.
    assert (Htn : task_ok t) by (by eapply Forall_lookup_1).
    destruct (task_step_ok _ _ _ _ _ _ _ _ Hi Htn Es) as ([K1 K2] & K3 & K4 & K5 & K6).
    split_and!; simpl; [done|apply Forall_app; split; [by apply Forall_insert|done]|by eapply chained_section|].
    destruct (pending_replace (tasks w) n t t' new En K5) as (rest & P1 & P2). rewrite P2. rewrite P1 in Hp.
    rewrite map_app. trans ((map snd cbs ++ pending t') ++ (map snd (calls w) ++ rest)); [apply Permutation_submseteq; solve_Permutation|].
    trans ((option_list changed ++ pending t) ++ (map snd (calls w) ++ rest)); [by apply submseteq_app|].
    trans (option_list changed ++ (map snd (calls w) ++ pending t ++ rest)); [apply Permutation_submseteq; solve_Permutation|].
    by apply submseteq_app.
Qed.


(** ** Theorems *)

Lemma parsePeers_valid source body ps p : parsePeers source body = Some ps -> p ∈ ps ->
  p_Source p = source /\ p_Country p <> EmptyString /\ p_Endpoints p <> [] /\
  forall e, e ∈ p_Endpoints p -> ep_URL e <> EmptyString /\ ep_Protocol e <> EmptyString /\ 1 <= ep_Port e <= 65535.
Proof.
  unfold parsePeers. destruct (Decode body) as [doc|]; [|done]. destruct (validateDocument doc) eqn:Ev; [|done].
  intros [= <-] (p0 & -> & Hin)%list_elem_of_fmap. unfold validateDocument in Ev. bool_props.
  assert (Hp : peer_missing p0 = false).
  { match goal with H : existsb _ _ = false |- _ => rename H into He end.
    destruct (peer_missing p0) eqn:E; [|done]. rewrite <- He. symmetry. apply existsb_exists. exists p0. by rewrite <- list_elem_of_In. }
  unfold peer_missing, blank in Hp. bool_props. simpl.
  repeat match goal with H : bool_decide _ = false |- _ => apply bool_decide_eq_false in H end.
  split_and!; try done. intros e Hine.
  assert (Hep : endpoint_missing e = false).
  { match goal with H : existsb _ (p_Endpoints p0) = false |- _ => rename H into He end.
    destruct (endpoint_missing e) eqn:E; [|done]. rewrite <- He. symmetry. apply existsb_exists. exists e. by rewrite <- list_elem_of_In. }
  unfold endpoint_missing, blank in Hep. bool_props.
  repeat match goal with H : bool_decide _ = false |- _ => apply bool_decide_eq_false in H end. split_and!; done || lia.
Qed.

(** C21: In every interleaving the aggregate is the concatenation, in the order of
    the configured sources, of what each contributed; every peer in it comes
    from a source that is configured and is the built-in one or has a network,
    names this source, has a country, and has endpoints with a URL, a protocol
    and a port in range; and a configured built-in source always contributes
    exactly the built-in document. *)
Theorem aggregate_of_sources i w : reachable i w ->
  let f := fetcher w in
  current f = concatenated f /\
  (forall p, p ∈ current f ->
     p_Source p ∈ sourceOrder f /\ (p_Source p = BuiltinSource \/ effective (p_Source p) f <> None) /\
     p_Country p <> EmptyString /\ p_Endpoints p <> [] /\
     forall e, e ∈ p_Endpoints p -> ep_URL e <> EmptyString /\ ep_Protocol e <> EmptyString /\ 1 <= ep_Port e <= 65535) /\
  (BuiltinSource ∈ sourceOrder f -> sourcePeers f !! BuiltinSource = getBuiltinPeers).
Proof.
  intros Hr f. destruct (winv_reachable i w Hr) as ([H1 H2 H3 H4] & _). split_and!; [done| |done].
  intros p Hp. fold f in H1, H3. rewrite H1 in Hp. unfold concatenated in Hp. apply list_elem_of_In, in_concat in Hp as (l & Hl & Hp).
  apply in_map_iff in Hl as (source & <- & _). destruct (sourcePeers f !! source) as [ps|] eqn:Es; [|done].
  destruct (H3 _ _ Es) as [Hk (body & Hb)]. apply list_elem_of_In in Hp.
  destruct (parsePeers_valid _ _ _ _ Hb Hp) as (-> & Hc & He & Hall). unfold keep_source in Hk. bool_props.
  match goal with H : _ || _ = true |- _ => apply orb_true_iff in H as [H|H]; apply bool_decide_eq_true in H end; auto 10.
Qed.

(** The callback reports: the newest report is the current aggregate, a report
    differs from the one before it unless it is empty, and every call of a
    callback delivers a report that no other call has delivered. *)
Theorem reports_follow_aggregate i w : reachable i w ->
  chained (current (fetcher w)) (reports w) /\ map snd (calls w) ⊆+ reports w.
Proof.
  intros Hr. destruct (winv_reachable i w Hr) as (_ & _ & Hc & Hp). split; [done|].
  etrans; [|exact Hp]. apply submseteq_inserts_r. done.
Qed.

(** A fetch that ends: a failed one changes nothing; a result is stored when
    the source is still configured and its network is the one that was used,
    dropped together with what the source contributed before when the network
    has changed, and ignored when the source is gone. *)
Theorem fetch_result_spec rest source network body f f' changed t new cbs :
  step_task (Fetching rest source network) (ABody body) f = Some (f', changed, t, new, cbs) -> source <> BuiltinSource ->
  defaultNetwork f' = defaultNetwork f /\ sourceOrder f' = sourceOrder f /\ sourceNetworks f' = sourceNetworks f /\
  t = fireCallback changed (next rest) /\
  sourcePeers f' =
    match body ≫= parsePeers source with
    | Some ps =>
        if bool_decide (source ∈ sourceOrder f) then
          if bool_decide (effective source f = Some network) && comparable network
          then <[source := ps]> (sourcePeers f) else delete source (sourcePeers f)
        else sourcePeers f
    | None => sourcePeers f
    end /\
  (body ≫= parsePeers source = None -> f' = f).
Proof.
  intros Hs Hne. cbn [step_task] in Hs.
  replace (match body with Some b => parsePeers source b | None => None end) with (body ≫= parsePeers source) in Hs by by destruct body.
  destruct (body ≫= parsePeers source) as [ps|]; [|by injection Hs as <- <- <- <- <-].
  assert (Hre : forall g, let g' := (rebuildPeersLocked g).1 in defaultNetwork g' = defaultNetwork g /\ sourceOrder g' = sourceOrder g /\
    sourceNetworks g' = sourceNetworks g /\ sourcePeers g' = sourcePeers g).
  { intros g. unfold rebuildPeersLocked. by case_bool_decide. }
  unfold replaceSourcePeers in Hs. case_bool_decide as Ei; cbn [negb] in Hs; [|by injection Hs as <- <- <- <- <-].
  rewrite (bool_decide_false (source = BuiltinSource)) in Hs by done. cbn [negb andb] in Hs.
  replace (match effective source f with Some n => sameNetwork (Some n) (Some network) | None => false end)
    with (bool_decide (effective source f = Some network) && comparable network) in Hs.
  2: { destruct (effective source f) as [n|]; simpl; [|done]. destruct (decide (n = network)) as [->|Hn].
       - rewrite !bool_decide_true by done. by rewrite andb_true_r.
       - rewrite !bool_decide_false by congruence. by rewrite andb_false_r. }
  destruct (bool_decide (effective source f = Some network) && comparable network); cbn [negb] in Hs.
  - specialize (Hre (set_sourcePeers (<[source := ps]> (sourcePeers f)) f)).
    destruct (rebuildPeersLocked _) as [g ch]. injection Hs as <- <- <- <- <-. simpl in Hre. destruct Hre as (? & ? & ? & ?). by split_and!.
  - specialize (Hre (set_sourcePeers (delete source (sourcePeers f)) f)).
    destruct (rebuildPeersLocked _) as [g ch]. injection Hs as <- <- <- <- <-. simpl in Hre. destruct Hre as (? & ? & ? & ?). by split_and!.
Qed.

End Fetcher.

(** ** Concrete runs *)

Module Sample.
Definition endpoint : Endpoint := mkEndpoint "tls://h:1" "tls" "h" 1 "" "" true [] None.
Definition peer : Peer := mkPeer "" "europe" "germany" "f" "" [endpoint].
Definition doc : Document := mkDocument "1" "now" "repo" "branch" "page" [peer].
Definition Decode (b : bytes) : option Document := match b with [1] => Some doc | _ => None end.
Definition A : Network := mkNetwork 1 true.
Definition B : Network := mkNetwork 2 true.
Definition after (es : list event) : option World := exec_list Decode [1] es (World_init 0).

(** Two setters report; the goroutine of the second one is faster. *)
Definition overtaking : list event :=
  [Call (CSetOnChange (Some 7)); Call (CAddSource BuiltinSource); Call (CRemoveSource BuiltinSource);
   Run 2 ANone; Run 2 ANone; Run 1 ANone; Run 1 ANone].

(** The loop fetches over [A]; meanwhile the network becomes [B] and a fetch
    over it succeeds; then the answer of the first fetch arrives. *)
Definition stale : list event :=
  [Call (CSetDefaultNetwork (Some A)); Call (CAddSource "u"); Call (CFetchNow "u"); Call (CSetDefaultNetwork (Some B));
   Call (CFetchNow "u"); Run 4 (ABody (Some [1]))].
End Sample.

Definition sample_view (w : World) : list Peer * list (list Peer) * list (Z * list Peer) * nat :=
  (current (fetcher w), reports w, calls w, length (concat (map pending (tasks w)))).

(** Counterexample: a reconciliation that leaves the aggregate empty reports it
    again each time, because a new empty slice differs from the nil one that is
    kept; and two goroutines may deliver their reports in the other order, so
    that the last call of the callback carries a peer list that is outdated. *)
Theorem callbacks_mislead :
  option_map sample_view (Sample.after [Call (CSetSources []); Call (CSetSources [])]) = Some ([], [[]; []], [], 2%nat) /\
  option_map sample_view (Sample.after Sample.overtaking) =
    Some ([], [[]; [set_source BuiltinSource Sample.peer]], [(7, [set_source BuiltinSource Sample.peer]); (7, [])], 0%nat).
Proof. split; vm_compute; reflexivity. Qed.

(** Counterexample: the answer of a fetch over the previous network removes the
    peers that a fetch over the current network has stored since. *)
Theorem stale_fetch_drops_fresh_peers :
  option_map (fun w => current (fetcher w)) (Sample.after Sample.stale) = Some [set_source "u" Sample.peer] /\
  option_map (fun w => (current (fetcher w), defaultNetwork (fetcher w), sourceOrder (fetcher w)))
    (Sample.after (Sample.stale ++ [Run 2 (ABody (Some [1]))])) = Some ([], Some Sample.B, ["u"%string]).
Proof. split; vm_compute; reflexivity. Qed.

(** ** Witnesses *)

Lemma run_list_is_reachable D b i es w w' : reachable D b i w -> exec_list D b es w = Some w' -> reachable D b i w'.
Proof.
  revert w. induction es as [|e es IH]; intros w Hr; cbn [exec_list]; [by intros [= <-]|].
  destruct (exec D b e w) as [w1|] eqn:E; [|done]. apply IH. by eapply reach_step.
Qed.

Lemma after_is_reachable es w : Sample.after es = Some w -> reachable Sample.Decode [1] 0 w.
Proof. apply run_list_is_reachable. constructor. Qed.

Definition sample_events : list event :=
  [Call (CSetOnChange (Some 7)); Call (CSetDefaultNetwork (Some Sample.A)); Call (CAddSource "u"); Call (CAddSource BuiltinSource);
   Call (CFetchNow "u"); Run 3 ANone; Run 3 ANone; Run 4 (ABody (Some [1])); Run 4 ANone; Run 4 ANone].

Lemma sample_view_computed : option_map sample_view (Sample.after sample_events) =
  Some ([set_source "u" Sample.peer; set_source BuiltinSource Sample.peer],
    [[set_source "u" Sample.peer; set_source BuiltinSource Sample.peer]; [set_source BuiltinSource Sample.peer]; []; []],
    [(7, [set_source "u" Sample.peer; set_source BuiltinSource Sample.peer]); (7, [set_source BuiltinSource Sample.peer])], 2%nat).
Proof. vm_compute. reflexivity. Qed.

Lemma sample_reached : exists w, reachable Sample.Decode [1] 0 w /\
  current (fetcher w) = [set_source "u" Sample.peer; set_source BuiltinSource Sample.peer] /\ length (calls w) = 2%nat.
Proof.
  pose proof sample_view_computed as H. destruct (Sample.after _) as [w|] eqn:E; [|done]. injection H as H1 H2 H3 H4.
  exists w. split; [by eapply after_is_reachable|]. split; [done|by rewrite H3].
Qed.

Lemma aggregate_of_sources_witness : exists w,
  current (fetcher w) = [set_source "u" Sample.peer; set_source BuiltinSource Sample.peer] /\ current (fetcher w) = concatenated (fetcher w).
Proof.
  destruct sample_reached as (w & Hr & Hc & _). exists w. split; [exact Hc|].
  apply (aggregate_of_sources Sample.Decode [1] 0 w Hr).
Defined.

Lemma reports_follow_aggregate_witness : exists w, length (calls w) = 2%nat /\ map snd (calls w) ⊆+ reports w.
Proof.
  destruct sample_reached as (w & Hr & _ & Hl). exists w. split; [exact Hl|].
  apply (reports_follow_aggregate Sample.Decode [1] 0 w Hr).
Defined.

Definition sample_fetching : Fetcher := set_sources ["u"%string] (set_networks (Some Sample.A) ∅ (NewFetcher 0)).
Definition sample_step : option (Fetcher * option (list Peer) * task * list task * list (Z * list Peer)) :=
  step_task Sample.Decode (Fetching None "u" Sample.A) (ABody (Some [1])) sample_fetching.
Lemma sample_step_Some : is_Some sample_step.
Proof. vm_compute. eauto. Qed.

Lemma fetch_result_spec_witness : exists f' changed t new cbs,
  sample_step = Some (f', changed, t, new, cbs) /\ defaultNetwork f' = Some Sample.A /\ t = fireCallback changed (next None).
Proof.
  destruct sample_step_Some as [[[[[f' changed] t] new] cbs] E]. exists f', changed, t, new, cbs. split; [exact E|].
  assert (Hne : "u"%string <> BuiltinSource) by discriminate.
  destruct (fetch_result_spec Sample.Decode None "u" Sample.A (Some [1]) sample_fetching f' changed t new cbs E Hne)
    as (H1 & _ & _ & H4 & _).
  split; [exact H1|exact H4].
Defined.
