(* ===== verification/Autopeer.v ===== *)
(** * Autopeer: the policy that adds public peers (ygglib/autopeer/manager.go)

    One check of the manager is a function of what it reads: its snapshot, the
    URIs of the peer manager, the peers of the [Fetcher] and the random numbers.
    Floats are the IEEE numbers of the standard library's [SpecFloat], with the
    rounding of float64.  The peer manager behind it is the class [PeerManager]
    with the laws [PeerManagerLaws].  The loop, Start and Close are a step
    relation. *)

From Stdlib Require Import Ascii Floats.SpecFloat.
From S2P Require Import Prelude GoStd Fetcher.

(** ** float64 *)

Definition float64 : Type := spec_float.
Definition f_add : float64 -> float64 -> float64 := SFadd 53 1024.
Definition f_div : float64 -> float64 -> float64 := SFdiv 53 1024.
(** [a > b], false when one of them is not a number. *)
Definition f_gt (a b : float64) : bool := match SFcompare a b with Some Gt => true | _ => false end.
Definition is_nan (a : float64) : bool := match a with S754_nan => true | _ => false end.
Definition f_zero : float64 := S754_zero false.
(** 1000 = 0b1111101 * 2^3 with a mantissa of 53 bits. *)
Definition f_1000 : float64 := S754_finite false 8796093022208000 (-43).

(** ** Configuration *)

Definition defaultManagerCheckInterval : Z := 60 * 1000000000.

Record ManagerConfig := mkConfig {
  CheckInterval : Z;
  MinimumConnected : Z;
  MinimumConnectedFromFetch : Z;
  Countries : list string;
  TransportSchemes : list string
}.

Record managerSnapshot := mkSnapshot {
  snap_core : bool;               (* a peer manager is set *)
  snap_config : ManagerConfig;
  countries : gset string;
  transports : gset string
}.

Record endpointCandidate := mkCandidate { c_uri : string; c_score : float64 }.

Definition normalizeSet (values : list string) : gset string :=
  list_to_set (filter (fun v => v <> EmptyString) (map (fun v => ToLower (TrimSpace v)) values)).
Definition uniqueNonEmpty (values : list string) : gset string :=
  list_to_set (filter (fun v => v <> EmptyString) (map TrimSpace values)).
Definition countIntersection (a b : gset string) : Z := Z.of_nat (size (a ∩ b)).

Definition fix_config (c : ManagerConfig) : ManagerConfig :=
  if CheckInterval c <=? 0
  then mkConfig defaultManagerCheckInterval (MinimumConnected c) (MinimumConnectedFromFetch c) (Countries c) (TransportSchemes c)
  else c.

(** ** The peer manager

    The interface PeerManager, which a core implements; its laws hold of the valid
    states, and [listed] is the text under which a peer is listed. *)

Class PeerManager (P : Type) := {
  PeerURIs : P -> list string;
  AddPeer : URL -> P -> bool * P                (* whether the error is nil *)
}.

Class PeerManagerLaws (P : Type) `{PeerManager P} (listed : URL -> string) (valid : P -> Prop) : Prop := {
  add_keeps u p : valid p ->
    valid (AddPeer u p).2 /\ PeerURIs p ⊆ PeerURIs (AddPeer u p).2 /\
    ((AddPeer u p).1 = true -> listed u <> EmptyString -> listed u ∈ PeerURIs (AddPeer u p).2)
}.

Section Autopeer.
Context (url_Parse : string -> option URL) (ParseFloat : string -> option float64).

(** ** Scores and filters *)

Definition uptimeScore (e : Endpoint) : option float64 :=
  match ep_Uptime e with
  | None => Some f_zero
  | Some u =>
      let raw := TrimSuffix (TrimSpace (Uptime7DRaw u)) "%" in
      if bool_decide (raw = EmptyString) then Some (Uptime7DPercent u) else ParseFloat raw
  end.

(** [rand] is the next number of [randFloat64]. *)
Definition endpointScore (rand : float64) (e : Endpoint) : option float64 :=
  match uptimeScore e with
  | None => None
  | Some score => Some (f_add score (f_div rand f_1000))
  end.

Definition peerMatchesCountries (p : Peer) (countries : gset string) : bool :=
  bool_decide (countries = ∅) || bool_decide (ToLower (TrimSpace (p_Country p)) ∈ countries).

Definition endpointMatchesSchemes (e : Endpoint) (schemes : gset string) : bool :=
  if bool_decide (schemes = ∅) then true
  else
    let scheme := ToLower (TrimSpace (ep_Protocol e)) in
    let scheme := if bool_decide (scheme = EmptyString)
                  then match url_Parse (ep_URL e) with Some u => ToLower (Scheme u) | None => scheme end
                  else scheme in
    bool_decide (scheme ∈ schemes).

(** The loops of [selectCandidate]: the filtered URLs, the best candidate, and
    the number of random numbers used; [None] for the last when a score does
    not parse, which ends both loops. *)
Record selection := mkSelection {
  filtered : gset string;
  selected : option endpointCandidate;
  used : option nat
}.

Definition better (candidate : endpointCandidate) (selected : option endpointCandidate) : option endpointCandidate :=
  match selected with
  | None => Some candidate
  | Some s => if f_gt (c_score candidate) (c_score s) then Some candidate else selected
  end.

Definition select_endpoint (rand : nat -> float64) (snapshot : managerSnapshot) (existing : gset string)
    (s : selection) (e : Endpoint) : selection :=
  match used s with
  | None => s
  | Some n =>
      if negb (endpointMatchesSchemes e (transports snapshot)) then s
      else if bool_decide (TrimSpace (ep_URL e) = EmptyString) then s
      else
        let f := {[ep_URL e]} ∪ filtered s in
        if bool_decide (ep_URL e ∈ existing) then mkSelection f (selected s) (Some n)
        else match endpointScore (rand n) e with
             | None => mkSelection f None None
             | Some score => mkSelection f (better (mkCandidate (ep_URL e) score) (selected s)) (Some (S n))
             end
  end.

Definition select_peer (rand : nat -> float64) (snapshot : managerSnapshot) (existing : gset string)
    (s : selection) (p : Peer) : selection :=
  if peerMatchesCountries p (countries snapshot)
  then fold_left (select_endpoint rand snapshot existing) (p_Endpoints p) s
  else s.

Definition selectCandidate (rand : nat -> float64) (snapshot : managerSnapshot) (existing : gset string) (peers : list Peer) : selection :=
  fold_left (select_peer rand snapshot existing) peers (mkSelection ∅ None (Some 0%nat)).

(** ** One check *)

Inductive outcome :=
| Idle                                  (* filters, peer manager or conditions missing *)
| SelectionFailed
| Enough
| NoEligible
| Rejected (uri : string)
| Adds (uri : string) (u : URL).        (* AddPeer is called *)

Definition checkNow (rand : nat -> float64) (snapshot : managerSnapshot) (connectedURIs peerURIs : list string) (peers : list Peer) : outcome :=
  if bool_decide (countries snapshot = ∅) || bool_decide (transports snapshot = ∅) then Idle
  else if negb (snap_core snapshot) then Idle
  else
    let c := snap_config snapshot in
    if (MinimumConnected c <=? 0) && (MinimumConnectedFromFetch c <=? 0) then Idle
    else
      let connected := uniqueNonEmpty connectedURIs in
      let s := selectCandidate rand snapshot (uniqueNonEmpty peerURIs) peers in
      match used s with
      | None => SelectionFailed
      | Some _ =>
          let connectedTotal := Z.of_nat (size connected) in
          let connectedPublic := countIntersection connected (filtered s) in
          if (MinimumConnected c <=? connectedTotal) && (MinimumConnectedFromFetch c <=? connectedPublic) then Enough
          else match selected s with
               | None => NoEligible
               | Some candidate =>
                   match url_Parse (c_uri candidate) with
                   | None => Rejected (c_uri candidate)
                   | Some u => Adds (c_uri candidate) u
                   end
               end
      end.

(** ** The loop *)

Record Manager := mkManager {
  has_core : bool;
  config : ManagerConfig;
  active : bool;
  closed : bool;
  stop : bool;
  done : bool;
  wake : bool
}.

Definition NewManager : Manager :=
  mkManager false (mkConfig defaultManagerCheckInterval 0 0 [] []) false false false false false.

Definition Config (m : Manager) : ManagerConfig := config m.
Definition IsStarted (m : Manager) : bool := active m && negb (closed m).
Definition checkInterval (m : Manager) : Z :=
  if CheckInterval (config m) <=? 0 then defaultManagerCheckInterval else CheckInterval (config m).
Definition snapshot (m : Manager) : managerSnapshot :=
  mkSnapshot (has_core m) (config m) (normalizeSet (Countries (config m))) (normalizeSet (TransportSchemes (config m))).


(** What a goroutine does next; [Decide] is the loop between its snapshot and
    the call of AddPeer. *)
Inductive task :=
| Finished
| StartFetcher
| GoLoop
| SignalWake
| Select
| TakeSnapshot
| Decide (s : managerSnapshot)
| Ending
| CloseFetcher
| CloseManager
| CloseStop
| CloseDone
| WaitDone.

(** The first section of a call. *)
Definition Start (has_fetcher : bool) (m : Manager) : Manager * task :=
  if negb has_fetcher then (m, Finished)
  else if active m || closed m then (m, Finished)
  else (mkManager (has_core m) (config m) true (closed m) (stop m) (done m) (wake m), StartFetcher).
Definition SetPeerManager (core : bool) (m : Manager) : Manager * task :=
  (mkManager core (config m) (active m) (closed m) (stop m) (done m) (wake m), SignalWake).
Definition SetConfig (c : ManagerConfig) (m : Manager) : Manager * task :=
  (mkManager (has_core m) (fix_config c) (active m) (closed m) (stop m) (done m) (wake m), SignalWake).
(** The section of Close after it has closed the fetcher. *)
Definition Close_section (m : Manager) : Manager * task :=
  if closed m then (m, Finished)
  else (mkManager (has_core m) (config m) (active m) true (stop m) (done m) (wake m),
        if active m then CloseStop else CloseDone).

Inductive api := CStart (has_fetcher : bool) | CClose | CSetPeerManager (core : bool) | CSetConfig (c : ManagerConfig).

Definition call (c : api) (m : Manager) : Manager * task :=
  match c with
  | CStart has_fetcher => Start has_fetcher m
  | CClose => (m, CloseFetcher)
  | CSetPeerManager core => SetPeerManager core m
  | CSetConfig c => SetConfig c m
  end.

Inductive answer :=
| ANone | AStop | AWake | ATick
| AReads (rand : nat -> float64) (connected uris : list string) (peers : list Peer).

(** A step: the manager, the next task, the goroutine it starts, and the
    outcome of a check. *)
Definition step_task (t : task) (a : answer) (m : Manager) : option (Manager * task * list task * list outcome) :=
  match t, a with
  | StartFetcher, ANone => Some (m, GoLoop, [], [])
  | GoLoop, ANone => Some (m, SignalWake, [Select], [])
  | SignalWake, ANone => Some (mkManager (has_core m) (config m) (active m) (closed m) (stop m) (done m) true, Finished, [], [])
  | Select, AStop => if stop m then Some (m, Ending, [], []) else None
  | Select, AWake =>
      if wake m then Some (mkManager (has_core m) (config m) (active m) (closed m) (stop m) (done m) false, TakeSnapshot, [], [])
      else None
  | Select, ATick => Some (m, TakeSnapshot, [], [])
  | TakeSnapshot, ANone => Some (m, Decide (snapshot m), [], [])
  | Decide s, AReads rand connected uris peers => Some (m, Select, [], [checkNow rand s connected uris peers])
  | Ending, ANone => Some (mkManager (has_core m) (config m) false (closed m) (stop m) (done m) (wake m), CloseDone, [], [])
  | CloseFetcher, ANone => Some (m, CloseManager, [], [])
  | CloseManager, ANone => let '(m, t) := Close_section m in Some (m, t, [], [])
  | CloseStop, ANone => Some (mkManager (has_core m) (config m) (active m) (closed m) true (done m) (wake m), WaitDone, [], [])
  | CloseDone, ANone => Some (mkManager (has_core m) (config m) (active m) (closed m) (stop m) true (wake m), Finished, [], [])
  | WaitDone, ANone => if done m then Some (m, Finished, [], []) else None
  | _, _ => None
  end.

Record World := mkWorld { manager : Manager; tasks : list task; outcomes : list outcome }.
Definition World_init : World := mkWorld NewManager [] [].

Inductive event := Call (c : api) | Run (i : nat) (a : answer).

Definition exec (e : event) (w : World) : option World :=
  match e with
  | Call c => let '(m, t) := call c (manager w) in Some (mkWorld m (tasks w ++ [t]) (outcomes w))
  | Run i a =>
      match tasks w !! i with
      | None => None
      | Some t => match step_task t a (manager w) with
                  | None => None
                  | Some (m, t, new, out) => Some (mkWorld m (<[i := t]> (tasks w) ++ new) (out ++ outcomes w))
                  end
      end
  end.

Inductive reachable : World -> Prop :=
| reach_init : reachable World_init
| reach_step e w w' : reachable w -> exec e w = Some w' -> reachable w'.

(** The states that follow. *)
Inductive later (w : World) : World -> Prop :=
| later_refl : later w w
| later_step e w1 w2 : later w w1 -> exec e w1 = Some w2 -> later w w2.

(** ** Comparing floats *)

(** The order of the numbers, as the order of triples. *)
Definition key (a : float64) : Z * Z * Z :=
  match a with
  | S754_zero _ | S754_nan => (0, 0, 0)
  | S754_infinity true => (-2, 0, 0)
  | S754_infinity false => (2, 0, 0)
  | S754_finite true m e => (-1, - e, Z.neg m)
  | S754_finite false m e => (1, e, Z.pos m)
  end.
Definition key_lt (a b : Z * Z * Z) : Prop :=
  let '(a1, a2, a3) := a in let '(b1, b2, b3) := b in a1 < b1 \/ a1 = b1 /\ (a2 < b2 \/ a2 = b2 /\ a3 < b3).

Lemma f_gt_key a b : f_gt a b = true <-> is_nan a = false /\ is_nan b = false /\ key_lt (key b) (key a).
Proof.
  unfold f_gt, key_lt. destruct a as [sa|[]| |[] ma ea], b as [sb|[]| |[] mb eb]; simpl;
    try (split; [intros H; split_and!; try done; lia|intros (? & ? & ?); done || lia]).
  - change (Pos.compare_cont Eq ma mb) with (ma ?= mb)%positive. destruct (Z.compare_spec ea eb) as [->|H|H].
    + destruct (Pos.compare_spec ma mb) as [->|H|H]; simpl; (split; [intros Hc; split_and!; done || lia|intros (_ & _ & Hk); done || lia]).
    + split; [intros Hc; split_and!; done || lia|intros (_ & _ & Hk); done || lia].
    + split; [done|intros (_ & _ & Hk); lia].
  - change (Pos.compare_cont Eq ma mb) with (ma ?= mb)%positive. destruct (Z.compare_spec ea eb) as [->|H|H].
    + destruct (Pos.compare_spec ma mb) as [->|H|H]; simpl; (split; [intros Hc; split_and!; done || lia|intros (_ & _ & Hk); done || lia]).
    + split; [done|intros (_ & _ & Hk); lia].
    + split; [intros Hc; split_and!; done || lia|intros (_ & _ & Hk); done || lia].
Qed.

Lemma f_gt_trans a b c : f_gt a b = true -> f_gt b c = true -> f_gt a c = true.
Proof.
  rewrite !f_gt_key. intros (Ha & Hb & H1) (_ & Hc & H2). split_and!; try done.
  unfold key_lt in *. destruct (key a) as [[a1 a2] a3], (key b) as [[b1 b2] b3], (key c) as [[c1 c2] c3]. lia.
Qed.

Lemma f_gt_irrefl a : f_gt a a = false.
Proof.
  destruct (f_gt a a) eqn:E; [|done]. apply f_gt_key in E as (_ & _ & H). unfold key_lt in H. destruct (key a) as [[]]. lia.
Qed.

(** ** The selection *)

(** The endpoints that the loops look at, those that pass the filters, and
    those that are not peers yet. *)
Definition examined (snapshot : managerSnapshot) (peers : list Peer) : list Endpoint :=
  concat (map p_Endpoints (filter (fun p => peerMatchesCountries p (countries snapshot) = true) peers)).
Definition passes (snapshot : managerSnapshot) (e : Endpoint) : bool :=
  endpointMatchesSchemes e (transports snapshot) && negb (bool_decide (TrimSpace (ep_URL e) = EmptyString)).
Definition eligible (snapshot : managerSnapshot) (peers : list Peer) : list Endpoint :=
  filter (fun e => passes snapshot e = true) (examined snapshot peers).
Definition open_endpoints (snapshot : managerSnapshot) (existing : gset string) (peers : list Peer) : list Endpoint :=
  filter (fun e => ep_URL e ∉ existing) (eligible snapshot peers).

Section Selection.
Context (rand : nat -> float64) (snapshot : managerSnapshot) (existing : gset string).

Lemma select_flat peers s :
  fold_left (select_peer rand snapshot existing) peers s =
  fold_left (select_endpoint rand snapshot existing) (examined snapshot peers) s.
Proof.
  unfold examined. revert s. induction peers as [|p peers IH]; intros s; [done|]. cbn [fold_left]. rewrite filter_cons, IH.
  unfold select_peer. destruct (peerMatchesCountries p (countries snapshot)).
  - rewrite decide_True by done. simpl. by rewrite fold_left_app.
  - by rewrite decide_False.
Qed.

(** What the loop has computed after the endpoints [l]. *)
Definition passed (l : list Endpoint) : list Endpoint := filter (fun e => passes snapshot e = true) l.
Definition scored (l : list Endpoint) : list Endpoint := filter (fun e => ep_URL e ∉ existing) (passed l).
Definition selects (l : list Endpoint) (s : selection) : Prop :=
  match used s with
  | None => selected s = None /\ exists e, e ∈ scored l /\ uptimeScore e = None
  | Some n =>
      n = length (scored l) /\ (forall e, e ∈ scored l -> is_Some (uptimeScore e)) /\
      filtered s = list_to_set (map ep_URL (passed l)) /\
      match selected s with
      | None => scored l = []
      | Some c =>
          (exists k e, scored l !! k = Some e /\ c_uri c = ep_URL e /\ endpointScore (rand k) e = Some (c_score c)) /\
          forall k e score, scored l !! k = Some e -> endpointScore (rand k) e = Some score -> f_gt score (c_score c) = false
      end
  end.

Lemma select_endpoint_ok l s e : selects l s -> selects (l ++ [e]) (select_endpoint rand snapshot existing s e).
Proof.
  intros H. unfold selects in H. unfold select_endpoint. destruct (used s) as [n|] eqn:Eu.
  2: { unfold selects, scored, passed. rewrite Eu. destruct H as (H1 & e' & He & H2). split; [done|]. exists e'. split; [|done].
       rewrite !filter_app. apply elem_of_app. by left. }
  assert (Hskip : passes snapshot e = false -> selects (l ++ [e]) s).
  { intros Hp. unfold selects, scored, passed in *. rewrite Eu, !filter_app, filter_cons, filter_nil, decide_False by congruence.
    by rewrite !app_nil_r. }
  destruct (endpointMatchesSchemes e (transports snapshot)) eqn:Es; cbn [negb]; [|apply Hskip; unfold passes; by rewrite Es].
  case_bool_decide as Eb; [apply Hskip; unfold passes; by rewrite Es, bool_decide_true|].
  assert (Hp : passes snapshot e = true) by (unfold passes; by rewrite Es, bool_decide_false).
  destruct H as (Hn & Hall & Hf & Hsel).
  assert (Epass : passed (l ++ [e]) = passed l ++ [e]).
  { unfold passed. by rewrite filter_app, filter_cons, filter_nil, decide_True. }
  assert (Hf' : {[ep_URL e]} ∪ filtered s = list_to_set (map ep_URL (passed (l ++ [e])))).
  { rewrite Epass, Hf, map_app, list_to_set_app_L. simpl. set_solver. }
  case_bool_decide as Ex.
  { assert (Esc : scored (l ++ [e]) = scored l).
    { unfold scored. rewrite Epass, filter_app, filter_cons, filter_nil, decide_False by (by intros []). by rewrite app_nil_r. }
    unfold selects. simpl. rewrite Esc. by split_and!. }
  assert (Esc : scored (l ++ [e]) = scored l ++ [e]).
  { unfold scored. by rewrite Epass, filter_app, filter_cons, filter_nil, decide_True. }
  destruct (endpointScore (rand n) e) as [score|] eqn:Esco.
  2: { unfold selects. simpl. split; [done|]. exists e. rewrite Esc. split; [apply elem_of_app; right; left|].
       unfold endpointScore in Esco. by destruct (uptimeScore e). }
  unfold selects. simpl. rewrite Esc, length_app. simpl. split; [lia|]. split.
  { intros e' [He'| ->%list_elem_of_singleton]%elem_of_app; [by apply Hall|].
    unfold endpointScore in Esco. by destruct (uptimeScore e). }
  split; [exact Hf'|].
  assert (Hlast : (scored l ++ [e]) !! n = Some e) by (rewrite Hn; by apply list_lookup_middle).
  assert (Hcases : forall k e', (scored l ++ [e]) !! k = Some e' -> scored l !! k = Some e' \/ k = n /\ e' = e).
  { intros k e' [Hk|[Hk1 Hk2]]%lookup_app_Some; [by left|]. right.
    apply list_lookup_singleton_Some in Hk2 as [Hk2 <-]. split; [lia|done]. }
  unfold better. destruct (selected s) as [c|].
  - destruct Hsel as [(k & e0 & Hk & Hu & Hs0) Hmax]. simpl. destruct (f_gt score (c_score c)) eqn:Eg; simpl.
    + split; [by exists n, e|]. intros k' e' sc [Hk'|[-> ->]]%Hcases Hsc.
      * destruct (f_gt sc score) eqn:E'; [|done]. specialize (Hmax k' e' sc Hk' Hsc).
        by rewrite (f_gt_trans _ _ _ E' Eg) in Hmax.
      * rewrite Esco in Hsc. injection Hsc as <-. apply f_gt_irrefl.
    + split; [exists k, e0; split; [by apply lookup_app_l_Some|done]|].
      intros k' e' sc [Hk'|[-> ->]]%Hcases Hsc; [by eapply Hmax|]. rewrite Esco in Hsc. by injection Hsc as <-.
  - rewrite Hsel in *. simpl in *. subst n. split; [by exists 0%nat, e|].
    intros k' e' sc [Hk'|[-> ->]]%Hcases Hsc; [done|]. rewrite Esco in Hsc. injection Hsc as <-. apply f_gt_irrefl.
Qed.
End Selection.


Lemma selectCandidate_ok rand snapshot existing peers :
  selects rand snapshot existing (examined snapshot peers) (selectCandidate rand snapshot existing peers).
Proof.
  unfold selectCandidate. rewrite select_flat. generalize (examined snapshot peers) as l.
  intros l. induction l as [|e l IH] using rev_ind.
  - unfold selects. simpl. split_and!; try done. by intros e ?%elem_of_nil.
  - rewrite fold_left_app. by apply select_endpoint_ok.
Qed.

(** ** Theorems *)

(** An endpoint of [l] with a score that no other one exceeds. *)
Definition best (rand : nat -> float64) (l : list Endpoint) (uri : string) : Prop :=
  exists k e score, l !! k = Some e /\ ep_URL e = uri /\ endpointScore (rand k) e = Some score /\
    forall k' e' score', l !! k' = Some e' -> endpointScore (rand k') e' = Some score' -> f_gt score' score = false.

Definition configured (s : managerSnapshot) : Prop :=
  countries s <> ∅ /\ transports s <> ∅ /\ snap_core s = true /\
  (0 < MinimumConnected (snap_config s) \/ 0 < MinimumConnectedFromFetch (snap_config s)).
Definition conditions_met (s : managerSnapshot) (connected : list string) (peers : list Peer) : Prop :=
  MinimumConnected (snap_config s) <= Z.of_nat (size (uniqueNonEmpty connected)) /\
  MinimumConnectedFromFetch (snap_config s) <=
    Z.of_nat (size (uniqueNonEmpty connected ∩ list_to_set (map ep_URL (eligible s peers)))).
Definition bad_score (l : list Endpoint) : Prop := exists e, e ∈ l /\ uptimeScore e = None.

(** The outcome of a check on every branch: nothing happens unless both
    filters, a peer manager and a condition are set; one endpoint without a
    readable uptime, among those that could be added, fails the check; nothing
    happens when both conditions hold; otherwise the endpoint that passes the
    filters, is no peer yet, and has the best score is parsed and added. *)
Theorem checkNow_spec rand s connected uris peers :
  let candidates := open_endpoints s (uniqueNonEmpty uris) peers in
  match checkNow rand s connected uris peers with
  | Idle => ~ configured s
  | SelectionFailed => configured s /\ bad_score candidates
  | Enough => configured s /\ ~ bad_score candidates /\ conditions_met s connected peers
  | NoEligible => configured s /\ ~ bad_score candidates /\ ~ conditions_met s connected peers /\ candidates = []
  | Rejected uri => configured s /\ ~ bad_score candidates /\ ~ conditions_met s connected peers /\
      best rand candidates uri /\ url_Parse uri = None
  | Adds uri u => configured s /\ ~ bad_score candidates /\ ~ conditions_met s connected peers /\
      best rand candidates uri /\ url_Parse uri = Some u
  end.
Proof.
  intros candidates. unfold checkNow, configured. case_bool_decide as E1; simpl; [tauto|].
  case_bool_decide as E2; simpl; [tauto|]. destruct (snap_core s); simpl; [|naive_solver].
  destruct (MinimumConnected (snap_config s) <=? 0) eqn:E3; destruct (MinimumConnectedFromFetch (snap_config s) <=? 0) eqn:E4;
    simpl; bool_props; [lia|..].
  all: pose proof (selectCandidate_ok rand s (uniqueNonEmpty uris) peers) as H; unfold selects in H;
    change (scored s (uniqueNonEmpty uris) (examined s peers)) with candidates in H;
    change (passed s (examined s peers)) with (eligible s peers) in H;
    (assert (Hc : countries s <> ∅ /\ transports s <> ∅ /\ true = true /\
      (0 < MinimumConnected (snap_config s) \/ 0 < MinimumConnectedFromFetch (snap_config s))) by (split_and!; auto));
    destruct (used _) as [n|]; [|by destruct H as [_ H]];
    destruct H as (_ & Hall & Hf & Hsel); rewrite Hf;
    (assert (Hgood : ~ bad_score candidates) by (intros (e & He & Hn); destruct (Hall e He) as [? ?]; congruence));
    (assert (Hmet : ((MinimumConnected (snap_config s) <=? Z.of_nat (size (uniqueNonEmpty connected))) &&
       (MinimumConnectedFromFetch (snap_config s) <=? countIntersection (uniqueNonEmpty connected) (list_to_set (map ep_URL (eligible s peers))))) = true
       <-> conditions_met s connected peers) by (rewrite andb_true_iff, !Z.leb_le; done));
    destruct (_ && _); [split; [exact Hc|split; [exact Hgood|by apply Hmet]]|];
    (assert (Hun : ~ conditions_met s connected peers) by (rewrite <- Hmet; done));
    (destruct (selected _) as [c|]; [|done]);
    destruct Hsel as [(k & e & Hk & -> & Hsc) Hmax];
    (assert (Hb : best rand candidates (ep_URL e)) by (exists k, e, (c_score c); split_and!; done));
    destruct (url_Parse (ep_URL e)) eqn:Eu; (split; [exact Hc|]); (split; [exact Hgood|]); (split; [exact Hun|]); (split; [exact Hb|exact Eu]).
Qed.


(** *** Repeated checks *)

(** [n] checks, each after whatever [others] do to the state of the peer manager:
    how many calls of AddPeer failed, and the state at the end. *)
Fixpoint rounds {P} `{PeerManager P} (rand : nat -> nat -> float64) (s : managerSnapshot) (connected : nat -> list string)
    (others : nat -> P -> P) (peers : list Peer) (n : nat) (p : P) : nat * P :=
  match n with
  | O => (O, p)
  | S n =>
      let p := others n p in
      match checkNow (rand n) s (connected n) (PeerURIs p) peers with
      | Adds _ u =>
          let '(added, p) := AddPeer u p in
          let '(failed, p) := rounds rand s connected others peers n p in
          (if added then failed else S failed, p)
      | _ => rounds rand s connected others peers n p
      end
  end.

Lemma uniqueNonEmpty_in uris v : v ∈ uris -> TrimSpace v = v -> v <> EmptyString -> v ∈ uniqueNonEmpty uris.
Proof.
  intros Hin Ht Hv. unfold uniqueNonEmpty. apply elem_of_list_to_set, list_elem_of_filter. split; [done|].
  apply list_elem_of_In, in_map_iff. exists v. by rewrite <-list_elem_of_In.
Qed.

Lemma uniqueNonEmpty_subset uris uris' : uris ⊆ uris' -> uniqueNonEmpty uris ⊆ uniqueNonEmpty uris'.
Proof.
  intros Hsub v. unfold uniqueNonEmpty. rewrite !elem_of_list_to_set, !list_elem_of_filter. intros [Hv Hin]. split; [done|].
  rewrite list_elem_of_In, in_map_iff in Hin |- *. destruct Hin as (x & Hx & Hin). exists x. split; [done|].
  rewrite <-list_elem_of_In in Hin |- *. by apply Hsub.
Qed.

Lemma open_monotone s existing existing' peers : existing ⊆ existing' ->
  (length (open_endpoints s existing' peers) <= length (open_endpoints s existing peers))%nat.
Proof.
  intros Hsub. unfold open_endpoints. induction (eligible s peers) as [|x l IH]; [done|]. rewrite !filter_cons.
  destruct (decide (ep_URL x ∉ existing')), (decide (ep_URL x ∉ existing)); simpl; try lia. set_solver.
Qed.

Lemma open_shrinks s existing existing' peers e :
  existing ⊆ existing' -> e ∈ open_endpoints s existing peers -> ep_URL e ∈ existing' ->
  (length (open_endpoints s existing' peers) < length (open_endpoints s existing peers))%nat.
Proof.
  intros Hsub He Hin. apply list_elem_of_split in He as (l1 & l2 & E).
  assert (Hf : open_endpoints s existing' peers = filter (fun e => ep_URL e ∉ existing') (open_endpoints s existing peers)).
  { unfold open_endpoints. clear E. induction (eligible s peers) as [|x l IH]; [done|]. rewrite !filter_cons.
    destruct (decide (ep_URL x ∉ existing')) as [H1|H1], (decide (ep_URL x ∉ existing)) as [H2|H2];
      rewrite ?filter_cons, ?decide_True, ?decide_False by done; [by f_equal|set_solver|done|done]. }
  rewrite Hf, E, filter_app, filter_cons, decide_False by set_solver. rewrite !length_app. simpl.
  pose proof (length_filter (fun e => ep_URL e ∉ existing') l1). pose proof (length_filter (fun e => ep_URL e ∉ existing') l2). lia.
Qed.

Lemma rounds_failed {P} `{PeerManager P} rand s connected others peers n (p : P) : ((rounds rand s connected others peers n p).1 <= n)%nat.
Proof.
  revert p. induction n as [|n IH]; intros p; cbn [rounds]; [done|].
  assert (Hlt : forall p, ((rounds rand s connected others peers n p).1 <= S n)%nat) by (intros q; specialize (IH q); lia).
  destruct (checkNow _ _ _ _ _); try apply Hlt. destruct (AddPeer u _) as [added q]. specialize (IH q).
  destruct (rounds rand s connected others peers n q) as [failed r]. cbn [fst] in *. destruct added; lia.
Qed.

(** What the manager asks of the endpoints for this: the uptime can be read, and
    the peer manager lists the URL as it is written. *)
Definition addable (listed : URL -> string) (e : Endpoint) : Prop :=
  uptimeScore e <> None /\ TrimSpace (ep_URL e) = ep_URL e /\ exists u, url_Parse (ep_URL e) = Some u /\ listed u = ep_URL e.

(** C37: while the conditions are not met, every check calls AddPeer for an
    eligible endpoint which is no peer yet, as long as there is one: after a number
    of checks which is that of the eligible endpoints and of the calls that failed,
    all of them are peers; provided their uptimes can be read, they are listed as
    they are written, and nobody removes peers. *)
Theorem eligible_peers_get_added {P} `{Hpm : PeerManager P} listed valid `{Hlaws : !PeerManagerLaws P listed valid}
    rand s connected others peers n p :
  configured s -> (forall k, ~ conditions_met s (connected k) peers) ->
  (forall k p, valid p -> valid (others k p) /\ PeerURIs p ⊆ PeerURIs (others k p)) ->
  (forall e, e ∈ eligible s peers -> addable listed e) ->
  valid p -> (length (eligible s peers) + (rounds rand s connected others peers n p).1 <= n)%nat ->
  forall e, e ∈ eligible s peers -> ep_URL e ∈ uniqueNonEmpty (PeerURIs (rounds rand s connected others peers n p).2).
Proof.
  intros Hc Hun Hothers Hgood Hp Hn. set (opens p := length (open_endpoints s (uniqueNonEmpty (PeerURIs p)) peers)).
  assert (Hn' : (opens p + (rounds rand s connected others peers n p).1 <= n)%nat).
  { pose proof (length_filter (fun e => ep_URL e ∉ uniqueNonEmpty (PeerURIs p)) (eligible s peers)). unfold opens, open_endpoints. lia. }
  clear Hn. revert p Hp Hn'. induction n as [|n IH]; intros p Hp Hn e He; cbn [rounds] in *.
  - destruct (decide (ep_URL e ∈ uniqueNonEmpty (PeerURIs p))) as [|Hnot]; [done|].
    assert (Hin : e ∈ open_endpoints s (uniqueNonEmpty (PeerURIs p)) peers) by (by apply list_elem_of_filter).
    unfold opens in Hn. destruct (open_endpoints s _ peers); [by apply elem_of_nil in Hin|simpl in Hn; lia].
  - destruct (Hothers n p Hp) as [Hp1 Hsub]. pose proof (open_monotone s _ _ peers (uniqueNonEmpty_subset _ _ Hsub)) as Hmono.
    set (p1 := others n p) in *. change (opens p1 <= opens p)%nat in Hmono.
    pose proof (checkNow_spec (rand n) s (connected n) (PeerURIs p1) peers) as H. cbv zeta in H.
    assert (Hopen : forall e, e ∈ open_endpoints s (uniqueNonEmpty (PeerURIs p1)) peers -> e ∈ eligible s peers) by (by intros e' [_ ?]%list_elem_of_filter).
    destruct (checkNow _ _ _ _ _) as [| | | |uri|uri u].
    + by destruct H.
    + destruct H as (_ & e' & He' & Hbad). by destruct (Hgood e' (Hopen e' He')) as [[] _].
    + destruct H as (_ & _ & Hm). by destruct (Hun n).
    + destruct H as (_ & _ & _ & Ho). apply IH; [done| |done]. pose proof (rounds_failed rand s connected others peers n p1).
      unfold opens. rewrite Ho. simpl. lia.
    + destruct H as (_ & _ & _ & (k & e' & sc & Hk & <- & _) & Hb). apply list_elem_of_lookup_2 in Hk.
      destruct (Hgood e' (Hopen e' Hk)) as (_ & _ & u & Hu & _). congruence.
    + destruct H as (_ & _ & _ & (k & e' & sc & Hk & <- & _) & Hb). apply list_elem_of_lookup_2 in Hk.
      destruct (Hgood e' (Hopen e' Hk)) as (_ & Ht & u' & Hu & Hs). assert (u' = u) as -> by congruence.
      assert (Hne : ep_URL e' <> EmptyString).
      { apply Hopen, list_elem_of_filter in Hk as [Hpass _]. unfold passes in Hpass. bool_props. congruence. }
      destruct (add_keeps u p1 Hp1) as (Hp2 & Hsub2 & Hadd). destruct (AddPeer u p1) as [added p2]. cbn [fst snd] in *.
      pose proof (uniqueNonEmpty_subset _ _ Hsub2) as Hset. specialize (IH p2 Hp2).
      destruct (rounds rand s connected others peers n p2) as [failed p3]. cbn [fst snd] in *. apply IH; [|done]. destruct added.
      * assert (Hin : ep_URL e' ∈ uniqueNonEmpty (PeerURIs p2)) by (apply uniqueNonEmpty_in; [|done|done]; rewrite <-Hs; apply Hadd; congruence).
        pose proof (open_shrinks s _ _ peers e' Hset Hk Hin) as H. change (opens p2 < opens p1)%nat in H. lia.
      * pose proof (open_monotone s _ _ peers Hset) as H. change (opens p2 <= opens p1)%nat in H. lia.
Qed.

(** *** Closing *)

Definition loops (t : task) : nat :=
  match t with StartFetcher | GoLoop | Select | TakeSnapshot | Decide _ | Ending => 1 | _ => 0 end.
Definition finishes (t : task) : nat := match t with CloseDone => 1 | _ => 0 end.
Definition count (f : task -> nat) (ts : list task) : nat := sum_list_with f ts.

Lemma count_replace f ts i t t' : ts !! i = Some t -> (count f (<[i := t']> ts) + f t = count f ts + f t')%nat.
Proof.
  unfold count. revert i. induction ts as [|x ts IH]; intros [|i]; simpl; try done.
  - intros [= ->]. lia.
  - intros H. specialize (IH i H). lia.
Qed.
Lemma count_app f ts ts' : count f (ts ++ ts') = (count f ts + count f ts')%nat.
Proof. apply sum_list_with_app. Qed.
Lemma count_snoc f ts t : count f (ts ++ [t]) = (count f ts + f t)%nat.
Proof. rewrite count_app. unfold count. simpl. lia. Qed.
Lemma count_elem f ts i t : ts !! i = Some t -> (f t <= count f ts)%nat.
Proof. intros H. apply sum_list_with_in. by eapply list_elem_of_lookup_2. Qed.

Record inv (w : World) : Prop := mkInv {
  inv_loops : count loops (tasks w) = (if active (manager w) then 1 else 0)%nat;
  inv_done : (count finishes (tasks w) + (if done (manager w) then 1 else 0) <= 1)%nat;
  inv_finished : (0 < count finishes (tasks w) + (if done (manager w) then 1 else 0))%nat ->
    active (manager w) = false /\ closed (manager w) = true;
  inv_stop : stop (manager w) = true -> closed (manager w) = true;
  inv_tasks : forall t, t ∈ tasks w -> match t with
    | Ending => stop (manager w) = true
    | CloseStop => closed (manager w) = true
    | _ => True
    end
}.

Lemma in_replaced ts i (t' : task) new x : x ∈ <[i := t']> ts ++ new -> x = t' \/ x ∈ new \/ x ∈ ts.
Proof.
  intros [Hx|Hx]%elem_of_app; [|auto]. apply list_elem_of_lookup in Hx as [j Hj].
  destruct (decide (i = j)) as [<-|Hne].
  - destruct (decide (i < length ts)%nat) as [Hl|Hl].
    + rewrite list_lookup_insert_eq in Hj by done. injection Hj as <-. auto.
    + rewrite list_insert_ge in Hj by lia. right. right. by eapply list_elem_of_lookup_2.
  - rewrite list_lookup_insert_ne in Hj by done. right. right. by eapply list_elem_of_lookup_2.
Qed.

Lemma inv_reachable w : reachable w -> inv w.
Proof.
  induction 1 as [|e w w' _ [H1 H2 H3 H4 H5] He].
  { split; simpl; try done; try lia. by intros t ?%elem_of_nil. }
  destruct e as [c|i a]; unfold exec in He.
  - assert (Hcase : exists m t, call c (manager w) = (m, t) /\ w' = mkWorld m (tasks w ++ [t]) (outcomes w)).
    { destruct (call c (manager w)) as [m t]. injection He as <-. eauto. }
    destruct Hcase as (m & t & Ec & ->). clear He.
    assert (Hm : stop m = stop (manager w) /\ closed m = closed (manager w) /\ done m = done (manager w) /\ finishes t = 0%nat /\
      (match t with Ending | CloseStop => False | _ => True end) /\
      (active m = active (manager w) /\ loops t = 0%nat \/ active (manager w) = false /\ closed (manager w) = false /\ active m = true /\ loops t = 1%nat)).
    { unfold call, Start, SetPeerManager, SetConfig in Ec. destruct c as [hf| | |]; simpl in Ec; [destruct hf; simpl in Ec; [destruct (active (manager w)) eqn:Ea; simpl in Ec;
        [|destruct (closed (manager w)) eqn:Ecl]|]|..]; injection Ec as <- <-; simpl; rewrite ?Ea, ?Ecl; split_and!; auto 10. }
    destruct Hm as (E1 & E2 & E3 & E4 & E5 & E6).
    split; simpl; rewrite ?count_snoc, ?E1, ?E2, ?E3, ?E4.
    + destruct E6 as [(-> & ->)|(Ha & _ & -> & ->)]; rewrite H1, ?Ha; lia.
    + lia.
    + intros Hpos. destruct H3 as [Ha Hcl]; [lia|].
      destruct E6 as [(-> & _)|(_ & Hc & _)]; [done|congruence].
    + done.
    + intros x [Hx|Hx%list_elem_of_singleton]%elem_of_app; [by apply H5|]. subst x. by destruct t.
  - destruct (tasks w !! i) as [t|] eqn:Et; [|done].
    destruct (step_task t a (manager w)) as [[[[m t'] new] out]|] eqn:Es; [|done]. injection He as <-.
    pose proof (count_replace loops _ _ _ t' Et) as C1. pose proof (count_replace finishes _ _ _ t' Et) as C2.
    pose proof (count_elem loops _ _ _ Et) as L1. pose proof (count_elem finishes _ _ _ Et) as L2.
    assert (Hin : t ∈ tasks w) by (by eapply list_elem_of_lookup_2). pose proof (H5 t Hin) as Ht.
    assert (Hidle : active (manager w) = true \/ closed (manager w) = false ->
      (count finishes (tasks w) + (if done (manager w) then 1 else 0) = 0)%nat).
    { intros Hor. destruct (decide (0 < count finishes (tasks w) + (if done (manager w) then 1 else 0))%nat) as [Hp|]; [|lia].
      destruct (H3 Hp). destruct Hor; congruence. }
    destruct t, a; simpl in Es; unfold Close_section in *; try done.
    all: repeat match type of Es with context [if ?b then _ else _] => destruct b eqn:? end; try done;
      injection Es as <- <- <- <-; simpl in *.
    all: split; simpl; rewrite ?count_app; unfold count in *; simpl; try done; try lia.
    all: try (intros x Hx; apply in_replaced in Hx as [->|[Hx|Hx]];
      [auto| |specialize (H5 x Hx); destruct x; auto];
      first [by apply elem_of_nil in Hx|by apply list_elem_of_singleton in Hx as ->]).
    all: try (intros Hpos; first [apply H3; lia|lia|split; [done|auto]]).
    all: try (intros; by auto).
    all: try rewrite Heqb in *.
    all: try (intros Hpos; apply H3; destruct (done (manager w)); simpl in *; lia).
    all: destruct (active (manager w)); [try specialize (Hidle (or_introl eq_refl))|]; destruct (done (manager w)); simpl in *; lia.
Qed.

Lemma done_stays e w w' : exec e w = Some w' -> done (manager w) = true -> inv w ->
  done (manager w') = true /\ outcomes w' = outcomes w.
Proof.
  intros He Hd [H1 H2 H3 H4 H5]. destruct H3 as [Ha Hc]; [rewrite Hd; lia|]. destruct e as [c|i a]; unfold exec in He.
  - unfold call, Start, SetPeerManager, SetConfig in He. destruct c; simpl in He; rewrite ?Ha, ?Hc in He; simpl in He; try (by injection He as <-).
    by destruct has_fetcher; injection He as <-.
  - destruct (tasks w !! i) as [t|] eqn:Et; [|done].
    destruct (step_task t a (manager w)) as [[[[m t'] new] out]|] eqn:Es; [|done]. injection He as <-.
    pose proof (count_elem loops _ _ _ Et) as L. rewrite H1, Ha in L.
    destruct t, a; simpl in Es, L; unfold Close_section in *; try done; try lia;
      repeat match type of Es with context [if ?b then _ else _] => destruct b eqn:? end; try done;
      by injection Es as <- <- <- <-.
Qed.

(** Once Close has waited for the loop, or has found that there was none, no
    check is made any more, whatever is called; the manager stays stopped. *)
Theorem nothing_after_close w i w1 w2 :
  reachable w -> tasks w !! i = Some WaitDone \/ tasks w !! i = Some CloseDone -> exec (Run i ANone) w = Some w1 ->
  later w1 w2 -> outcomes w2 = outcomes w1 /\ IsStarted (manager w2) = false.
Proof.
  intros Hr Ht He Hl. assert (Hr1 : reachable w1) by (by eapply reach_step).
  assert (Hd1 : done (manager w1) = true).
  { unfold exec in He. destruct Ht as [E|E]; rewrite E in He; simpl in He; [|by injection He as <-].
    destruct (done (manager w)) eqn:Ed; [|done]. by injection He as <-. }
  assert (Hall : reachable w2 /\ done (manager w2) = true /\ outcomes w2 = outcomes w1).
  { induction Hl as [|e w3 w4 Hl IH He4]; [done|]. destruct IH as (I1 & I2 & I3).
    destruct (done_stays e w3 w4 He4 I2 (inv_reachable w3 I1)) as [D1 D2].
    split_and!; [by eapply reach_step|done|congruence]. }
  destruct Hall as (Hr2 & Hd2 & Ho). split; [done|]. destruct (inv_reachable w2 Hr2) as [_ _ H3 _ _].
  destruct H3 as [Ha _]; [rewrite Hd2; lia|]. unfold IsStarted. by rewrite Ha.
Qed.

End Autopeer.

(** ** Concrete runs *)

Module Sample.
Definition Parse (s : string) : option URL := Some (mkURL "tls" s "" "" []).
(** 99.5 = 199 / 2 and not-a-number. *)
Definition f_99_5 : float64 := S754_finite false 7001702602801152 (-46).
Definition ParseFloat (s : string) : option float64 :=
  if bool_decide (s = "99.5"%string) then Some f_99_5
  else if bool_decide (s = "NaN"%string) then Some S754_nan else None.
Definition rand (n : nat) : float64 := f_zero.
Definition uptime (raw : string) : option Uptime := Some (mkUptime "" "" "" f_zero raw "" "" "").
Definition endpoint (url raw : string) : Endpoint := mkEndpoint url "tls" "h" 1 "" "" true [] (uptime raw).
Definition peers (l : list Endpoint) : list Peer := [mkPeer "" "europe" " Germany" "f" "" l].
Definition snap : managerSnapshot :=
  mkSnapshot true (mkConfig 1 1 0 ["germany"; " Germany "] ["TLS"]) (normalizeSet ["germany"; " Germany "]) (normalizeSet ["TLS"]).
Definition check (l : list Endpoint) : outcome := checkNow Parse ParseFloat rand snap [] [] (peers l).
End Sample.

(** Counterexample: the uptime text of one public peer decides about all.  If it
    cannot be read, no peer is added by any check although others are eligible;
    and NaN, which parses, wins against every uptime when it comes first. *)
Theorem bad_uptime_blocks :
  Sample.check [Sample.endpoint "a" "99.5%"] = Adds "a" (mkURL "tls" "a" "" "" []) /\
  Sample.check [Sample.endpoint "a" "99.5%"; Sample.endpoint "b" "n/a"] = SelectionFailed /\
  Sample.check [Sample.endpoint "b" "NaN%"; Sample.endpoint "a" "99.5%"] = Adds "b" (mkURL "tls" "b" "" "" []).
Proof. vm_compute. done. Qed.

(** ** Witnesses *)

Definition sample_endpoints : list Endpoint := [Sample.endpoint "a" "99.5%"; Sample.endpoint "b" "99.5%"].

Lemma sample_configured : configured Sample.snap.
Proof.
  split_and!; [| |done|by left];
    (apply (bool_decide_eq_false_1 (_ = _)); vm_compute; reflexivity).
Qed.

Lemma sample_unmet : ~ conditions_met Sample.Parse Sample.snap [] (Sample.peers sample_endpoints).
Proof. intros [H _]. vm_compute in H. congruence. Qed.

Lemma sample_eligible : eligible Sample.Parse Sample.snap (Sample.peers sample_endpoints) = sample_endpoints.
Proof. vm_compute. reflexivity. Qed.

Lemma sample_readable e : e ∈ eligible Sample.Parse Sample.snap (Sample.peers sample_endpoints) ->
  addable Sample.Parse Sample.ParseFloat Host e.
Proof.
  rewrite sample_eligible. intros [->|[->|[]%elem_of_nil]%elem_of_cons]%elem_of_cons;
    (split; [by vm_compute|split; [done|by eexists]]).
Qed.

Lemma sample_second : Sample.endpoint "b" "99.5%" ∈ eligible Sample.Parse Sample.snap (Sample.peers sample_endpoints).
Proof. rewrite sample_eligible. right. left. Qed.

(** A peer manager that refuses the first call. *)
#[local] Instance refuses_first : PeerManager (bool * list string) := {|
  PeerURIs := snd;
  AddPeer u (p : bool * list string) := if fst p then (true, (true, snd p ++ [Host u])) else (false, (true, snd p))
|}.
#[local] Instance refuses_first_laws : PeerManagerLaws (bool * list string) Host (fun _ => True).
Proof. split. intros u [[|] l] _; cbn; [|by split_and!]. split_and!; [done|set_solver|]. intros _ _. apply elem_of_app. right. left. Qed.

Definition sample_rounds (n : nat) : nat * (bool * list string) :=
  rounds Sample.Parse Sample.ParseFloat (fun _ => Sample.rand) Sample.snap (fun _ => []) (fun _ p => p)
    (Sample.peers sample_endpoints) n (false, ["c"%string]).

Lemma eligible_peers_get_added_witness : (sample_rounds 3).1 = 1%nat /\ "b"%string ∈ uniqueNonEmpty (PeerURIs (sample_rounds 3).2).
Proof.
  assert (E : (sample_rounds 3).1 = 1%nat) by (vm_compute; reflexivity). split; [exact E|].
  refine (eligible_peers_get_added Sample.Parse Sample.ParseFloat Host (fun _ => True) (fun _ => Sample.rand) Sample.snap (fun _ => [])
    (fun _ p => p) (Sample.peers sample_endpoints) 3 (false, ["c"%string]) sample_configured (fun _ => sample_unmet)
    _ sample_readable I _ (Sample.endpoint "b" "99.5%") sample_second).
  - done.
  - pose proof E as E1. unfold sample_rounds in E1. rewrite E1, sample_eligible. simpl. lia.
Defined.

(** Start, one check, Close up to its wait, and the end of the loop. *)
Definition sample_events : list event :=
  [Call (CStart true); Run 0 ANone; Run 0 ANone; Run 0 ANone; Run 1 AWake; Run 1 ANone;
   Run 1 (AReads Sample.rand [] [] (Sample.peers sample_endpoints));
   Call CClose; Run 2 ANone; Run 2 ANone; Run 2 ANone; Run 1 AStop; Run 1 ANone; Run 1 ANone].

Definition run_events (es : list event) (w : World) : option World :=
  fold_left (fun w e => w ≫= exec Sample.Parse Sample.ParseFloat e) es (Some w).

Lemma run_events_reachable es w w' :
  reachable Sample.Parse Sample.ParseFloat w -> run_events es w = Some w' -> reachable Sample.Parse Sample.ParseFloat w'.
Proof.
  unfold run_events. revert w. induction es as [|e es IH]; intros w Hr; simpl; [by intros [= <-]|].
  destruct (exec _ _ e w) as [w1|] eqn:E; [intros H; apply (IH w1); [by eapply reach_step|done]|].
  intros H. exfalso. clear -H. induction es; simpl in H; [done|auto].
Qed.

Definition sample_closing (w : World) : option task * nat := (tasks w !! 2%nat, length (outcomes w)).
Lemma sample_closing_computed : option_map sample_closing (run_events sample_events World_init) = Some (Some WaitDone, 1%nat).
Proof. vm_compute. reflexivity. Qed.

Lemma sample_waits : exists w w1, reachable Sample.Parse Sample.ParseFloat w /\ tasks w !! 2%nat = Some WaitDone /\
  exec Sample.Parse Sample.ParseFloat (Run 2 ANone) w = Some w1 /\ length (outcomes w1) = 1%nat.
Proof.
  pose proof sample_closing_computed as H. destruct (run_events sample_events World_init) as [w|] eqn:E; [|done].
  injection H as H1 H2. assert (Hd : option_map (fun w => done (manager w)) (run_events sample_events World_init) = Some true) by (vm_compute; reflexivity).
  rewrite E in Hd. injection Hd as Hd. exists w. eexists. split; [eapply run_events_reachable; [constructor|exact E]|].
  split; [done|]. unfold exec. rewrite H1. simpl. rewrite Hd. split; [reflexivity|done].
Qed.

Lemma nothing_after_close_witness : exists w1, length (outcomes w1) = 1%nat /\
  forall w2, later Sample.Parse Sample.ParseFloat w1 w2 -> outcomes w2 = outcomes w1.
Proof.
  destruct sample_waits as (w & w1 & Hr & Ht & He & Ho). exists w1. split; [exact Ho|]. intros w2 Hl.
  apply (nothing_after_close Sample.Parse Sample.ParseFloat w 2 w1 w2 Hr (or_introl Ht) He Hl).
Defined.
