(* ===== verification/Routing.v ===== *)
(** * Routing: the network of the SOCKS tunnel
    (ygglib/sockstun/routing.go, tls_mitm.go)

    A [routeNetwork] chooses for every operation the network that carries it:
    the first proxy route whose filter matches, the default proxy, or the direct
    network.  The one of sockstun resolves host names first, except in protected
    zones, and is itself a resolver.  The TLS interception decides which
    connections it answers and keeps the certificates that it has issued.

    The SOCKS clients, filters and resolvers of socksgo, gonnect and mnlib are
    parameters, as are the parsing and printing of addresses. *)

From Stdlib Require Import Ascii.
From S2P Require Import Prelude GoStd.

(** ** Hosts and zones *)

Definition normalizeHost (host : string) : string :=
  TrimSuffix (Trim (ToLower (TrimSpace host)) "[]") ".".

Definition defaultNoResolveZones : list string := [".onion"; ".i2p"; ".loki"]%string.

Fixpoint normalize_zones (seen : gset string) (values : list string) : list string :=
  match values with
  | [] => []
  | value :: rest =>
      let value := TrimPrefix (normalizeHost (TrimPrefix (TrimSpace value) "*")) "." in
      if bool_decide (value = EmptyString) then normalize_zones seen rest
      else
        let zone := String.append "." value in
        if bool_decide (zone ∈ seen) then normalize_zones seen rest
        else zone :: normalize_zones ({[zone]} ∪ seen) rest
  end.
Definition normalizeNoResolveZones (values : list string) : list string := normalize_zones ∅ values.

Definition in_zone (host zone : string) : bool := bool_decide (host = TrimPrefix zone ".") || HasSuffix host zone.

(** ** State *)

Record ProxyConfig := mkProxyConfig { Filter : string; ProxyURL : string }.
Record DNSConfig := mkDNSConfig { FallbackServer : string; NoResolveZones : list string }.

(** A network is the direct one or a SOCKS client. *)
Inductive Net := Direct | Client (id : Z).
Global Instance Net_eq_dec : EqDecision Net.
Proof. solve_decision. Defined.
(** A resolver of mnlib over this network: its fallback server. *)
Record Resolver := mkResolver { fallback : option string }.

Record proxyRoute := mkRoute { cfg : ProxyConfig; filter : string -> string -> bool; network : Net }.

Record routeNetwork := mkRouteNetwork {
  routes : list proxyRoute;
  defaultProxyURL : string;
  defaultProxy : option Net;
  dns : DNSConfig;
  noResolveZones : list string;
  resolver : option Resolver
}.

Definition netip_Addr : Type := bytes * string.         (* the bytes and the zone *)
Definition IP : Type := bytes.                          (* net.IP; nil is empty *)

Inductive routeError := EmptyFilter | EmptyURL | InvalidURL (u : string).

(** The operations of a network and what they are called with. *)
Inductive operation :=
| OpDial | OpListen | OpPacketDial | OpListenPacket | OpDialTCP (laddr : string) | OpListenTCP
| OpDialUDP (laddr : string) | OpListenUDP | OpListenPacketConfig | OpListenUDPConfig | OpListenMulticastUDP.
Record forwarded := mkForwarded { on : Net; op : operation; on_network : string; on_address : string }.

(** The queries of a resolver; [None] is an error.  Records of NS, MX, SRV and
    TXT are kept as text. *)
Record ResolverOps := mkOps {
  r_IP : string -> string -> option (list IP);
  r_Addr : string -> option (list string);
  r_CNAME : string -> option string;
  r_NS : string -> option (list string);
  r_MX : string -> option (list string);
  r_SRV : string -> string -> string -> option (string * list string);
  r_TXT : string -> option (list string)
}.

(** What a call asks: a resolver and the name that it is given. *)
Inductive asked := AskRoute (name : string) | AskDirect (name : string).
Definition lookup (A : Type) : Type := option A * list asked.

(** The code outside of the repository. *)
Class Externals := {
  ClientFromURL : string -> option Net;                       (* socksgo *)
  BuildFilter : string -> string -> string -> bool;
  FamilyFromNetwork : string -> string;                       (* gonnect *)
  PickIP : list IP -> Z -> IP;
  ParseAddr : string -> option netip_Addr;                    (* net/netip, net *)
  ParseIP : string -> option IP;
  Addr_String : netip_Addr -> string;
  IP_String : IP -> string;
  route_ops : Resolver -> ResolverOps;                        (* mnlib *)
  direct_ops : option ResolverOps                             (* the direct network, when it is a resolver *)
}.

Section Routing.
Context {X : Externals}.

(** ** Configuration *)

Fixpoint build_routes (cfgs : list ProxyConfig) : result routeError (list proxyRoute) :=
  match cfgs with
  | [] => Ok []
  | c :: cfgs =>
      let c := mkProxyConfig (TrimSpace (Filter c)) (TrimSpace (ProxyURL c)) in
      if bool_decide (Filter c = EmptyString) then Err EmptyFilter
      else if bool_decide (ProxyURL c = EmptyString) then Err EmptyURL
      else match ClientFromURL (ProxyURL c) with
           | None => Err (InvalidURL (ProxyURL c))
           | Some client =>
               let? routes := build_routes cfgs in
               Ok (mkRoute c (BuildFilter (Filter c)) client :: routes)
           end
  end.

Definition SetProxies (cfgs : list ProxyConfig) (url : string) (n : routeNetwork) : result routeError unit * routeNetwork :=
  match build_routes cfgs with
  | Err e => (Err e, n)
  | Ok rs =>
      let url := TrimSpace url in
      if bool_decide (url = EmptyString)
      then (Ok tt, mkRouteNetwork rs url None (dns n) (noResolveZones n) (resolver n))
      else match ClientFromURL url with
           | None => (Err (InvalidURL url), n)
           | Some client => (Ok tt, mkRouteNetwork rs url (Some client) (dns n) (noResolveZones n) (resolver n))
           end
  end.

Definition SetDNS (c : DNSConfig) (n : routeNetwork) : routeNetwork :=
  let c := mkDNSConfig (TrimSpace (FallbackServer c)) (normalizeNoResolveZones (NoResolveZones c)) in
  let r := mkResolver (if bool_decide (FallbackServer c = EmptyString) then None else Some (FallbackServer c)) in
  mkRouteNetwork (routes n) (defaultProxyURL n) (defaultProxy n) c (defaultNoResolveZones ++ NoResolveZones c) (Some r).

Definition newRouteNetwork (cfgs : list ProxyConfig) (url : string) (d : DNSConfig) : result routeError routeNetwork :=
  match SetProxies cfgs url (mkRouteNetwork [] EmptyString None (mkDNSConfig EmptyString []) [] None) with
  | (Err e, _) => Err e
  | (Ok _, n) => Ok (SetDNS d n)
  end.

Definition Proxies (n : routeNetwork) : list ProxyConfig := map cfg (routes n).
Definition DefaultProxyURL (n : routeNetwork) : string := defaultProxyURL n.
Definition DNS (n : routeNetwork) : DNSConfig := dns n.

(** ** Addresses *)

Definition splitAddress (address : string) : option (string * string) :=
  match SplitHostPort address with
  | Some (host, port) => Some (Trim host "[]", port)
  | None =>
      if (1 <? CountByte address ":")%nat then
        match ParseAddr (Trim address "[]") with
        | Some addr => Some (Addr_String addr, EmptyString)
        | None => None
        end
      else Some (Trim address "[]", EmptyString)
  end.

Definition isIPLiteral (host : string) : bool :=
  match ParseAddr (Trim host "[]") with Some _ => true | None => false end.

(** [Prefix.Contains] for 200::/7: false for IPv4 and with a zone. *)
Definition in_200_7 (a : netip_Addr) : bool :=
  let '(bs, zone) := a in
  bool_decide (zone = EmptyString) && bool_decide (length bs = 16%nat) && (Z.shiftr (bs !!! 0%nat) 1 =? 1).

Definition isYggdrasilAddress (address : string) : bool :=
  let host := match SplitHostPort address with Some (host, _) => host | None => address end in
  match ParseAddr (Trim host "[]") with
  | None => false
  | Some addr => in_200_7 addr
  end.

Definition preferFamily (network : string) : Z :=
  if bool_decide (FamilyFromNetwork network = "ip4"%string) then 4
  else if bool_decide (FamilyFromNetwork network = "ip6"%string) then 6 else 0.

Definition filterIPsByNetwork (ips : list IP) (network : string) : list IP :=
  let family := FamilyFromNetwork network in
  base.filter (fun ip =>
    match To4 ip with
    | Some _ => bool_decide (family = "ip"%string) || bool_decide (family = "ip4"%string)
    | None =>
        match To16 ip with
        | Some _ => bool_decide (family = "ip"%string) || bool_decide (family = "ip6"%string)
        | None => false
        end
    end = true) ips.

(** ** Choosing the network *)

Definition networkFor (network address : string) (n : routeNetwork) : Net :=
  match find (fun route => filter route network address) (routes n) with
  | Some route => Routing.network route
  | None =>
      match defaultProxy n with
      | Some proxy => if negb (isYggdrasilAddress address) then proxy else Direct
      | None => Direct
      end
  end.

(** ** Resolving *)

Definition shouldSkipResolve (host : string) (n : routeNetwork) : bool * string :=
  match find (in_zone (normalizeHost host)) (noResolveZones n) with
  | Some zone => (true, zone)
  | None => (false, EmptyString)
  end.

(** The address, and what the resolver was asked for. *)
Definition resolveAddress (network address : string) (n : routeNetwork) : string * list asked :=
  match splitAddress address with
  | None => (address, [])
  | Some (host, port) =>
      if bool_decide (host = EmptyString) then (address, [])
      else if isIPLiteral host then (address, [])
      else if (shouldSkipResolve host n).1 then (address, [])
      else match resolver n with
           | None => (address, [])
           | Some r =>
               match r_IP (route_ops r) (FamilyFromNetwork network) host with
               | None | Some [] => (address, [AskRoute host])
               | Some ips =>
                   let ip := PickIP ips (preferFamily network) in
                   if bool_decide (ip = []) then (address, [AskRoute host])
                   else if bool_decide (port = EmptyString) then (IP_String ip, [AskRoute host])
                   else (JoinHostPort (IP_String ip) port, [AskRoute host])
               end
           end
  end.

(** Every operation resolves its address, [address] of dials and listens,
    [raddr] of DialTCP and DialUDP, chooses the network for the result, and
    calls it there. *)
Definition resolved (o : operation) (network address : string) (n : routeNetwork) : forwarded * list asked :=
  let '(address, asked) := resolveAddress network address n in
  (mkForwarded (networkFor network address n) o network address, asked).

Definition dialUnresolved (network address : string) (n : routeNetwork) : forwarded :=
  mkForwarded (networkFor network address n) OpDial network address.
Definition Dial (network address : string) (n : routeNetwork) : forwarded * list asked :=
  let '(address, asked) := resolveAddress network address n in (dialUnresolved network address n, asked).
Definition Listen := resolved OpListen.
Definition PacketDial := resolved OpPacketDial.
Definition ListenPacket := resolved OpListenPacket.
Definition DialTCP (network laddr raddr : string) := resolved (OpDialTCP laddr) network raddr.
Definition ListenTCP := resolved OpListenTCP.
Definition DialUDP (network laddr raddr : string) := resolved (OpDialUDP laddr) network raddr.
Definition ListenUDP := resolved OpListenUDP.
Definition ListenPacketConfig := resolved OpListenPacketConfig.
Definition ListenUDPConfig := resolved OpListenUDPConfig.
Definition ListenMulticastUDP := resolved OpListenMulticastUDP.

(** *** The network as a resolver *)

Definition direct_fallback {A} (name : string) (q : ResolverOps -> option A) : lookup A :=
  match direct_ops with
  | None => (None, [])                                     (* noSuchHost *)
  | Some d => (q d, [AskDirect name])
  end.

Definition then_direct {A} (name : string) (q : ResolverOps -> option A) (tried : list asked) : lookup A :=
  let '(x, asked) := direct_fallback name q in (x, tried ++ asked).

Definition lookupIPViaRouteResolver (network host : string) (n : routeNetwork) : lookup (list IP) :=
  match resolver n with
  | None => (None, [])
  | Some r =>
      (match r_IP (route_ops r) (FamilyFromNetwork network) host with
       | None => None
       | Some ips => match filterIPsByNetwork ips network with [] => None | ips => Some ips end
       end, [AskRoute host])
  end.

Definition LookupIP (network host : string) (n : routeNetwork) : lookup (list IP) :=
  let host := normalizeHost host in
  if bool_decide (host = EmptyString) then (None, [])
  else match ParseIP host with
       | Some ip => (match filterIPsByNetwork [ip] network with [] => None | ips => Some ips end, [])
       | None =>
           let direct := then_direct host (fun d => r_IP d network host) in
           if (shouldSkipResolve host n).1 then direct []
           else match lookupIPViaRouteResolver network host n with
                | (Some (ip :: ips), tried) => (Some (ip :: ips), tried)
                | (_, tried) => direct tried
                end
       end.

Definition LookupIPAddr (host : string) (n : routeNetwork) : lookup (list IP) := LookupIP "ip" host n.

(** netip.AddrFromSlice and Unmap *)
Definition AddrFromSlice (ip : IP) : option netip_Addr :=
  if (length ip =? 4)%nat || (length ip =? 16)%nat then Some (ip, EmptyString) else None.
Definition Unmap (a : netip_Addr) : netip_Addr :=
  if (length a.1 =? 16)%nat && bool_decide (take 12 a.1 = v4InV6Prefix) then (drop 12 a.1, EmptyString) else a.

Definition LookupNetIP (network host : string) (n : routeNetwork) : lookup (list netip_Addr) :=
  let '(ips, asked) := LookupIP network host n in
  (match ips with
   | None => None
   | Some ips => match map Unmap (omap AddrFromSlice ips) with [] => None | out => Some out end
   end, asked).

Definition LookupHost (host : string) (n : routeNetwork) : lookup (list string) :=
  let '(ips, asked) := LookupIP "ip" host n in
  (match ips with None => None | Some ips => Some (map IP_String ips) end, asked).

(** The other lookups: the answer of the route resolver when the name is not
    protected and the answer is not empty, otherwise the direct network's. *)
Definition via_route {A} (non_empty : A -> bool) (name : string) (q : ResolverOps -> option A) (n : routeNetwork) : lookup A :=
  match resolver n with
  | None => then_direct name q []
  | Some r =>
      match q (route_ops r) with
      | Some x => if non_empty x then (Some x, [AskRoute name]) else then_direct name q [AskRoute name]
      | None => then_direct name q [AskRoute name]
      end
  end.
Definition unless_protected {A} (non_empty : A -> bool) (name : string) (q : ResolverOps -> option A) (n : routeNetwork) : lookup A :=
  if (shouldSkipResolve name n).1 then then_direct name q [] else via_route non_empty name q n.

Definition some_items {A} (l : list A) : bool := match l with [] => false | _ => true end.

Definition LookupAddr (addr : string) : routeNetwork -> lookup (list string) :=
  via_route some_items addr (fun d => r_Addr d addr).
Definition LookupCNAME (host : string) : routeNetwork -> lookup string :=
  unless_protected (fun cname => negb (bool_decide (cname = EmptyString))) host (fun d => r_CNAME d host).
Definition LookupNS (name : string) : routeNetwork -> lookup (list string) :=
  unless_protected some_items name (fun d => r_NS d name).
Definition LookupMX (name : string) : routeNetwork -> lookup (list string) :=
  unless_protected some_items name (fun d => r_MX d name).
Definition LookupSRV (service proto name : string) : routeNetwork -> lookup (string * list string) :=
  unless_protected (fun r => some_items r.2) name (fun d => r_SRV d service proto name).
Definition LookupTXT (name : string) : routeNetwork -> lookup (list string) :=
  unless_protected some_items name (fun d => r_TXT d name).

End Routing.

(** ** TLS interception *)

Module Mitm.
Definition defaultTLSMITMHostnames : list string := ["*.ygg"; "*.meshname"; "*.meship"; "*.onion"; "*.i2p"]%string.

Record cert := mkCert { CommonName : string; NotBefore : Z; NotAfter : Z }.
Record tlsMITM := mkTlsMITM { hosts : list string; certByCN : gmap string cert }.

Definition Minute : Z := 60.
Definition Hour : Z := 3600.

Definition normalizeStringSlice (values : list string) : list string :=
  base.filter (fun v => v <> EmptyString) (map TrimSpace values).

(** The host names; the files and certificates are the caller's. *)
Definition tlsMITM_for (hostnames : list string) : tlsMITM :=
  mkTlsMITM (match normalizeStringSlice hostnames with [] => defaultTLSMITMHostnames | l => l end) ∅.

Definition matchHostnamePattern (host pattern : string) : bool :=
  let host := TrimSuffix (normalizeHost host) "." in
  let pattern := TrimSuffix (normalizeHost pattern) "." in
  if bool_decide (host = EmptyString) || bool_decide (pattern = EmptyString) then false
  else if HasPrefix pattern "*." then
    let suffix := TrimPrefix pattern "*" in
    HasSuffix host suffix && negb (bool_decide (host = TrimPrefix suffix "."))
  else bool_decide (host = pattern).

(** The address of a CONNECT: its network, FQDN and port. *)
Definition shouldIntercept {X : Externals} (network fqdn : string) (port : Z) (m : tlsMITM) : bool :=
  if negb (HasPrefix network "tcp") || negb (port =? 443) then false
  else
    let host := normalizeHost fqdn in
    if bool_decide (host = EmptyString) || isIPLiteral host then false
    else existsb (matchHostnamePattern host) (hosts m).

(** The target of [dialPlaintext]. *)
Definition plaintext_target (host : string) : string := JoinHostPort host "80".

(** A certificate for the host at time [now], in seconds; creating one can
    fail. *)
Definition leafCert (now : Z) (created : bool) (host : string) (m : tlsMITM) : option cert * tlsMITM :=
  match certByCN m !! host with
  | Some c => (Some c, m)
  | None =>
      if negb created then (None, m)
      else
        let c := mkCert host (now - Minute) (now + 24 * Hour) in
        (Some c, mkTlsMITM (hosts m) (<[host := c]> (certByCN m)))
  end.
End Mitm.

(** ** Lemmas on strings *)

Lemma app_sep_inj {A} (a b a' b' : list A) x : a ++ x :: b = a' ++ x :: b' -> x ∉ b -> x ∉ b' -> a = a' /\ b = b'.
Proof.
  revert a'. induction a as [|y a IH]; intros [|y' a']; cbn; intros E H H'; simplify_eq; [done|set_solver|set_solver|].
  by destruct (IH a') as [-> ->].
Qed.

(** ** Host and port *)

Definition no_brackets (s : string) : Prop := ("["%char ∉ to_chars s) /\ ("]"%char ∉ to_chars s).
(** A port as it comes out of an address. *)
Definition wf_port (s : string) : Prop := no_brackets s /\ (":"%char ∉ to_chars s).

(** The two shapes of an address. *)
Definition plain (host port : chars) : chars := host ++ ":"%char :: port.
Definition bracketed (host port : chars) : chars := "["%char :: (host ++ "]"%char :: plain [] port).

(** The text around the last colon of an address in brackets. *)
Lemma split_bracketed l before p host port :
  l = plain before p -> (":"%char ∉ p) -> head l = Some "["%char ->
  (exists bracket_host rest, cut_chars l "]"%char = Some (bracket_host, rest) /\ (length bracket_host + 1 = length before)%nat /\
     ("["%char ∉ tail l) /\ ("]"%char ∉ rest) /\ tail bracket_host = host /\ p = port) <->
  ((("["%char ∉ host) /\ ("]"%char ∉ host)) /\ ((("["%char ∉ port) /\ ("]"%char ∉ port)) /\ (":"%char ∉ port)) /\
   l = bracketed host port).
Proof.
  intros -> Hp Hhead. unfold bracketed, plain in *. split.
  - intros (bh & rest & Hcut & Hlen & Htail & Hrest & <- & <-). apply cut_chars_Some in Hcut as [E Hbh].
    assert (before = bh ++ ["]"%char] /\ ":"%char :: p = rest) as [-> <-].
    { replace (bh ++ ("]"%char :: rest)) with ((bh ++ ["]"%char]) ++ rest) in E by by rewrite <-app_assoc.
      apply app_inj_1; [|done]. rewrite length_app. cbn. lia. }
    destruct bh as [|c bh]; [by cbn in Hhead; simplify_eq|]. cbn in Hhead, Htail. simplify_eq.
    rewrite <-app_assoc. cbn in *. set_solver.
  - intros ([H1 H2] & [[H3 H4] H5] & E).
    assert (before = ("["%char :: host) ++ ["]"%char] /\ p = port) as [-> ->].
    { apply (app_sep_inj _ _ _ _ ":"%char); [|done|done]. rewrite E. cbn. by rewrite <-app_assoc. }
    exists ("["%char :: host), (":"%char :: port). rewrite cut_chars_Some. cbn. rewrite <-app_assoc. cbn.
    split_and!; try done; [set_solver|rewrite length_app; cbn; lia|set_solver|set_solver].
Qed.

(** [SplitHostPort] accepts exactly "host:port" without a colon in the host
    and "[host]:port", without any further bracket or colon in the port. *)
Theorem SplitHostPort_spec hostport host port :
  SplitHostPort hostport = Some (host, port) <->
  no_brackets host /\ wf_port port /\
  (to_chars hostport = bracketed (to_chars host) (to_chars port) \/
   ((":"%char ∉ to_chars host) /\ to_chars hostport = plain (to_chars host) (to_chars port))).
Proof.
  unfold SplitHostPort, wf_port, no_brackets, bracketed.
  destruct (cut_last _ _) as [[before p]|] eqn:Ec; cycle 1.
  { apply cut_last_None in Ec. split; [done|]. intros (_ & _ & [E|[_ E]]); rewrite E in Ec; set_solver. }
  apply cut_last_Some in Ec as [El Hp]. case_bool_decide as Hhead.
  - trans (exists bracket_host rest, cut_chars (to_chars hostport) "]"%char = Some (bracket_host, rest) /\ (length bracket_host + 1 = length before)%nat /\
     ("["%char ∉ tail (to_chars hostport)) /\ ("]"%char ∉ rest) /\ tail bracket_host = to_chars host /\ p = to_chars port).
    + destruct (cut_chars _ _) as [[bh rest]|]; [|naive_solver].
      split_matches; bool_props; try naive_solver lia.
      split; [intros [= <- <-]; exists bh, rest; rewrite !to_of_chars; naive_solver lia|].
      intros (? & ? & [= <- <-] & _ & _ & _ & -> & ->). by rewrite !of_to_chars.
    + rewrite split_bracketed by done. split; [naive_solver|].
      intros (Hh & Hport & [E|[_ E]]); [done|]. rewrite E in Hhead. destruct (to_chars host); cbn in Hhead; set_solver.
  - split.
    + split_matches; bool_props; [done..|]. intros [= <- <-]. rewrite !to_of_chars. rewrite El in *. set_solver.
    + intros (Hh & Hport & [E|[Hc E]]); [by rewrite E in Hhead|].
      assert (before = to_chars host /\ p = to_chars port) as [-> ->].
      { apply (app_sep_inj _ _ _ _ ":"%char); [|done|naive_solver]. by rewrite <-El. }
      rewrite !bool_decide_false; [by rewrite !of_to_chars| | |done]; rewrite E; set_solver.
Qed.

Lemma SplitHostPort_JoinHostPort host port :
  no_brackets host -> wf_port port -> SplitHostPort (JoinHostPort host port) = Some (host, port).
Proof.
  intros Hh Hp. apply SplitHostPort_spec. split_and!; [done..|]. unfold JoinHostPort, ContainsByte.
  case_bool_decide as Hc; rewrite !to_chars_app; [by left|right]. by split.
Qed.

(** ** Host names and zones *)

Lemma drop_while_app {A} (p : A -> bool) l c k : p c = false -> drop_while p (l ++ c :: k) = drop_while p l ++ c :: k.
Proof. intros Hc. induction l as [|x l IH]; cbn; [by rewrite Hc|]. by destruct (p x). Qed.

(** Trimming keeps an end that starts and ends with a byte outside of the cut
    set. *)
Lemma trim_by_app {A} (p : A -> bool) l c k d : p c = false -> p d = false -> 
  exists l', trim_by p (l ++ c :: k ++ [d]) = l' ++ c :: k ++ [d].
Proof.
  intros Hc Hd. unfold trim_by. rewrite drop_while_app by done. exists (drop_while p l).
  rewrite rev_app_distr. cbn. rewrite rev_app_distr. cbn. rewrite Hd. cbn.
  rewrite !rev_app_distr, !rev_involutive. cbn. by rewrite <-!app_assoc.
Qed.

(** A zone that trimming and lower-casing leave alone, after its dot. *)
Definition bracket (c : ascii) : bool := bool_decide (c ∈ to_chars "[]").
Definition clean_byte (c : ascii) : bool :=
  negb (is_space c) && negb (bracket c) && bool_decide (lower_ascii c = c).
Definition wf_zone (zone : string) : bool :=
  match to_chars zone with
  | "."%char :: v => forallb clean_byte v &&
      match rev v with [] => false | d :: _ => negb (bool_decide (d = "."%char)) end
  | _ => false
  end.

Lemma default_zones_wf : forallb wf_zone defaultNoResolveZones = true.
Proof. reflexivity. Qed.

Lemma wf_zone_shape zone : wf_zone zone = true ->
  exists k d, to_chars zone = "."%char :: k ++ [d] /\ forallb clean_byte (k ++ [d]) = true /\ d <> "."%char.
Proof.
  unfold wf_zone. destruct (to_chars zone) as [|c v]; [done|].
  destruct (decide (c = "."%char)) as [->|Hc]; cycle 1.
  { destruct c as [[] [] [] [] [] [] [] []]; done. }
  destruct (rev v) as [|d k] eqn:E; [by rewrite andb_false_r|]. intros H. bool_props.
  exists (rev k), d. assert (v = rev k ++ [d]) as <- by (by rewrite <-(rev_involutive v), E). naive_solver.
Qed.

Lemma clean_byte_spec c : clean_byte c = true -> is_space c = false /\ bracket c = false /\ lower_ascii c = c.
Proof. unfold clean_byte. intros H. by bool_props. Qed.

Lemma normalizeHost_chars host :
  to_chars (normalizeHost host) =
  let l := trim_by bracket (map lower_ascii (trim_by is_space (to_chars host))) in
  match prefix_of ["."%char] (rev l) with Some r => rev r | None => l end.
Proof.
  unfold normalizeHost, TrimSuffix, Trim, ToLower, TrimSpace. cbn zeta. rewrite !to_of_chars.
  change (rev (to_chars ".")) with ["."%char]. destruct (prefix_of _ _); by rewrite ?to_of_chars.
Qed.

(** Normalising a name keeps an end that is a zone. *)
Lemma normalizeHost_suffix host zone r : wf_zone zone = true ->
  to_chars host = r ++ to_chars zone -> exists r', to_chars (normalizeHost host) = r' ++ to_chars zone.
Proof.
  intros (k & d & Ez & Hclean & Hd)%wf_zone_shape Eh. rewrite normalizeHost_chars, Eh, Ez.
  rewrite forallb_app in Hclean. cbn in Hclean. rewrite andb_true_r in Hclean. apply andb_true_iff in Hclean as [Hk Hdc].
  apply clean_byte_spec in Hdc as (D1 & D2 & D3).
  destruct (trim_by_app is_space r "."%char k d eq_refl D1) as [r1 ->].
  rewrite map_app. cbn [map]. rewrite map_app. cbn [map]. rewrite D3.
  assert (map lower_ascii k = k) as ->.
  { clear -Hk. induction k as [|c k IH]; [done|]. cbn in *. apply andb_true_iff in Hk as [Hc Hk].
    apply clean_byte_spec in Hc as (_ & _ & ->). by rewrite IH. }
  destruct (trim_by_app bracket (map lower_ascii r1) "."%char k d eq_refl D2) as [r2 E2].
  change (lower_ascii ".") with "."%char. rewrite E2. cbn zeta. exists r2.
  replace (rev (r2 ++ "."%char :: k ++ [d])) with (d :: rev (r2 ++ "."%char :: k)).
  - cbn. by rewrite decide_False by congruence.
  - change ("."%char :: k ++ [d]) with (("."%char :: k) ++ [d]). by rewrite (app_assoc r2), (rev_app_distr (r2 ++ _) [d]).
Qed.

(** Nor does it change the zone's own name. *)
Lemma drop_while_clean {A} (p : A -> bool) l : forallb (fun c => negb (p c)) l = true -> drop_while p l = l.
Proof. destruct l as [|c l]; [done|]. cbn. by destruct (p c). Qed.
Lemma trim_by_clean {A} (p : A -> bool) l : forallb (fun c => negb (p c)) l = true -> trim_by p l = l.
Proof.
  intros H. unfold trim_by. rewrite (drop_while_clean p l) by done. rewrite drop_while_clean; [apply rev_involutive|].
  rewrite forallb_forall in *. intros x Hx. apply H. by apply in_rev.
Qed.

Lemma normalizeHost_apex host zone : wf_zone zone = true ->
  host = TrimPrefix zone "." -> normalizeHost host = host.
Proof.
  intros (k & d & Ez & Hclean & Hd)%wf_zone_shape Eh. apply to_chars_inj.
  assert (to_chars host = k ++ [d]) as E by (subst host; unfold TrimPrefix; rewrite Ez; cbn; apply to_of_chars).
  assert (Hall : forall f, (forall c, clean_byte c = true -> f c = true) -> forallb f (k ++ [d]) = true).
  { intros f Hf. rewrite forallb_forall in *. auto. }
  rewrite normalizeHost_chars, E.
  rewrite (trim_by_clean is_space) by (apply Hall; intros c (-> & _)%clean_byte_spec; done).
  assert (map lower_ascii (k ++ [d]) = k ++ [d]) as ->.
  { rewrite <-(map_id (k ++ [d])) at 2. apply map_ext_in. intros c Hc. rewrite forallb_forall in Hclean.
    by apply Hclean, clean_byte_spec in Hc as (_ & _ & ->). }
  rewrite (trim_by_clean bracket) by (apply Hall; intros c (_ & -> & _)%clean_byte_spec; done).
  cbn zeta. rewrite rev_app_distr. cbn. by rewrite decide_False by congruence.
Qed.

Lemma in_zone_spec host zone :
  in_zone host zone = true <-> host = TrimPrefix zone "." \/ exists r, to_chars host = r ++ to_chars zone.
Proof. unfold in_zone. rewrite orb_true_iff, bool_decide_eq_true, HasSuffix_spec. done. Qed.

Lemma in_zone_normalize host zone : wf_zone zone = true -> in_zone host zone = true -> in_zone (normalizeHost host) zone = true.
Proof.
  intros Hz. rewrite !in_zone_spec. intros [E|[r E]].
  - left. by rewrite (normalizeHost_apex host zone).
  - right. by eapply normalizeHost_suffix.
Qed.

(** ** The network *)

Section Network.
Context {X : Externals}.

(** The networks of a tunnel: created, and configured any number of times. *)
Inductive reach : routeNetwork -> Prop :=
| reach_new cfgs url d n : newRouteNetwork cfgs url d = Ok n -> reach n
| reach_proxies n cfgs url : reach n -> reach (SetProxies cfgs url n).2
| reach_dns n d : reach n -> reach (SetDNS d n).

Lemma build_routes_spec cfgs rs : build_routes cfgs = Ok rs ->
  map cfg rs = map (fun c => mkProxyConfig (TrimSpace (Filter c)) (TrimSpace (ProxyURL c))) cfgs /\
  build_routes (map cfg rs) = Ok rs.
Proof.
  revert rs. induction cfgs as [|c cfgs IH]; intros rs; cbn; [by intros [= <-]|].
  unfold rbind. case_bool_decide as H1; [done|]. case_bool_decide as H2; [done|].
  destruct (ClientFromURL _) as [client|] eqn:Ec; [|done]. destruct (build_routes cfgs) as [rs'|]; [|done].
  intros [= <-]. destruct (IH _ eq_refl) as [I1 I2].
  cbn [map cfg build_routes Filter ProxyURL].
  rewrite !TrimSpace_idem, !bool_decide_false, Ec, I2 by done. by rewrite I1.
Qed.

Lemma SetProxies_dns cfgs url n : 
  let n' := (SetProxies cfgs url n).2 in
  dns n' = dns n /\ noResolveZones n' = noResolveZones n /\ resolver n' = resolver n.
Proof. unfold SetProxies. by split_matches. Qed.

(** The zones are always the default ones and the configured ones. *)
Lemma reach_zones n : reach n -> noResolveZones n = defaultNoResolveZones ++ NoResolveZones (dns n).
Proof.
  induction 1 as [cfgs url d n E|n cfgs url _ IH|n d _ IH]; [|by destruct (SetProxies_dns cfgs url n) as (-> & -> & _)|done].
  unfold newRouteNetwork in E. split_matches. done.
Qed.

Lemma shouldSkipResolve_spec host n :
  (shouldSkipResolve host n).1 = true <-> exists zone, zone ∈ noResolveZones n /\ in_zone (normalizeHost host) zone = true.
Proof.
  unfold shouldSkipResolve. destruct (find _ _) as [z|] eqn:E.
  - apply find_some in E as [H1 H2]. split; [intros _; exists z; by rewrite list_elem_of_In|done].
  - split; [done|]. intros (z & H1 & H2). rewrite list_elem_of_In in H1. by rewrite (find_none _ _ E z H1) in H2.
Qed.

Definition asks_no_route {A} (r : A * list asked) : Prop := forall name, AskRoute name ∉ r.2.

Lemma then_direct_local {A} name (q : ResolverOps -> option A) : asks_no_route (then_direct name q []).
Proof. unfold then_direct, direct_fallback, asks_no_route. destruct direct_ops; set_solver. Qed.

Lemma unless_protected_local {A} ne name (q : ResolverOps -> option A) n :
  (shouldSkipResolve name n).1 = true -> asks_no_route (unless_protected ne name q n).
Proof. unfold unless_protected. intros ->. apply then_direct_local. Qed.

Lemma LookupIP_local network host n :
  (shouldSkipResolve (normalizeHost host) n).1 = true -> asks_no_route (LookupIP network host n).
Proof.
  unfold LookupIP. intros ->. case_bool_decide; [unfold asks_no_route; set_solver|].
  destruct (ParseIP _); [unfold asks_no_route; set_solver|]. apply then_direct_local.
Qed.


(** ** Configuration *)

(** [SetProxies] is atomic and its effect can be read back: a failure leaves
    the network as it was; a success stores the trimmed routes in their order,
    keeps the DNS configuration, and storing what [Proxies] and
    [DefaultProxyURL] return once more changes nothing. *)
Theorem SetProxies_spec cfgs url n :
  let '(r, n') := SetProxies cfgs url n in
  match r with
  | Err e => n' = n
  | Ok _ =>
      Proxies n' = map (fun c => mkProxyConfig (TrimSpace (Filter c)) (TrimSpace (ProxyURL c))) cfgs /\
      DefaultProxyURL n' = TrimSpace url /\ DNS n' = DNS n /\ resolver n' = resolver n /\
      (defaultProxy n' = None <-> TrimSpace url = EmptyString) /\
      SetProxies (Proxies n') (DefaultProxyURL n') n' = (Ok tt, n')
  end.
Proof.
  unfold SetProxies. destruct (build_routes cfgs) as [rs|e] eqn:E; [|done].
  destruct (build_routes_spec _ _ E) as [E1 E2].
  case_bool_decide as Hu; [|destruct (ClientFromURL (TrimSpace url)) as [client|] eqn:Ec; [|done]];
    unfold Proxies, DefaultProxyURL, DNS; cbn [routes defaultProxyURL defaultProxy dns resolver noResolveZones]; rewrite E2, TrimSpace_idem.
  - rewrite bool_decide_true by done. by split_and!.
  - rewrite bool_decide_false, Ec by done. by split_and!.
Qed.

(** ** Choice of the network *)

Lemma find_first {A} (p : A -> bool) l x : find p l = Some x ->
  exists pre post, l = pre ++ x :: post /\ p x = true /\ Forall (fun y => p y = false) pre.
Proof.
  induction l as [|y l IH]; cbn; [done|]. destruct (p y) eqn:E.
  - intros [= ->]. by exists [], l.
  - intros (pre & post & -> & Hx & Hpre)%IH. exists (y :: pre), post. split_and!; [done..|]. by constructor.
Qed.

(** The first route that matches; failing that the default proxy, which the
    own network is not sent to; failing that the direct network. *)
Definition no_route (n : routeNetwork) (network address : string) : Prop :=
  Forall (fun r => filter r network address = false) (routes n).

Lemma networkFor_no_route network address n : no_route n network address ->
  networkFor network address n =
  match defaultProxy n with Some proxy => if isYggdrasilAddress address then Direct else proxy | None => Direct end.
Proof.
  unfold networkFor, no_route. intros H. destruct (find _ _) as [r|] eqn:E.
  - apply find_some in E as [E1 E2]. rewrite Forall_forall in H. rewrite <-list_elem_of_In in E1.
    by rewrite (H _ E1) in E2.
  - by destruct (defaultProxy n), (isYggdrasilAddress address).
Qed.

(** The printed form of an address has no brackets and parses back. *)
Definition wf_IP (ip : IP) : Prop := wf_bytes ip /\ (length ip = 4%nat \/ length ip = 16%nat).
Class AddressLaws : Prop := {
  IP_String_plain ip : wf_IP ip -> no_brackets (IP_String ip) /\ IP_String ip <> EmptyString;
  ParseAddr_IP_String ip : wf_IP ip -> ParseAddr (IP_String ip) = Some (Unmap (ip, EmptyString))
}.

Lemma Trim_no_brackets s : no_brackets s -> Trim s "[]" = s.
Proof.
  intros [H1 H2]. unfold Trim. rewrite trim_by_clean; [apply of_to_chars|].
  apply forallb_forall. intros c Hc%list_elem_of_In. apply negb_true_iff, bool_decide_eq_false. cbn.
  set_solver.
Qed.

(** The host of an address resolves to an IP address. *)
Definition resolves (n : routeNetwork) (network host : string) (ip : IP) : Prop :=
  exists r ips, resolver n = Some r /\ r_IP (route_ops r) (FamilyFromNetwork network) host = Some ips /\
    ips <> [] /\ ip = PickIP ips (preferFamily network) /\ wf_IP ip.

Lemma resolveAddress_resolves network address n host port ip :
  splitAddress address = Some (host, port) -> host <> EmptyString -> isIPLiteral host = false ->
  (shouldSkipResolve host n).1 = false -> resolves n network host ip ->
  resolveAddress network address n =
    (if bool_decide (port = EmptyString) then IP_String ip else JoinHostPort (IP_String ip) port, [AskRoute host]).
Proof.
  intros E Hh Hl Hs (r & ips & Er & Ei & Hips & -> & Hwf). unfold resolveAddress.
  rewrite E, Hl, Hs, Er, Ei, bool_decide_false by done. destruct ips as [|i ips]; [done|].
  cbv beta match zeta. case_bool_decide as E0; [rewrite E0 in Hwf; by destruct Hwf as [_ []]|]. by case_bool_decide.
Qed.

Lemma splitAddress_port address host port : splitAddress address = Some (host, port) -> wf_port port.
Proof.
  unfold splitAddress. destruct (SplitHostPort address) as [[h p]|] eqn:E.
  - intros [= <- <-]. by apply SplitHostPort_spec in E as (_ & ? & _).
  - intros H. assert (port = EmptyString) as -> by (by split_matches).
    unfold wf_port, no_brackets. cbn. set_solver.
Qed.

Lemma rewritten_is_literal `{AddressLaws} ip port : wf_IP ip -> wf_port port ->
  let a := if bool_decide (port = EmptyString) then IP_String ip else JoinHostPort (IP_String ip) port in
  (port <> EmptyString -> SplitHostPort a = Some (IP_String ip, port) /\ splitAddress a = Some (IP_String ip, port)) /\
  isIPLiteral (IP_String ip) = true.
Proof.
  intros Hip Hport. destruct (IP_String_plain ip Hip) as [Hb He].
  assert (Hl : isIPLiteral (IP_String ip) = true) by (unfold isIPLiteral; by rewrite Trim_no_brackets, ParseAddr_IP_String).
  split; [|done]. intros Hp. rewrite bool_decide_false by done. unfold splitAddress.
  by rewrite SplitHostPort_JoinHostPort, Trim_no_brackets.
Qed.

(** C19: a destination in 200::/7 that was given by name and port is never handed
    to the default proxy: the name is asked for once, and every operation goes,
    for the resolved address and the port that was asked for, to the proxy of
    the first filter that matches this address, and to the direct network when
    none does, whether there is a default proxy or not. *)
Theorem own_network_stays_direct `{AddressLaws} o network address n host port ip :
  splitAddress address = Some (host, port) -> host <> EmptyString -> port <> EmptyString ->
  isIPLiteral host = false -> (shouldSkipResolve host n).1 = false -> resolves n network host ip ->
  in_200_7 (Unmap (ip, EmptyString)) = true ->
  let address' := JoinHostPort (IP_String ip) port in
  let net := match find (fun route => filter route network address') (routes n) with
             | Some route => Routing.network route
             | None => Direct
             end in
  resolved o network address n = (mkForwarded net o network address', [AskRoute host]).
Proof.
  intros E Hh Hp Hl Hs Hr Hown address' net. pose proof Hr as (_ & _ & _ & _ & _ & _ & Hwf).
  unfold resolved. rewrite (resolveAddress_resolves _ _ _ host port ip) by done.
  destruct (rewritten_is_literal ip port Hwf (splitAddress_port _ _ _ E)) as [Hsplit _].
  destruct (Hsplit Hp) as [Hsplit' _]. rewrite bool_decide_false in * by done. fold address' in Hsplit' |- *.
  do 2 f_equal. unfold networkFor, net. destruct (find _ (routes n)); [done|]. destruct (defaultProxy n); [|done].
  unfold isYggdrasilAddress. destruct (IP_String_plain ip Hwf) as [Hb _].
  by rewrite Hsplit', Trim_no_brackets, ParseAddr_IP_String, Hown.
Qed.

(** Resolving is idempotent: an address that was rewritten holds an IP literal
    and the port of the original, and dialling it again asks nobody and leaves
    it alone, as the resolver's own [dialUnresolved] relies on. *)
Theorem resolved_once `{AddressLaws} network address n host port ip :
  splitAddress address = Some (host, port) -> host <> EmptyString -> port <> EmptyString ->
  isIPLiteral host = false -> (shouldSkipResolve host n).1 = false -> resolves n network host ip ->
  exists address', resolveAddress network address n = (address', [AskRoute host]) /\
    SplitHostPort address' = Some (IP_String ip, port) /\
    resolveAddress network address' n = (address', []) /\
    (Dial network address' n).1 = dialUnresolved network address' n.
Proof.
  intros E Hh Hp Hl Hs Hr. pose proof Hr as (_ & _ & _ & _ & _ & _ & Hwf).
  destruct (rewritten_is_literal ip port Hwf (splitAddress_port _ _ _ E)) as [Hsplit Hlit].
  destruct (Hsplit Hp) as [H1 H2]. rewrite bool_decide_false in * by done.
  assert (resolveAddress network (JoinHostPort (IP_String ip) port) n = (JoinHostPort (IP_String ip) port, [])) as Hre.
  { unfold resolveAddress. rewrite H2, Hlit. by case_bool_decide. }
  exists (JoinHostPort (IP_String ip) port). split_and!; [|done|done|by unfold Dial; rewrite Hre].
  rewrite (resolveAddress_resolves _ _ _ host port ip) by done. by rewrite bool_decide_false.
Qed.

(** ** Names that the network itself looks up *)

(** What [LookupIP] returns.  An answer of the tunnel's resolver, or a literal, is
    of the family that was asked for and not empty; everything else is the
    answer of the direct network, which is the only one asked for protected
    names, and is asked last and for the normalised name. *)
Theorem LookupIP_spec network host n :
  let name := normalizeHost host in
  let '(r, asked) := LookupIP network host n in
  (forall ips, r = Some ips ->
     (ips <> [] /\ filterIPsByNetwork ips network = ips /\ asked ⊆ [AskRoute name]) \/
     (exists d, direct_ops = Some d /\ r_IP d network name = Some ips /\ asked = (if (shouldSkipResolve name n).1 then [] else match resolver n with Some _ => [AskRoute name] | None => [] end) ++ [AskDirect name])) /\
  asked ⊆ [AskRoute name; AskDirect name] /\ (name = EmptyString -> r = None /\ asked = []).
Proof.
  cbv zeta. unfold LookupIP. set (name := normalizeHost host).
  assert (Hidem : forall ips, filterIPsByNetwork (filterIPsByNetwork ips network) network = filterIPsByNetwork ips network).
  { intros ips. unfold filterIPsByNetwork. apply list_filter_filter_l. done. }
  case_bool_decide as Hn; [set_solver|]. destruct (ParseIP name) as [ip|] eqn:Ep.
  { destruct (filterIPsByNetwork [ip] network) as [|i ips] eqn:Ef; [set_solver|].
    split_and!; [|set_solver|done]. intros ips' [= <-]. left. rewrite <-Ef, Hidem, Ef. set_solver. }
  unfold then_direct, direct_fallback, lookupIPViaRouteResolver.
  destruct (shouldSkipResolve name n).1.
  { destruct direct_ops as [d|]; (split_and!; [|set_solver|done]); [|done]. intros ips E. right. by exists d. }
  destruct (resolver n) as [r|]; cycle 1.
  { destruct direct_ops as [d|]; (split_and!; [|set_solver|done]); [|done]. intros ips E. right. by exists d. }
  destruct (r_IP (route_ops r) (FamilyFromNetwork network) name) as [ips0|]; [destruct (filterIPsByNetwork ips0 network) as [|i ips] eqn:Ef|].
  2: { split_and!; [|set_solver|done]. intros ips' [= <-]. left. rewrite <-Ef, Hidem, Ef. set_solver. }
  all: destruct direct_ops as [d|]; (split_and!; [|set_solver|done]); [|done]; intros ips E; right; by exists d.
Qed.

End Network.

(** ** TLS interception *)

Lemma TrimPrefix_append p s : TrimPrefix (String.append p s) p = s.
Proof.
  unfold TrimPrefix. destruct (prefix_of _ _) as [r|] eqn:E.
  - apply prefix_of_Some in E. rewrite to_chars_app in E. apply app_inv_head in E. by rewrite <-E, of_to_chars.
  - assert (prefix_of (to_chars p) (to_chars (String.append p s)) = Some (to_chars s)); [|congruence].
    apply prefix_of_Some, to_chars_app.
Qed.

(** The patterns: "*.zone" is matched by the names below the zone, and not by
    the zone itself; any other pattern by that name only. *)
Theorem matchHostnamePattern_spec host pattern :
  let host' := TrimSuffix (normalizeHost host) "." in
  let pattern' := TrimSuffix (normalizeHost pattern) "." in
  Mitm.matchHostnamePattern host pattern = true <->
  host' <> EmptyString /\ pattern' <> EmptyString /\
  ((exists zone label, pattern' = String.append "*." zone /\ host' = String.append label (String.append "." zone)) \/
   (HasPrefix pattern' "*." = false /\ host' = pattern')).
Proof.
  cbv zeta. unfold Mitm.matchHostnamePattern. set (h := TrimSuffix (normalizeHost host) ".").
  set (p := TrimSuffix (normalizeHost pattern) ".").
  do 2 (case_bool_decide; [cbn; naive_solver|]). cbn [orb].
  destruct (HasPrefix p "*.") eqn:Ep; cycle 1.
  { rewrite bool_decide_eq_true. split; [naive_solver|]. intros (_ & _ & [(z & l & E & _)|[_ ?]]); [|done].
    assert (HasPrefix p "*." = true); [|congruence]. apply HasPrefix_spec. exists (to_chars z). by rewrite E, to_chars_app. }
  pose proof Ep as [z Ez]%HasPrefix_spec. rewrite <-(to_of_chars z) in Ez. set (zone := of_chars z) in *.
  assert (p = String.append "*." zone) as Epz by (apply to_chars_inj; by rewrite to_chars_app).
  assert (Hz : forall zone', p = String.append "*." zone' -> zone' = zone).
  { intros zone' E. apply (f_equal to_chars) in E. rewrite Epz, !to_chars_app in E. by apply app_inv_head, to_chars_inj in E. }
  assert (TrimPrefix p "*" = String.append "." zone) as ->.
  { rewrite Epz. exact (TrimPrefix_append "*" (String.append "." zone)). }
  rewrite (TrimPrefix_append "." zone).
  rewrite andb_true_iff, HasSuffix_spec, negb_true_iff, bool_decide_eq_false. split.
  - intros [[l El] _]. split_and!; [done..|]. left. exists zone, (of_chars l). split; [done|].
    apply to_chars_inj. by rewrite El, (to_chars_app (of_chars l)), to_of_chars.
  - intros (_ & _ & [(zone' & l & E & Eh)|[? _]]); [|congruence]. rewrite (Hz zone' E) in Eh. split.
    + exists (to_chars l). by rewrite Eh, to_chars_app.
    + intros E2. assert (length (to_chars h) = length (to_chars zone)) as El by by rewrite E2.
      rewrite Eh, !to_chars_app, !length_app in El. cbn in El. lia.
Qed.

(** ** Counterexamples *)

(** Counterexample: a leaf certificate is valid for a day, but is cached for as
    long as the tunnel runs and handed out after it has expired: two days later
    the certificate of the host is still the first one. *)
Theorem leafCert_serves_expired host hosts now :
  let m := Mitm.mkTlsMITM hosts ∅ in
  let '(c, m') := Mitm.leafCert now true host m in
  exists c, fst (Mitm.leafCert (now + 48 * Mitm.Hour) true host m') = Some c /\
    Mitm.NotAfter c < now + 48 * Mitm.Hour.
Proof.
  cbn. unfold Mitm.leafCert. cbn. rewrite lookup_empty. cbn. rewrite lookup_insert_eq. cbn.
  eexists. split; [done|]. cbn. unfold Mitm.Hour. lia.
Qed.

(** ** Witnesses

    Addresses are printed in hexadecimal; ".ygg" names are in the own network,
    and proxies are filtered by the port. *)

Module Sample.
Definition own_ip : IP := 2 :: replicate 14 0 ++ [7].
Definition parse (s : string) : option netip_Addr :=
  match hex_DecodeString s with
  | Some bs => if (length bs =? 4)%nat || (length bs =? 16)%nat then Some (Unmap (bs, EmptyString)) else None
  | None => None
  end.
Definition answers (host : string) : option (list IP) :=
  if HasSuffix host ".ygg" then Some [own_ip] else if HasSuffix host ".com" then Some [[1; 2; 3; 4]] else None.
Definition ops : ResolverOps :=
  mkOps (fun _ => answers) (fun _ => None) (fun _ => None) (fun _ => None) (fun _ => None) (fun _ _ _ => None) (fun _ => None).
#[local] Instance externals : Externals := {
  ClientFromURL u := if HasPrefix u "socks5://" then Some (Client (Z.of_nat (String.length u))) else None;
  BuildFilter f := fun _ address => HasSuffix address f;
  FamilyFromNetwork network := if HasSuffix network "4" then "ip4"%string else if HasSuffix network "6" then "ip6"%string else "ip"%string;
  PickIP ips _ := match ips with [] => [] | ip :: _ => ip end;
  ParseAddr := parse;
  ParseIP s := match parse s with Some (bs, _) => Some bs | None => None end;
  Addr_String a := hex_EncodeToString a.1;
  IP_String := hex_EncodeToString;
  route_ops _ := ops;
  direct_ops := Some ops
}.

Lemma hex_no_brackets bs : wf_bytes bs -> no_brackets (hex_EncodeToString bs).
Proof.
  unfold no_brackets, hex_EncodeToString. rewrite to_of_chars. induction 1 as [|b bs Hb Hbs IH]; [cbn; set_solver|].
  assert (H : forallb (fun c => negb (bracket c)) [hex_char (Z.shiftr b 4); hex_char (Z.land b 15)] = true).
  { revert b Hb. apply byte_forall. vm_compute. reflexivity. }
  unfold bracket in H. cbn -[hex_char Z.shiftr Z.land] in *. bool_props. set_solver.
Qed.

#[local] Instance laws : AddressLaws.
Proof.
  split; intros ip [Hb Hl].
  - split; [by apply hex_no_brackets|]. intros E. assert (length (to_chars (hex_EncodeToString ip)) = 0%nat) as E2 by (change (IP_String ip) with (hex_EncodeToString ip) in E; by rewrite E).
    unfold hex_EncodeToString in E2. rewrite to_of_chars in E2. by destruct ip as [|b ip]; [destruct Hl|].
  - cbn. unfold parse. rewrite hex_roundtrip by done. by destruct Hl as [-> | ->].
Qed.

Definition network : routeNetwork :=
  match newRouteNetwork [mkProxyConfig " :8080" "socks5://a:1"] "socks5://default:2" (mkDNSConfig "200::53" [" *.Corp. "]) with
  | Ok n => n
  | Err _ => mkRouteNetwork [] EmptyString None (mkDNSConfig EmptyString []) [] None
  end.
Lemma network_reach : reach network.
Proof.
  apply (reach_new [mkProxyConfig " :8080" "socks5://a:1"] "socks5://default:2" (mkDNSConfig "200::53" [" *.Corp. "]%string)).
  reflexivity.
Qed.
Lemma own_resolves : resolves network "tcp" "a.ygg" own_ip.
Proof.
  exists (mkResolver (Some "200::53"%string)), [own_ip]. split_and!; try reflexivity; [done|].
  split; [|by right]. repeat constructor; cbn; lia.
Qed.
End Sample.

Lemma own_network_stays_direct_witness :
  resolved (X := Sample.externals) OpDial "tcp" "a.ygg:80" Sample.network =
  (mkForwarded Direct OpDial "tcp" (JoinHostPort (hex_EncodeToString Sample.own_ip) "80"), [AskRoute "a.ygg"]).
Proof.
  apply (own_network_stays_direct (X := Sample.externals) (H := Sample.laws) OpDial "tcp" "a.ygg:80" Sample.network "a.ygg" "80" Sample.own_ip);
    try reflexivity; try discriminate. exact Sample.own_resolves.
Defined.

Lemma resolved_once_witness :
  exists address', resolveAddress (X := Sample.externals) "tcp" "a.ygg:80" Sample.network = (address', [AskRoute "a.ygg"]) /\
    SplitHostPort address' = Some (hex_EncodeToString Sample.own_ip, "80"%string) /\
    resolveAddress (X := Sample.externals) "tcp" address' Sample.network = (address', []) /\
    (Dial (X := Sample.externals) "tcp" address' Sample.network).1 = dialUnresolved (X := Sample.externals) "tcp" address' Sample.network.
Proof.
  apply (resolved_once (X := Sample.externals) (H := Sample.laws) "tcp" "a.ygg:80" Sample.network "a.ygg" "80" Sample.own_ip);
    try reflexivity; try discriminate. exact Sample.own_resolves.
Defined.


(** Counterexample: one dot of the zone "corp.." is left by its normalisation,
    and the second normalisation of the name takes it off the name only, so the
    lookup of an address asks the route resolver for a protected name. *)
Lemma double_dot_zone_asked :
  let n := SetDNS (mkDNSConfig "200::53" ["corp.."%string]) Sample.network in
  NoResolveZones (dns n) = [".corp."%string] /\ in_zone (normalizeHost "a.corp..") ".corp." = true /\
  (LookupIP (X := Sample.externals) "ip" "a.corp.." n).2 = [AskRoute "a.corp."; AskDirect "a.corp."]%string.
Proof. split_and!; vm_compute; reflexivity. Qed.
