(* ===== verification/Outproxy.v ===== *)
(** * Outproxy: the network of the outproxy (ygglib/outproxy/routing.go)

    The outproxy's [routeNetwork] has the same routes as the tunnel's, but it
    neither resolves names nor treats the own network apart, and its lookups are
    those of the direct network.  Its routes and their configuration are those
    of Routing, whose [SetProxies] it repeats word for word. *)

From S2P Require Import Prelude GoStd Routing.

Definition networkFor (network address : string) (n : routeNetwork) : Net :=
  match find (fun route => filter route network address) (routes n) with
  | Some route => Routing.network route
  | None => match defaultProxy n with Some proxy => proxy | None => Direct end
  end.
Definition forward (o : operation) (network address : string) (n : routeNetwork) : forwarded :=
  mkForwarded (networkFor network address n) o network address.
Definition Dial := forward OpDial.
Definition Listen := forward OpListen.
Definition PacketDial := forward OpPacketDial.
Definition ListenPacket := forward OpListenPacket.
Definition DialTCP (network laddr raddr : string) := forward (OpDialTCP laddr) network raddr.
Definition ListenTCP := forward OpListenTCP.
Definition DialUDP (network laddr raddr : string) := forward (OpDialUDP laddr) network raddr.
Definition ListenUDP := forward OpListenUDP.
Definition ListenPacketConfig := forward OpListenPacketConfig.
Definition ListenUDPConfig := forward OpListenUDPConfig.
Definition ListenMulticastUDP := forward OpListenMulticastUDP.

Section Lookups.
Context {X : Externals}.
Definition LookupIP (network host : string) : lookup (list IP) := direct_fallback host (fun d => r_IP d network host).
Definition LookupAddr (addr : string) : lookup (list string) := direct_fallback addr (fun d => r_Addr d addr).
Definition LookupCNAME (host : string) : lookup string := direct_fallback host (fun d => r_CNAME d host).
Definition LookupNS (name : string) : lookup (list string) := direct_fallback name (fun d => r_NS d name).
Definition LookupMX (name : string) : lookup (list string) := direct_fallback name (fun d => r_MX d name).
Definition LookupSRV (service proto name : string) : lookup (string * list string) :=
  direct_fallback name (fun d => r_SRV d service proto name).
Definition LookupTXT (name : string) : lookup (list string) := direct_fallback name (fun d => r_TXT d name).
(** The code of the tunnel, repeated. *)
Definition SetProxies : list ProxyConfig -> string -> routeNetwork -> result routeError unit * routeNetwork := Routing.SetProxies.
Definition Proxies : routeNetwork -> list ProxyConfig := Routing.Proxies.
Definition DefaultProxyURL : routeNetwork -> string := Routing.DefaultProxyURL.
(** The methods of a Tun that may be nil, or not started. *)
Definition Tun_SetProxies (cfgs : list ProxyConfig) (url : string) (t : option routeNetwork) : option (result routeError unit) * option routeNetwork :=
  match t with
  | None => (None, None)                                   (* net.ErrClosed *)
  | Some n => let '(r, n) := SetProxies cfgs url n in (Some r, Some n)
  end.
Definition Tun_Proxies (t : option routeNetwork) : list ProxyConfig := match t with None => [] | Some n => Proxies n end.
Definition Tun_DefaultProxyURL (t : option routeNetwork) : string := match t with None => EmptyString | Some n => DefaultProxyURL n end.

Definition newRouteNetwork (cfgs : list ProxyConfig) (url : string) : result routeError routeNetwork :=
  match SetProxies cfgs url (mkRouteNetwork [] EmptyString None (mkDNSConfig EmptyString []) [] None) with
  | (Err e, _) => Err e
  | (Ok _, n) => Ok n
  end.
End Lookups.

(** ** Comparison with the tunnel *)

Section Compare.
Context {X : Externals}.

(** The outproxy routes as the tunnel does, the exception for the own network
    apart: the choices differ exactly when no filter matches, there is a
    default proxy other than the direct network, and the destination is in
    200::/7. *)
Theorem outproxy_routes_alike network address n :
  networkFor network address n = Routing.networkFor network address n <->
  ~ (no_route n network address /\ isYggdrasilAddress address = true /\
     exists proxy, defaultProxy n = Some proxy /\ proxy <> Direct).
Proof.
  unfold networkFor.
  destruct (find _ _) as [r|] eqn:E.
  - unfold Routing.networkFor. rewrite E. split; [|done]. intros _ (H & _). apply find_some in E as [E1 E2].
    rewrite <-list_elem_of_In in E1. unfold no_route in H. rewrite Forall_forall in H. by rewrite (H _ E1) in E2.
  - assert (no_route n network address) as Hno.
    { apply Forall_forall. intros r Hr. rewrite list_elem_of_In in Hr. exact (find_none _ _ E r Hr). }
    rewrite (networkFor_no_route _ _ _ Hno). destruct (defaultProxy n) as [p|] eqn:Ed; [|naive_solver].
    destruct (isYggdrasilAddress address); [|naive_solver]. destruct (decide (p = Direct)) as [->|Hp]; naive_solver.
Qed.

(** An outproxy's lookups only ever ask the direct network, for the name as it
    was given; without a resolver there they all fail. *)
Lemma lookups_are_direct network name :
  (LookupIP network name).2 = match direct_ops with Some _ => [AskDirect name] | None => [] end.
Proof. unfold LookupIP, direct_fallback. by destruct direct_ops. Qed.

End Compare.
