(* ===== verification/Socks.v ===== *)
(** * Socks: the SOCKS servers of the tunnel and of the outproxy
    (ygglib/sockstun/sockstun.go, tls_mitm.go, ygglib/outproxy/outproxy.go)

    Both packages create a virtual TUN, a routing network and a listener, and
    run the same accept loop and the same [Close].  [Create] is a function of
    the outcomes of the calls that can fail; it records what it opens and
    closes.  The accept loop, the goroutine of every connection and [Close] are
    a transition system with the steps of the code between two accesses to
    shared state; a connection's SOCKS session ([server.Accept] of socksgo)
    ends whenever the environment says so. *)

From S2P Require Import Prelude GoStd Outproxy Routing.

(** ** Create *)

Module Create.
Inductive resource := VTun | Listener | AcceptLoop.
Global Instance resource_eq_dec : EqDecision resource.
Proof. solve_decision. Defined.
Inductive effect := Open (r : resource) | Shut (r : resource).
Inductive error := InvalidAddress | BuildVTun | InvalidProxies (e : routeError) | ListenFailed | InvalidMITM.

Record Config := mkConfig {
  Name : string; Listen : string; Address : IP; MTU : Z;
  Proxies : list ProxyConfig; DefaultProxyURL : string; DNS : DNSConfig;
  CAFile : string; KeyFile : string; Hostnames : list string
}.

(** The outcomes of the calls outside of the repository. *)
Record outcomes := mkOutcomes { vtun_built : bool; listening : bool; pair_loaded : bool }.

Definition with_defaults (name : string) (c : Config) : Config :=
  mkConfig (if bool_decide (Name c = EmptyString) then name else Name c)
    (if bool_decide (Listen c = EmptyString) then "127.0.0.1:1080"%string else Listen c)
    (Address c) (if MTU c =? 0 then 1500 else MTU c)
    (Proxies c) (DefaultProxyURL c) (DNS c) (CAFile c) (KeyFile c) (Hostnames c).

(** newTLSMITM; reading and parsing the two files is one outcome. *)
Definition newTLSMITM (c : Config) (loaded : bool) : result error (option Mitm.tlsMITM) :=
  let ca := TrimSpace (CAFile c) in
  let key := TrimSpace (KeyFile c) in
  if bool_decide (ca = EmptyString) && bool_decide (key = EmptyString) then Ok None
  else if bool_decide (ca = EmptyString) || bool_decide (key = EmptyString) then Err InvalidMITM
  else if negb loaded then Err InvalidMITM
  else Ok (Some (Mitm.tlsMITM_for (Hostnames c))).

(** A running server: its configuration, network and interception. *)
Record server := mkServer { config : Config; network : routeNetwork; mitm : option Mitm.tlsMITM }.

Section Create.
Context {X : Externals}.

(** sockstun.Create *)
Definition sockstun (c : Config) (o : outcomes) : result error server * list effect :=
  let c := with_defaults "sockstun" c in
  match AddrFromSlice (Address c) with
  | None => (Err InvalidAddress, [])
  | Some _ =>
      if negb (vtun_built o) then (Err BuildVTun, [])
      else match newRouteNetwork (Proxies c) (DefaultProxyURL c) (DNS c) with
      | Err e => (Err (InvalidProxies e), [Open VTun; Shut VTun])
      | Ok n =>
          if negb (listening o) then (Err ListenFailed, [Open VTun; Shut VTun])
          else match newTLSMITM c (pair_loaded o) with
          | Err e => (Err e, [Open VTun; Open Listener; Shut Listener; Shut VTun])
          | Ok m => (Ok (mkServer c n m), [Open VTun; Open Listener; Open AcceptLoop])
          end
      end
  end.

(** net.IP.IsLoopback and IsUnspecified *)
Definition IsLoopback (ip : IP) : bool :=
  match To4 ip with
  | Some ip4 => ip4 !!! 0%nat =? 127
  | None => bool_decide (ip = replicate 15 0 ++ [1])
  end.
Definition IsUnspecified (ip : IP) : bool :=
  match To4 ip with
  | Some ip4 => bool_decide (ip4 = [0; 0; 0; 0])
  | None => bool_decide (ip = replicate 16 0)
  end.

Definition shouldReplaceListenHost (host : string) : bool :=
  let host := Trim (TrimSpace host) "[]" in
  if bool_decide (host = EmptyString) || EqualFold host "localhost" then true
  else match ParseIP host with
       | None => false
       | Some ip => IsLoopback ip || IsUnspecified ip
       end.

Definition yggdrasilListenAddress (listen : string) (address : IP) : string :=
  match SplitHostPort (TrimSpace listen) with
  | None => listen
  | Some (host, port) =>
      if shouldReplaceListenHost host then JoinHostPort (IP_String address) port else listen
  end.

(** outproxy.Create, and the address that it listens on. *)
Definition outproxy (c : Config) (o : outcomes) : result error (server * string) * list effect :=
  let c := with_defaults "outproxy" c in
  match AddrFromSlice (Address c) with
  | None => (Err InvalidAddress, [])
  | Some _ =>
      if negb (vtun_built o) then (Err BuildVTun, [])
      else match Outproxy.newRouteNetwork (Proxies c) (DefaultProxyURL c) with
      | Err e => (Err (InvalidProxies e), [Open VTun; Shut VTun])
      | Ok n =>
          let listen := yggdrasilListenAddress (Listen c) (Address c) in
          if negb (listening o) then (Err ListenFailed, [Open VTun; Shut VTun])
          else (Ok (mkServer c n None, listen), [Open VTun; Open Listener; Open AcceptLoop])
      end
  end.
End Create.

(** What is open after the effects. *)
Definition held (es : list effect) : gset Z :=
  let id r := match r with VTun => 0 | Listener => 1 | AcceptLoop => 2 end in
  fold_left (fun s e => match e with Open r => {[id r]} ∪ s | Shut r => s ∖ {[id r]} end) es ∅.
End Create.

(** The handler of CONNECT: intercepted or socksgo's own. *)
Module Intercept.
Inductive outcome := Default | Disallowed | Unreachable | ReplyFailed | NoCertificate | HandshakeFailed | Piped.
Record calls := mkCalls { raddr_ok : bool; dialed : bool; replied : bool; created : bool; handshaken : bool }.

(** The outcome, the dial that was made, and the interception's state.  The
    upstream connection is closed by a deferred call on every return. *)
Definition connect {X : Externals} (now : Z) (net fqdn : string) (port : Z) (k : calls)
    (n : routeNetwork) (m : Mitm.tlsMITM) : outcome * option (forwarded * list asked) * Mitm.tlsMITM :=
  if negb (Mitm.shouldIntercept net fqdn port m) then (Default, None, m)
  else if negb (raddr_ok k) then (Disallowed, None, m)
  else
    let host := normalizeHost fqdn in
    let dial := Some (Dial net (Mitm.plaintext_target host) n) in
    if negb (dialed k) then (Unreachable, dial, m)
    else if negb (replied k) then (ReplyFailed, dial, m)
    else match Mitm.leafCert now (created k) host m with
         | (None, m) => (NoCertificate, dial, m)
         | (Some _, m) => (if negb (handshaken k) then HandshakeFailed else Piped, dial, m)
         end.
End Intercept.

(** ** The accept loop and Close *)

Inductive serve_pc := Accepting | Adding (c : Z) | Spawning (c : Z) | Returning | Gone.
Inductive conn_pc := Serving | Removing | Ending.
Inductive close_pc :=
| NotClosed | Cancelled | ListenerShut | Snapshot (l : list Z) | Waiting | VTunClosing | Closed.

Record world := mkWorld {
  serve : serve_pc;
  handlers : gmap Z conn_pc;       (* the goroutines of connections *)
  wg : Z;
  conns : gset Z;
  shut : gset Z;                   (* the connections that Close closed *)
  seen : gset Z;                   (* every connection ever accepted *)
  cancelled : bool;
  listening : bool;
  vtun_open : bool;
  closing : close_pc
}.

Definition start : world := mkWorld Accepting ∅ 1 ∅ ∅ ∅ false true true NotClosed.

Definition set_serve (p : serve_pc) (w : world) : world :=
  mkWorld p (handlers w) (wg w) (conns w) (shut w) (seen w) (cancelled w) (listening w) (vtun_open w) (closing w).
Definition set_handlers (h : gmap Z conn_pc) (w : world) : world :=
  mkWorld (serve w) h (wg w) (conns w) (shut w) (seen w) (cancelled w) (listening w) (vtun_open w) (closing w).
Definition set_wg (n : Z) (w : world) : world :=
  mkWorld (serve w) (handlers w) n (conns w) (shut w) (seen w) (cancelled w) (listening w) (vtun_open w) (closing w).
Definition set_conns (s : gset Z) (w : world) : world :=
  mkWorld (serve w) (handlers w) (wg w) s (shut w) (seen w) (cancelled w) (listening w) (vtun_open w) (closing w).
Definition set_closing (p : close_pc) (w : world) : world :=
  mkWorld (serve w) (handlers w) (wg w) (conns w) (shut w) (seen w) (cancelled w) (listening w) (vtun_open w) p.

Definition addConn (c : Z) (w : world) : world := set_conns ({[c]} ∪ conns w) w.
Definition removeConn (c : Z) (w : world) : world := set_conns (conns w ∖ {[c]}) w.

Inductive event := Accepted (c : Z) | AcceptFails | Serve | SessionEnds (c : Z) | Handler (c : Z) | Close.

(** One step of the goroutine of [serve]. *)
Definition step_serve (w : world) : option world :=
  match serve w with
  | Accepting => None                                      (* blocked in Accept *)
  | Adding c => Some (set_serve (Spawning c) (addConn c w))
  | Spawning c => Some (set_serve Accepting (set_handlers (<[c := Serving]> (handlers w)) (set_wg (wg w + 1) w)))
  | Returning => Some (set_serve Gone (set_wg (wg w - 1) w))
  | Gone => None
  end.

(** One step of the deferred calls of a connection's goroutine. *)
Definition step_handler (c : Z) (w : world) : option world :=
  match handlers w !! c with
  | Some Removing => Some (set_handlers (<[c := Ending]> (handlers w)) (removeConn c w))
  | Some Ending => Some (set_handlers (delete c (handlers w)) (set_wg (wg w - 1) w))
  | _ => None
  end.

(** The connections that [closeConns] closes. *)
Definition closeConns (w : world) : list Z := elements (conns w).

(** One step of [Close], whose body runs once. *)
Definition step_close (w : world) : option world :=
  match closing w with
  | NotClosed =>
      Some (mkWorld (serve w) (handlers w) (wg w) (conns w) (shut w) (seen w) true (listening w) (vtun_open w) Cancelled)
  | Cancelled =>
      Some (mkWorld (serve w) (handlers w) (wg w) (conns w) (shut w) (seen w) (cancelled w) false (vtun_open w) ListenerShut)
  | ListenerShut => Some (set_closing (Snapshot (closeConns w)) w)
  | Snapshot (c :: l) =>
      Some (mkWorld (serve w) (handlers w) (wg w) (conns w) ({[c]} ∪ shut w) (seen w) (cancelled w) (listening w) (vtun_open w) (Snapshot l))
  | Snapshot [] => Some (set_closing Waiting w)
  | Waiting => if wg w =? 0 then Some (set_closing VTunClosing w) else None
  | VTunClosing =>
      Some (mkWorld (serve w) (handlers w) (wg w) (conns w) (shut w) (seen w) (cancelled w) (listening w) false Closed)
  | Closed => None
  end.

(** The accept loop and Close of the outproxy are the same code. *)
Module OutproxyTun.
Definition serve := step_serve.
Definition session := step_handler.
Definition add_conn := addConn.
Definition remove_conn := removeConn.
Definition close_conns := closeConns.
Definition close := step_close.
End OutproxyTun.

(** [None]: the event is not possible. *)
Definition exec (e : event) (w : world) : option world :=
  match e with
  | Accepted c =>
      match serve w with
      | Accepting =>
          if listening w && negb (bool_decide (c ∈ seen w)) then
            Some (set_serve (Adding c) (mkWorld (serve w) (handlers w) (wg w) (conns w) (shut w) ({[c]} ∪ seen w)
              (cancelled w) (listening w) (vtun_open w) (closing w)))
          else None
      | _ => None
      end
  | AcceptFails => match serve w with Accepting => Some (set_serve Returning w) | _ => None end
  | Serve => step_serve w
  | SessionEnds c =>
      match handlers w !! c with
      | Some Serving => Some (set_handlers (<[c := Removing]> (handlers w)) w)
      | _ => None
      end
  | Handler c => step_handler c w
  | Close => step_close w
  end.

Fixpoint execs (es : list event) (w : world) : option world :=
  match es with
  | [] => Some w
  | e :: es => match exec e w with Some w' => execs es w' | None => None end
  end.

Inductive reach : world -> Prop :=
| reach_start : reach start
| reach_step w e w' : reach w -> exec e w = Some w' -> reach w'.

Lemma socks_reach_execs es w w' : reach w -> execs es w = Some w' -> reach w'.
Proof.
  revert w. induction es as [|e es IH]; intros w Hw; cbn; [by intros [= <-]|].
  destruct (exec e w) as [w1|] eqn:E; [|done]. apply IH. by eapply reach_step.
Qed.

Lemma execs_app es fs w : execs (es ++ fs) w = match execs es w with Some w' => execs fs w' | None => None end.
Proof. revert w. induction es as [|e es IH]; intros w; cbn; [done|]. by destruct (exec e w). Qed.

(** ** The invariant *)

(** The connection in the hands of the accept loop. *)
Definition current (p : serve_pc) : option Z := match p with Adding c | Spawning c => Some c | _ => None end.
Definition serving (p : serve_pc) : Z := match p with Gone => 0 | _ => 1 end.
(** The connections that are listed in [conns]. *)
Definition listed (w : world) (c : Z) : Prop :=
  handlers w !! c = Some Serving \/ handlers w !! c = Some Removing \/ serve w = Spawning c.
(** How far [Close] got. *)
Definition rank (p : close_pc) : nat :=
  match p with
  | NotClosed => 0 | Cancelled => 1 | ListenerShut => 2 | Snapshot _ => 3 | Waiting => 4 | VTunClosing => 5 | Closed => 6
  end.

Record inv (w : world) : Prop := {
  inv_wg : wg w = serving (serve w) + Z.of_nat (size (handlers w));
  inv_conns c : c ∈ conns w <-> listed w c;
  inv_seen c p : handlers w !! c = Some p -> c ∈ seen w;
  inv_current c : current (serve w) = Some c -> c ∈ seen w /\ handlers w !! c = None;
  inv_cancelled : cancelled w = true <-> (1 <= rank (closing w))%nat;
  inv_listening : listening w = false <-> (2 <= rank (closing w))%nat;
  inv_vtun : vtun_open w = false <-> closing w = Closed;
  inv_waited : (5 <= rank (closing w))%nat -> wg w = 0
}.

Lemma inv_quiet w : inv w -> wg w = 0 -> serve w = Gone /\ handlers w = ∅ /\ conns w = ∅.
Proof.
  intros I H. pose proof (inv_wg w I) as Hwg. assert (serve w = Gone) as Hs by (destruct (serve w); cbn in Hwg; done || lia).
  assert (handlers w = ∅) as Hh by (apply map_size_empty_iff; rewrite Hs in Hwg; cbn in Hwg; lia).
  split_and!; [done..|]. apply set_eq. intros c. rewrite (inv_conns w I). unfold listed. rewrite Hh, Hs, lookup_empty. set_solver.
Qed.

Lemma inv_start : inv start.
Proof.
  split; cbn; try done; try lia; try (split; [done|lia]).
  intros c. unfold listed. cbn. rewrite lookup_empty. set_solver.
Qed.

Lemma inv_step_serve w w' : inv w -> step_serve w = Some w' -> inv w'.
Proof.
  intros I E. unfold step_serve in E. destruct (serve w) as [|c|c| |] eqn:Es; simplify_eq.
  all: destruct I as [I1 I2 I3 I4 I5 I6 I7 I8]; unfold listed in *; rewrite Es in *; cbn in *.
  - destruct (I4 c eq_refl) as [H1 H2]. split; cbn; try done. intros c'. unfold listed. cbn.
    rewrite elem_of_union, elem_of_singleton, I2. naive_solver.
  - destruct (I4 c eq_refl) as [H1 H2]. split; cbn; try done.
    + rewrite map_size_insert_None by done. lia.
    + intros c'. unfold listed. cbn. rewrite I2. destruct (decide (c = c')) as [<-|]; simplify_map_eq; naive_solver.
    + intros c' p. destruct (decide (c = c')) as [<-|]; simplify_map_eq; eauto.
    + intros H. specialize (I8 H). lia.
  - split; cbn; try done; [lia| |]; [|intros H; specialize (I8 H); lia]. intros c. rewrite I2. unfold listed. cbn. naive_solver.
Qed.

Lemma inv_step_handler c w w' : inv w -> step_handler c w = Some w' -> inv w'.
Proof.
  intros I E. unfold step_handler in E. destruct (handlers w !! c) as [[| |]|] eqn:Ec; simplify_eq;
    destruct I as [I1 I2 I3 I4 I5 I6 I7 I8]; unfold listed in *; cbn in *.
  - assert (current (serve w) <> Some c) as Hcur by (intros H; apply I4 in H as [_ ?]; congruence).
    split; cbn; try done.
    + rewrite map_size_insert_Some by done. done.
    + intros c'. unfold listed. cbn. rewrite elem_of_difference, elem_of_singleton, I2.
      destruct (decide (c = c')) as [<-|]; simplify_map_eq; [|naive_solver].
      split; [naive_solver|]. intros [?|[?|H]]; [done..|]. by rewrite H in Hcur.
    + intros c' p. destruct (decide (c = c')) as [<-|]; simplify_map_eq; eauto.
    + intros c' H. destruct (I4 c' H). by rewrite lookup_insert_ne by congruence.
  - pose proof (map_size_delete_Some c (handlers w) (mk_is_Some _ _ Ec)) as Hsz.
    assert (size (handlers w) <> 0%nat) as Hne by (apply map_size_ne_0_lookup; eauto).
    split; cbn; try done.
    + lia.
    + intros c'. unfold listed. cbn. rewrite I2. destruct (decide (c = c')) as [<-|]; simplify_map_eq; naive_solver.
    + intros c' p. destruct (decide (c = c')) as [<-|]; simplify_map_eq; eauto.
    + intros c' H. destruct (I4 c' H). split; [done|]. by apply lookup_delete_None; right.
    + intros H. specialize (I8 H). assert (0 <= serving (serve w)) by (by destruct (serve w)). lia.
Qed.

Lemma inv_step_close w w' : inv w -> step_close w = Some w' -> inv w'.
Proof.
  intros I E. destruct I as [I1 I2 I3 I4 I5 I6 I7 I8]. unfold step_close in E.
  destruct (closing w) as [| | |[|c l]| | |] eqn:Ec; simplify_eq; cbn in *;
    try (case_match; simplify_eq; bool_props); split; cbn; try done; try naive_solver lia.
  all: try (intros H; apply I8; lia).
Qed.

Lemma socks_inv_exec e w w' : inv w -> exec e w = Some w' -> inv w'.
Proof.
  intros I. destruct e as [c| | |c|c|]; cbn [exec].
  - intros E. destruct (serve w) eqn:Es; try done. destruct (listening w && _) eqn:Eb; simplify_eq. bool_props.
    destruct I as [I1 I2 I3 I4 I5 I6 I7 I8]. unfold listed in *. rewrite Es in *.
    split; cbn; try done.
    + intros c'. unfold listed. cbn. rewrite I2. naive_solver.
    + intros c' p Hp. apply I3 in Hp. set_solver.
    + intros c' [= <-]. split; [set_solver|]. destruct (handlers w !! c) eqn:E; [|done]. by apply I3 in E.
  - intros E. destruct (serve w) eqn:Es; simplify_eq. destruct I as [I1 I2 I3 I4 I5 I6 I7 I8].
    unfold listed in *. rewrite Es in *. split; cbn; try done. intros c'. unfold listed. cbn. rewrite I2. naive_solver.
  - by apply inv_step_serve.
  - intros E. destruct (handlers w !! c) as [[| |]|] eqn:Ec; simplify_eq.
    destruct I as [I1 I2 I3 I4 I5 I6 I7 I8]. unfold listed in *. split; cbn; try done.
    + by rewrite map_size_insert_Some.
    + intros c'. unfold listed. cbn. rewrite I2. destruct (decide (c = c')) as [<-|]; simplify_map_eq; naive_solver.
    + intros c' p. destruct (decide (c = c')) as [<-|]; simplify_map_eq; eauto.
    + intros c' H. destruct (I4 c' H). split; [done|]. by rewrite lookup_insert_ne by congruence.
  - by apply inv_step_handler.
  - by apply inv_step_close.
Qed.

Lemma socks_inv_reach w : reach w -> inv w.
Proof. induction 1; [apply inv_start|by eapply socks_inv_exec]. Qed.

(** C20: [Close] is complete: the virtual TUN is closed, and [Close] returns, only
    after the accept loop and the goroutine of every connection have ended, the
    listener is closed and no connection is listed any more. *)
Theorem close_is_complete w : reach w -> closing w = VTunClosing \/ vtun_open w = false ->
  serve w = Gone /\ handlers w = ∅ /\ conns w = ∅ /\ wg w = 0 /\ listening w = false /\ cancelled w = true.
Proof.
  intros Hw%socks_inv_reach H. assert (5 <= rank (closing w))%nat as Hr.
  { destruct H as [->|H]; [done|]. apply (inv_vtun w Hw) in H as ->. cbn. lia. }
  pose proof (inv_waited w Hw Hr) as Hwg. destruct (inv_quiet w Hw Hwg) as (H1 & H2 & H3).
  split_and!; [done..| |]; [apply (inv_listening w Hw)|apply (inv_cancelled w Hw)]; lia.
Qed.

(** ** Close finishes *)

(** [w] can step to a world with the property [Q], by events that are neither a
    new connection nor anything else from outside but the end of sessions. *)
Definition internal (e : event) : Prop := match e with Accepted _ => False | _ => True end.
Definition can (Q : world -> Prop) (w : world) : Prop := exists es w', Forall internal es /\ execs es w = Some w' /\ Q w'.

Lemma can_now (Q : world -> Prop) w : Q w -> can Q w.
Proof. intros H. by exists [], w. Qed.
Lemma can_step (Q : world -> Prop) e w w' : internal e -> exec e w = Some w' -> can Q w' -> can Q w.
Proof. intros He E (es & w2 & H1 & H2 & H3). exists (e :: es), w2. split_and!; [by constructor| |done]. cbn. by rewrite E. Qed.

(** The loop of [closeConns] ends. *)
Lemma can_reach_waiting (Q : world -> Prop) w :
  (forall w', closing w' = Waiting -> listening w' = false -> reach w' -> can Q w') ->
  (1 <= rank (closing w) <= 3)%nat -> reach w -> can Q w.
Proof.
  intros HQ. assert (Hsnap : forall l w, closing w = Snapshot l -> reach w -> can Q w).
  { induction l as [|c l IH]; intros w0 Ec Hw; pose proof (socks_inv_reach _ Hw) as I;
      (eapply (can_step _ Close); [done|cbn; unfold step_close; by rewrite Ec|]).
    - apply HQ; cbn; [done|apply (inv_listening _ I); rewrite Ec; cbn; lia|].
      eapply (reach_step _ Close); [exact Hw|]. cbn. unfold step_close. by rewrite Ec.
    - apply IH; [done|]. eapply (reach_step _ Close); [exact Hw|]. cbn. unfold step_close. by rewrite Ec. }
  assert (Hshut : forall w, closing w = ListenerShut -> reach w -> can Q w).
  { intros w0 Ec Hw. eapply (can_step _ Close); [done|cbn; unfold step_close; by rewrite Ec|].
    eapply Hsnap; [done|]. eapply (reach_step _ Close); [exact Hw|]. cbn. unfold step_close. by rewrite Ec. }
  intros Hr Hw. destruct (closing w) as [| | |l| | |] eqn:Ec; cbn in Hr; try lia; [|by apply Hshut|by eapply Hsnap].
  eapply (can_step _ Close); [done|cbn; unfold step_close; by rewrite Ec|].
  apply Hshut; [done|]. eapply (reach_step _ Close); [exact Hw|]. cbn. unfold step_close. by rewrite Ec.
Qed.

(** With the listener closed the accept loop returns. *)
Lemma can_end_serve (Q : world -> Prop) w :
  (forall w', serve w' = Gone -> closing w' = closing w -> reach w' -> can Q w') -> reach w -> can Q w.
Proof.
  intros HQ.
  assert (H1 : forall w0, serve w0 = Returning -> closing w0 = closing w -> reach w0 -> can Q w0).
  { intros w0 Es Ec Hw. assert (exec Serve w0 = Some (set_serve Gone (set_wg (wg w0 - 1) w0))) as E by (cbn; unfold step_serve; by rewrite Es).
    eapply (can_step _ Serve); [done|exact E|]. apply HQ; [done|done|by eapply reach_step]. }
  assert (H2 : forall w0, serve w0 = Accepting -> closing w0 = closing w -> reach w0 -> can Q w0).
  { intros w0 Es Ec Hw. assert (exec AcceptFails w0 = Some (set_serve Returning w0)) as E by (cbn; by rewrite Es).
    eapply (can_step _ AcceptFails); [done|exact E|]. apply H1; [done|done|by eapply reach_step]. }
  assert (H3 : forall c w0, serve w0 = Spawning c -> closing w0 = closing w -> reach w0 -> can Q w0).
  { intros c w0 Es Ec Hw. eapply (can_step _ Serve); [done|cbn; unfold step_serve; by rewrite Es|].
    apply H2; [done|done|]. eapply (reach_step _ Serve); [exact Hw|]. cbn. unfold step_serve. by rewrite Es. }
  intros Hw. destruct (serve w) as [|c|c| |] eqn:Es; [by apply H2| |by eapply H3|by apply H1|by apply HQ].
  eapply (can_step _ Serve); [done|cbn; unfold step_serve; by rewrite Es|].
  eapply H3; [done|done|]. eapply (reach_step _ Serve); [exact Hw|]. cbn. unfold step_serve. by rewrite Es.
Qed.

(** When its sessions end, a goroutine takes itself off the list and returns. *)
Lemma can_end_handlers (Q : world -> Prop) n : forall w,
  (forall w', handlers w' = ∅ -> serve w' = Gone -> closing w' = closing w -> reach w' -> can Q w') ->
  size (handlers w) = n -> serve w = Gone -> reach w -> can Q w.
Proof.
  induction n as [|n IH]; intros w HQ Hn Hs Hw; [apply map_size_empty_inv in Hn; by apply HQ|].
  assert (H3 : forall c w0, handlers w0 !! c = Some Ending -> size (handlers w0) = S n -> serve w0 = Gone ->
    closing w0 = closing w -> reach w0 -> can Q w0).
  { intros c w0 Ec Hsz Es Ecl Hw0.
    assert (exec (Handler c) w0 = Some (set_handlers (delete c (handlers w0)) (set_wg (wg w0 - 1) w0))) as E
      by (cbn; unfold step_handler; by rewrite Ec).
    eapply (can_step _ (Handler c)); [done|exact E|]. apply IH; [|cbn|done|by eapply reach_step].
    - cbn. rewrite Ecl. exact HQ.
    - rewrite map_size_delete_Some by done. lia. }
  assert (H2 : forall c w0, handlers w0 !! c = Some Removing -> size (handlers w0) = S n -> serve w0 = Gone ->
    closing w0 = closing w -> reach w0 -> can Q w0).
  { intros c w0 Ec Hsz Es Ecl Hw0.
    assert (exec (Handler c) w0 = Some (set_handlers (<[c := Ending]> (handlers w0)) (removeConn c w0))) as E
      by (cbn; unfold step_handler; by rewrite Ec).
    eapply (can_step _ (Handler c)); [done|exact E|].
    apply (H3 c); [cbn; apply lookup_insert_eq|cbn; by rewrite map_size_insert_Some|done|done|by eapply reach_step]. }
  destruct (map_choose (handlers w)) as (c & p & Ec); [intros E; by rewrite E, map_size_empty in Hn|].
  destruct p; [|by eapply H2|by eapply H3].
  assert (exec (SessionEnds c) w = Some (set_handlers (<[c := Removing]> (handlers w)) w)) as E by (cbn; by rewrite Ec).
  eapply (can_step _ (SessionEnds c)); [done|exact E|].
  apply (H2 c); [cbn; apply lookup_insert_eq|cbn; by rewrite map_size_insert_Some|done|done|by eapply reach_step].
Qed.

(** [Close] is never stuck: from every state after it was called, when the
    sessions that are still served end, the goroutines can run to their ends and
    [Close] returns with the virtual TUN closed. *)
Theorem close_can_finish w : reach w -> closing w <> NotClosed -> can (fun w' => closing w' = Closed /\ vtun_open w' = false) w.
Proof.
  intros Hw Hc.
  assert (Hlast : forall w0, closing w0 = VTunClosing -> can (fun w' => closing w' = Closed /\ vtun_open w' = false) w0).
  { intros w0 Ec. eapply (can_step _ Close); [done|cbn; unfold step_close; by rewrite Ec|]. by apply can_now. }
  assert (Hwait : forall w0, closing w0 = Waiting -> reach w0 -> can (fun w' => closing w' = Closed /\ vtun_open w' = false) w0).
  { intros w0 Ec Hw0. apply can_end_serve; [|done]. intros w1 Es1 Ec1 Hw1.
    eapply can_end_handlers; [|done|done|done]. intros w2 Eh Es Ec2 Hw2.
    assert (wg w2 = 0) as Hwg by (rewrite (inv_wg _ (socks_inv_reach _ Hw2)), Es, Eh; done).
    eapply (can_step _ Close); [done|cbn; unfold step_close; by rewrite Ec2, Ec1, Ec, Hwg|]. by apply Hlast. }
  destruct (decide (rank (closing w) <= 3)%nat) as [Hr|Hr].
  - apply can_reach_waiting; [by intros; apply Hwait| |done]. destruct (closing w); cbn in *; done || lia.
  - destruct (closing w) eqn:Ec; cbn in Hr; try lia; [by apply Hwait|by apply Hlast|].
    apply can_now. split; [done|]. by apply (inv_vtun _ (socks_inv_reach _ Hw)).
Qed.

(** ** What Close closes *)

(** Every connection of [s] is closed or still to be closed. *)
Definition covered (s : gset Z) (w : world) : Prop :=
  (exists l, closing w = Snapshot l /\ s ⊆ shut w ∪ list_to_set l) \/ ((4 <= rank (closing w))%nat /\ s ⊆ shut w).

Lemma covered_exec s e w w' : covered s w -> exec e w = Some w' -> covered s w'.
Proof.
  intros H E. unfold covered in *.
  assert (closing w' = closing w -> shut w' = shut w -> covered s w') as Hframe by (by unfold covered; intros -> ->).
  destruct e; cbn in E; unfold step_serve, step_handler in E; try (apply Hframe; simplify_eq; by split_matches).
  clear Hframe. unfold step_close in E. destruct H as [(l & Ec & Hl)|[Hr Hs]].
  - rewrite Ec in E. destruct l as [|c l]; simplify_eq; cbn in *; [right; split; [lia|set_solver]|left; exists l; split; [done|set_solver]].
  - destruct (closing w) as [| | |l| | |]; cbn in Hr; try lia; right; simplify_eq; split_matches; cbn; (split; [lia|done]).
Qed.
Lemma covered_execs s es w w' : covered s w -> execs es w = Some w' -> covered s w'.
Proof.
  revert w. induction es as [|e es IH]; intros w H; cbn; [by intros [= <-]|].
  destruct (exec e w) as [w1|] eqn:E; [|done]. apply IH. by eapply covered_exec.
Qed.

(** [Close] closes every connection that is listed when it takes its snapshot,
    before it waits for the goroutines. *)
Theorem snapshot_closed w es w' :
  closing w = ListenerShut -> execs (Close :: es) w = Some w' -> (4 <= rank (closing w'))%nat -> conns w ⊆ shut w'.
Proof.
  intros Ec E Hr. cbn in E. unfold step_close in E. rewrite Ec in E.
  assert (covered (conns w) w') as [(l & Ec' & _)|[_ H]]; [|by rewrite Ec' in Hr; cbn in Hr; lia|done].
  eapply covered_execs; [|exact E]. left. eexists. split; [done|]. unfold closeConns. cbn. set_solver.
Qed.

(** ** Witnesses and counterexamples *)

Lemma decided (P : Prop) `{Decision P} : bool_decide P = true -> P.
Proof. by rewrite bool_decide_eq_true. Qed.

(** One connection is served when [Close] is called. *)
Definition served : list event := [Accepted 1; Serve; Serve; Close; Close].
(** The connection is accepted, but listed only after the snapshot. *)
Definition late : list event := [Accepted 1; Close; Close; Close; Close; Serve; Serve].
Definition world_of (es : list event) : world := match execs es start with Some w => w | None => start end.

Lemma socks_reach_world es : reach (world_of es).
Proof. unfold world_of. destruct (execs es start) as [w|] eqn:E; [|constructor]. eapply socks_reach_execs; [constructor|exact E]. Qed.

Lemma snapshot_closed_witness :
  1 ∈ conns (world_of served) /\ conns (world_of served) ⊆ shut (world_of (served ++ [Close; Close; Close])).
Proof.
  split; [refine (decided _ _); vm_compute; reflexivity|].
  apply (snapshot_closed (world_of served) [Close; Close]); [vm_compute; reflexivity..|apply Nat.leb_le; vm_compute; reflexivity].
Defined.

Definition all_closed : list event :=
  served ++ [Close; Close; Close; SessionEnds 1; Handler 1; Handler 1; AcceptFails; Serve; Close].
Lemma close_is_complete_witness :
  closing (world_of all_closed) = VTunClosing /\ handlers (world_of all_closed) = ∅.
Proof.
  split; [vm_compute; reflexivity|].
  apply (close_is_complete (world_of all_closed)); [apply socks_reach_world|]. left. vm_compute. reflexivity.
Defined.

Lemma close_can_finish_witness : can (fun w' => closing w' = Closed /\ vtun_open w' = false) (world_of late).
Proof. apply close_can_finish; [apply socks_reach_world|]. vm_compute. discriminate. Defined.

Lemma late_step e w w' : reach w -> exec e w = Some w' -> SessionEnds 1 <> e ->
  closing w = Waiting /\ handlers w !! (1 : Z) = Some Serving /\ 1 ∉ shut w ->
  closing w' = Waiting /\ handlers w' !! (1 : Z) = Some Serving /\ 1 ∉ shut w'.
Proof.
  intros Hw%socks_inv_reach E He (Hc & Hh & Hs).
  assert (wg w <> 0) as Hwg by (intros H; apply (inv_quiet w Hw) in H as (_ & H & _); by rewrite H in Hh).
  destruct e as [c| | |c|c|]; cbn in E; unfold step_serve, step_handler, step_close in E; try (by split_matches).
  - destruct (serve w) eqn:Es; simplify_eq; cbn; try done. split_and!; [done| |done].
    destruct (decide (c = 1)) as [->|]; by simplify_map_eq.
  - destruct (handlers w !! c) as [[| |]|] eqn:Ec; simplify_eq. cbn. split_and!; [done| |done].
    by rewrite lookup_insert_ne by congruence.
  - destruct (handlers w !! c) as [[| |]|] eqn:Ec; simplify_eq; cbn; (split_and!; [done| |done]);
      destruct (decide (c = 1)) as [->|]; by simplify_map_eq.
  - rewrite Hc in E. by case_match; bool_props.
Qed.

(** Counterexample: a connection that was accepted before [Close] but is listed
    after its snapshot is never closed by it: whatever else happens, [Close]
    waits until this session ends by itself. *)
Theorem late_connection_not_closed :
  exists w, reach w /\ closing w = Waiting /\ 1 ∈ conns w /\
    forall es w', execs es w = Some w' -> SessionEnds 1 ∉ es ->
      closing w' = Waiting /\ handlers w' !! (1 : Z) = Some Serving /\ 1 ∉ shut w'.
Proof.
  exists (world_of late). split; [apply socks_reach_world|]. split; [vm_compute; reflexivity|].
  split; [refine (decided _ _); vm_compute; reflexivity|].
  intros es w' E Hes.
  assert (Hinv : forall w, reach w -> closing w = Waiting /\ handlers w !! (1 : Z) = Some Serving /\ 1 ∉ shut w ->
    execs es w = Some w' -> closing w' = Waiting /\ handlers w' !! (1 : Z) = Some Serving /\ 1 ∉ shut w').
  { clear E. induction es as [|e es IH]; intros w Hw H; cbn; [by intros [= <-]|].
    destruct (exec e w) as [w1|] eqn:E; [|done]. apply IH; [set_solver|by eapply reach_step|].
    apply not_elem_of_cons in Hes as [He _]. eapply late_step; eauto. }
  apply (Hinv (world_of late)); [apply socks_reach_world| |exact E].
  split_and!; [vm_compute; reflexivity|vm_compute; reflexivity|].
  refine (decided _ _). vm_compute. reflexivity.
Qed.

(** ** Create and interception *)

Section Servers.
Context {X : Externals}.

Definition everything : gset Z := {[0; 1; 2]}.

(** A server is created completely or not at all: when [Create] fails, at
    whatever point, the virtual TUN and the listener that it had opened are
    closed again and no accept loop is left; when it succeeds the loop runs, over
    a network that carries the configured routes. *)
Theorem Create_all_or_nothing c o :
  let '(r, es) := Create.sockstun c o in
  let '(r', es') := Create.outproxy c o in
  match r with
  | Ok s => Create.held es = everything /\ Routing.reach (Create.network s) /\
      SetProxies (Create.Proxies c) (Create.DefaultProxyURL c) (Create.network s) = (Ok tt, Create.network s) /\
      Create.Listen (Create.config s) <> EmptyString
  | Err _ => Create.held es = ∅
  end /\
  match r' with Ok (s, _) => Create.held es' = everything | Err _ => Create.held es' = ∅ end.
Proof.
  assert (Hnew : forall cfgs url d n, newRouteNetwork cfgs url d = Ok n -> SetProxies cfgs url n = (Ok tt, n)).
  { intros cfgs url d n. unfold newRouteNetwork, SetProxies.
    destruct (build_routes cfgs) as [rs|e]; [|done]. case_bool_decide; [by intros [= <-]|].
    destruct (ClientFromURL (TrimSpace url)) as [client|]; [by intros [= <-]|done]. }
  destruct (Create.sockstun c o) as [r es] eqn:E1. destruct (Create.outproxy c o) as [r' es'] eqn:E2. split.
  - clear E2. unfold Create.sockstun in E1.
    destruct (AddrFromSlice _) as [a|]; [|by simplify_eq/=]. destruct (Create.vtun_built o); [|by simplify_eq/=]. cbn [negb] in E1.
    destruct (newRouteNetwork _ _ _) as [n|e] eqn:En; [|by simplify_eq/=].
    destruct (Create.listening o); [|by simplify_eq/=]. cbn [negb] in E1.
    destruct (Create.newTLSMITM _ _); simplify_eq; [|done].
    split_and!; [done|by eapply Routing.reach_new|by eapply Hnew|]. cbn. by case_bool_decide.
  - clear E1. unfold Create.outproxy in E2.
    destruct (AddrFromSlice _) as [a|]; [|by simplify_eq/=]. destruct (Create.vtun_built o); [|by simplify_eq/=]. cbn [negb] in E2.
    destruct (Outproxy.newRouteNetwork _ _) as [n|e]; [|by simplify_eq/=].
    destruct (Create.listening o); by simplify_eq/=.
Qed.

(** A connection is intercepted only when it goes to port 443 of a host name
    that one of the patterns matches; it is then dialled in the clear at port 80
    of the same host.  For a name of a protected zone that dial is routed by
    name, and no resolver is asked. *)
Theorem intercepted_spec now net fqdn port k n m :
  let host := normalizeHost fqdn in
  let '(r, dial, m') := Intercept.connect now net fqdn port k n m in
  (r = Intercept.Default /\ dial = None /\ m' = m) \/
  (port = 443 /\ host <> EmptyString /\ isIPLiteral host = false /\
   (exists pattern, pattern ∈ Mitm.hosts m /\ Mitm.matchHostnamePattern host pattern = true) /\
   (dial = None \/ dial = Some (Dial net (JoinHostPort host "80") n)) /\
   (Routing.reach n -> no_brackets host -> forall zone, zone ∈ defaultNoResolveZones ++ NoResolveZones (dns n) ->
      wf_zone zone = true -> in_zone host zone = true -> forall f asked, dial = Some (f, asked) ->
      asked = [] /\ f = mkForwarded (networkFor net (JoinHostPort host "80") n) OpDial net (JoinHostPort host "80"))).
Proof.
  cbv zeta. set (host := normalizeHost fqdn). unfold Intercept.connect.
  destruct (Mitm.shouldIntercept net fqdn port m) eqn:Ei; cbn [negb]; [|by left].
  unfold Mitm.shouldIntercept in Ei. fold host in Ei.
  destruct (HasPrefix net "tcp"); [|done]. destruct (port =? 443) eqn:Ep; [|done]. cbn [negb orb] in Ei.
  case_bool_decide as Hh; [done|]. destruct (isIPLiteral host) eqn:El; [done|]. cbn [orb] in Ei.
  apply existsb_exists in Ei as (pattern & Hin%list_elem_of_In & Hm).
  assert (Hdial : Routing.reach n -> no_brackets host -> forall zone, zone ∈ defaultNoResolveZones ++ NoResolveZones (dns n) ->
      wf_zone zone = true -> in_zone host zone = true ->
      Dial net (JoinHostPort host "80") n = (mkForwarded (networkFor net (JoinHostPort host "80") n) OpDial net (JoinHostPort host "80"), [])).
  { intros Hn Hb zone Hz Hwf Hzone. unfold Dial, resolveAddress, splitAddress.
    rewrite SplitHostPort_JoinHostPort, Trim_no_brackets, bool_decide_false, El by (try done; unfold wf_port, no_brackets; cbn; set_solver).
    assert ((shouldSkipResolve host n).1 = true) as ->; [|done].
    apply shouldSkipResolve_spec. exists zone. rewrite (reach_zones n Hn). split; [done|]. by apply in_zone_normalize. }
  assert (Hfin : forall d, (d = None \/ d = Some (Dial net (JoinHostPort host "80") n)) ->
    (d = None \/ d = Some (Dial net (JoinHostPort host "80") n)) /\
    (Routing.reach n -> no_brackets host -> forall zone, zone ∈ defaultNoResolveZones ++ NoResolveZones (dns n) ->
      wf_zone zone = true -> in_zone host zone = true -> forall f asked, d = Some (f, asked) ->
      asked = [] /\ f = mkForwarded (networkFor net (JoinHostPort host "80") n) OpDial net (JoinHostPort host "80"))).
  { intros d Hd. split; [done|]. intros Hn Hb zone Hz Hwf Hzone f asked ->. destruct Hd as [|[= E]]; [done|].
    rewrite (Hdial Hn Hb zone Hz Hwf Hzone) in E. by simplify_eq. }
  unfold Mitm.plaintext_target.
  destruct (Intercept.raddr_ok k), (Intercept.dialed k), (Intercept.replied k); cbn [negb];
    try destruct (Mitm.leafCert _ _ _ _) as [[c|] m'] eqn:Ec; right; bool_props.
  all: do 3 (split; [done|]); split; [by exists pattern|]; apply Hfin; auto.
Qed.
End Servers.

Lemma intercepted_spec_witness :
  let k := Intercept.mkCalls true true true true true in
  let '(r, dial, _) := Intercept.connect (X := Sample.externals) 0 "tcp" "A.Onion." 443 k Sample.network (Mitm.tlsMITM_for []) in
  r = Intercept.Piped /\ forall f asked, dial = Some (f, asked) -> asked = [].
Proof.
  pose proof (intercepted_spec (X := Sample.externals) 0 "tcp" "A.Onion." 443
    (Intercept.mkCalls true true true true true) Sample.network (Mitm.tlsMITM_for [])) as H.
  cbv zeta in *. destruct (Intercept.connect _ _ _ _ _ _ _) as [[r dial] m'] eqn:E.
  assert (r = Intercept.Piped) as -> by (apply (f_equal (fun x => x.1.1)) in E; change (r = Intercept.Piped); etransitivity; [symmetry; exact E|]; vm_compute; reflexivity).
  split; [reflexivity|]. intros f asked Ed. destruct H as [(? & _)|(_ & _ & _ & _ & _ & H)]; [discriminate|].
  apply (H Sample.network_reach) with (zone := ".onion"%string) in Ed as [-> _]; [reflexivity|..].
  - split; intros Hin; apply list_elem_of_In in Hin; vm_compute in Hin; intuition discriminate.
  - apply elem_of_app. left. left.
  - reflexivity.
  - reflexivity.
Defined.
