(* ===== verification/Json.v ===== *)
(** * Json: encoding/json as the sources use it

    A JSON text is its tree; numbers keep their literal.  Decoding into a struct
    follows Go: keys match field names without regard to case, later keys win,
    unknown keys are skipped unless they are disallowed, [null] leaves a field of
    a basic type alone, and a value of the wrong type is reported at the end
    while the other fields are still stored.  Decoding into a pointer sets it
    to nil for [null]. *)

From Stdlib Require Import Ascii.
From S2P Require Import Prelude GoStd.

Inductive json :=
| Null
| Bool (b : bool)
| Num (literal : string)
| Str (s : string)
| Arr (l : list json)
| Obj (kvs : list (string * json)).

(** ** Fields

    A field stores a value, or refuses it ([None]) and stays as it was. *)

Definition field (A : Type) : Type := string * (json -> A -> option A).

Definition string_field {A} (name : string) (set : string -> A -> A) : field A :=
  (name, fun j a => match j with Null => Some a | Str s => Some (set s a) | _ => None end).
Definition bool_field {A} (name : string) (set : bool -> A -> A) : field A :=
  (name, fun j a => match j with Null => Some a | Bool b => Some (set b a) | _ => None end).
(** A field of type [json.RawMessage] takes every value, [null] included. *)
Definition raw_field {A} (name : string) (set : json -> A -> A) : field A :=
  (name, fun j a => Some (set j a)).

Definition find_field {A} (fields : list (field A)) (key : string) : option (field A) :=
  match find (fun f => bool_decide (f.1 = key)) fields with
  | Some f => Some f
  | None => find (fun f => EqualFold f.1 key) fields
  end.

(** The struct, and whether decoding succeeded. *)
Fixpoint decode_fields {A} (strict : bool) (fields : list (field A)) (kvs : list (string * json)) (a : A) : A * bool :=
  match kvs with
  | [] => (a, true)
  | (key, j) :: kvs =>
      match find_field fields key with
      | None => let '(a, ok) := decode_fields strict fields kvs a in (a, negb strict && ok)
      | Some f =>
          match f.2 j a with
          | Some a => decode_fields strict fields kvs a
          | None => let '(a, _) := decode_fields strict fields kvs a in (a, false)
          end
      end
  end.

(** json.Unmarshal(b, &v) for a struct, json.Decoder with [DisallowUnknownFields]
    when [strict]. *)
Definition unmarshal {A} (strict : bool) (fields : list (field A)) (j : json) (a : A) : A * bool :=
  match j with
  | Null => (a, true)
  | Obj kvs => decode_fields strict fields kvs a
  | _ => (a, false)
  end.

(** json.Unmarshal(b, &p) for a pointer [p] to a struct: [None] is nil. *)
Definition unmarshal_pointer {A} (fields : list (field A)) (j : json) (a : A) : option A * bool :=
  match j with
  | Null => (None, true)
  | _ => let '(a, ok) := unmarshal false fields j a in (Some a, ok)
  end.

(** ** Slices and maps *)

Definition decode_string (j : json) : option string := match j with Null => Some EmptyString | Str s => Some s | _ => None end.
Definition decode_uint16 (j : json) : option Z := match j with Null => Some 0 | Num lit => ParseUint 16 lit | _ => None end.
(** Into a slice: [null] makes it nil. *)
Definition decode_slice {A} (f : json -> option A) (j : json) : option (list A) :=
  match j with Null => Some [] | Arr l => mapM f l | _ => None end.
(** Into a map, as its pairs in the order of the text. *)
Definition decode_map {A} (f : json -> option A) (j : json) : option (list (string * A)) :=
  match j with
  | Null => Some []
  | Obj kvs => mapM (fun kv => (fun a => (kv.1, a)) <$> f kv.2) kvs
  | _ => None
  end.

(** ** Lemmas *)

Lemma unmarshal_null {A} strict (fields : list (field A)) a : unmarshal strict fields Null a = (a, true).
Proof. done. Qed.

Lemma unmarshal_pointer_nil {A} (fields : list (field A)) j a : (unmarshal_pointer fields j a).1 = None <-> j = Null.
Proof. unfold unmarshal_pointer. destruct j; split; try done; by destruct (unmarshal _ _ _ _). Qed.

(** A strict decoder accepts no more than a lenient one, with the same result. *)
Lemma decode_fields_strict {A} (fields : list (field A)) kvs a b :
  decode_fields true fields kvs a = (b, true) -> decode_fields false fields kvs a = (b, true).
Proof.
  revert a. induction kvs as [|[key j] kvs IH]; intros a; cbn; [done|].
  destruct (find_field fields key) as [f|].
  - destruct (f.2 j a); [apply IH|]. by destruct (decode_fields true fields kvs a).
  - by destruct (decode_fields true fields kvs a).
Qed.

(** ** Further functions of strconv, strings and sort *)

(** strconv.ParseBool *)
Definition ParseBool (s : string) : option bool :=
  if bool_decide (s ∈ ["1"; "t"; "T"; "TRUE"; "true"; "True"]%string) then Some true
  else if bool_decide (s ∈ ["0"; "f"; "F"; "FALSE"; "false"; "False"]%string) then Some false
  else None.

(** strconv.Atoi on a 64-bit machine *)
Definition Atoi (s : string) : option Z :=
  match to_chars s with
  | [] => None
  | c :: l =>
      let '(negative, digits) :=
        if decide (c = "-"%char) then (true, l) else if decide (c = "+"%char) then (false, l) else (false, c :: l) in
      match digits with
      | [] => None
      | _ => match digits_value digits 0 with
             | Some v =>
                 let z := if negative then - v else v in
                 if (- 2 ^ 63 <=? z) && (z <? 2 ^ 63) then Some z else None
             | None => None
             end
      end
  end.
Example Atoi_1 : map Atoi ["-12"; "+7"; ""; "-"; "9223372036854775808"]%string = [Some (-12); Some 7; None; None; None].
Proof. reflexivity. Qed.

(** strings.Split at one byte *)
Fixpoint split_chars (l : chars) (sep : ascii) (acc : chars) : list chars :=
  match l with
  | [] => [rev acc]
  | c :: l => if decide (c = sep) then rev acc :: split_chars l sep [] else split_chars l sep (c :: acc)
  end.
Definition Split (s : string) (sep : ascii) : list string := map of_chars (split_chars (to_chars s) sep []).
Example Split_1 : Split ",a,b" "," = [""; "a"; "b"]%string. Proof. reflexivity. Qed.

Lemma split_chars_no_sep l sep acc x : sep ∉ acc -> x ∈ split_chars l sep acc -> sep ∉ x.
Proof.
  revert acc. induction l as [|c l IH]; intros acc Hacc; cbn.
  - rewrite list_elem_of_singleton. intros -> H. apply Hacc. rewrite list_elem_of_In in *. by apply in_rev.
  - case_decide as Hc.
    + rewrite elem_of_cons. intros [->|H]; [|eapply IH; [|exact H]; set_solver].
      intros H. apply Hacc. rewrite list_elem_of_In in *. by apply in_rev.
    + apply IH. set_solver.
Qed.

Lemma split_chars_run l sep k acc : sep ∉ l -> split_chars (l ++ k) sep acc = split_chars k sep (rev l ++ acc).
Proof.
  revert acc. induction l as [|c l IH]; intros acc Hl; [done|]. cbn [app split_chars]. rewrite decide_False by set_solver.
  rewrite IH by set_solver. cbn [rev]. by rewrite <-(assoc_L (++)).
Qed.

(** Splitting undoes joining. *)
Lemma Split_concat sep ts : ts <> [] -> Forall (fun t => sep ∉ to_chars t) ts -> Split (String.concat (String sep EmptyString) ts) sep = ts.
Proof.
  intros Hne H. unfold Split. induction H as [|t ts Ht Hts IH]; [done|]. destruct ts as [|u ts].
  - cbn [String.concat]. rewrite <-(app_nil_r (to_chars t)), split_chars_run by done. cbn [split_chars map]. by rewrite app_nil_r, rev_involutive, of_to_chars.
  - change (String.concat (String sep EmptyString) (t :: u :: ts)) with (String.append t (String sep (String.concat (String sep EmptyString) (u :: ts)))).
    rewrite to_chars_app, split_chars_run by done. change (to_chars (String sep ?s)) with (sep :: to_chars s). cbn [split_chars].
    rewrite decide_True by done. cbn [map]. rewrite app_nil_r, rev_involutive, of_to_chars. by rewrite IH.
Qed.

Lemma digits_value_digits l acc v : digits_value l acc = Some v -> Forall (fun c => is_digit c = true) l.
Proof.
  revert acc. induction l as [|c l IH]; intros acc; cbn; [constructor|]. destruct (is_digit c) eqn:E; [|done]. constructor; [done|by eapply IH].
Qed.

(** Reading back what %d writes. *)
Lemma Atoi_format z : - 2 ^ 63 <= z < 2 ^ 63 -> Atoi (format_int z) = Some z.
Proof.
  intros Hz. assert (Hr : forall v, 0 <= v <= 2 ^ 63 -> exists c l, to_chars (format_uint v) = c :: l /\ digits_value (c :: l) 0 = Some v /\ is_digit c = true).
  { intros v Hv. assert (Hp : ParseUint 64 (format_uint v) = Some v) by (apply ParseUint_format; lia).
    unfold ParseUint in Hp. destruct (to_chars (format_uint v)) as [|c l] eqn:E; [done|].
    destruct (digits_value (c :: l) 0) as [w|] eqn:Ed; [|done]. case_match; [|done]. injection Hp as ->.
    exists c, l. split_and!; [done|done|]. apply digits_value_digits in Ed. by apply Forall_cons in Ed as [? _]. }
  unfold Atoi, format_int. destruct (z <? 0) eqn:Es; bool_props.
  - destruct (Hr (- z)) as (c & l & E & Ed & _); [lia|].
    change (to_chars (String.append "-" (format_uint (- z)))) with ("-"%char :: to_chars (format_uint (- z))).
    cbv beta iota. rewrite decide_True by done. rewrite E, Ed. rewrite Z.opp_involutive.
    by rewrite (proj2 (Z.leb_le _ _)), (proj2 (Z.ltb_lt _ _)) by lia.
  - destruct (Hr z) as (c & l & E & Ed & Hd); [lia|]. rewrite E.
    rewrite !decide_False by (intros ->; done). rewrite Ed.
    by rewrite (proj2 (Z.leb_le _ _)), (proj2 (Z.ltb_lt _ _)) by lia.
Qed.

(** Texts without white space are not trimmed. *)
Lemma trim_none {A} (f : A -> bool) l : Forall (fun c => f c = false) l -> trim_by f l = l.
Proof.
  assert (Hd : forall k, Forall (fun c => f c = false) k -> drop_while f k = k) by (intros k [|x k' Hx Hk]; cbn; [done|by rewrite Hx]).
  intros Hl. unfold trim_by. rewrite (Hd l) by done. rewrite Hd; [apply rev_involutive|]. by apply Forall_rev.
Qed.

Lemma is_digit_space c : is_digit c = true -> is_space c = false.
Proof. by destruct c as [[] [] [] [] [] [] [] []]. Qed.

Lemma format_uint_digits v : 0 <= v < 2 ^ 64 -> Forall (fun c => is_digit c = true) (to_chars (format_uint v)).
Proof.
  intros Hv. assert (Hp : ParseUint 64 (format_uint v) = Some v) by by apply ParseUint_format.
  unfold ParseUint in Hp. destruct (to_chars (format_uint v)) as [|c l]; [done|].
  destruct (digits_value (c :: l) 0) eqn:E; [|done]. by eapply digits_value_digits.
Qed.

Lemma format_uint_trimmed v : 0 <= v < 2 ^ 64 -> TrimSpace (format_uint v) = format_uint v.
Proof.
  intros Hv. unfold TrimSpace. rewrite trim_none; [apply of_to_chars|].
  eapply Forall_impl; [by apply format_uint_digits|]. apply is_digit_space.
Qed.
Lemma format_int_trimmed z : - 2 ^ 63 <= z < 2 ^ 63 -> TrimSpace (format_int z) = format_int z.
Proof.
  intros Hz. unfold format_int. destruct (z <? 0) eqn:E; bool_props; [|apply format_uint_trimmed; lia].
  unfold TrimSpace. rewrite trim_none; [apply of_to_chars|].
  change (to_chars (String.append "-" (format_uint (- z)))) with ("-"%char :: to_chars (format_uint (- z))).
  constructor; [done|]. eapply Forall_impl; [apply format_uint_digits; lia|]. apply is_digit_space.
Qed.

(** ** Marshalling *)

(** A field of a struct; with [omitempty] an empty value is left out. *)
Definition omitempty (name : string) (empty : bool) (j : json) : list (string * json) := if empty then [] else [(name, j)].
Definition omit_string (name s : string) : list (string * json) := omitempty name (bool_decide (s = EmptyString)) (Str s).
Definition of_strings (l : list string) : json := Arr (map Str l).
Definition of_int (z : Z) : json := Num (format_int z).
Definition of_uint (z : Z) : json := Num (format_uint z).
(** The keys of a map are sorted. *)
Definition of_map {A} (f : A -> json) (m : gmap string A) : json :=
  Obj (map (fun kv => (kv.1, f kv.2)) (SortStableFunc (fun x y => Compare x.1 y.1) (map_to_list m))).
