(* ===== verification/TcpTransport.v ===== *)
(** * TcpTransport: the TCP and TLS transports
    (ygglib/transport/tcp.go, tls.go, tcp_helpers.go)

    With a source interface, a dial is bound to an address of the interface that
    suits the remote address, and falls back to an unbound one whenever the
    network, the interface or the name do not allow it.  What is modelled is the
    call that is made of the selected network; the network, netip.ParseAddr and
    the TLS handshake are parameters. *)

From S2P Require Import Prelude GoStd Json.

(** ** Networks *)

(** A network interface: its name and its addresses, as net.ParseCIDR reads them
    ([None]: not an address); the list is [None] when the call fails. *)
Record Interface := mkInterface { if_Name : string; if_Addrs : option (list (option bytes)) }.

Class Network (N : Type) := {
  InterfacesByName : N -> string -> option (list Interface);
  LookupIP : N -> string -> option (list (option bytes))          (* a nil IP is [None] *)
}.

Record TCPAddr := mkTCPAddr { IP : bytes; Port : Z; Zone : string }.

(** The call of the network that a transport ends in.  The addresses of DialTCP
    are passed as the text of a [TCPAddr]; no local address is the empty text. *)
Inductive call :=
| Dial (address : string)
| DialTCP (network : string) (local : option TCPAddr) (remote : TCPAddr)
| Listen (address : string) (bind : option Interface).           (* and SetBindToInterface *)

Inductive error := SourceInterfaceUnsupported | NetworkError | InterfaceNotFound | BadAddress | NoSuitableIP | NoAddrs | NoSuitableSource.

Section Tcp.
Context {N : Type} `{Network N}.
(** netip.ParseAddr: the bytes and the zone; whether sockets can be bound to an
    interface on this platform. *)
Context (ParseAddr : string -> option (bytes * string)) (BindToInterface : bool).

(** ** Helpers *)

(** [None] of the network is nil. *)
Definition getInterface (network : option N) (name : string) : result error (option Interface) :=
  if bool_decide (name = EmptyString) then Ok None
  else match network with
       | None => Err SourceInterfaceUnsupported
       | Some n => match InterfacesByName n name with
                   | None => Err NetworkError
                   | Some [] => Err InterfaceNotFound
                   | Some (i :: _) => Ok (Some i)
                   end
       end.

Definition network_of (ip : bytes) : string := match To4 ip with Some _ => "tcp4" | None => "tcp6" end.

Fixpoint first_suitable (ips : list (option bytes)) : option bytes :=
  match ips with
  | [] => None
  | None :: ips => first_suitable ips
  | Some ip :: ips => if IsUnspecified ip || IsMulticast ip then first_suitable ips else Some ip
  end.

Definition resolveTCPNetworkAndRemote (n : N) (u : URL) : result error (string * TCPAddr) :=
  match SplitHostPort (Host u) with
  | None => Err BadAddress
  | Some (host, portText) =>
      match Atoi portText with
      | None => Err BadAddress
      | Some port =>
          match ParseAddr host with
          | Some (ip, zone) => Ok (network_of ip, mkTCPAddr ip port zone)
          | None => match LookupIP n host with
                    | None => Err NetworkError
                    | Some ips => match first_suitable ips with
                                  | None => Err NoSuitableIP
                                  | Some ip => Ok (network_of ip, mkTCPAddr ip port EmptyString)
                                  end
                    end
          end
      end
  end.

(** Whether the loop over the addresses takes [src]; the condition that follows
    the last [continue] holds for what is left. *)
Definition suits (src remote : bytes) : bool :=
  if negb (IsGlobalUnicast src) && negb (IsLinkLocalUnicast src) then false
  else
    let bothGlobal := Bool.eqb (IsGlobalUnicast src) (IsGlobalUnicast remote) in
    let bothLinkLocal := Bool.eqb (IsLinkLocalUnicast src) (IsLinkLocalUnicast remote) in
    if negb bothGlobal && negb bothLinkLocal then false
    else Bool.eqb (bool_decide (is_Some (To4 src))) (bool_decide (is_Some (To4 remote))).
Fixpoint first_suiting (addrs : list (option bytes)) (remote : bytes) : option bytes :=
  match addrs with
  | [] => None
  | None :: addrs => first_suiting addrs remote
  | Some src :: addrs => if suits src remote then Some src else first_suiting addrs remote
  end.

(** The local address, or none; and the remote address, whose zone is set. *)
Definition localAddrForInterface (i : Interface) (remote : TCPAddr) (sintf : string) : result error (option TCPAddr) * TCPAddr :=
  let ll := IsLinkLocalUnicast (IP remote) in
  let remote := if ll && bool_decide (Zone remote = EmptyString) then mkTCPAddr (IP remote) (Port remote) sintf else remote in
  let scoped := ll && negb (bool_decide (Zone remote = EmptyString)) in
  (match if_Addrs i with
   | None => if scoped then Ok None else Err NoAddrs
   | Some addrs => match first_suiting addrs (IP remote) with
                   | Some src => Ok (Some (mkTCPAddr src 0 sintf))
                   | None => if scoped then Ok None else Err NoSuitableSource
                   end
   end, remote).

(** IsUnspecified of netip: of 0.0.0.0 and of :: without a zone. *)
Definition addr_IsUnspecified (ip : bytes) (zone : string) : bool :=
  forallb (Z.eqb 0) ip && bool_decide (zone = EmptyString).

Definition resolveListenAddrForInterfaceName (u : URL) (ifname : string) : string :=
  if bool_decide (ifname = EmptyString) then Host u
  else match SplitHostPort (Host u) with
       | None => Host u
       | Some (host, port) =>
           match ParseAddr host with
           | Some (ip, zone) =>
               if negb (addr_IsUnspecified ip zone) then
                 if IsLinkLocalUnicast ip && bool_decide (zone = EmptyString)
                 then JoinHostPort (String.append host (String.append "%" ifname)) port
                 else Host u
               else JoinHostPort host port
           | None => JoinHostPort host port
           end
       end.
Definition resolveListenAddr (u : URL) (i : option Interface) : string :=
  match i with None => Host u | Some i => resolveListenAddrForInterfaceName u (if_Name i) end.

(** ** Dial and Listen *)

Definition tcpListen (n : N) (u : URL) (sintf : string) : call :=
  if bool_decide (sintf = EmptyString) then Listen (Host u) None
  else match getInterface (Some n) sintf with
       | Err _ => Listen (resolveListenAddrForInterfaceName u sintf) None
       | Ok i => Listen (resolveListenAddr u i) (if BindToInterface then i else None)
       end.

Definition tcpDial (n : N) (u : URL) (sintf : string) : call :=
  if bool_decide (sintf = EmptyString) then Dial (Host u)
  else match getInterface (Some n) sintf with
       | Err _ | Ok None => Dial (Host u)
       | Ok (Some i) =>
           match resolveTCPNetworkAndRemote n u with
           | Err _ => Dial (Host u)
           | Ok (networkName, remote) =>
               match localAddrForInterface i remote sintf with
               | (Err _, _) => Dial (Host u)
               | (Ok local, remote) => DialTCP networkName local remote
               end
           end
       end.
End Tcp.

(** ** TLS *)

Section Tls.
(** net.ParseIP *)
Context (is_ip : string -> bool).

(** The server name of the client's configuration: that of the URL, of the given
    configuration, or the host of the URL. *)
Definition serverName (u : URL) (configured : string) : string :=
  let sni := query_get (Query u) "sni" in
  if negb (bool_decide (sni = EmptyString)) && negb (is_ip sni) then sni
  else if bool_decide (configured = EmptyString) then
    let host := Hostname u in
    if negb (bool_decide (host = EmptyString)) && negb (is_ip host) then host else configured
  else configured.

Inductive tls_effect := TcpDialed | Handshake (name : string) | Closed.
(** Whether there is a connection, and what was done; a connection whose handshake
    fails is closed. *)
Definition tls_Dial (u : URL) (configured : option string) (dialed handshake : bool) : bool * list tls_effect :=
  if negb dialed then (false, [])
  else
    let name := serverName u (default EmptyString configured) in
    if handshake then (true, [TcpDialed; Handshake name]) else (false, [TcpDialed; Handshake name; Closed]).
End Tls.

(** ** Theorems *)

Section Theorems.
Context {N : Type} `{Network N}.
Context (ParseAddr : string -> option (bytes * string)) (BindToInterface : bool).

Lemma GlobalUnicast_not_LinkLocal ip : IsGlobalUnicast ip = true -> IsLinkLocalUnicast ip = false.
Proof. unfold IsGlobalUnicast. destruct (IsLinkLocalUnicast ip); [by rewrite !andb_false_r|done]. Qed.

Lemma first_suiting_spec addrs remote src : first_suiting addrs remote = Some src -> Some src ∈ addrs /\ suits src remote = true.
Proof.
  induction addrs as [|[x|] addrs IH]; cbn [first_suiting]; [done| |].
  - destruct (suits x remote) eqn:E; [intros [= <-]; split; [left|done]|]. intros H1. destruct (IH H1). split; [by right|done].
  - intros H1. destruct (IH H1). split; [by right|done].
Qed.

(** A source for a remote address that can be reached from elsewhere is of the
    same family and of the same scope. *)
Lemma suits_spec src remote : IsGlobalUnicast remote = true \/ IsLinkLocalUnicast remote = true ->
  suits src remote = true <->
  (To4 src = None <-> To4 remote = None) /\ IsLinkLocalUnicast src = IsLinkLocalUnicast remote /\ IsGlobalUnicast src = IsGlobalUnicast remote.
Proof.
  intros Hr. unfold suits.
  assert (Hf : Bool.eqb (bool_decide (is_Some (To4 src))) (bool_decide (is_Some (To4 remote))) = true <-> (To4 src = None <-> To4 remote = None)).
  { rewrite Bool.eqb_true_iff. destruct (To4 src), (To4 remote); vm_compute; intuition congruence. }
  pose proof (GlobalUnicast_not_LinkLocal src) as Hs. pose proof (GlobalUnicast_not_LinkLocal remote) as Hm.
  destruct (IsGlobalUnicast src), (IsLinkLocalUnicast src), (IsGlobalUnicast remote), (IsLinkLocalUnicast remote); cbn -[bool_decide];
    try (destruct Hr; congruence); try (by specialize (Hs eq_refl)); try (by specialize (Hm eq_refl)); rewrite ?Hf; intuition congruence.
Qed.

(** In any case the family is the same. *)
Lemma suits_family src remote : suits src remote = true -> To4 src = None <-> To4 remote = None.
Proof.
  unfold suits. destruct (negb _ && negb _); [done|]. destruct (negb _ && negb _); [done|]. rewrite Bool.eqb_true_iff.
  destruct (To4 src), (To4 remote); vm_compute; intuition congruence.
Qed.

Lemma first_suiting_exists addrs remote src : Some src ∈ addrs -> suits src remote = true -> is_Some (first_suiting addrs remote).
Proof.
  intros Hin Hs. induction addrs as [|x addrs IH]; [by apply elem_of_nil in Hin|]. cbn [first_suiting].
  apply elem_of_cons in Hin as [<-|Hin]; [by rewrite Hs|]. destruct x as [x|]; [|by apply IH]. destruct (suits x remote); [done|by apply IH].
Qed.

Lemma first_suitable_in ips ip : first_suitable ips = Some ip -> Some ip ∈ ips.
Proof.
  intros Ef. induction ips as [|[x|] ips IH]; cbn [first_suitable] in Ef; [done| |right; by apply IH].
  destruct (IsUnspecified x || IsMulticast x); [right; by apply IH|]. injection Ef as <-. left.
Qed.

(** What the host of the URL stands for: an address with a zone, or an address of
    a name. *)
Definition host_address (n : N) (u : URL) (ip : bytes) (port : Z) (zone : string) : Prop :=
  exists host portText, SplitHostPort (Host u) = Some (host, portText) /\ Atoi portText = Some port /\
    (ParseAddr host = Some (ip, zone) \/
     (exists ips, ParseAddr host = None /\ LookupIP n host = Some ips /\ Some ip ∈ ips /\ zone = EmptyString)).

Lemma resolve_address n u net remote : resolveTCPNetworkAndRemote ParseAddr n u = Ok (net, remote) ->
  net = network_of (IP remote) /\ host_address n u (IP remote) (Port remote) (Zone remote).
Proof.
  unfold resolveTCPNetworkAndRemote, host_address. destruct (SplitHostPort (Host u)) as [[host port]|]; [|done].
  destruct (Atoi port) as [p|] eqn:Ep; [|done]. destruct (ParseAddr host) as [[ip zone]|] eqn:Ea.
  - intros [= <- <-]. split; [done|]. exists host, port. by split_and!; [| |left].
  - destruct (LookupIP n host) as [ips|] eqn:El; [|done]. destruct (first_suitable ips) as [ip|] eqn:Ef; [|done]. intros [= <- <-].
    split; [done|]. exists host, port. split_and!; [done|done|]. right. exists ips. by apply first_suitable_in in Ef.
Qed.

(** The local address that may be taken for a remote one. *)
Definition local_for (i : Interface) (sintf : string) (remote : bytes) (local : option TCPAddr) : Prop :=
  match local with
  | None => IsLinkLocalUnicast remote = true
  | Some a => Port a = 0 /\ Zone a = sintf /\ (exists addrs, if_Addrs i = Some addrs /\ Some (IP a) ∈ addrs) /\ suits (IP a) remote = true
  end.

Lemma localAddr_spec i remote sintf local remote' : sintf <> EmptyString ->
  localAddrForInterface i remote sintf = (Ok local, remote') ->
  remote' = mkTCPAddr (IP remote) (Port remote)
    (if IsLinkLocalUnicast (IP remote) && bool_decide (Zone remote = EmptyString) then sintf else Zone remote) /\
  local_for i sintf (IP remote) local.
Proof.
  intros Hs. unfold localAddrForInterface, local_for. cbv zeta. destruct remote as [ip port zone]; cbn [IP Port Zone].
  assert (Eip : forall b : bool, IP (if b then mkTCPAddr ip port sintf else mkTCPAddr ip port zone) = ip) by by intros [].
  rewrite Eip. intros [= El <-]. split; [by destruct (IsLinkLocalUnicast ip && bool_decide (zone = EmptyString))|].
  destruct (if_Addrs i) as [addrs|].
  - destruct (first_suiting addrs ip) as [src|] eqn:Ef.
    + injection El as <-. apply first_suiting_spec in Ef as [H1 H2]. split_and!; [done|done|by exists addrs|done].
    + destruct (IsLinkLocalUnicast ip); [|done]. cbn [andb] in El. destruct (negb _) in El; by simplify_eq.
  - destruct (IsLinkLocalUnicast ip); [|done]. cbn [andb] in El. destruct (negb _) in El; by simplify_eq.
Qed.

(** C34: a dial with a source interface is a hint.  It is either the plain dial of
    the URL's host, or one of an address of that host, on the port and with the
    family that are named, from an address of the interface of the same family;
    for a remote address that is global or link-local this source also has its
    scope, for any other (loopback) it may have either.  A link-local remote
    address has the zone that was given or else that of the interface, and only
    then may the local address be left open.  The dial is not the plain one when
    the interface has an address of the family and scope of a global or link-local
    address which the URL names. *)
Theorem tcpDial_spec (n : N) u sintf :
  match tcpDial ParseAddr n u sintf with
  | Dial a => a = Host u
  | Listen _ _ => False
  | DialTCP net local remote =>
      sintf <> EmptyString /\ net = network_of (IP remote) /\
      exists i rest zone, InterfacesByName n sintf = Some (i :: rest) /\ host_address n u (IP remote) (Port remote) zone /\
        Zone remote = (if IsLinkLocalUnicast (IP remote) && bool_decide (zone = EmptyString) then sintf else zone) /\
        match local with
        | None => IsLinkLocalUnicast (IP remote) = true
        | Some a => Port a = 0 /\ Zone a = sintf /\ (exists addrs, if_Addrs i = Some addrs /\ Some (IP a) ∈ addrs) /\
            (To4 (IP a) = None <-> To4 (IP remote) = None) /\
            (IsGlobalUnicast (IP remote) = true \/ IsLinkLocalUnicast (IP remote) = true ->
             IsLinkLocalUnicast (IP a) = IsLinkLocalUnicast (IP remote) /\ IsGlobalUnicast (IP a) = IsGlobalUnicast (IP remote))
        end
  end /\
  (forall i rest addrs src host portText port ip zone,
     sintf <> EmptyString -> InterfacesByName n sintf = Some (i :: rest) -> if_Addrs i = Some addrs -> Some src ∈ addrs ->
     SplitHostPort (Host u) = Some (host, portText) -> Atoi portText = Some port -> ParseAddr host = Some (ip, zone) ->
     IsGlobalUnicast ip = true \/ IsLinkLocalUnicast ip = true ->
     (To4 src = None <-> To4 ip = None) -> IsLinkLocalUnicast src = IsLinkLocalUnicast ip -> IsGlobalUnicast src = IsGlobalUnicast ip ->
     exists local remote, tcpDial ParseAddr n u sintf = DialTCP (network_of ip) (Some local) remote /\ IP remote = ip /\ Port remote = port).
Proof.
  split.
  - unfold tcpDial. case_bool_decide as Hs; [done|]. unfold getInterface. rewrite bool_decide_false by done.
    destruct (InterfacesByName n sintf) as [[|i rest]|] eqn:Ei; [done| |done].
    destruct (resolveTCPNetworkAndRemote ParseAddr n u) as [[net remote]|] eqn:Er; [|done].
    destruct (localAddrForInterface i remote sintf) as [[local|] remote'] eqn:El; [|done].
    apply resolve_address in Er as [-> Hh]. apply localAddr_spec in El as [-> Hl]; [|done]. cbn [IP Port Zone].
    split_and!; [done|done|]. exists i, rest, (Zone remote). split_and!; [done|done|done|]. destruct local as [a|]; [|done].
    destruct Hl as (H1 & H2 & H3 & H4). split_and!; [done..|by apply suits_family|]. intros Hg. by apply (suits_spec _ _ Hg) in H4 as (_ & ? & ?).
  - intros i rest addrs src host portText port ip zone Hs Hi Ha Hin Hh Hp Hip Hg Hf Hl Hgl.
    unfold tcpDial, getInterface. rewrite (bool_decide_false _ Hs), Hi. unfold resolveTCPNetworkAndRemote. rewrite Hh, Hp, Hip.
    unfold localAddrForInterface. cbv zeta. cbn [IP Port Zone]. rewrite Ha.
    assert (Eip : forall b : bool, IP (if b then mkTCPAddr ip port sintf else mkTCPAddr ip port zone) = ip) by by intros [].
    rewrite Eip. destruct (first_suiting_exists addrs ip src Hin) as [s ->]; [by apply (suits_spec _ _ Hg)|].
    eexists _, _. split; [reflexivity|]. by destruct (_ && _).
Qed.

(** The name that is checked against the certificate of the peer and sent to it
    in the clear is never an IP address, unless the configuration has one. *)
Theorem serverName_spec is_ip u configured :
  let name := serverName is_ip u configured in
  (name <> configured -> name <> EmptyString /\ is_ip name = false) /\
  (let sni := query_get (Query u) "sni" in sni <> EmptyString -> is_ip sni = false -> name = sni) /\
  (is_ip (Hostname u) = false -> Hostname u <> EmptyString -> query_get (Query u) "sni" = EmptyString -> configured = EmptyString -> name = Hostname u).
Proof.
  cbv zeta. unfold serverName. set (sni := query_get (Query u) "sni").
  destruct (bool_decide (sni = EmptyString)) eqn:E1; destruct (is_ip sni) eqn:E2; destruct (bool_decide (configured = EmptyString)) eqn:E3;
    destruct (bool_decide (Hostname u = EmptyString)) eqn:E4; destruct (is_ip (Hostname u)) eqn:E5; cbn [negb andb]; bool_props;
    (split_and!; intros; [split; congruence|congruence|congruence]).
Qed.
End Theorems.

(** ** Concrete runs: those of linklocal_test.go *)

Module Sample.
Definition ll (x : Z) : bytes := [254; 128] ++ replicate 13 0 ++ [x].
(** An interface eth0 with one link-local address, and a resolver. *)
#[local] Instance network : Network unit := {|
  InterfacesByName _ name := if bool_decide (name = "eth0"%string) then Some [mkInterface "eth0" (Some [None; Some [10; 0; 0; 1]; Some (ll 2)])] else Some [];
  LookupIP _ _ := Some [None; Some (replicate 16 0); Some [10; 0; 0; 9]]
|}.
Definition ParseAddr (s : string) : option (bytes * string) :=
  if bool_decide (s = "fe80::1"%string) then Some (ll 1, EmptyString)
  else if bool_decide (s = "fe80::1%eth9"%string) then Some (ll 1, "eth9"%string) else None.
Definition listen (host sintf : string) : call := tcpListen ParseAddr false tt (mkURL "tcp" host EmptyString EmptyString []) sintf.
Definition dial (host sintf : string) : call := tcpDial ParseAddr tt (mkURL "tcp" host EmptyString EmptyString []) sintf.
End Sample.

Example dial_unscoped : Sample.dial "[fe80::1]:9001" "eth0" =
  DialTCP "tcp6" (Some (mkTCPAddr (Sample.ll 2) 0 "eth0")) (mkTCPAddr (Sample.ll 1) 9001 "eth0").
Proof. vm_compute. reflexivity. Qed.
Example dial_explicit_zone : Sample.dial "[fe80::1%eth9]:9001" "eth0" =
  DialTCP "tcp6" (Some (mkTCPAddr (Sample.ll 2) 0 "eth0")) (mkTCPAddr (Sample.ll 1) 9001 "eth9").
Proof. vm_compute. reflexivity. Qed.
Example dial_by_name : Sample.dial "peer.example:9001" "eth0" =
  DialTCP "tcp4" (Some (mkTCPAddr [10; 0; 0; 1] 0 "eth0")) (mkTCPAddr [10; 0; 0; 9] 9001 EmptyString).
Proof. vm_compute. reflexivity. Qed.
Example listen_unscoped : Sample.listen "[fe80::1]:9001" "eth0" = Listen "[fe80::1%eth0]:9001" None.
Proof. vm_compute. reflexivity. Qed.
Example listen_explicit_zone : Sample.listen "[fe80::1%eth9]:9001" "eth0" = Listen "[fe80::1%eth9]:9001" None.
Proof. vm_compute. reflexivity. Qed.
Example dial_falls_back : Sample.dial "[fe80::1]:9001" "eth1" = Dial "[fe80::1]:9001".
Proof. vm_compute. reflexivity. Qed.
