(* ===== verification/LinkTransport.v ===== *)
(** * LinkTransport: the UNIX, WebSocket and QUIC transports
    (yggd/linktransport/unix.go, ws.go, quic.go)

    A dial is a function of the outcomes of the calls that can fail; it records
    what it opens and closes.  A listener is a transition system: the goroutine
    that accepts QUIC connections, the goroutines of net/http that serve
    WebSocket requests, the callers of [Accept], [Close] and the cancellation of
    the context.  quic-go, coder/websocket, net/http and the sockets are
    parameters: what they do is an event. *)

From S2P Require Import Prelude GoStd TcpTransport.

(** ** UNIX *)

Module Unix.
(** The sockets of the system are used, not the selected network. *)
Inductive call := DialUnix (path : string) | ListenUnix (path : string).
(** ResolveUnixAddr accepts every path. *)
Definition Dial (u : URL) : call := DialUnix (Path u).
Definition Listen (u : URL) : call := ListenUnix (Path u).
End Unix.

(** ** QUIC *)

Module Quic.
Section Dial.
Context (is_ip : string -> bool).

(** The server name of cloneTLSConfig; versions 1.2 to 1.3 of TLS. *)
Definition cloneTLSConfig (u : URL) (configured : option string) : string := serverName is_ip u (default EmptyString configured).

Inductive effect :=
| ResolveUDPAddr (host : string)                 (* by the resolver of the system *)
| OpenPacket (address : string) | ClosePacket
| DialQuic (name : string) (ok : bool) | CloseQuic (code : Z) | OpenStream | CloseStream.

Record outcomes := mkOutcomes {
  resolved : option bytes;                       (* the remote IP, possibly empty *)
  packet_ok : bool; quic_ok : bool; stream_ok : bool
}.

Definition local_of (remote : bytes) : string :=
  if negb (bool_decide (remote = [])) && bool_decide (To4 remote = None) then "[::]:0" else "0.0.0.0:0".

Definition Dial (u : URL) (configured : option string) (o : outcomes) : bool * list effect :=
  match resolved o with
  | None => (false, [ResolveUDPAddr (Host u)])
  | Some ip =>
      let start := [ResolveUDPAddr (Host u); OpenPacket (local_of ip)] in
      if negb (packet_ok o) then (false, [ResolveUDPAddr (Host u)])
      else
        let start := start ++ [DialQuic (cloneTLSConfig u configured) (quic_ok o)] in
        if negb (quic_ok o) then (false, start ++ [ClosePacket])
        else if negb (stream_ok o) then (false, start ++ [OpenStream; CloseQuic 1])
        else (true, start ++ [OpenStream])
  end.

(** Close of a [quicStreamConn]: its effects, and which error is returned. *)
Definition Close (stream_err quic_err : option Z) : option Z * list effect :=
  (match stream_err with Some e => Some e | None => quic_err end, [CloseStream; CloseQuic 0]).

(** What is open after the effects: the packet connection and the QUIC one. *)
Definition step_open (s : bool * bool) (e : effect) : bool * bool :=
  match e with
  | OpenPacket _ => (true, s.2) | ClosePacket => (false, s.2)
  | DialQuic _ ok => (s.1, ok) | CloseQuic _ => (s.1, false)
  | _ => s
  end.
Definition open_after (es : list effect) : bool * bool := fold_left step_open es (false, false).
End Dial.

(** *** The listener *)

(** Where [acceptLoop] stands: in Accept of the QUIC listener, in AcceptStream of
    a connection, in the select that hands one over, at its end. *)
Inductive loop := InAccept | InStream (c : Z) | Offering (c : Z) | Done.

Record listener := mkListener {
  acceptLoop : loop;
  listener_closed : bool; transport_closed : bool; packet_closed : bool;
  ctx_done : bool;
  pending : list Z;                  (* connections that the QUIC listener has not handed out *)
  delivered : list Z; closed : gset Z
}.
Definition new_listener : listener := mkListener InAccept false false false false [] [] ∅.

(** l.ch is closed by the deferred statement of the loop. *)
Definition ch_closed (l : listener) : bool := match acceptLoop l with Done => true | _ => false end.

Definition goto (p : loop) (l : listener) : listener :=
  mkListener p (listener_closed l) (transport_closed l) (packet_closed l) (ctx_done l) (pending l) (delivered l) (closed l).
Definition close_conn (c : Z) (l : listener) : listener :=
  mkListener (acceptLoop l) (listener_closed l) (transport_closed l) (packet_closed l) (ctx_done l) (pending l) (delivered l) ({[c]} ∪ closed l).

Inductive event :=
| Arrives (c : Z)                    (* a client completes the QUIC handshake *)
| Accepted                           (* Accept of the QUIC listener returns the first pending connection *)
| AcceptFails                        (* it returns an error *)
| Streams | StreamFails              (* AcceptStream returns *)
| Delivers                           (* a caller of Accept receives *)
| Cancelled                          (* the loop sees the end of the context while it offers *)
| Cancel | CloseListener.

(** AcceptStream fails when the context ends, the connection dies or the
    transport is closed. *)
Definition exec (e : event) (l : listener) : option listener :=
  match e, acceptLoop l with
  | Arrives c, _ =>
      if listener_closed l then None
      else Some (mkListener (acceptLoop l) false (transport_closed l) (packet_closed l) (ctx_done l) (pending l ++ [c]) (delivered l) (closed l))
  | Accepted, InAccept =>
      match pending l with
      | [] => None
      | c :: cs => Some (mkListener (InStream c) (listener_closed l) (transport_closed l) (packet_closed l) (ctx_done l) cs (delivered l) (closed l))
      end
  | AcceptFails, InAccept => Some (goto (if ctx_done l || listener_closed l then Done else InAccept) l)
  | Streams, InStream c => Some (goto (Offering c) l)
  | StreamFails, InStream c => Some (close_conn c (goto InAccept l))
  | Delivers, Offering c =>
      Some (mkListener InAccept (listener_closed l) (transport_closed l) (packet_closed l) (ctx_done l) (pending l) (delivered l ++ [c]) (closed l))
  | Cancelled, Offering c => if ctx_done l then Some (close_conn c (goto Done l)) else None
  | Cancel, _ => Some (mkListener (acceptLoop l) (listener_closed l) (transport_closed l) (packet_closed l) true (pending l) (delivered l) (closed l))
  | CloseListener, _ => Some (mkListener (acceptLoop l) true true true (ctx_done l) (pending l) (delivered l) (closed l))
  | _, _ => None
  end.

Fixpoint execs (es : list event) (l : listener) : option listener :=
  match es with [] => Some l | e :: es => l ← exec e l; execs es l end.

(** *** Theorems *)

(** A dial that fails leaves no QUIC connection, and one that succeeds leaves
    one until it is closed; but the UDP socket is closed only when the QUIC
    handshake fails: it outlives a dial whose stream cannot be opened, and the
    closing of every connection that was dialed. *)
Theorem quic_dial_resources is_ip u configured o e1 e2 :
  let '(ok, es) := Dial is_ip u configured o in
  ok = bool_decide (is_Some (resolved o)) && packet_ok o && quic_ok o && stream_ok o /\
  open_after es = (bool_decide (is_Some (resolved o)) && packet_ok o && quic_ok o, ok) /\
  (ok = true -> open_after (es ++ (Close e1 e2).2) = (true, false)).
Proof.
  unfold Dial. destruct (resolved o) as [ip|]; [|split_and!; done].
  destruct (packet_ok o); [|split_and!; done]. destruct (quic_ok o); [|split_and!; done]. destruct (stream_ok o); split_and!; done.
Qed.

Definition held (l : listener) : list Z := match acceptLoop l with InStream c | Offering c => [c] | _ => [] end.
Definition arrivals (es : list event) : list Z := omap (fun e => match e with Arrives c => Some c | _ => None end) es.

(** The invariant of the listener, after connections [cs] arrived. *)
Definition accounted (cs : list Z) (l : listener) : Prop :=
  delivered l ++ held l ++ pending l `sublist_of` cs /\
  (forall c, c ∈ cs -> c ∈ delivered l \/ c ∈ held l \/ c ∈ pending l \/ c ∈ closed l).

Lemma accounted_step e l l' cs : accounted cs l -> exec e l = Some l' -> accounted (cs ++ arrivals [e]) l'.
Proof.
  intros [Hs Hc] He. unfold accounted, held in *. destruct e; cbn [arrivals omap list_omap] in *; rewrite ?app_nil_r; cbn [exec] in He.
  1: { assert (He' : l' = mkListener (acceptLoop l) false (transport_closed l) (packet_closed l) (ctx_done l) (pending l ++ [c]) (delivered l) (closed l)).
       { destruct (acceptLoop l), (listener_closed l); congruence. }
       subst l'. cbn. split; [rewrite !(assoc_L (++)) in *; by apply sublist_app|]. set_solver. }
  all: destruct (acceptLoop l) as [|x|x|] eqn:El; try discriminate He.
  all: try (injection He as <-; cbn; rewrite ?El; by split).
  - destruct (pending l) as [|c cs'] eqn:Ep; [done|]. injection He as <-. cbn. split; [exact Hs|set_solver].
  - injection He as <-. cbn. destruct (ctx_done l || listener_closed l); by split.
  - injection He as <-. cbn. split; [|set_solver]. etrans; [|exact Hs]. apply sublist_app; [done|]. by apply sublist_cons.
  - injection He as <-. cbn. split; [by rewrite <-(assoc_L (++))|set_solver].
  - destruct (ctx_done l); [|done]. injection He as <-. cbn. split; [|set_solver]. etrans; [|exact Hs]. apply sublist_app; [done|]. by apply sublist_cons.
Qed.

(** C38: a QUIC connection is never lost: each one that arrived at the listener waits
    in the library, is held by the loop, was handed to a caller of Accept or was
    closed; they are handed over in the order of their arrival, and once the loop
    has ended it holds none and Accept returns an error for good. *)
Theorem quic_connections_accounted es l :
  execs es new_listener = Some l ->
  delivered l `sublist_of` arrivals es /\
  (forall c, Arrives c ∈ es -> c ∈ delivered l \/ c ∈ held l \/ c ∈ pending l \/ c ∈ closed l) /\
  (ch_closed l = true -> held l = [] /\ forall es' l', execs es' l = Some l' -> ch_closed l' = true /\ delivered l' = delivered l).
Proof.
  intros He. assert (Ha : accounted (arrivals es) l).
  { assert (H : forall es cs l0, accounted cs l0 -> forall l, execs es l0 = Some l -> accounted (cs ++ arrivals es) l).
    { clear. intros es. induction es as [|e es IH]; intros cs l0 H l; cbn [execs].
      - intros [= <-]. cbn. by rewrite app_nil_r.
      - intros (l1 & He & Hes)%bind_Some. apply (accounted_step _ _ _ _ H) in He. apply (IH _ _ He) in Hes.
        replace (cs ++ arrivals (e :: es)) with ((cs ++ arrivals [e]) ++ arrivals es); [done|].
        rewrite <-(assoc_L (++)). f_equal. unfold arrivals. by destruct e. }
    apply (H es [] new_listener); [by split; [|set_solver]|done]. }
  destruct Ha as [Hs Hc]. split; [etrans; [|exact Hs]; by apply sublist_inserts_r|]. split.
  - intros c Hin. apply Hc. unfold arrivals. apply list_elem_of_omap. by exists (Arrives c).
  - intros Hd. unfold ch_closed in Hd. split; [unfold held; by destruct (acceptLoop l)|].
    intros es' l' Hes'. clear He Hs Hc. revert l Hd Hes'. induction es' as [|e es' IH]; intros l Hd; cbn [execs].
    + intros [= <-]. by split.
    + intros (l1 & He & Hes')%bind_Some. destruct (acceptLoop l) eqn:El; try done.
      assert (acceptLoop l1 = Done /\ delivered l1 = delivered l) as [H1 H2].
      { destruct e; cbn [exec] in He; rewrite El in He; try done; [destruct (listener_closed l); [done|]|..]; by injection He as <-. }
      rewrite <-H2. apply IH; [by rewrite H1|done].
Qed.

(** A client that completes the handshake and never opens a stream stops the
    listener: until its connection fails no other connection, however many
    arrive, is handed over or looked at. *)
Theorem silent_client_blocks es c l l' :
  acceptLoop l = InStream c -> execs es l = Some l' -> (forall e, e ∈ es -> e <> Streams /\ e <> StreamFails) ->
  acceptLoop l' = InStream c /\ delivered l' = delivered l /\ pending l' = pending l ++ arrivals es.
Proof.
  revert l. induction es as [|e es IH]; intros l Hl; cbn [execs].
  - intros [= <-] _. cbn. by rewrite app_nil_r.
  - intros (l1 & He & Hes)%bind_Some Hno. assert (H : acceptLoop l1 = InStream c /\ delivered l1 = delivered l /\ pending l1 = pending l ++ arrivals [e]).
    { destruct (Hno e) as [H1 H2]; [left|]. destruct e; cbn [exec] in He; rewrite Hl in He; try done; try (injection He as <-; cbn; by rewrite app_nil_r).
      destruct (listener_closed l); [done|]. by injection He as <-. }
    destruct H as (H1 & H2 & H3). destruct (IH l1 H1 Hes) as (E1 & E2 & E3); [intros x Hx; apply Hno; by right|].
    split_and!; [done|congruence|]. rewrite E3, H3, <-(assoc_L (++)). f_equal. unfold arrivals. by destruct e.
Qed.
End Quic.

(** ** WebSocket *)

Module Ws.
Definition websocketSubprotocol : string := "ygg-ws".

(** The server name of a wss dial. *)
Definition wss_Dial (is_ip : string -> bool) (u : URL) (configured : option string) : string := serverName is_ip u (default EmptyString configured).
Definition wss_Listen : option unit := None.      (* not supported *)

Record AcceptOptions := mkAcceptOptions { Subprotocols : list string; InsecureSkipVerify : bool; OriginPatterns : list string }.
Fixpoint origins (l : list string) (acc : list string) : bool * list string :=
  match l with
  | [] => (false, acc)
  | origin :: l =>
      let origin := TrimSpace origin in
      if bool_decide (origin = EmptyString) then origins l acc
      else if bool_decide (origin = "*"%string) then (true, [])
      else origins l (acc ++ [origin])
  end.
Definition websocketAcceptOptions (u : URL) : AcceptOptions :=
  let '(insecure, patterns) := origins (query_all (Query u) "origin") [] in
  mkAcceptOptions [websocketSubprotocol] insecure patterns.

(** *** The listener

    A request is served by a goroutine of net/http.  A panic of it is recovered
    there, and a connection that was taken over is left as it is. *)
Inductive handler := Upgrading | Offering (c : Z) | Finished | Panicked (c : Z).

Record listener := mkListener {
  handlers : gmap Z handler;
  ch_closed : bool; ctx_done : bool; closing : bool;
  delivered : list Z; closed : gset Z; health_checks : Z
}.
Definition new_listener : listener := mkListener ∅ false false false [] ∅ 0.

Definition set_handler (r : Z) (h : handler) (l : listener) : listener :=
  mkListener (<[r := h]> (handlers l)) (ch_closed l) (ctx_done l) (closing l) (delivered l) (closed l) (health_checks l).
Definition close_conn (c : Z) (l : listener) : listener :=
  mkListener (handlers l) (ch_closed l) (ctx_done l) (closing l) (delivered l) ({[c]} ∪ closed l) (health_checks l).

Inductive event :=
| Request (r : Z) (path : string)
| UpgradeFails (r : Z)
| Upgraded (r c : Z) (subprotocol : string)
| Delivers (r : Z)                     (* a caller of Accept receives *)
| GoesAway (r : Z)                     (* the handler sees the end of the context *)
| Sends (r : Z)                        (* it sends although the channel is closed *)
| Cancel
| CloseListener                        (* Close: Serve is told to return *)
| ListenerFails                        (* the listener of the network fails, and so does Serve *)
| ServeReturns.                        (* and the channel is closed *)

Definition exec (e : event) (l : listener) : option listener :=
  match e with
  | Request r path =>
      match handlers l !! r with
      | Some _ => None
      | None => if bool_decide (path ∈ ["/health"; "/healthz"]%string)
                then Some (mkListener (<[r := Finished]> (handlers l)) (ch_closed l) (ctx_done l) (closing l) (delivered l) (closed l) (health_checks l + 1))
                else Some (set_handler r Upgrading l)
      end
  | UpgradeFails r => match handlers l !! r with Some Upgrading => Some (set_handler r Finished l) | _ => None end
  | Upgraded r c subprotocol =>
      match handlers l !! r with
      | Some Upgrading =>
          if bool_decide (subprotocol = websocketSubprotocol) then Some (set_handler r (Offering c) l)
          else Some (close_conn c (set_handler r Finished l))
      | _ => None
      end
  | Delivers r =>
      match handlers l !! r with
      | Some (Offering c) =>
          if ch_closed l then None
          else Some (mkListener (<[r := Finished]> (handlers l)) (ch_closed l) (ctx_done l) (closing l) (delivered l ++ [c]) (closed l) (health_checks l))
      | _ => None
      end
  | GoesAway r =>
      match handlers l !! r with
      | Some (Offering c) => if ctx_done l then Some (close_conn c (set_handler r Finished l)) else None
      | _ => None
      end
  | Sends r =>
      match handlers l !! r with
      | Some (Offering c) => if ch_closed l then Some (set_handler r (Panicked c) l) else None
      | _ => None
      end
  | Cancel => Some (mkListener (handlers l) (ch_closed l) true (closing l) (delivered l) (closed l) (health_checks l))
  | CloseListener | ListenerFails => Some (mkListener (handlers l) (ch_closed l) (ctx_done l) true (delivered l) (closed l) (health_checks l))
  | ServeReturns =>
      if ch_closed l || negb (closing l) then None
      else Some (mkListener (handlers l) true (ctx_done l) (closing l) (delivered l) (closed l) (health_checks l))
  end.

Fixpoint execs (es : list event) (l : listener) : option listener :=
  match es with [] => Some l | e :: es => l ← exec e l; execs es l end.
Inductive reach : listener -> Prop :=
| reach_new : reach new_listener
| reach_exec l e l' : reach l -> exec e l = Some l' -> reach l'.

(** *** Theorems *)

Lemma origins_spec l acc : origins l acc =
  if bool_decide ("*"%string ∈ map TrimSpace l) then (true, []) else (false, acc ++ base.filter (fun o => o <> EmptyString) (map TrimSpace l)).
Proof.
  revert acc. induction l as [|o l IH]; intros acc; cbn [origins map].
  { rewrite bool_decide_false by (intros H; by apply elem_of_nil in H). by rewrite app_nil_r. }
  rewrite filter_cons. destruct (decide (TrimSpace o = EmptyString)) as [E1|E1].
  - rewrite (bool_decide_true _ E1), IH, decide_False by tauto. rewrite E1.
    replace (bool_decide ("*"%string ∈ EmptyString :: map TrimSpace l)) with (bool_decide ("*"%string ∈ map TrimSpace l)); [done|].
    apply bool_decide_ext. rewrite elem_of_cons. naive_solver.
  - rewrite (bool_decide_false _ E1), (decide_True (P := TrimSpace o <> EmptyString)) by done.
    destruct (decide (TrimSpace o = "*"%string)) as [E2|E2].
    + rewrite (bool_decide_true _ E2), E2, (bool_decide_true ("*"%string ∈ "*"%string :: _)) by left. done.
    + rewrite (bool_decide_false _ E2), IH.
      replace (bool_decide ("*"%string ∈ TrimSpace o :: map TrimSpace l)) with (bool_decide ("*"%string ∈ map TrimSpace l)).
      * by rewrite <-(assoc_L (++)).
      * apply bool_decide_ext. rewrite elem_of_cons. naive_solver.
Qed.

(** Browsers of other origins are let in exactly as the URL says: by any origin
    when one of the values is "*", wherever it stands, and otherwise by the
    patterns in their order, without the empty ones. *)
Theorem accept_options_spec u :
  let l := map TrimSpace (query_all (Query u) "origin") in
  Subprotocols (websocketAcceptOptions u) = [websocketSubprotocol] /\
  (InsecureSkipVerify (websocketAcceptOptions u) = true <-> "*"%string ∈ l) /\
  OriginPatterns (websocketAcceptOptions u) = if bool_decide ("*"%string ∈ l) then [] else base.filter (fun o => o <> EmptyString) l.
Proof.
  cbv zeta. unfold websocketAcceptOptions. rewrite origins_spec. case_bool_decide; by split_and!.
Qed.

(** Every connection that speaks the protocol. *)
Definition owed (es : list event) : list Z :=
  omap (fun e => match e with Upgraded _ c s => if bool_decide (s = websocketSubprotocol) then Some c else None | _ => None end) es.
Definition settled (l : listener) (c : Z) : Prop :=
  c ∈ delivered l \/ c ∈ closed l \/ exists r, handlers l !! r = Some (Offering c) \/ handlers l !! r = Some (Panicked c).

Lemma settled_step e l l' c : exec e l = Some l' -> settled l c -> settled l' c.
Proof.
  assert (Hins : forall (m : gmap Z handler) r h c, (exists r', m !! r' = Some (Offering c) \/ m !! r' = Some (Panicked c)) ->
    (forall h', m !! r = Some h' -> h' <> Offering c /\ h' <> Panicked c) ->
    exists r', <[r := h]> m !! r' = Some (Offering c) \/ <[r := h]> m !! r' = Some (Panicked c)).
  { intros m r h c0 [r' Hr'] Hr. exists r'. destruct (decide (r' = r)) as [->|Hne]; [|by rewrite lookup_insert_ne].
    exfalso. destruct Hr' as [H|H]; apply Hr in H; naive_solver. }
  intros He Hs. unfold settled in *. destruct e; cbn [exec] in He; unfold set_handler, close_conn in He;
    repeat (case_match; try done); injection He as <-; cbn [handlers delivered closed];
    destruct Hs as [Hs|[Hs|Hs]]; try (left; set_solver); try (right; left; set_solver).
  all: try (right; right; exact Hs).
  all: try (right; right; apply Hins; [exact Hs|]; intros h' Hh'; simplify_eq; naive_solver).
  all: destruct (decide (c = c0)) as [->|Hne]; [first [left; set_solver | right; left; set_solver | right; right; exists r; right; by rewrite lookup_insert_eq]
                                               |right; right; apply Hins; [exact Hs|]; intros h' Hh'; simplify_eq; naive_solver].
Qed.

Lemma panicked_step e l l' : exec e l = Some l' -> (forall r c, handlers l !! r = Some (Panicked c) -> ch_closed l = true) ->
  (forall r c, handlers l' !! r = Some (Panicked c) -> ch_closed l' = true).
Proof.
  intros He Hl. destruct e; cbn [exec] in He; unfold set_handler, close_conn in He; repeat (case_match; try done); injection He as <-; cbn [handlers ch_closed];
    try (intros r0 c0 [[_ [=]]|[_ H']]%lookup_insert_Some; by eapply Hl); try exact Hl; by intros.
Qed.

Lemma settled_execs es l l' c : execs es l = Some l' -> settled l c -> settled l' c.
Proof.
  revert l. induction es as [|e es IH]; intros l; cbn [execs]; [by intros [= ->]|].
  intros (l1 & He & Hes)%bind_Some Hs. eapply IH; [done|]. by eapply settled_step.
Qed.

Lemma panicked_execs es l l' : execs es l = Some l' -> (forall r c, handlers l !! r = Some (Panicked c) -> ch_closed l = true) ->
  (forall r c, handlers l' !! r = Some (Panicked c) -> ch_closed l' = true).
Proof.
  revert l. induction es as [|e es IH]; intros l; cbn [execs]; [by intros [= ->]|].
  intros (l1 & He & Hes)%bind_Some Hs. eapply IH; [done|]. by eapply panicked_step.
Qed.

Lemma upgraded_settled r c l l' : exec (Upgraded r c websocketSubprotocol) l = Some l' -> settled l' c.
Proof.
  cbn [exec]. destruct (handlers l !! r) as [[]|]; try done. rewrite bool_decide_true by done. intros [= <-].
  right. right. exists r. left. cbn. by rewrite lookup_insert_eq.
Qed.

Lemma owed_settled es l l' c : execs es l = Some l' -> c ∈ owed es -> settled l' c.
Proof.
  revert l. induction es as [|e es IH]; intros l; cbn [execs]; [by intros _ ?%elem_of_nil|].
  intros (l1 & He & Hes)%bind_Some (e' & Hin & Hc)%list_elem_of_omap. apply elem_of_cons in Hin as [->|Hin].
  - destruct e; try done. case_bool_decide as Es; [|done]. injection Hc as ->. subst.
    eapply settled_execs; [done|]. by eapply upgraded_settled.
  - apply (IH l1 Hes). apply list_elem_of_omap. by exists e'.
Qed.

(** A client that speaks the protocol is handed to a caller of Accept or told
    that the listener closes, or its handler still offers it, unless the handler
    has panicked; and a handler panics only after the channel was closed. *)
Theorem ws_connections_settled es l :
  execs es new_listener = Some l ->
  (forall c, c ∈ owed es -> settled l c) /\
  (forall r c, handlers l !! r = Some (Panicked c) -> ch_closed l = true).
Proof.
  intros He. split; [intros c Hc; by apply (owed_settled es new_listener)|]. eapply panicked_execs; [done|].
  intros r c Hc. cbn in Hc. by rewrite lookup_empty in Hc.
Qed.

(** Counterexample: a listener is closed, as the transport manager does when the
    network changes, while a client is being offered: the channel is closed under
    the handler, which panics, and the connection is neither handed over nor
    closed. *)
Theorem ws_send_on_closed_channel :
  exists l, execs [Request 0 "/"; Upgraded 0 7 "ygg-ws"; CloseListener; ServeReturns; Sends 0] new_listener = Some l /\
    handlers l !! 0 = Some (Panicked 7) /\ ctx_done l = false /\ (7 ∉ delivered l) /\ (7 ∉ closed l).
Proof.
  eexists. split; [vm_compute; reflexivity|]. split; [vm_compute; reflexivity|]. split; [done|]. split; by_computation.
Qed.
End Ws.

(** ** Concrete runs *)

Module Sample.
Definition busy : list Quic.event := [Quic.Arrives 1; Quic.Arrives 2; Quic.Accepted].
End Sample.

Lemma quic_connections_accounted_witness :
  exists l, Quic.execs (Sample.busy ++ [Quic.Streams; Quic.Delivers]) Quic.new_listener = Some l /\
    (2 ∈ Quic.delivered l \/ 2 ∈ Quic.held l \/ 2 ∈ Quic.pending l \/ 2 ∈ Quic.closed l).
Proof.
  eexists. split; [vm_compute; reflexivity|].
  apply (Quic.quic_connections_accounted (Sample.busy ++ [Quic.Streams; Quic.Delivers]) _ eq_refl). by repeat (left || right).
Defined.

Lemma silent_client_blocks_witness :
  exists l l', Quic.execs Sample.busy Quic.new_listener = Some l /\ Quic.execs [Quic.Arrives 3; Quic.CloseListener] l = Some l' /\ Quic.delivered l' = [].
Proof.
  eexists _, _. split; [vm_compute; reflexivity|]. split; [vm_compute; reflexivity|].
  apply (Quic.silent_client_blocks [Quic.Arrives 3; Quic.CloseListener] 1 (Quic.mkListener (Quic.InStream 1) false false false false [2] [] ∅) _ eq_refl eq_refl).
  intros e He. set_unfold. destruct He as [->|[->|[]]]; done.
Defined.

Lemma ws_connections_settled_witness :
  exists l, Ws.execs [Ws.Request 0 "/"; Ws.Upgraded 0 7 "ygg-ws"; Ws.Delivers 0] Ws.new_listener = Some l /\ Ws.settled l 7.
Proof.
  eexists. split; [vm_compute; reflexivity|].
  apply (Ws.ws_connections_settled [Ws.Request 0 "/"; Ws.Upgraded 0 7 "ygg-ws"; Ws.Delivers 0] _ eq_refl). by_computation.
Defined.
