(* ===== verification/Config.v ===== *)
(** * Config: the configuration of a node (ygglib/config, ygglib/transportcfg)

    The configuration is mutated in place, so an operation returns the
    configuration that it leaves behind next to its outcome: success, an error,
    or a panic.  HJSON, UTF-16, PEM, the file system and durations are
    parameters; ed25519 signing panics on a private key that has not 64 bytes,
    as its documentation says. *)

From Stdlib Require Import Ascii.
From S2P Require Import Prelude GoStd Json.

(** ** Data *)

Record TransportNetworkConfig := mkTNC { set : bool; null : bool; name : string; proxyURL : string }.
Record TransportConfig := mkTransportConfig {
  DefaultNetwork : TransportNetworkConfig;
  NetworkMappings : gmap string TransportNetworkConfig
}.
Record AutoPeerConfig := mkAutoPeerConfig {
  ap_Enabled : bool; Sources : list string; FetchInterval : string; ap_CheckInterval : string;
  MinimumConnected : Z; MinimumConnectedFromFetch : Z; Countries : list string; TransportSchemes : list string
}.
Record JumperConfig := mkJumperConfig { j_Enabled : bool; Addresses : list string; j_CheckInterval : string; LinkTimeout : string }.
Record TunSocksProxyConfig := mkProxy { Filter : string; ProxyURL : string }.
Record TunSocksTLSMITMConfig := mkMITM { CAFile : string; KeyFile : string; Hostnames : list string }.
Record TunFirewallConfig := mkFirewall { fw_Enabled : option bool; AllowedTCPPorts : list Z; AllowedUDPPorts : list Z }.
Record MulticastInterfaceConfig := mkMulticast {
  Regex : string; Beacon : bool; Listen_on : bool; Port : Z; Priority : Z; Password : string
}.

Record NodeConfig := mkNodeConfig {
  PrivateKey : bytes; PrivateKeyPath : string;
  Certificate : option bytes;           (* the private key of the certificate *)
  Peers : list string; InterfacePeers : gmap string (list string); Listen : list string;
  AdminListen : string; AdminWebListen : string; AdminWebStaticDir : string; LocalDNSListen : string;
  MulticastInterfaces : list MulticastInterfaceConfig; AllowedPublicKeys : list string; GroupPassword : string;
  Transport : TransportConfig; AutoPeer : AutoPeerConfig; Jumper : JumperConfig;
  TunType : string; IfName : string; IfMTU : Z;
  TunSocksListen : string; TunSocksProxies : list TunSocksProxyConfig; TunSocksDefaultProxy : string;
  TunSocksDNSFallback : string; TunSocksNoResolve : list string; TunSocksTLSMITM : TunSocksTLSMITMConfig;
  TunFirewall : TunFirewallConfig; TunMWO : Z; TunMRO : Z;
  LogLookups : bool; NodeInfoPrivacy : bool; NodeInfo : gmap string json
}.

Inductive error :=
| InvalidDuration (which : string) | ReadFailed | NoPEM | WrongPEMType (t : string) | BadPKCS8 | NotEd25519 | WrongKeyLength
| CertificateFailed | EmptyConfiguration | BadUTF16 | BadHJSON.
Inductive outcome := Fine | Failed (e : error) | Panicked.

(** ** Networks of the transport manager *)

Definition NewTransportNetworkConfig (n : string) : TransportNetworkConfig := mkTNC true false (ToLower (TrimSpace n)) EmptyString.
Definition NullTransportNetworkConfig : TransportNetworkConfig := mkTNC true true EmptyString EmptyString.
Definition NewSocksTransportNetworkConfig (url : string) : TransportNetworkConfig := mkTNC true false "socks" (TrimSpace url).

Definition IsSet (c : TransportNetworkConfig) : bool := set c.
Definition IsNull (c : TransportNetworkConfig) : bool := set c && null c.

Definition firstNonEmpty (values : list string) : string :=
  match find (fun v => negb (bool_decide (TrimSpace v = EmptyString))) values with Some v => v | None => EmptyString end.

(** The struct of UnmarshalJSON: type, name, proxy_url and ProxyURL. *)
Record rawNetwork := mkRaw { r_Type : string; r_Name : string; r_ProxyURL : string; r_ProxyURLAlt : string }.
Definition rawNetwork_fields : list (field rawNetwork) := [
  string_field "type" (fun s r => mkRaw s (r_Name r) (r_ProxyURL r) (r_ProxyURLAlt r));
  string_field "name" (fun s r => mkRaw (r_Type r) s (r_ProxyURL r) (r_ProxyURLAlt r));
  string_field "proxy_url" (fun s r => mkRaw (r_Type r) (r_Name r) s (r_ProxyURLAlt r));
  string_field "ProxyURL" (fun s r => mkRaw (r_Type r) (r_Name r) (r_ProxyURL r) s)
].

Definition UnmarshalJSON (j : json) : option TransportNetworkConfig :=
  match j with
  | Null => Some NullTransportNetworkConfig
  | Str n =>
      let n := ToLower (TrimSpace n) in
      if bool_decide (n = EmptyString) then None else Some (NewTransportNetworkConfig n)
  | _ =>
      let '(raw, ok) := unmarshal false rawNetwork_fields j (mkRaw EmptyString EmptyString EmptyString EmptyString) in
      if negb ok then None
      else
        let n := if bool_decide (TrimSpace (r_Type raw) = EmptyString) then r_Name raw else r_Type raw in
        let n := ToLower (TrimSpace n) in
        if bool_decide (n = EmptyString) then None
        else Some (mkTNC true false n (TrimSpace (firstNonEmpty [r_ProxyURL raw; r_ProxyURLAlt raw])))
  end.

Definition MarshalJSON (c : TransportNetworkConfig) : json :=
  if null c then Null
  else if negb (bool_decide (proxyURL c = EmptyString))
  then Obj [("type"%string, Str (name c)); ("proxy_url"%string, Str (proxyURL c))]
  else Str (name c).

(** transportcfg: the networks that can be made from a configuration. *)
Inductive Network := NativeNet | SocksNet (c : TransportNetworkConfig).
Inductive netError := UnsupportedNetwork (n : string) | NoProxyURL | InvalidProxyURL (u : string) | NotUp.

Definition newSocksNetwork (ClientFromURL : string -> bool) (c : TransportNetworkConfig) : result netError Network :=
  let url := TrimSpace (proxyURL c) in
  if bool_decide (url = EmptyString) then Err NoProxyURL
  else if negb (ClientFromURL url) then Err (InvalidProxyURL url)
  else Ok (SocksNet (NewSocksTransportNetworkConfig url)).

(** [None] is the nil network; [up] is the outcome of network.Up(). *)
Definition NetworkFromConfig (ClientFromURL : string -> bool) (up : bool) (c : TransportNetworkConfig) : result netError (option Network) :=
  if IsNull c then Ok None
  else if bool_decide (name c = "native"%string) then (if up then Ok (Some NativeNet) else Err NotUp)
  else if bool_decide (name c = "socks"%string) then let? n := newSocksNetwork ClientFromURL c in Ok (Some n)
  else Err (UnsupportedNetwork (name c)).

Definition ConfigFromNetwork (n : option Network) : TransportNetworkConfig :=
  match n with
  | None => NullTransportNetworkConfig
  | Some NativeNet => NewTransportNetworkConfig "native"
  | Some (SocksNet c) => c
  end.

(** ** Normalisation *)

Definition normalizeStringSlice (values : list string) : list string :=
  base.filter (fun v => v <> EmptyString) (map TrimSpace values).

Definition normalize_network (c : TransportNetworkConfig) : TransportNetworkConfig :=
  if null c then NullTransportNetworkConfig
  else mkTNC (set c) (null c) (ToLower (TrimSpace (name c))) (TrimSpace (proxyURL c)).
(** The default network keeps its flags. *)
Definition normalize_transport (c : TransportConfig) : TransportConfig :=
  let d := DefaultNetwork c in
  mkTransportConfig (mkTNC (set d) (null d) (ToLower (TrimSpace (name d))) (TrimSpace (proxyURL d)))
    (normalize_network <$> NetworkMappings c).

Definition normalizeTunSocksProxies (values : list TunSocksProxyConfig) : list TunSocksProxyConfig :=
  base.filter (fun v => ~ (Filter v = EmptyString /\ ProxyURL v = EmptyString))
    (map (fun v => mkProxy (TrimSpace (Filter v)) (TrimSpace (ProxyURL v))) values).

Fixpoint unique_ports (seen : gset Z) (values : list Z) : list Z :=
  match values with
  | [] => []
  | v :: values => if bool_decide (v ∈ seen) then unique_ports seen values else v :: unique_ports ({[v]} ∪ seen) values
  end.
Definition normalizePortSlice (values : list Z) : list Z := merge_sort Z.le (unique_ports ∅ values).

Definition normalize_mitm (c : TunSocksTLSMITMConfig) : TunSocksTLSMITMConfig :=
  mkMITM (TrimSpace (CAFile c)) (TrimSpace (KeyFile c)) (normalizeStringSlice (Hostnames c)).
Definition normalize_firewall (c : TunFirewallConfig) : TunFirewallConfig :=
  mkFirewall (fw_Enabled c) (normalizePortSlice (AllowedTCPPorts c)) (normalizePortSlice (AllowedUDPPorts c)).

(** config/runtime.go *)
Definition NormalizeTunType (tunType : string) : string :=
  let t := ToLower (TrimSpace tunType) in
  if bool_decide (t = EmptyString) then "native"
  else if bool_decide (t ∈ ["socks"; "vtun+socks"]%string) then "sockstun"
  else if bool_decide (t = "socks+vtun"%string) then "outproxy"
  else if bool_decide (t = "dummy"%string) then "none"
  else t.

Definition or_default (s default : string) : string := if bool_decide (s = EmptyString) then default else s.

Definition startupTunNeedsPrivileges (tunType ifName : string) : bool :=
  if bool_decide (NormalizeTunType tunType <> "native"%string) then false
  else negb (bool_decide (ToLower (TrimSpace ifName) ∈ ["none"; "dummy"]%string)).

Definition UnprivilegedAdminListen : string := "tcp://localhost:9001".
Definition EffectiveAdminListenFor (DefaultAdminListen adminListen tunType ifName : string) : string :=
  let l := TrimSpace adminListen in
  if bool_decide (l = EmptyString) || EqualFold l "none" then l
  else if bool_decide (l = DefaultAdminListen) && negb (startupTunNeedsPrivileges tunType ifName) then UnprivilegedAdminListen
  else l.
Definition UseUnprivilegedAdminFallback (DefaultAdminListen : string) (cfg : option NodeConfig) : bool :=
  match cfg with
  | None => false
  | Some c => bool_decide (TrimSpace (AdminListen c) = DefaultAdminListen) && negb (startupTunNeedsPrivileges (TunType c) (IfName c))
  end.

(** ** Loading *)

(** What platform and command line define, with the key that was generated. *)
Record Defaults := mkDefaults { DefaultAdminListen : string; DefaultMulticastInterfaces : list MulticastInterfaceConfig;
  DefaultIfMTU : Z; DefaultIfName : string }.

Class Platform := {
  ParseDuration_ok : string -> bool;                          (* time *)
  ReadFile : string -> option bytes;                          (* os *)
  pem_Decode : bytes -> option (string * bytes);              (* encoding/pem: the type and the bytes *)
  ParsePKCS8PrivateKey : bytes -> option (option bytes);      (* crypto/x509: [Some None] is another kind of key *)
  certificate_made : bytes -> bool;                           (* crypto/x509, crypto/tls *)
  hjson_Unmarshal : bytes -> NodeConfig -> NodeConfig * bool; (* onto the given configuration; [false] is an error *)
  utf16_Decode : bytes -> option bytes;
  GetDefaults : Defaults
}.

Section Loading.
Context {P : Platform}.

Definition UnmarshalPEMPrivateKey (b : bytes) : result error bytes :=
  match pem_Decode b with
  | None => Err NoPEM
  | Some (t, bs) =>
      if negb (bool_decide (t = "PRIVATE KEY"%string)) then Err (WrongPEMType t)
      else match ParsePKCS8PrivateKey bs with
           | None => Err BadPKCS8
           | Some None => Err NotEd25519
           | Some (Some key) => if negb (length key =? 64)%nat then Err WrongKeyLength else Ok key
           end
  end.

(** Signing the certificate panics on a key of the wrong length. *)
Definition GenerateSelfSignedCertificate (key : bytes) : result error bytes + unit :=
  if negb (length key =? 64)%nat then inr tt
  else if certificate_made key then inl (Ok key) else inl (Err CertificateFailed).

Definition normalize_autopeer (c : AutoPeerConfig) : AutoPeerConfig * option error :=
  let sources := normalizeStringSlice (Sources c) in
  let countries := normalizeStringSlice (Countries c) in
  let schemes := normalizeStringSlice (TransportSchemes c) in
  let fetch := if bool_decide (TrimSpace (FetchInterval c) = EmptyString) then "1h"%string else FetchInterval c in
  let made check := mkAutoPeerConfig (ap_Enabled c) sources fetch check (MinimumConnected c) (MinimumConnectedFromFetch c) countries schemes in
  if negb (ParseDuration_ok fetch) then (made (ap_CheckInterval c), Some (InvalidDuration "AutoPeer.FetchInterval"))
  else
    let check := if bool_decide (TrimSpace (ap_CheckInterval c) = EmptyString) then "1m"%string else ap_CheckInterval c in
    if negb (ParseDuration_ok check) then (made check, Some (InvalidDuration "AutoPeer.CheckInterval"))
    else (made check, None).

Definition normalize_jumper (c : JumperConfig) : JumperConfig * option error :=
  let addresses := normalizeStringSlice (Addresses c) in
  let check := if bool_decide (TrimSpace (j_CheckInterval c) = EmptyString) then "10s"%string else j_CheckInterval c in
  if negb (ParseDuration_ok check) then (mkJumperConfig (j_Enabled c) addresses check (LinkTimeout c), Some (InvalidDuration "Jumper.CheckInterval"))
  else
    let timeout := if bool_decide (TrimSpace (LinkTimeout c) = EmptyString) then "30s"%string else LinkTimeout c in
    (mkJumperConfig (j_Enabled c) addresses check timeout,
     if negb (ParseDuration_ok timeout) then Some (InvalidDuration "Jumper.LinkTimeout") else None).

Definition with_parts (t : TransportConfig) (a : AutoPeerConfig) (j : JumperConfig) (c : NodeConfig) : NodeConfig :=
  mkNodeConfig (PrivateKey c) (PrivateKeyPath c) (Certificate c) (Peers c) (InterfacePeers c) (Listen c)
    (AdminListen c) (AdminWebListen c) (AdminWebStaticDir c) (LocalDNSListen c) (MulticastInterfaces c) (AllowedPublicKeys c) (GroupPassword c)
    t a j (TunType c) (IfName c) (IfMTU c) (TunSocksListen c) (TunSocksProxies c) (TunSocksDefaultProxy c)
    (TunSocksDNSFallback c) (TunSocksNoResolve c) (TunSocksTLSMITM c) (TunFirewall c) (TunMWO c) (TunMRO c)
    (LogLookups c) (NodeInfoPrivacy c) (NodeInfo c).

Definition with_key (key : bytes) (cert : option bytes) (c : NodeConfig) : NodeConfig :=
  mkNodeConfig key (PrivateKeyPath c) cert (Peers c) (InterfacePeers c) (Listen c)
    (AdminListen c) (AdminWebListen c) (AdminWebStaticDir c) (LocalDNSListen c) (MulticastInterfaces c) (AllowedPublicKeys c) (GroupPassword c)
    (Transport c) (AutoPeer c) (Jumper c) (TunType c) (IfName c) (IfMTU c) (TunSocksListen c) (TunSocksProxies c) (TunSocksDefaultProxy c)
    (TunSocksDNSFallback c) (TunSocksNoResolve c) (TunSocksTLSMITM c) (TunFirewall c) (TunMWO c) (TunMRO c)
    (LogLookups c) (NodeInfoPrivacy c) (NodeInfo c).

(** The assignments of postprocessConfig that cannot fail. *)
Definition normalize_strings (c : NodeConfig) : NodeConfig :=
  mkNodeConfig (PrivateKey c) (PrivateKeyPath c) (Certificate c) (Peers c) (InterfacePeers c) (Listen c)
    (AdminListen c) (TrimSpace (AdminWebListen c)) (TrimSpace (AdminWebStaticDir c)) (TrimSpace (LocalDNSListen c))
    (MulticastInterfaces c) (AllowedPublicKeys c) (GroupPassword c)
    (Transport c) (AutoPeer c) (Jumper c) (NormalizeTunType (TunType c)) (or_default (TrimSpace (IfName c)) "auto") (IfMTU c)
    (or_default (TrimSpace (TunSocksListen c)) "127.0.0.1:1080") (normalizeTunSocksProxies (TunSocksProxies c))
    (TrimSpace (TunSocksDefaultProxy c)) (TrimSpace (TunSocksDNSFallback c)) (normalizeStringSlice (TunSocksNoResolve c))
    (normalize_mitm (TunSocksTLSMITM c)) (normalize_firewall (TunFirewall c)) (TunMWO c) (TunMRO c)
    (LogLookups c) (NodeInfoPrivacy c) (NodeInfo c).

(** The private key from its file, when one is named. *)
Definition load_key (c : NodeConfig) : NodeConfig * option error :=
  if bool_decide (PrivateKeyPath c = EmptyString) then (c, None)
  else
    let c := with_key [] (Certificate c) c in
    match ReadFile (PrivateKeyPath c) with
    | None => (c, Some ReadFailed)
    | Some f => match UnmarshalPEMPrivateKey f with
                | Err e => (c, Some e)
                | Ok key => (with_key key (Certificate c) c, None)
                end
    end.

(** A certificate for the key, unless there is one. *)
Definition certify (c : NodeConfig) : NodeConfig * outcome :=
  if bool_decide (Certificate c = Some (PrivateKey c)) then (c, Fine)
  else match GenerateSelfSignedCertificate (PrivateKey c) with
       | inr tt => (c, Panicked)
       | inl (Err e) => (c, Failed e)
       | inl (Ok key) => (with_key (PrivateKey c) (Some key) c, Fine)
       end.

Definition postprocessConfig (c : NodeConfig) : NodeConfig * outcome :=
  let t := normalize_transport (Transport c) in
  let '(a, err) := normalize_autopeer (AutoPeer c) in
  match err with
  | Some e => (with_parts t a (Jumper c) c, Failed e)
  | None =>
      let '(j, err) := normalize_jumper (Jumper c) in
      let c := with_parts t a j c in
      match err with
      | Some e => (c, Failed e)
      | None =>
          let '(c, err) := load_key (normalize_strings c) in
          match err with
          | Some e => (c, Failed e)
          | None => certify c
          end
      end
  end.

Definition defaultTransportNetworkMappings : gmap string TransportNetworkConfig :=
  list_to_map [("*.i2p"%string, NullTransportNetworkConfig); ("*.loki"%string, NullTransportNetworkConfig);
               ("*.onion"%string, NullTransportNetworkConfig)].

(** [key] is the key that was generated. *)
Definition GenerateConfig (key : bytes) : NodeConfig * outcome :=
  let d := GetDefaults in
  postprocessConfig (mkNodeConfig key EmptyString None [] ∅ [] (DefaultAdminListen d) EmptyString EmptyString EmptyString
    (DefaultMulticastInterfaces d) [] EmptyString
    (mkTransportConfig (NewTransportNetworkConfig "native") defaultTransportNetworkMappings)
    (mkAutoPeerConfig false ["BUILTIN"%string] "1h" "1m" 0 0 [] [])
    (mkJumperConfig false [] "10s" "30s")
    "native" (DefaultIfName d) (DefaultIfMTU d) "127.0.0.1:1080" [] EmptyString EmptyString []
    (mkMITM EmptyString EmptyString []) (mkFirewall None [] []) 0 0 false false ∅).

Definition UnmarshalHJSON (b : bytes) (c : NodeConfig) : NodeConfig * outcome :=
  match hjson_Unmarshal b c with
  | (c, false) => (c, Failed BadHJSON)
  | (c, true) => postprocessConfig c
  end.

Definition is_space_byte (b : Z) : bool := (9 <=? b) && (b <=? 13) || (b =? 32).

(** [conf] is what the reader returned; the number is that of the bytes read. *)
Definition ReadFrom (conf : option bytes) (key : bytes) (c : NodeConfig) : NodeConfig * Z * outcome :=
  match conf with
  | None => (c, 0, Failed ReadFailed)
  | Some conf =>
      let n := Z.of_nat (length conf) in
      if bool_decide (trim_by is_space_byte conf = []) then (c, n, Failed EmptyConfiguration)
      else
        let bom := (2 <=? length conf)%nat && bool_decide (take 2 conf ∈ [[0xff; 0xfe]; [0xfe; 0xff]]) in
        match (if bom then utf16_Decode conf else Some conf) with
        | None => (c, n, Failed BadUTF16)
        | Some conf =>
            match GenerateConfig key with
            | (c', Fine) => let '(c, o) := UnmarshalHJSON conf c' in (c, n, o)
            | (_, _) => (c, n, Panicked)
            end
        end
  end.
End Loading.

(** ** The JSON form

    The fields of the structures under their names.  A nil slice and an empty
    one are not told apart here. *)

Definition KeyBytes_MarshalJSON (k : bytes) : json := Str (hex_EncodeToString k).
Definition KeyBytes_UnmarshalJSON (j : json) : option bytes := s ← decode_string j; hex_DecodeString s.

Definition transport_json (c : TransportConfig) : json :=
  Obj ([("DefaultNetwork"%string, MarshalJSON (DefaultNetwork c))] ++
       omitempty "NetworkMappings" (bool_decide (NetworkMappings c = ∅)) (of_map MarshalJSON (NetworkMappings c))).
Definition autopeer_json (c : AutoPeerConfig) : json :=
  Obj [("Enabled", Bool (ap_Enabled c)); ("Sources", of_strings (Sources c)); ("FetchInterval", Str (FetchInterval c));
       ("CheckInterval", Str (ap_CheckInterval c)); ("MinimumConnected", of_int (MinimumConnected c));
       ("MinimumConnectedFromFetch", of_int (MinimumConnectedFromFetch c)); ("Countries", of_strings (Countries c));
       ("TransportSchemes", of_strings (TransportSchemes c))]%string.
Definition jumper_json (c : JumperConfig) : json :=
  Obj [("Enabled", Bool (j_Enabled c)); ("Addresses", of_strings (Addresses c)); ("CheckInterval", Str (j_CheckInterval c));
       ("LinkTimeout", Str (LinkTimeout c))]%string.
Definition proxy_json (p : TunSocksProxyConfig) : json :=
  Obj (omit_string "filter" (Filter p) ++ omit_string "proxy_url" (ProxyURL p)).
Definition mitm_json (c : TunSocksTLSMITMConfig) : json :=
  Obj (omit_string "ca_file" (CAFile c) ++ omit_string "key_file" (KeyFile c) ++
       omitempty "hostnames" (bool_decide (Hostnames c = [])) (of_strings (Hostnames c))).
Definition of_ports (l : list Z) : json := Arr (map of_uint l).
Definition firewall_json (c : TunFirewallConfig) : json :=
  Obj (match fw_Enabled c with Some b => [("enabled"%string, Bool b)] | None => [] end ++
       omitempty "allowed_tcp_ports" (bool_decide (AllowedTCPPorts c = [])) (of_ports (AllowedTCPPorts c)) ++
       omitempty "allowed_udp_ports" (bool_decide (AllowedUDPPorts c = [])) (of_ports (AllowedUDPPorts c))).
Definition multicast_json (c : MulticastInterfaceConfig) : json :=
  Obj [("Regex", Str (Regex c)); ("Beacon", Bool (Beacon c)); ("Listen", Bool (Listen_on c)); ("Port", of_uint (Port c));
       ("Priority", of_uint (Priority c)); ("Password", Str (Password c))]%string.

(** Every exported field but the certificate, whose tag is "-". *)
Definition config_fields (c : NodeConfig) : list (string * json) := [
  ("PrivateKey", KeyBytes_MarshalJSON (PrivateKey c)); ("PrivateKeyPath", Str (PrivateKeyPath c));
  ("Peers", of_strings (Peers c)); ("InterfacePeers", of_map of_strings (InterfacePeers c)); ("Listen", of_strings (Listen c));
  ("AdminListen", Str (AdminListen c)); ("AdminWebListen", Str (AdminWebListen c)); ("AdminWebStaticDir", Str (AdminWebStaticDir c));
  ("LocalDNSListen", Str (LocalDNSListen c)); ("MulticastInterfaces", Arr (map multicast_json (MulticastInterfaces c)));
  ("AllowedPublicKeys", of_strings (AllowedPublicKeys c)); ("GroupPassword", Str (GroupPassword c));
  ("Transport", transport_json (Transport c)); ("AutoPeer", autopeer_json (AutoPeer c)); ("Jumper", jumper_json (Jumper c));
  ("TunType", Str (TunType c)); ("IfName", Str (IfName c)); ("IfMTU", of_uint (IfMTU c));
  ("TunSocksListen", Str (TunSocksListen c)); ("TunSocksProxies", Arr (map proxy_json (TunSocksProxies c)));
  ("TunSocksDefaultProxy", Str (TunSocksDefaultProxy c)); ("TunSocksDNSFallback", Str (TunSocksDNSFallback c));
  ("TunSocksNoResolve", of_strings (TunSocksNoResolve c)); ("TunSocksTLSMITM", mitm_json (TunSocksTLSMITM c));
  ("TunFirewall", firewall_json (TunFirewall c)); ("TunMWO", of_int (TunMWO c)); ("TunMRO", of_int (TunMRO c));
  ("LogLookups", Bool (LogLookups c)); ("NodeInfoPrivacy", Bool (NodeInfoPrivacy c)); ("NodeInfo", of_map id (NodeInfo c))
]%string.
(** snapshotNodeConfig of ygglib/admin/config.go *)
Definition snapshotNodeConfig (c : NodeConfig) : gmap string json := list_to_map (config_fields c).

(** ** Normal forms *)

Lemma normalizeStringSlice_idem l : normalizeStringSlice (normalizeStringSlice l) = normalizeStringSlice l.
Proof.
  unfold normalizeStringSlice. induction l as [|s l IH]; [done|]. cbn [map]. rewrite !filter_cons.
  case_decide; [|done]. cbn [map]. rewrite filter_cons, TrimSpace_idem. by rewrite decide_True, IH.
Qed.

Lemma normalizeTunSocksProxies_idem l : normalizeTunSocksProxies (normalizeTunSocksProxies l) = normalizeTunSocksProxies l.
Proof.
  unfold normalizeTunSocksProxies. induction l as [|s l IH]; [done|]. cbn [map]. rewrite !filter_cons.
  case_decide; [|done]. cbn [map]. rewrite filter_cons. cbn [Filter ProxyURL]. rewrite !TrimSpace_idem.
  by rewrite decide_True, IH.
Qed.

Lemma normalize_network_idem c : normalize_network (normalize_network c) = normalize_network c.
Proof.
  unfold normalize_network. destruct (null c) eqn:E; [done|]. cbn [null name proxyURL set].
  by rewrite lower_trim_idem, TrimSpace_idem.
Qed.

Lemma normalize_transport_idem c : normalize_transport (normalize_transport c) = normalize_transport c.
Proof.
  unfold normalize_transport. cbn [DefaultNetwork NetworkMappings set null name proxyURL].
  rewrite lower_trim_idem, TrimSpace_idem. f_equal. rewrite <-map_fmap_compose. apply map_fmap_ext.
  intros i x _. apply normalize_network_idem.
Qed.

(** *** Ports *)

Lemma unique_ports_spec values : forall seen,
  NoDup (unique_ports seen values) /\ forall v, v ∈ unique_ports seen values <-> v ∈ values /\ v ∉ seen.
Proof.
  induction values as [|x values IH]; intros seen; cbn; [split; [constructor|]; intros v; rewrite elem_of_nil; tauto|].
  case_bool_decide as Hx.
  - destruct (IH seen) as [H1 H2]. split; [done|]. intros v. rewrite H2, elem_of_cons. naive_solver.
  - destruct (IH ({[x]} ∪ seen)) as [H1 H2]. split.
    + constructor; [|done]. rewrite H2, not_elem_of_union, not_elem_of_singleton. naive_solver.
    + intros v. rewrite !elem_of_cons, H2, not_elem_of_union, not_elem_of_singleton.
      destruct (decide (v = x)) as [->|]; naive_solver.
Qed.
Lemma unique_ports_NoDup values seen : NoDup values -> (forall v, v ∈ values -> v ∉ seen) -> unique_ports seen values = values.
Proof.
  intros H. revert seen. induction H as [|x values Hx _ IH]; intros seen Hs; cbn; [done|].
  rewrite bool_decide_false by (apply Hs; left). f_equal. apply IH. intros v Hv.
  rewrite not_elem_of_union, not_elem_of_singleton. split; [by intros ->|]. apply Hs. by right.
Qed.

Lemma normalizePortSlice_spec values :
  StronglySorted Z.lt (normalizePortSlice values) /\ (forall v, v ∈ normalizePortSlice values <-> v ∈ values).
Proof.
  unfold normalizePortSlice. destruct (unique_ports_spec values ∅) as [Hnd Hin].
  set (l := unique_ports ∅ values) in *. pose proof (merge_sort_Permutation Z.le l) as Hp.
  assert (NoDup (merge_sort Z.le l)) as Hnd2 by by rewrite Hp. split.
  - pose proof (StronglySorted_merge_sort Z.le l) as Hs. revert Hs Hnd2. generalize (merge_sort Z.le l). clear.
    induction 1 as [|x l Hs IH Hx]; intros Hnd; constructor; [apply IH; by inversion Hnd|].
    rewrite Forall_forall in *. intros y Hy. apply NoDup_cons in Hnd as [Hx' _]. specialize (Hx y Hy).
    assert (x <> y) by (intros ->; done). lia.
  - intros v. rewrite Hp, Hin. pose proof (not_elem_of_empty (C:=gset Z) v). tauto.
Qed.

Lemma normalizePortSlice_idem values : normalizePortSlice (normalizePortSlice values) = normalizePortSlice values.
Proof.
  destruct (normalizePortSlice_spec values) as [Hs _]. set (l := normalizePortSlice values) in *.
  assert (NoDup l) as Hnd.
  { revert Hs. generalize l. clear. induction 1 as [|x l Hs IH Hx]; constructor; [|done].
    rewrite Forall_forall in Hx. intros H. specialize (Hx x H). lia. }
  unfold normalizePortSlice. rewrite unique_ports_NoDup by (done || (intros; apply not_elem_of_empty)).
  apply (StronglySorted_unique Z.le); [apply (StronglySorted_merge_sort Z.le)| |apply merge_sort_Permutation].
  revert Hs. generalize l. clear. induction 1 as [|x l Hs IH Hx]; constructor; [done|].
  eapply Forall_impl; [exact Hx|]. cbn. lia.
Qed.

Lemma NormalizeTunType_idem t : NormalizeTunType (NormalizeTunType t) = NormalizeTunType t.
Proof.
  assert (H : forall r, NormalizeTunType t = r -> NormalizeTunType r = r); [|by apply H].
  intros r. unfold NormalizeTunType at 1. set (u := ToLower (TrimSpace t)).
  case_bool_decide as H1; [by intros <-|]. case_bool_decide as H2; [by intros <-|].
  case_bool_decide as H3; [by intros <-|]. case_bool_decide as H4; [by intros <-|]. intros <-.
  unfold NormalizeTunType. assert (ToLower (TrimSpace u) = u) as -> by apply lower_trim_idem.
  by rewrite !bool_decide_false.
Qed.

Lemma or_default_idem s d : TrimSpace d = d -> or_default (TrimSpace (or_default (TrimSpace s) d)) d = or_default (TrimSpace s) d.
Proof.
  unfold or_default. intros Hd. destruct (decide (TrimSpace s = EmptyString)) as [H|H].
  - rewrite (bool_decide_true _ H), Hd. by case_bool_decide.
  - by rewrite !(bool_decide_false _ H), TrimSpace_idem, (bool_decide_false _ H).
Qed.

(** ** Networks *)

(** A configuration as UnmarshalJSON makes it. *)
Definition canonical (c : TransportNetworkConfig) : Prop :=
  set c = true /\
  if null c then name c = EmptyString /\ proxyURL c = EmptyString
  else name c <> EmptyString /\ ToLower (TrimSpace (name c)) = name c /\ TrimSpace (proxyURL c) = proxyURL c.

Lemma trim_lower_trim n : TrimSpace (ToLower (TrimSpace n)) = ToLower (TrimSpace n).
Proof. by rewrite TrimSpace_ToLower, TrimSpace_idem. Qed.

Lemma UnmarshalJSON_canonical j c : UnmarshalJSON j = Some c -> canonical c.
Proof.
  assert (Hname : forall n u, ToLower (TrimSpace n) <> EmptyString ->
    canonical (mkTNC true false (ToLower (TrimSpace n)) (TrimSpace u))).
  { intros n u Hn. split; [done|]. cbn [null name proxyURL]. by rewrite lower_trim_idem, TrimSpace_idem. }
  assert (Hobj : forall raw ok, (if negb ok then None
      else
        let n := if bool_decide (TrimSpace (r_Type raw) = EmptyString) then r_Name raw else r_Type raw in
        let n := ToLower (TrimSpace n) in
        if bool_decide (n = EmptyString) then None
        else Some (mkTNC true false n (TrimSpace (firstNonEmpty [r_ProxyURL raw; r_ProxyURLAlt raw])))) = Some c -> canonical c).
  { intros raw [|]; [|done]. cbn [negb]. cbv zeta. case_bool_decide as Hn; [done|]. intros [= <-]. by apply Hname. }
  unfold UnmarshalJSON. destruct j as [|b|lit|s|l|kvs]; try (destruct (unmarshal _ _ _ _) as [raw ok]; apply Hobj).
  - intros [= <-]. done.
  - cbv zeta. case_bool_decide as Hn; [done|]. intros [= <-]. unfold NewTransportNetworkConfig. rewrite lower_trim_idem.
    by apply (Hname s EmptyString).
Qed.

(** The JSON of a network configuration: whatever is read is in normal form,
    and what is in normal form is written and read back unchanged, null and
    proxies included; normalising it changes nothing either. *)
Theorem network_json_roundtrip c :
  (canonical c -> UnmarshalJSON (MarshalJSON c) = Some c /\ normalize_network c = c) /\
  (forall j, UnmarshalJSON j = Some c -> canonical c).
Proof.
  split; [|intros j; apply UnmarshalJSON_canonical]. destruct c as [s n nm u]. intros [Hs H]. cbn [set null name proxyURL] in *. subst s.
  unfold MarshalJSON, normalize_network. cbn [null name proxyURL set]. destruct n.
  { destruct H as [-> ->]. done. }
  destruct H as (Hn & Hnm & Hu). rewrite Hnm, Hu. split; [|done].
  assert (Hne : TrimSpace nm <> EmptyString) by (intros E; rewrite E in Hnm; by rewrite <-Hnm in Hn).
  case_bool_decide as Eu; cbn [negb].
  - subst u. unfold UnmarshalJSON. rewrite Hnm, bool_decide_false by done. unfold NewTransportNetworkConfig. by rewrite Hnm.
  - unfold UnmarshalJSON. change (unmarshal _ _ _ _) with (mkRaw nm EmptyString u EmptyString, true). cbn [negb r_Type r_Name r_ProxyURL r_ProxyURLAlt].
    rewrite (bool_decide_false _ Hne). cbv zeta. rewrite Hnm, bool_decide_false by done.
    unfold firstNonEmpty. cbn [find]. rewrite Hu, bool_decide_false by done. cbn [negb]. by rewrite Hu.
Qed.

(** A network that was made from a configuration reports one from which the
    same network is made again, and only null gives no network. *)
Theorem network_of_config ClientFromURL c n :
  canonical c -> NetworkFromConfig ClientFromURL true c = Ok n ->
  NetworkFromConfig ClientFromURL true (ConfigFromNetwork n) = Ok n /\ canonical (ConfigFromNetwork n) /\ (n = None <-> IsNull c = true).
Proof.
  intros [Hs Hc]. unfold NetworkFromConfig. destruct (IsNull c) eqn:En.
  { intros [= <-]. done. }
  case_bool_decide as H1; [intros [= <-]; done|]. case_bool_decide as H2; [|done].
  unfold newSocksNetwork, rbind. case_bool_decide as H3; [done|]. destruct (ClientFromURL (TrimSpace (proxyURL c))) eqn:Ec; [|done].
  intros [= <-]. unfold ConfigFromNetwork, NewSocksTransportNetworkConfig. rewrite TrimSpace_idem.
  cbn -[bool_decide TrimSpace]. rewrite !TrimSpace_idem, (bool_decide_false _ H3), Ec.
  split; [done|]. split; [|done]. split; [done|]. cbn [null name proxyURL]. by rewrite TrimSpace_idem.
Qed.

(** ** Loading *)

Section Theorems.
Context {P : Platform}.

Lemma normalize_autopeer_idem c a : normalize_autopeer c = (a, None) -> normalize_autopeer a = (a, None).
Proof.
  unfold normalize_autopeer. cbv zeta.
  set (fetch := if bool_decide (TrimSpace (FetchInterval c) = _) then _ else _).
  set (check := if bool_decide (TrimSpace (ap_CheckInterval c) = _) then _ else _).
  assert (Hf : bool_decide (TrimSpace fetch = EmptyString) = false).
  { subst fetch. destruct (bool_decide (TrimSpace (FetchInterval c) = EmptyString)) eqn:E; [done|exact E]. }
  assert (Hc : bool_decide (TrimSpace check = EmptyString) = false).
  { subst check. destruct (bool_decide (TrimSpace (ap_CheckInterval c) = EmptyString)) eqn:E; [done|exact E]. }
  destruct (ParseDuration_ok fetch) eqn:E1; [|done]. destruct (ParseDuration_ok check) eqn:E2; [|done].
  intros [= <-]. cbn [ap_Enabled Sources FetchInterval ap_CheckInterval MinimumConnected MinimumConnectedFromFetch Countries TransportSchemes].
  by rewrite Hf, Hc, E1, E2, !normalizeStringSlice_idem.
Qed.

Lemma normalize_jumper_idem c a : normalize_jumper c = (a, None) -> normalize_jumper a = (a, None).
Proof.
  unfold normalize_jumper. cbv zeta.
  set (check := if bool_decide (TrimSpace (j_CheckInterval c) = _) then _ else _).
  set (timeout := if bool_decide (TrimSpace (LinkTimeout c) = _) then _ else _).
  assert (Hc : bool_decide (TrimSpace check = EmptyString) = false).
  { subst check. destruct (bool_decide (TrimSpace (j_CheckInterval c) = EmptyString)) eqn:E; [done|exact E]. }
  assert (Ht : bool_decide (TrimSpace timeout = EmptyString) = false).
  { subst timeout. destruct (bool_decide (TrimSpace (LinkTimeout c) = EmptyString)) eqn:E; [done|exact E]. }
  destruct (ParseDuration_ok check) eqn:E1; [|done]. destruct (ParseDuration_ok timeout) eqn:E2; [|done].
  intros [= <-]. cbn [j_Enabled Addresses j_CheckInterval LinkTimeout].
  by rewrite Hc, Ht, E1, E2, normalizeStringSlice_idem.
Qed.

Lemma normalize_strings_idem c : normalize_strings (normalize_strings c) = normalize_strings c.
Proof.
  unfold normalize_strings, normalize_mitm, normalize_firewall. cbn -[TrimSpace NormalizeTunType or_default normalizeTunSocksProxies normalizeStringSlice normalizePortSlice].
  by rewrite !TrimSpace_idem, NormalizeTunType_idem, !or_default_idem, normalizeTunSocksProxies_idem, !normalizeStringSlice_idem, !normalizePortSlice_idem.
Qed.

(** Everything but the key and the certificate. *)
Definition normal (c : NodeConfig) : Prop :=
  normalize_transport (Transport c) = Transport c /\ normalize_autopeer (AutoPeer c) = (AutoPeer c, None) /\
  normalize_jumper (Jumper c) = (Jumper c, None) /\ normalize_strings c = c.

Lemma normal_with_key key cert c : normal c -> normal (with_key key cert c).
Proof.
  intros (H1 & H2 & H3 & H4). split_and!; [done..|].
  change (with_key key cert (normalize_strings c) = with_key key cert c). by rewrite H4.
Qed.

Lemma with_parts_id c : with_parts (Transport c) (AutoPeer c) (Jumper c) c = c.
Proof. by destruct c. Qed.
Lemma with_key_id c : with_key (PrivateKey c) (Certificate c) c = c.
Proof. by destruct c. Qed.

(** What a successful pass leaves: normal, with the key of the file when there is
    one, and with a certificate for the key. *)
Lemma postprocess_fine c c' : postprocessConfig c = (c', Fine) ->
  normal c' /\ Certificate c' = Some (PrivateKey c') /\ PrivateKeyPath c' = PrivateKeyPath c /\
  (PrivateKeyPath c <> EmptyString -> exists f, ReadFile (PrivateKeyPath c) = Some f /\ UnmarshalPEMPrivateKey f = Ok (PrivateKey c')) /\
  (PrivateKeyPath c = EmptyString -> PrivateKey c' = PrivateKey c).
Proof.
  unfold postprocessConfig. destruct (normalize_autopeer (AutoPeer c)) as [a [e|]] eqn:Ea; [done|].
  destruct (normalize_jumper (Jumper c)) as [j [e|]] eqn:Ej; [done|].
  set (c1 := normalize_strings (with_parts (normalize_transport (Transport c)) a j c)).
  assert (Hn : normal c1).
  { split_and!; [apply normalize_transport_idem|by eapply normalize_autopeer_idem|by eapply normalize_jumper_idem|apply normalize_strings_idem]. }
  destruct (load_key c1) as [c2 [e|]] eqn:El; [done|]. intros Ec.
  assert (H2 : normal c2 /\ PrivateKeyPath c2 = PrivateKeyPath c /\ Certificate c2 = Certificate c /\
    (PrivateKeyPath c <> EmptyString -> exists f, ReadFile (PrivateKeyPath c) = Some f /\ UnmarshalPEMPrivateKey f = Ok (PrivateKey c2)) /\
    (PrivateKeyPath c = EmptyString -> PrivateKey c2 = PrivateKey c)).
  { unfold load_key in El. change (PrivateKeyPath c1) with (PrivateKeyPath c) in El. case_bool_decide as Hp.
    - injection El as <-. by split_and!.
    - change (PrivateKeyPath (with_key [] (Certificate c1) c1)) with (PrivateKeyPath c) in El.
      destruct (ReadFile (PrivateKeyPath c)) as [f|] eqn:Ef; [|done].
      destruct (UnmarshalPEMPrivateKey f) as [key|] eqn:Eu; [|done]. injection El as <-.
      split_and!; [by do 2 apply normal_with_key|done|done|intros _; by exists f|done]. }
  destruct H2 as (N2 & P2 & C2 & F2 & G2).
  unfold certify in Ec. case_bool_decide as Hc; [injection Ec as <-; by split_and!|].
  unfold GenerateSelfSignedCertificate in Ec. destruct (negb _); [done|]. destruct (certificate_made _); [|done].
  injection Ec as <-. split_and!; [by apply normal_with_key|done..].
Qed.

(** Loading a configuration brings it into a normal form: when it succeeds, the
    certificate belongs to the private key, which is the one of the key file
    when one is named, and loading the result once more changes nothing. *)
Theorem postprocess_idempotent c c' : postprocessConfig c = (c', Fine) ->
  postprocessConfig c' = (c', Fine) /\ Certificate c' = Some (PrivateKey c') /\
  (PrivateKeyPath c <> EmptyString -> exists f, ReadFile (PrivateKeyPath c) = Some f /\ UnmarshalPEMPrivateKey f = Ok (PrivateKey c')).
Proof.
  intros (Hn & Hc & Hp & Hf & _)%postprocess_fine. split; [|done]. destruct Hn as (N1 & N2 & N3 & N4).
  unfold postprocessConfig. rewrite N1, N2, N3, with_parts_id, N4.
  assert (load_key c' = (c', None)) as ->.
  { unfold load_key. rewrite Hp. case_bool_decide as Hpath; [done|]. destruct (Hf Hpath) as (f & Er & Eu).
    change (PrivateKeyPath (with_key [] (Certificate c') c')) with (PrivateKeyPath c'). rewrite Hp, Er, Eu.
    by destruct c'. }
  unfold certify. by rewrite bool_decide_true.
Qed.

(** Reading never panics exactly as long as the key has 64 bytes: an error of
    the text, the durations or the key file is reported; a key of another length
    in the text makes the certificate, and with it the reader, panic. *)
Theorem ReadFrom_panics conf key c c0 c1 : 
  GenerateConfig key = (c0, Fine) -> trim_by is_space_byte conf <> [] -> take 2 conf ∉ [[0xff; 0xfe]; [0xfe; 0xff]] ->
  hjson_Unmarshal conf c0 = (c1, true) -> PrivateKeyPath c1 = EmptyString ->
  (normalize_autopeer (AutoPeer c1)).2 = None -> (normalize_jumper (Jumper c1)).2 = None ->
  (ReadFrom (Some conf) key c).2 = Panicked <-> length (PrivateKey c1) <> 64%nat /\ Certificate c1 <> Some (PrivateKey c1).
Proof.
  intros Hgen Htrim Hbom Hj Hpath Ha Hjm. unfold ReadFrom. rewrite bool_decide_false by done.
  rewrite (bool_decide_false _ Hbom), andb_false_r, Hgen. unfold UnmarshalHJSON. rewrite Hj.
  unfold postprocessConfig. destruct (normalize_autopeer (AutoPeer c1)) as [a [e|]]; [done|].
  destruct (normalize_jumper (Jumper c1)) as [j [e|]]; [done|].
  set (c2 := normalize_strings (with_parts (normalize_transport (Transport c1)) a j c1)).
  assert (load_key c2 = (c2, None)) as ->.
  { unfold load_key. change (PrivateKeyPath c2) with (PrivateKeyPath c1). by rewrite bool_decide_true. }
  unfold certify, GenerateSelfSignedCertificate.
  change (Certificate c2) with (Certificate c1). change (PrivateKey c2) with (PrivateKey c1).
  case_bool_decide as Hc; [naive_solver|].
  destruct (length (PrivateKey c1) =? 64)%nat eqn:El; cbn [negb]; bool_props.
  - destruct (certificate_made _); naive_solver.
  - naive_solver.
Qed.

(** The listen address of the admin socket falls back to TCP exactly for the
    platform's default when the startup device needs no privileges; the two
    functions that decide this agree, and the fallback is stable. *)
Theorem admin_fallback d c :
  TrimSpace d = d -> d <> EmptyString -> EqualFold d "none" = false -> d <> UnprivilegedAdminListen ->
  (UseUnprivilegedAdminFallback d (Some c) = true <-> EffectiveAdminListenFor d (AdminListen c) (TunType c) (IfName c) = UnprivilegedAdminListen /\ TrimSpace (AdminListen c) <> UnprivilegedAdminListen) /\
  let l := EffectiveAdminListenFor d (AdminListen c) (TunType c) (IfName c) in
  EffectiveAdminListenFor d l (TunType c) (IfName c) = l.
Proof.
  intros Hd Hne Hnone Hdiff. unfold UseUnprivilegedAdminFallback, EffectiveAdminListenFor.
  set (l := TrimSpace (AdminListen c)). assert (TrimSpace l = l) as Hl by apply TrimSpace_idem.
  destruct (bool_decide (l = EmptyString) || EqualFold l "none") eqn:E0.
  - rewrite Hl, E0. split; [|done].
    assert (l <> d) as Hld.
    { intros ->. apply orb_true_iff in E0 as [E0|E0]; bool_props; congruence. }
    rewrite (bool_decide_false _ Hld). split; [done|]. intros [-> ?]. done.
  - destruct (bool_decide (l = d)) eqn:Eld; cbn [andb].
    + apply bool_decide_eq_true in Eld. destruct (startupTunNeedsPrivileges _ _); cbn [negb].
      * rewrite Hl, E0, bool_decide_true by done. split; [|done]. split; [done|]. intros [? ?]. congruence.
      * split; [split; [by split; [|congruence]|done]|].
        change (TrimSpace UnprivilegedAdminListen) with UnprivilegedAdminListen.
        change (bool_decide (UnprivilegedAdminListen = EmptyString) || EqualFold UnprivilegedAdminListen "none") with false.
        by destruct (bool_decide (UnprivilegedAdminListen = d)).
    + rewrite Hl, E0, Eld. cbn [andb]. split; [|done]. split; [done|]. intros [? ?]. done.
Qed.
End Theorems.

(** ** Witnesses

    A platform on which the bytes after an opening brace are the private key of
    the configuration, and the file "key" holds a good one. *)

Module Sample.
Definition good_key : bytes := replicate 64 7.
#[local] Instance platform : Platform := {
  ParseDuration_ok s := bool_decide (s ∈ ["1h"; "1m"; "10s"; "30s"]%string);
  ReadFile path := if bool_decide (path = "key"%string) then Some [1] else None;
  pem_Decode f := if bool_decide (f = [1]) then Some ("PRIVATE KEY"%string, [2]) else None;
  ParsePKCS8PrivateKey b := if bool_decide (b = [2]) then Some (Some good_key) else None;
  certificate_made _ := true;
  hjson_Unmarshal b c := match b with 123 :: key => (with_key key (Certificate c) c, true) | _ => (c, false) end;
  utf16_Decode _ := None;
  GetDefaults := mkDefaults "unix:///var/run/yggdrasil.sock" [mkMulticast ".*" true true 0 0 EmptyString] 65535 "auto"
}.
Definition generated : NodeConfig := (GenerateConfig good_key).1.
(** With a key file, untidy names and a proxy without content. *)
Definition untidy : NodeConfig :=
  let c := generated in
  mkNodeConfig [] "key" None (Peers c) (InterfacePeers c) (Listen c)
    (AdminListen c) " none " (AdminWebStaticDir c) (LocalDNSListen c) (MulticastInterfaces c) (AllowedPublicKeys c) (GroupPassword c)
    (mkTransportConfig (NewTransportNetworkConfig " NATIVE ") {[ "*.x"%string := mkTNC true false " Socks" " socks5://a:1 " ]})
    (AutoPeer c) (Jumper c) " VTun+Socks" "  " (IfMTU c) (TunSocksListen c) [mkProxy " " ""] (TunSocksDefaultProxy c)
    (TunSocksDNSFallback c) (TunSocksNoResolve c) (TunSocksTLSMITM c) (mkFirewall None [443; 22; 443] []) (TunMWO c) (TunMRO c)
    (LogLookups c) (NodeInfoPrivacy c) (NodeInfo c).
Lemma generated_fine : GenerateConfig good_key = (generated, Fine).
Proof. vm_compute. reflexivity. Qed.
End Sample.

Lemma network_json_roundtrip_witness :
  UnmarshalJSON (MarshalJSON (mkTNC true false "socks" "socks5://a:1")) = Some (mkTNC true false "socks" "socks5://a:1").
Proof. apply (network_json_roundtrip (mkTNC true false "socks" "socks5://a:1")). vm_compute. split; [reflexivity|]. split; [discriminate|]. split; reflexivity. Defined.

Lemma network_of_config_witness :
  let c := mkTNC true false "socks" "socks5://a:1" in
  NetworkFromConfig (fun _ => true) true (ConfigFromNetwork (Some (SocksNet c))) = Ok (Some (SocksNet c)).
Proof.
  apply (network_of_config (fun _ => true) (mkTNC true false "socks" "socks5://a:1")); [|reflexivity].
  vm_compute. split; [reflexivity|]. split; [discriminate|]. split; reflexivity.
Defined.

Lemma postprocess_idempotent_witness :
  let c := (postprocessConfig (P := Sample.platform) Sample.untidy).1 in
  TunType c = "sockstun"%string /\ PrivateKey c = Sample.good_key /\ postprocessConfig (P := Sample.platform) c = (c, Fine).
Proof.
  split; [vm_compute; reflexivity|]. split; [vm_compute; reflexivity|].
  apply (postprocess_idempotent (P := Sample.platform) Sample.untidy). vm_compute. reflexivity.
Defined.

Lemma ReadFrom_panics_witness :
  (ReadFrom (P := Sample.platform) (Some [123; 1; 2; 3]) Sample.good_key Sample.generated).2 = Panicked.
Proof.
  apply (ReadFrom_panics (P := Sample.platform) [123; 1; 2; 3] Sample.good_key Sample.generated Sample.generated
    (with_key [1; 2; 3] (Certificate Sample.generated) Sample.generated)); try (vm_compute; reflexivity).
  - vm_compute. discriminate.
  - intros H. apply list_elem_of_In in H. vm_compute in H. intuition discriminate.
  - vm_compute. split; discriminate.
Defined.

Lemma admin_fallback_witness :
  EffectiveAdminListenFor "unix:///var/run/yggdrasil.sock" (AdminListen Sample.untidy) (TunType Sample.untidy) (IfName Sample.untidy) = UnprivilegedAdminListen.
Proof.
  apply (admin_fallback "unix:///var/run/yggdrasil.sock" Sample.untidy); try reflexivity; discriminate.
Defined.
