(* ===== verification/Admin.v ===== *)
(** * Admin: the admin protocol (ygglib/admin/admin.go, web.go)

    The table of handlers, the dispatch of a request, the loop over the requests
    of a connection, the HTTP front end, and the start and stop of both.  A
    handler is a function of its arguments and of the state of the node, and may
    panic; the handlers themselves are in AdminHandlers. *)

From Stdlib Require Import Ascii.
From S2P Require Import Prelude GoStd Json.

(** ** Data *)

Record AdminSocketRequest := mkRequest { Name : string; Arguments : option json; KeepAlive : bool }.
Record AdminSocketResponse := mkResponse {
  Status : string; Error : string; Request : AdminSocketRequest; Response : option json
}.

(** A nil map or slice is [None] for [Arguments]; the [Response] of an error is
    empty.  The result of a handler: [Answer None] cannot be marshalled. *)
Inductive hresult := Panic | Fails (err : string) | Answer (res : option json).

Section Admin.
Context {S : Type}.

(** [Listing] is the function of "list", which reads the table itself. *)
Inductive HandlerFunc := Listing | Func (f : json -> S -> hresult * S).
Record handler := mkHandler { desc : string; args : list string; run : HandlerFunc }.

(** ** The table *)

Definition AddHandler (name desc : string) (args : list string) (f : HandlerFunc) (a : gmap string handler) : bool * gmap string handler :=
  match a !! ToLower name with
  | Some _ => (false, a)                                   (* handler already exists *)
  | None => (true, <[ToLower name := mkHandler desc args f]> a)
  end.

Record ListEntry := mkEntry { Command : string; Description : string; Fields : list string }.

(** The order of a map range is [order], a permutation of the table: it decides
    nothing, since the names are distinct ([list_complete]). *)
Definition list_handlers (order : list (string * handler)) : list ListEntry :=
  SortStableFunc (by_string Command) (map (fun e => mkEntry e.1 (desc e.2) (args e.2)) order).

Definition entry_json (e : ListEntry) : json :=
  Obj ([("command"%string, Str (Command e)); ("description"%string, Str (Description e))] ++
       match Fields e with [] => [] | l => [("fields"%string, Arr (map Str l))] end).
Definition list_json (l : list ListEntry) : json :=
  Obj [("list"%string, match l with [] => Null | l => Arr (map entry_json l) end)].

(** ** Dispatch *)

Definition quote_unknown (name : string) : string :=
  String.append "unknown action '" (String.append name "', try 'list' for help").

(** [None]: the handler panics. *)
Definition Dispatch (order : list (string * handler)) (req : AdminSocketRequest) (a : gmap string handler) (s : S)
    : option AdminSocketResponse * S :=
  let req := mkRequest (Name req) (Some (default (Obj []) (Arguments req))) (KeepAlive req) in
  let arguments := default (Obj []) (Arguments req) in
  if bool_decide (Name req = EmptyString) then (Some (mkResponse "error" "no request specified" req None), s)
  else
    let reqname := ToLower (Name req) in
    match a !! reqname with
    | None => (Some (mkResponse "error" (quote_unknown reqname) req None), s)
    | Some h =>
        let '(res, s) := match run h with
                         | Listing => (Answer (Some (list_json (list_handlers order))), s)
                         | Func f => f arguments s
                         end in
        (match res with
         | Panic => None
         | Fails err => Some (mkResponse "error" err req None)
         | Answer None => Some (mkResponse "error" "failed to marshal response" req None)
         | Answer (Some j) => Some (mkResponse "success" EmptyString req (Some j))
         end, s)
    end.

(** ** A connection of the socket *)

Definition request_fields : list (field AdminSocketRequest) := [
  string_field "request" (fun s r => mkRequest s (Arguments r) (KeepAlive r));
  raw_field "arguments" (fun j r => mkRequest (Name r) (Some j) (KeepAlive r));
  bool_field "keepalive" (fun b r => mkRequest (Name r) (Arguments r) b)
].

Definition with_error (err : string) (r : AdminSocketResponse) : AdminSocketResponse :=
  mkResponse "error" err (Request r) (Response r).

(** One request: [None] when no JSON value could be read.  The response, unless
    the handler panics, and whether the connection is kept. *)
Definition handle_one (order : list (string * handler)) (text : option json) (a : gmap string handler) (s : S)
    : option AdminSocketResponse * bool * S :=
  let empty := mkRequest EmptyString (Some (Obj [])) false in
  let '(req, err) :=
    match text with
    | None => (empty, Some "failed to find request"%string)
    | Some j => match unmarshal false request_fields j empty with
                | (req, true) => (req, None)
                | (req, false) => (mkRequest EmptyString (Arguments req) (KeepAlive req), Some "failed to unmarshal request"%string)
                end
    end in
  let '(resp, s) := Dispatch order req a s in
  (option_map (match err with None => id | Some e => with_error e end) resp, KeepAlive req, s).

(** The requests in the order in which they are read; reading fails at the end
    of the input.  [false]: a handler has panicked and the process is gone. *)
Fixpoint handleRequest (order : list (string * handler)) (input : list (option json)) (a : gmap string handler) (s : S)
    : list AdminSocketResponse * bool * S :=
  let '(text, rest) := match input with [] => (None, []) | text :: rest => (text, rest) end in
  let '(resp, keep, s) := handle_one order text a s in
  match resp with
  | None => ([], false, s)
  | Some resp =>
      match keep, input with
      | true, _ :: rest =>
          let '(resps, alive, s) := handleRequest order rest a s in (resp :: resps, alive, s)
      | _, _ => ([resp], true, s)
      end
  end.

(** ** The HTTP front end *)

Inductive http_method := GET | POST | OTHER.
(** The body: a JSON value, nothing, or something else. *)
Inductive http_body := Body (j : json) | EmptyBody | BadBody.

Record http_response := mkHTTP { StatusCode : Z; body : option AdminSocketResponse }.

Definition writeWebAPIResponse (r : option AdminSocketResponse) : option http_response :=
  match r with
  | None => None                         (* net/http recovers the panic and closes the connection *)
  | Some r => Some (mkHTTP (if bool_decide (Status r = "error"%string) then 400 else 200) (Some r))
  end.

Definition webAPIHandler (order : list (string * handler)) (m : http_method) (path : string) (b : http_body)
    (a : gmap string handler) (s : S) : option http_response * S :=
  let name := Trim (TrimPrefix path "/.yggapi") "/" in
  let dispatch req := let '(r, s) := Dispatch order req a s in (writeWebAPIResponse r, s) in
  let failed err req := (writeWebAPIResponse (Some (mkResponse "error" err req None)), s) in
  match m with
  | OTHER => (Some (mkHTTP 405 None), s)
  | GET => dispatch (mkRequest (if bool_decide (name = EmptyString) then "list"%string else name) (Some (Obj [])) false)
  | POST =>
      let req := mkRequest name (Some (Obj [])) false in
      if bool_decide (name = EmptyString) then
        match b with
        | Body j => match unmarshal true request_fields j req with
                    | (req, true) => dispatch req
                    | (_, false) => failed "failed to unmarshal request"%string (mkRequest EmptyString None false)
                    end
        | _ => failed "failed to unmarshal request"%string (mkRequest EmptyString None false)
        end
      else
        match b with
        | BadBody => failed "failed to unmarshal arguments"%string req
        | EmptyBody => dispatch req
        | Body j => dispatch (mkRequest name (Some j) false)
        end
  end.
End Admin.
Arguments HandlerFunc : clear implicits.
Arguments handler : clear implicits.

(** ** Start and stop *)

Module Lifecycle.

Record config := mkConfig { listenaddr : string; webListenaddr : string }.

Inductive dial_result := Connected | TimedOut | OtherError.
Definition unixSocketInUse (d : dial_result) : bool :=
  match d with Connected | TimedOut => true | OtherError => false end.

(** What the system answers. *)
Record outcomes := mkOutcomes {
  parsed : string -> option URL;                 (* url.Parse *)
  exists_file : bool; dialed : dial_result; removed : bool;
  socket_bound : bool; web_bound : bool; static_ok : bool
}.

Inductive effect := Dial (path : string) | Remove (path : string) | Bind (net address : string) | Chmod (path : string) | Unbind (net address : string).

(** Whether the socket listens, and what was done. *)
Definition startSocket (addr : string) (o : outcomes) : option (string * string) * list effect :=
  let bind net address := if socket_bound o then (Some (net, address), [Bind net address]) else (None, []) in
  match parsed o addr with
  | None => bind "tcp"%string addr
  | Some u =>
      if bool_decide (ToLower (Scheme u) = "unix"%string) then
        let listen before :=
          let '(r, es) := bind "unix"%string (Path u) in
          (r, before ++ es ++
             (if socket_bound o && negb (bool_decide (Path u = EmptyString)) && negb (HasPrefix (Path u) "@")
              then [Chmod (Path u)] else [])) in
        if exists_file o then
          if unixSocketInUse (dialed o) then (None, [Dial (Path u)])
          else if removed o then listen [Dial (Path u); Remove (Path u)]
          else (None, [Dial (Path u); Remove (Path u)])
        else listen []
      else if bool_decide (ToLower (Scheme u) = "tcp"%string) then bind "tcp"%string (Host u)
      else bind "tcp"%string addr
  end.

Definition listenWebAdmin (addr : string) (o : outcomes) : option (string * string) :=
  let bind address := if web_bound o then Some ("tcp"%string, address) else None in
  match parsed o addr with
  | Some u =>
      if EqualFold (Scheme u) "tcp" then bind (Host u)
      else if negb (bool_decide (Scheme u = EmptyString)) then None    (* unsupported scheme *)
      else bind addr
  | None => bind addr
  end.

Definition startWebAdmin (addr : string) (o : outcomes) : bool * list effect :=
  match listenWebAdmin addr o with
  | None => (false, [])
  | Some (net, address) =>
      if static_ok o then (true, [Bind net address]) else (false, [Bind net address; Unbind net address])
  end.

Definition disabled (addr : string) : bool := bool_decide (addr = EmptyString) || bool_decide (addr = "none"%string).

Inductive started := Nothing | Failure | Running (socket : option (string * string)) (web : bool).

(** admin.New; on a failure of the web server the socket is stopped again. *)
Definition New (c : config) (o : outcomes) : started * list effect :=
  let with_web socket es :=
    if disabled (webListenaddr c) then (Running socket false, es)
    else match startWebAdmin (webListenaddr c) o with
         | (true, es') => (Running socket true, es ++ es')
         | (false, es') => (Failure, es ++ es' ++ match socket with Some (net, address) => [Unbind net address] | None => [] end)
         end in
  if disabled (listenaddr c) then
    if disabled (webListenaddr c) then (Nothing, []) else with_web None []
  else match startSocket (listenaddr c) o with
       | (None, es) => (Failure, es)
       | (Some socket, es) => with_web (Some socket) es
       end.

(** A running socket: whether the channel [done] is closed, and what is open. *)
Record running := mkRunning { done_closed : bool; socket_open : bool; web_open : bool }.

(** IsStarted *)
Definition IsStarted (r : running) : bool := negb (done_closed r).

(** Stop, of a nil pointer too.  Closing the listener again is an error. *)
Definition Stop (has_socket : bool) (r : option running) : bool * option running :=
  match r with
  | None => (true, None)
  | Some r => (negb has_socket || socket_open r, Some (mkRunning true false false))
  end.

(** What is bound after the effects, as (network, address) pairs. *)
Definition bound_from (b : gset (string * string)) (es : list effect) : gset (string * string) :=
  fold_left (fun b e => match e with
                        | Bind net address => {[(net, address)]} ∪ b
                        | Unbind net address => b ∖ {[(net, address)]}
                        | _ => b
                        end) es b.
Definition bound (es : list effect) : gset (string * string) := bound_from ∅ es.

End Lifecycle.

(** ** Theorems *)

Section Theorems.
Context {S : Type}.
Implicit Types (a : gmap string (handler S)) (s : S) (order : list (string * handler S)).

(** Tables that registrations make: names are stored in lower case. *)
Inductive registered : gmap string (handler S) -> Prop :=
| registered_empty : registered ∅
| registered_add name desc args f a : registered a -> registered (AddHandler name desc args f a).2.

Lemma registered_lower a name h : registered a -> a !! name = Some h -> ToLower name = name.
Proof.
  induction 1 as [|n d ar f a _ IH]; [by rewrite lookup_empty|]. unfold AddHandler.
  destruct (a !! ToLower n) eqn:E; [done|]. cbn. destruct (decide (ToLower n = name)) as [<-|Hn].
  - intros _. apply ToLower_idem.
  - by rewrite lookup_insert_ne.
Qed.

(** Registering never replaces a handler: a name that is taken in any
    capitalisation is refused and the table stays as it was; otherwise requests
    by any capitalisation of the name, and only these, reach the new handler. *)
Theorem AddHandler_spec name desc args f a order req s :
  registered a ->
  let '(ok, a') := AddHandler name desc args f a in
  (ok = false <-> exists h, a !! ToLower name = Some h) /\
  (ok = false -> a' = a) /\
  (ok = true -> forall n, n <> EmptyString -> Name req = n ->
     (ToLower n <> ToLower name -> Dispatch order req a' s = Dispatch order req a s) /\
     (ToLower n = ToLower name -> forall g, f = Func g ->
        (Dispatch order req a' s).2 = (g (default (Obj []) (Arguments req)) s).2)).
Proof.
  intros Ha. unfold AddHandler. destruct (a !! ToLower name) as [h|] eqn:E.
  { split_and!; [|done|done]. split; [by exists h|done]. }
  split_and!; [|done|]; [split; [done|by intros [h ?]]|].
  intros _ n Hn Er. unfold Dispatch. cbn [Name Arguments default]. rewrite Er, bool_decide_false by done. split.
  - intros Hne. by rewrite lookup_insert_ne by congruence.
  - intros -> g ->. rewrite lookup_insert_eq. cbn [run]. by destruct (g _ s).
Qed.

(** "list" names every handler once, in alphabetical order, whatever order the
    map is walked in. *)
Theorem list_complete a order : Permutation order (map_to_list a) ->
  let l := list_handlers order in
  StronglySorted (fun x y => String.le (Command x) (Command y)) l /\ NoDup (map Command l) /\
  (forall e, e ∈ l <-> exists h, a !! Command e = Some h /\ e = mkEntry (Command e) (desc h) (args h)) /\
  (forall order', Permutation order' (map_to_list a) -> list_handlers order' = l).
Proof.
  intros Hp. cbv zeta. unfold list_handlers. set (f := fun e : string * handler S => mkEntry e.1 (desc e.2) (args e.2)).
  assert (Hn : NoDup (map Command (map f order))) by (rewrite Hp, map_map; apply NoDup_fst_map_to_list).
  split_and!; [apply by_string_sorted|by rewrite SortStableFunc_permutation| |].
  - intros e. rewrite SortStableFunc_permutation, Hp, list_elem_of_In, in_map_iff. split.
    + intros ([n h] & <- & Hin). cbn. rewrite <-list_elem_of_In, elem_of_map_to_list in Hin. by exists h.
    + intros (h & E & ->). exists (Command e, h). split; [done|]. by rewrite <-list_elem_of_In, elem_of_map_to_list.
  - intros order' Hp'. symmetry. apply by_string_unique; [done|]. apply Permutation_map. by rewrite Hp, Hp'.
Qed.

(** ** Connections *)

Definition keeps (text : option json) : bool :=
  match text with
  | None => false
  | Some j => KeepAlive (unmarshal false request_fields j (mkRequest EmptyString (Some (Obj [])) false)).1
  end.

Lemma handle_one_keep order text a s : (handle_one order text a s).1.2 = keeps text.
Proof.
  unfold handle_one, keeps. destruct text as [j|].
  - destruct (unmarshal _ _ _ _) as [req [|]]; cbn; by destruct (Dispatch _ _ _ _).
  - by destruct (Dispatch _ _ _ _).
Qed.

(** A connection gets one response for every request until the first that does
    not ask to be kept alive or cannot be read; that one is answered too, and
    nothing after it is. *)
Theorem connection_responses order input a s resps s' :
  handleRequest order input a s = (resps, true, s') ->
  exists n, length resps = Datatypes.S n /\ (n <= length input)%nat /\
    (forall i text, (i < n)%nat -> input !! i = Some text -> keeps text = true) /\
    (forall text, input !! n = Some text -> keeps text = false).
Proof.
  revert s resps s'. induction input as [|text input IH]; intros s resps s'; cbn [handleRequest].
  - destruct (handle_one order None a s) as [[[resp|] keep] s1] eqn:E; [|done].
    assert (keep = false) as -> by exact (eq_trans (eq_sym (f_equal (fun x => x.1.2) E)) (handle_one_keep order None a s)).
    intros [= <- <-]. exists 0%nat. split_and!; [done|done|lia|done].
  - destruct (handle_one order text a s) as [[[resp|] keep] s1] eqn:E; [|done].
    pose proof (handle_one_keep order text a s) as Hk. rewrite E in Hk. cbn in Hk. subst keep.
    destruct (keeps text) eqn:Ek.
    + destruct (handleRequest order input a s1) as [[resps' alive] s2] eqn:Eh. intros [= <- -> <-].
      destruct (IH s1 resps' s2 Eh) as (n & H1 & H2 & H3 & H4). exists (Datatypes.S n).
      split_and!; [by cbn; rewrite H1|cbn; lia| |done].
      intros [|i] t Hi; cbn; [by intros [= <-]|]. intros Et. apply (H3 i); [lia|done].
    + intros [= <- <-]. exists 0%nat. split_and!; [done|cbn; lia|lia|]. cbn. by intros t [= <-].
Qed.

(** The request over the socket that an HTTP request stands for, if it stands for
    one: a GET asks for the handler that its path names, and for the list when it
    names none; a POST has the arguments in its body, which may be empty, or,
    when its path names no handler, the whole request, of which the decoder
    accepts no unknown field. *)
Definition socket_request (m : http_method) (path : string) (b : http_body) : option json :=
  let name := Trim (TrimPrefix path "/.yggapi") "/" in
  let named := ("request"%string, Str name) in
  match m, b with
  | OTHER, _ => None
  | GET, _ => Some (Obj [("request"%string, Str (if bool_decide (name = EmptyString) then "list"%string else name))])
  | POST, Body j =>
      if bool_decide (name = EmptyString)
      then if (unmarshal true request_fields j (mkRequest name (Some (Obj [])) false)).2 then Some j else None
      else Some (Obj [named; ("arguments"%string, j)])
  | POST, EmptyBody => if bool_decide (name = EmptyString) then None else Some (Obj [named])
  | POST, BadBody => None
  end.

Lemma unmarshal_named name rest (a : AdminSocketRequest) : unmarshal false request_fields (Obj (("request"%string, Str name) :: rest)) a =
  unmarshal false request_fields (Obj rest) (mkRequest name (Arguments a) (KeepAlive a)).
Proof. reflexivity. Qed.
Lemma unmarshal_arguments j (a : AdminSocketRequest) : unmarshal false request_fields (Obj [("arguments"%string, j)]) a = (mkRequest (Name a) (Some j) (KeepAlive a), true).
Proof. reflexivity. Qed.

(** C27: the web interface answers like the socket: an HTTP request with GET or
    POST, with or without the name of a handler in its path, that stands for a
    request is answered with the response that this request gets over the
    socket and leaves the node as that one does, with the status 400 for an
    error and 200 otherwise.  Any other HTTP request reaches no handler: it is
    answered with 405 for another method, and with 400 and an error for a body
    that cannot be decoded. *)
Theorem web_like_socket order m path b a s :
  let '(r, s') := webAPIHandler order m path b a s in
  match socket_request m path b with
  | Some text =>
      let '(resp, _, s'') := handle_one order (Some text) a s in
      s' = s'' /\
      r = option_map (fun x => mkHTTP (if bool_decide (Status x = "error"%string) then 400 else 200) (Some x)) resp
  | None =>
      s' = s /\ ((m = OTHER /\ r = Some (mkHTTP 405 None)) \/
                 (m = POST /\ exists x, Status x = "error"%string /\ r = Some (mkHTTP 400 (Some x))))
  end.
Proof.
  assert (Hd : forall req, let '(resp, s1) := Dispatch order req a s in
    s1 = s1 /\ writeWebAPIResponse resp =
      option_map (fun x => mkHTTP (if bool_decide (Status x = "error"%string) then 400 else 200) (Some x)) (option_map id resp)).
  { intros req. by destruct (Dispatch order req a s) as [[resp|] s1]. }
  assert (Hf : forall err req, exists x : AdminSocketResponse, Status x = "error"%string /\
    writeWebAPIResponse (Some (mkResponse "error" err req None)) = Some (mkHTTP 400 (Some x))).
  { intros err req. by exists (mkResponse "error" err req None). }
  unfold webAPIHandler, socket_request, handle_one. set (name := Trim _ "/"). destruct m; [| |destruct b; (split; [done|by left])].
  - rewrite unmarshal_named. cbn -[Dispatch]. specialize (Hd (mkRequest (if bool_decide (name = EmptyString) then "list"%string else name) (Some (Obj [])) false)).
    by destruct (Dispatch _ _ a s) as [resp s1].
  - case_bool_decide as En; [rewrite !En|]; destruct b as [j| |];
      try (split; [done|right; split; [done|apply Hf]]).
    + destruct (unmarshal true request_fields j _) as [req [|]] eqn:E; cbn [snd]; [|split; [done|right; split; [done|apply Hf]]].
      assert (unmarshal false request_fields j (mkRequest EmptyString (Some (Obj [])) false) = (req, true)) as ->.
      { unfold unmarshal in *. destruct j; try done. by apply decode_fields_strict. }
      specialize (Hd req). by destruct (Dispatch order req a s).
    + rewrite unmarshal_named, unmarshal_arguments. cbn -[Dispatch]. specialize (Hd (mkRequest name (Some j) false)). by destruct (Dispatch _ _ a s).
    + rewrite unmarshal_named. cbn -[Dispatch]. specialize (Hd (mkRequest name (Some (Obj [])) false)). by destruct (Dispatch _ _ a s).
Qed.

(** ** Start *)

Lemma bound_app es fs b :
  Lifecycle.bound_from b (es ++ fs) = Lifecycle.bound_from (Lifecycle.bound_from b es) fs.
Proof. unfold Lifecycle.bound_from. by rewrite fold_left_app. Qed.

(** What startSocket leaves bound, and when it removes a file. *)
Lemma startSocket_spec addr o :
  let '(r, es) := Lifecycle.startSocket addr o in
  Lifecycle.bound es = match r with Some x => {[x]} | None => ∅ end /\
  (forall path, Lifecycle.Remove path ∈ es -> Lifecycle.dialed o = Lifecycle.OtherError /\ Lifecycle.exists_file o = true).
Proof.
  unfold Lifecycle.startSocket, Lifecycle.unixSocketInUse.
  assert (Hb : forall net address,
    let '(r, es) := if Lifecycle.socket_bound o then (Some (net, address), [Lifecycle.Bind net address]) else (None, []) in
    Lifecycle.bound es = match r with Some x => {[x]} | None => ∅ end /\
    (forall path, Lifecycle.Remove path ∈ es -> Lifecycle.dialed o = Lifecycle.OtherError /\ Lifecycle.exists_file o = true)).
  { intros net address. destruct (Lifecycle.socket_bound o); (split; [unfold Lifecycle.bound; cbn; by rewrite ?union_empty_r_L|]); intros path H;
      [by apply list_elem_of_singleton in H|by apply elem_of_nil in H]. }
  destruct (Lifecycle.parsed o addr) as [u|]; [|apply Hb]. case_bool_decide; [|by case_bool_decide; apply Hb].
  destruct (Lifecycle.exists_file o), (Lifecycle.dialed o), (Lifecycle.removed o), (Lifecycle.socket_bound o),
    (bool_decide (Path u = EmptyString)), (HasPrefix (Path u) "@"); cbn;
    (split; [by rewrite ?union_empty_r_L|intros path Hin; rewrite ?elem_of_cons, ?elem_of_nil in Hin; naive_solver]).
Qed.

(** Starting never takes the socket of a running process away: the file is
    removed only after a connection to it was refused.  When the start fails,
    for whatever reason, nothing stays bound; when it succeeds, the socket that
    was asked for is. *)
Theorem New_is_careful c o :
  let '(r, es) := Lifecycle.New c o in
  (forall path, Lifecycle.Remove path ∈ es -> Lifecycle.dialed o = Lifecycle.OtherError /\ Lifecycle.exists_file o = true) /\
  match r with
  | Lifecycle.Nothing => es = [] /\ Lifecycle.disabled (Lifecycle.listenaddr c) = true /\ Lifecycle.disabled (Lifecycle.webListenaddr c) = true
  | Lifecycle.Failure => Lifecycle.bound es = ∅
  | Lifecycle.Running socket web =>
      (socket = None <-> Lifecycle.disabled (Lifecycle.listenaddr c) = true) /\
      web = negb (Lifecycle.disabled (Lifecycle.webListenaddr c)) /\
      forall x, socket = Some x -> x ∈ Lifecycle.bound es
  end.
Proof.
  unfold Lifecycle.New. pose proof (startSocket_spec (Lifecycle.listenaddr c) o) as Hs.
  assert (Hweb : let '(ok, es) := Lifecycle.startWebAdmin (Lifecycle.webListenaddr c) o in
    (forall path, Lifecycle.Remove path ∉ es) /\
    (ok = true -> forall b, b ⊆ Lifecycle.bound_from b es) /\ (ok = false -> forall b, Lifecycle.bound_from b es ⊆ b)).
  { unfold Lifecycle.startWebAdmin. destruct (Lifecycle.listenWebAdmin _ _) as [[net address]|]; [destruct (Lifecycle.static_ok o)|];
      (split; [intros path H; rewrite ?elem_of_cons, ?elem_of_nil in H; naive_solver|]); unfold Lifecycle.bound_from; cbn;
      (split; [done || set_solver|done || set_solver]). }
  destruct (Lifecycle.startWebAdmin (Lifecycle.webListenaddr c) o) as [web wes]. destruct Hweb as (W1 & W2 & W3).
  destruct (Lifecycle.disabled (Lifecycle.listenaddr c)) eqn:Ed1.
  - destruct (Lifecycle.disabled (Lifecycle.webListenaddr c)) eqn:Ed2; [by split; [intros path ?%elem_of_nil|]|].
    destruct web; cbn [app]; rewrite ?app_nil_r; (split; [intros path H; by apply W1 in H|]); [done|].
    apply set_eq. intros x. split; [|set_solver]. intros H. by apply (W3 eq_refl ∅) in H.
  - destruct (Lifecycle.startSocket (Lifecycle.listenaddr c) o) as [[x|] es]; destruct Hs as [Hb Hr].
    + destruct (Lifecycle.disabled (Lifecycle.webListenaddr c)) eqn:Ed2.
      { split; [done|]. split_and!; [done|done|]. intros y [= <-]. rewrite Hb. by apply elem_of_singleton. }
      destruct web.
      * split; [intros path [H|H]%elem_of_app; [by apply (Hr path)|by apply W1 in H]|]. split_and!; [done|done|].
        intros y [= <-]. unfold Lifecycle.bound in *. rewrite bound_app. apply (W2 eq_refl). rewrite Hb. by apply elem_of_singleton.
      * destruct x as [net address]. split.
        { intros path H. apply elem_of_app in H as [H|H]; [by apply (Hr path)|].
          apply elem_of_app in H as [H|H]; [by apply W1 in H|]. by apply list_elem_of_singleton in H. }
        unfold Lifecycle.bound in *. rewrite !bound_app, Hb. cbn. specialize (W3 eq_refl {[(net, address)]}).
        apply set_eq. intros y. set_solver.
    + split; [done|]. exact Hb.
Qed.

End Theorems.

(** ** Concrete runs *)

Module Sample.
(** One handler, that counts its calls. *)
Definition table : gmap string (handler nat) := (AddHandler "Count" "counts" ["n"%string] (Func (fun _ s => (Answer (Some Null), Datatypes.S s))) ∅).2.
Definition request (name : string) (keep : bool) : json := Obj [("request", Str name); ("keepalive", Bool keep)]%string.
End Sample.

Lemma AddHandler_spec_witness :
  registered Sample.table /\ (AddHandler "COUNT" "again" [] Listing Sample.table).1 = false /\
  (AddHandler "COUNT" "again" [] Listing Sample.table).2 = Sample.table.
Proof.
  assert (H : registered Sample.table) by (apply registered_add; apply registered_empty). split; [exact H|].
  pose proof (AddHandler_spec "COUNT" "again" [] Listing Sample.table [] (mkRequest "count" None false) 0%nat H) as Hs.
  destruct (AddHandler "COUNT" "again" [] Listing Sample.table) as [ok a'] eqn:E. destruct Hs as (_ & Hs & _).
  injection E as Eok _. split; [by symmetry|]. apply Hs. by symmetry.
Defined.

Lemma list_complete_witness :
  Permutation (map_to_list Sample.table) (map_to_list Sample.table) /\
  StronglySorted (fun x y => String.le (Command x) (Command y)) (list_handlers (map_to_list Sample.table)).
Proof. split; [done|]. by apply (list_complete Sample.table (map_to_list Sample.table)). Defined.

Lemma connection_responses_witness :
  let input := [Some (Sample.request "count" true); Some (Sample.request "none" false); Some (Sample.request "count" false)] in
  exists resps s', handleRequest [] input Sample.table 0%nat = (resps, true, s') /\ s' = 1%nat /\ length resps = 2%nat /\
    exists n, length resps = Datatypes.S n /\ (n <= length input)%nat.
Proof.
  intros input. destruct (handleRequest [] input Sample.table 0%nat) as [[resps alive] s'] eqn:E. exists resps, s'.
  pose proof E as E'. vm_compute in E'. injection E' as E1 <- <-. split; [done|]. split; [done|]. split; [by rewrite <-E1|].
  destruct (connection_responses _ _ _ _ _ _ E) as (n & H1 & H2 & _). by exists n.
Defined.

