(* ===== verification/AdminHandlers.v ===== *)
(** * AdminHandlers: what the admin requests do
    (ygglib/admin/admin.go, adapters.go, transport.go, getpeers.go, get*.go,
    addpeer.go, removepeer.go, options.go)

    Every handler decodes its arguments, calls the node and builds its answer.
    The node is an interface, the class [Node]; the controllers keep a little
    state of their own.  A handler that decodes into a pointer variable holds a
    nil pointer after [null], and panics when it reads a field of it. *)

From Stdlib Require Import Ascii Floats.SpecFloat.
From S2P Require Import Prelude GoStd Address Links Core Multicast Fetcher Autopeer Jumper Json Config Admin.

(** ** Requests

    A request struct holds strings only: it is the map from the names of its
    fields to their values. *)

Definition request : Type := gmap string string.
Definition strings_fields (names : list string) : list (field request) :=
  map (fun n => string_field n (fun s r => <[n := s]> r)) names.
Definition arg (r : request) (n : string) : string := default EmptyString (r !! n).

Definition key_fields := strings_fields ["key"%string].
Definition getPeers_fields := strings_fields ["sort"%string].
Definition peer_fields := strings_fields ["uri"; "interface"]%string.
Definition setTransport_fields :=
  strings_fields ["default_network"; "default_network_config"; "network_mappings"; "unset_network_mappings"]%string.
Definition setAutoPeer_fields :=
  strings_fields ["enabled"; "sources"; "fetch_interval"; "check_interval"; "minimum_connected";
                  "minimum_connected_from_fetch"; "countries"; "transport_schemes"]%string.
Definition refreshAutoPeer_fields := strings_fields ["source"%string].
Definition setJumper_fields := strings_fields ["enabled"; "addresses"; "check_interval"; "link_timeout"]%string.
Definition attachTun_fields :=
  strings_fields ["type"; "name"; "mtu"; "socks_listen"; "socks_proxies"; "socks_default_proxy"; "socks_dns_fallback";
                  "socks_no_resolve"; "socks_tls_mitm_ca"; "socks_tls_mitm_key"; "socks_tls_mitm_hosts"; "mwo"; "mro";
                  "firewall_enabled"; "firewall_tcp_ports"; "firewall_udp_ports"]%string.
Definition setProxies_fields := strings_fields ["proxies"; "default_proxy_url"]%string.
Definition setDNS_fields := strings_fields ["fallback_server"; "no_resolve_zones"]%string.
Definition setFirewall_fields := strings_fields ["enabled"; "allowed_tcp_ports"; "allowed_udp_ports"]%string.

(** ** Answers *)

Record PeerEntry := mkPeerEntry {
  e_URI : string; e_Up : bool; e_Inbound : bool; e_IPAddress : string; e_PublicKey : string;
  e_Port : Z; e_Priority : Z; e_Cost : Z; e_RXBytes : Z; e_TXBytes : Z; e_RXRate : Z; e_TXRate : Z;
  e_Uptime : float64; e_Latency : Z; e_LastError : option Table.link_error; e_LastErrorTime : Z
}.
Record TreeEntry := mkTreeEntry { t_IPAddress : string; t_PublicKey : string; t_Parent : string; t_Sequence : Z }.
Record PathEntry := mkPathEntry { p_IPAddress : string; p_PublicKey : string; p_Path : list Z; p_Sequence : Z }.
Record SessionEntry := mkSessionEntry { s_IPAddress : string; s_PublicKey : string; s_RXBytes : Z; s_TXBytes : Z; s_Uptime : float64 }.
Record GetTransportResponse := mkTransport {
  DefaultNetworkName : option string; DefaultNetworkConfig : json;
  NetworkMappingNames : gmap string (option string); NetworkMappingConfigs : gmap string json
}.
Record GetAutoPeerResponse := mkAutoPeer {
  a_Enabled : bool; a_Active : bool; a_Sources : option (list string); a_FetchInterval : option Z; a_Config : Autopeer.ManagerConfig;
  a_Peers : list Peer
}.
Record GetJumperResponse := mkJumper { j_Enabled : bool; j_Active : bool; j_Addresses : list string; j_Config : Jumper.Config }.
Record TunFirewallConfig := mkTunFirewall { Enabled : bool; AllowedTCPPorts : list Z; AllowedUDPPorts : list Z }.
Record TunSocksProxyRouting := mkRouting { Proxies : list TunSocksProxyConfig; DefaultProxyURL : string }.
Record TunSocksDNSConfig := mkDNS { FallbackServer : string; NoResolveZones : list string }.

Inductive answer :=
| ASelf (key : bytes) (routing_entries : Z)
| AInfo (key : string) (info : json)
| AKeys (ip : string) (keys : list string)
| APeers (l : list PeerEntry) | ATree (l : list TreeEntry) | APaths (l : list PathEntry) | ASessions (l : list SessionEntry)
| ATransport (r : GetTransportResponse)
| AEmpty
| AAutoPeer (r : GetAutoPeerResponse) | AJumper (r : GetJumperResponse)
| ATun (status : json)
| AProxies (r : TunSocksProxyRouting) | ADNS (r : TunSocksDNSConfig)
| AFirewall (c : TunFirewallConfig) (tracked : Z)
| AConfig (c : gmap string json) | AMulticast (l : list InterfaceState)
| ALookups (l : list (bytes * list Z * Z)).

(** ** The node as the handlers see it

    [None] and [false] are errors.  An operation of type [option (bool * N)], or
    [option N], can end the process: it is [None] when the call panics, or a
    goroutine meanwhile.  These are the removal of a peer (an incoming link has
    nothing to cancel: Links, [Table.remove]), the start and the stop of the
    jumper (two that overlap close a channel twice: Jumper, [restart_race]) and
    the calls that reach the native device (Native, [Darwin_address]). *)
Class Node (N : Type) := {
  GetSelf : N -> bytes * Z;
  GetPeers : N -> list PeerInfo;
  node_GetTree : N -> list TreeEntryInfo;
  node_GetPaths : N -> list PathEntryInfo;
  node_GetSessions : N -> list SessionInfo;
  GetNodeInfo : string -> N -> option json;
  DebugRemoteGetSelf : string -> N -> option json;
  DebugRemoteGetPeers : string -> N -> option (list string);
  DebugRemoteGetTree : string -> N -> option (list string);
  AddPeer : URL -> string -> N -> bool * N;
  RemovePeer : URL -> string -> N -> option (bool * N);
  DefaultNetwork : N -> option Network;
  NetworkMappings : N -> gmap string (option Network);
  SetTransportDefaultNetwork : option Network -> N -> N;
  MapTransportNetwork : string -> option Network -> N -> bool * N;
  UnmapTransportNetwork : string -> N -> bool * N;
  (* the managers of autopeering and of the jumper, and the node info *)
  auto_Config : N -> Autopeer.ManagerConfig;
  auto_SetConfig : Autopeer.ManagerConfig -> N -> N;
  auto_IsStarted : N -> bool;
  auto_Start : N -> N;
  auto_Peers : N -> list Peer;
  has_fetcher : N -> bool;
  fetcher_Sources : N -> list string;
  fetcher_Interval : N -> Z;
  fetcher_SetInterval : Z -> N -> N;
  fetcher_SetSources : list string -> N -> N;
  fetcher_FetchNow : string -> N -> bool * N;
  jumper_Config : N -> Jumper.Config;
  jumper_SetConfig : Jumper.Config -> N -> N;
  jumper_IsStarted : N -> bool;
  jumper_Start : N -> option N;
  jumper_Stop : N -> option (bool * N);
  SetNodeInfo : gmap string json -> bool -> N -> bool * N;
  node_InterfaceStates : N -> list InterfaceState;
  (* the TUN adapter and its controller *)
  tun_Status : N -> json;
  tun_TrackedFlows : N -> Z;
  tun_Attach : request -> bool -> N -> option (bool * N);
  tun_Detach : N -> option (bool * N);
  GetSocksProxies : N -> TunSocksProxyRouting;
  SetSocksProxies : TunSocksProxyRouting -> N -> bool * N;
  GetSocksDNS : N -> TunSocksDNSConfig;
  SetSocksDNS : TunSocksDNSConfig -> N -> bool * N;
  GetFirewall : N -> TunFirewallConfig;
  SetFirewall : TunFirewallConfig -> N -> bool * N
}.

(** The node and what the controllers and the lookup log keep: their enabled
    flags, the published addresses, and per key the path and time of the last
    lookup. *)
Record world (N : Type) := mkWorld {
  node : N; auto_enabled : bool; jumper_enabled : bool; jumper_addresses : list string; infos : gmap bytes (list Z * Z)
}.
Arguments mkWorld {N}. Arguments node {N}. Arguments auto_enabled {N}. Arguments jumper_enabled {N}.
Arguments jumper_addresses {N}. Arguments infos {N}.

Definition set_node {N : Type} (n : N) (w : world N) : world N :=
  mkWorld n (auto_enabled w) (jumper_enabled w) (jumper_addresses w) (infos w).
Definition set_auto {N : Type} (b : bool) (w : world N) : world N :=
  mkWorld (node w) b (jumper_enabled w) (jumper_addresses w) (infos w).
Definition set_jumper {N : Type} (b : bool) (l : list string) (w : world N) : world N :=
  mkWorld (node w) (auto_enabled w) b l (infos w).
Definition set_infos {N : Type} (m : gmap bytes (list Z * Z)) (w : world N) : world N :=
  mkWorld (node w) (auto_enabled w) (jumper_enabled w) (jumper_addresses w) m.

(** ** Helpers *)

Definition of_Z (z : Z) : float64 := binary_normalize 53 1024 z 0 false.
Definition f_sub : float64 -> float64 -> float64 := SFsub 53 1024.
(** Duration.Seconds *)
Definition Seconds (d : Z) : float64 :=
  f_add (of_Z (Z.quot d 1000000000)) (f_div (of_Z (Z.rem d 1000000000)) (of_Z 1000000000)).
(** int(f), and [f != 0], of a finite number. *)
Definition f_int (f : float64) : Z :=
  match f with
  | S754_finite s m e => let v := if 0 <=? e then Z.pos m * 2 ^ e else Z.pos m / 2 ^ (- e) in if s then - v else v
  | _ => 0
  end.
Definition f_nonzero (f : float64) : bool := match f with S754_zero _ => false | _ => true end.

(** int(a - b) of two uint64 *)
Definition u64_diff (a b : Z) : Z := i64 (u64 (a - b)).

(** The comparisons in turn, the first that tells the two apart. *)
Fixpoint first_nonzero (l : list (bool * Z)) : Z :=
  match l with
  | [] => 0
  | (differs, d) :: l => if differs then d else first_nonzero l
  end.
Definition by_key (a b : PeerEntry) : bool * Z :=
  let d := Compare (e_PublicKey a) (e_PublicKey b) in (negb (d =? 0), d).
Definition by_priority (a b : PeerEntry) : bool * Z := (negb (e_Priority a =? e_Priority b), u64_diff (e_Priority a) (e_Priority b)).
Definition by_cost (a b : PeerEntry) : bool * Z := (negb (e_Cost a =? e_Cost b), u64_diff (e_Cost a) (e_Cost b)).
Definition by_uptime (a b : PeerEntry) : bool * Z :=
  let d := f_sub (e_Uptime a) (e_Uptime b) in (f_nonzero d, f_int d).

Definition sortByDefault (a b : PeerEntry) : Z :=
  if negb (e_Inbound a) && e_Inbound b then -1
  else if e_Inbound a && negb (e_Inbound b) then 1
  else first_nonzero [by_key a b; by_priority a b; by_cost a b; by_uptime a b].
Definition sortByCost (a b : PeerEntry) : Z :=
  first_nonzero [by_cost a b; by_key a b; by_priority a b; by_uptime a b].
Definition sortByUptime (a b : PeerEntry) : Z :=
  first_nonzero [by_uptime a b; by_key a b; by_priority a b; by_cost a b].

Definition splitAdminCSV (value : string) : list string :=
  if bool_decide (TrimSpace value = EmptyString) then []
  else base.filter (fun p => p <> EmptyString) (map TrimSpace (Split value ",")).

(** Values of a struct field, [None] when the field is empty. *)
Definition when_set {A} (s : string) (parse : string -> option A) (keep : A) : option A :=
  if bool_decide (s = EmptyString) then Some keep else parse s.

(** The JSON texts inside of requests, durations and addresses. *)
Class Texts := {
  json_Parse : string -> option json;
  ParseDuration : string -> option Z;
  url_Parse : string -> option URL;
  url_String : URL -> string;
  IP_String : bytes -> string;
  ClientFromURL : string -> bool;
  network_up : bool;
  Marshal : answer -> option json;
  range : gmap string TransportNetworkConfig -> list (string * TransportNetworkConfig);   (* the order of a map range *)
  loaded : NodeConfig                                                                     (* the configuration of the daemon *)
}.

Section Handlers.
Context {N : Type} `{Node N} {T : Texts}.

Definition parseAdminPorts (value : string) : option (list Z) :=
  let value := TrimSpace value in
  if bool_decide (value = EmptyString) then Some []
  else if HasPrefix value "[" then
    match json_Parse value with Some j => decode_slice decode_uint16 j | None => None end
  else mapM (ParseUint 16) (base.filter (fun p => p <> EmptyString) (map TrimSpace (Split value ","))).

Definition keyToIP (keyHex : string) : string :=
  match hex_DecodeString keyHex with
  | None => keyHex
  | Some key => match AddrForKey key with Some addr => IP_String addr | None => keyHex end
  end.

Definition treeEntries (tree : list TreeEntryInfo) : list TreeEntry :=
  SortStableFunc (by_string t_PublicKey)
    (omap (fun d => match AddrForKey (te_Key d) with
                    | None => None
                    | Some addr => Some (mkTreeEntry (IP_String addr) (hex_EncodeToString (te_Key d)) (hex_EncodeToString (te_Parent d)) (te_Sequence d))
                    end) tree).
Definition pathEntries (paths : list PathEntryInfo) : list PathEntry :=
  SortStableFunc (by_string p_PublicKey)
    (omap (fun p => match AddrForKey (pe_Key p) with
                    | None => None
                    | Some addr => Some (mkPathEntry (IP_String addr) (hex_EncodeToString (pe_Key p)) (pe_Path p) (pe_Sequence p))
                    end) paths).
Definition sessionEntries (sessions : list SessionInfo) : list SessionEntry :=
  SortStableFunc (by_string s_PublicKey)
    (omap (fun s => match AddrForKey (se_Key s) with
                    | None => None
                    | Some addr => Some (mkSessionEntry (IP_String addr) (hex_EncodeToString (se_Key s)) (se_RXBytes s) (se_TXBytes s) (Seconds (se_Uptime s)))
                    end) sessions).

(** The entry of one peer at time [now]. *)
Definition peerEntry (now : Z) (p : PeerInfo) : PeerEntry :=
  let d := pi_router p in
  let lat := match d with Some d => dp_latency d | None => 0 end in
  let '(ip, key) := match AddrForKey (Key p) with
                    | Some addr => (IP_String addr, hex_EncodeToString (Key p))
                    | None => (EmptyString, EmptyString)
                    end in
  mkPeerEntry (URI p) (Up p) (Inbound p) ip key
    (match d with Some d => dp_port d | None => 0 end) (match d with Some d => dp_priority d | None => 0 end)
    (match d with Some d => dp_cost d | None => 0 end)
    (match pi_traffic p with Some c => rx c | None => 0 end) (match pi_traffic p with Some c => tx c | None => 0 end)
    (match pi_traffic p with Some c => rxrate c | None => 0 end) (match pi_traffic p with Some c => txrate c | None => 0 end)
    (Seconds (Core.Uptime p)) (if 0 <? lat then lat else 0)
    (LastError p) (match LastError p with Some _ => now - LastErrorTime p | None => 0 end).

Definition peers_cmp (sort : string) : PeerEntry -> PeerEntry -> Z :=
  let s := ToLower sort in
  if bool_decide (s = "uptime"%string) then sortByUptime
  else if bool_decide (s = "cost"%string) then sortByCost else sortByDefault.
Definition getPeersHandler (now : Z) (sort : string) (peers : list PeerInfo) : list PeerEntry :=
  SortStableFunc (peers_cmp sort) (map (peerEntry now) peers).

(** ** Decoding *)

Definition answers (a : answer) (w : world N) : hresult * world N := (Answer (Marshal a), w).
Definition fails (err : string) (w : world N) : hresult * world N := (Fails err, w).
Definition bad_arguments : string := "json: cannot unmarshal arguments".

(** [req := &T{}; json.Unmarshal(in, &req)]: the struct is read through a pointer
    that [null] has set to nil. *)
Definition through_pointer (fields : list (field request)) (k : request -> world N -> hresult * world N)
    (j : json) (w : world N) : hresult * world N :=
  match unmarshal_pointer fields j ∅ with
  | (_, false) => fails bad_arguments w
  | (None, true) => (Panic, w)
  | (Some req, true) => k req w
  end.
(** The same when no field of the struct is read. *)
Definition unread_pointer (k : world N -> hresult * world N) (j : json) (w : world N) : hresult * world N :=
  match unmarshal_pointer (strings_fields []) j ∅ with
  | (_, false) => fails bad_arguments w
  | (_, true) => k w
  end.
(** [json.Unmarshal(in, req)] *)
Definition into_struct (fields : list (field request)) (k : request -> world N -> hresult * world N)
    (j : json) (w : world N) : hresult * world N :=
  match unmarshal false fields j ∅ with
  | (_, false) => fails bad_arguments w
  | (req, true) => k req w
  end.

(** ** The core's requests *)

Definition getSelf : json -> world N -> hresult * world N :=
  unread_pointer (fun w => let '(key, entries) := GetSelf (node w) in answers (ASelf key entries) w).

Definition getNodeInfo : json -> world N -> hresult * world N :=
  through_pointer key_fields (fun req w =>
    match GetNodeInfo (arg req "key") (node w) with
    | None => fails "getNodeInfo" w
    | Some info => answers (AInfo (arg req "key") info) w
    end).
Definition debug_remoteGetSelf : json -> world N -> hresult * world N :=
  through_pointer key_fields (fun req w =>
    match DebugRemoteGetSelf (arg req "key") (node w) with
    | None => fails "debug_remoteGetSelf" w
    | Some info => answers (AInfo (keyToIP (arg req "key")) info) w
    end).
Definition debug_remoteGetPeers : json -> world N -> hresult * world N :=
  through_pointer key_fields (fun req w =>
    match DebugRemoteGetPeers (arg req "key") (node w) with
    | None => fails "debug_remoteGetPeers" w
    | Some keys => answers (AKeys (keyToIP (arg req "key")) keys) w
    end).
Definition debug_remoteGetTree : json -> world N -> hresult * world N :=
  through_pointer key_fields (fun req w =>
    match DebugRemoteGetTree (arg req "key") (node w) with
    | None => fails "debug_remoteGetTree" w
    | Some keys => answers (AKeys (keyToIP (arg req "key")) keys) w
    end).
Definition getPeers (now : Z) : json -> world N -> hresult * world N :=
  through_pointer getPeers_fields (fun req w => answers (APeers (getPeersHandler now (arg req "sort") (GetPeers (node w)))) w).
Definition getTree : json -> world N -> hresult * world N :=
  unread_pointer (fun w => answers (ATree (treeEntries (node_GetTree (node w)))) w).
Definition getPaths : json -> world N -> hresult * world N :=
  unread_pointer (fun w => answers (APaths (pathEntries (node_GetPaths (node w)))) w).
Definition getSessions : json -> world N -> hresult * world N :=
  unread_pointer (fun w => answers (ASessions (sessionEntries (node_GetSessions (node w)))) w).

(** addPeer and removePeer *)
Definition with_peer (f : URL -> string -> N -> option (bool * N)) : json -> world N -> hresult * world N :=
  through_pointer peer_fields (fun req w =>
    match url_Parse (arg req "uri") with
    | None => fails "unable to parse peering URI" w
    | Some u => match f u (arg req "interface") (node w) with
                | None => (Panic, w)
                | Some (true, n) => answers AEmpty (set_node n w)
                | Some (false, n) => fails "core" (set_node n w)
                end
    end).
Definition addPeer := with_peer (fun u i n => Some (AddPeer u i n)).
Definition removePeer := with_peer RemovePeer.

(** ** Networks *)

Definition adminNetworkName (n : option Network) : option string :=
  match n with None => None | Some _ => Some (name (ConfigFromNetwork n)) end.
Definition adminNetworkConfig (n : option Network) : json :=
  let c := ConfigFromNetwork n in
  if IsNull c then Null
  else if negb (IsSet c) then Null
  else if bool_decide (proxyURL c = EmptyString) then Str (name c)
  else Obj [("type"%string, Str (name c)); ("proxy_url"%string, Str (proxyURL c))].

Definition getTransportHandler (n : N) : GetTransportResponse :=
  mkTransport (adminNetworkName (DefaultNetwork n)) (adminNetworkConfig (DefaultNetwork n))
    (adminNetworkName <$> NetworkMappings n) (adminNetworkConfig <$> NetworkMappings n).
Definition getTransport (_ : json) (w : world N) : hresult * world N := answers (ATransport (getTransportHandler (node w))) w.

Definition make_network (c : TransportNetworkConfig) : option (option Network) :=
  match NetworkFromConfig ClientFromURL network_up c with Ok n => Some n | Err _ => None end.
Definition networkFromAdminValue (value : string) (allowUnset : bool) : option (option Network) :=
  let value := TrimSpace (ToLower value) in
  if bool_decide (value ∈ ["null"; "nil"]%string) then Some None
  else if bool_decide (value = "unset"%string) then
    if allowUnset then make_network (NewTransportNetworkConfig "native") else None
  else make_network (NewTransportNetworkConfig value).
Definition networkFromConfig (c : TransportNetworkConfig) (allowUnset : bool) : option (option Network) :=
  if IsNull c then Some None
  else if negb (IsSet c) && allowUnset then make_network (NewTransportNetworkConfig "native")
  else make_network c.
Definition parseAdminNetworkConfig (value : string) : option TransportNetworkConfig :=
  match json_Parse value with Some j => UnmarshalJSON j | None => None end.

(** Whether the loops succeed; they stop at the first failure. *)
Fixpoint map_networks (l : list (string * TransportNetworkConfig)) (n : N) : bool * N :=
  match l with
  | [] => (true, n)
  | (pattern, c) :: l =>
      match networkFromConfig c false with
      | None => (false, n)
      | Some network => match MapTransportNetwork pattern network n with
                        | (true, n) => map_networks l n
                        | (false, n) => (false, n)
                        end
      end
  end.
Fixpoint unmap_networks (l : list string) (n : N) : bool * N :=
  match l with
  | [] => (true, n)
  | pattern :: l => match UnmapTransportNetwork pattern n with
                    | (true, n) => unmap_networks l n
                    | (false, n) => (false, n)
                    end
  end.

Definition blank (s : string) : bool := bool_decide (TrimSpace s = EmptyString).

Definition setTransportHandler (req : request) (n : N) : bool * N :=
  let dn := arg req "default_network" in
  let dc := arg req "default_network_config" in
  if negb (blank dn) && negb (blank dc) then (false, n)               (* mutually exclusive *)
  else
    let unmap (n : N) := unmap_networks (splitAdminCSV (arg req "unset_network_mappings")) n in
    let mappings (n : N) :=
      let m := arg req "network_mappings" in
      if blank m then unmap n
      else match json_Parse m with
           | None => (false, n)
           | Some j => match decode_map UnmarshalJSON j with
                       | None => (false, n)
                       | Some kvs => match map_networks (range (list_to_map (rev kvs))) n with
                                     | (true, n) => unmap n
                                     | (false, n) => (false, n)
                                     end
                       end
           end in
    let default_config (n : N) :=
      if blank dc then mappings n
      else match (c ← parseAdminNetworkConfig dc; networkFromConfig c true) with
           | None => (false, n)
           | Some network => mappings (SetTransportDefaultNetwork network n)
           end in
    if blank dn then default_config n
    else match networkFromAdminValue dn true with
         | None => (false, n)
         | Some network => default_config (SetTransportDefaultNetwork network n)
         end.

Definition setTransport : json -> world N -> hresult * world N :=
  into_struct setTransport_fields (fun req w =>
    match setTransportHandler req (node w) with
    | (false, n) => fails "setTransport" (set_node n w)
    | (true, n) => answers (ATransport (getTransportHandler n)) (set_node n w)
    end).

(** ** Autopeering *)

Definition auto_Snapshot (w : world N) : GetAutoPeerResponse :=
  let n := node w in
  mkAutoPeer (auto_enabled w) (auto_IsStarted n)
    (if has_fetcher n then Some (fetcher_Sources n) else None)
    (if has_fetcher n then Some (fetcher_Interval n) else None)
    (auto_Config n) (auto_Peers n).

Definition auto_Apply (req : request) (w : world N) : bool * world N :=
  let n := node w in
  if negb (has_fetcher n) then (false, w)
  else
    let c := auto_Config n in
    let config :=
      check ← when_set (arg req "check_interval") ParseDuration (Autopeer.CheckInterval c);
      minimum ← when_set (arg req "minimum_connected") Atoi (Autopeer.MinimumConnected c);
      from_fetch ← when_set (arg req "minimum_connected_from_fetch") Atoi (Autopeer.MinimumConnectedFromFetch c);
      Some (Autopeer.mkConfig check minimum from_fetch
        (if bool_decide (arg req "countries" = EmptyString) then Autopeer.Countries c else splitAdminCSV (arg req "countries"))
        (if bool_decide (arg req "transport_schemes" = EmptyString) then Autopeer.TransportSchemes c else splitAdminCSV (arg req "transport_schemes"))) in
    match config with
    | None => (false, w)
    | Some config =>
        match (if bool_decide (arg req "fetch_interval" = EmptyString) then Some n
               else d ← ParseDuration (arg req "fetch_interval"); Some (fetcher_SetInterval d n)) with
        | None => (false, w)
        | Some n =>
            let n := if bool_decide (arg req "sources" = EmptyString) then n else fetcher_SetSources (splitAdminCSV (arg req "sources")) n in
            let n := auto_SetConfig config n in
            let w := set_node n w in
            if bool_decide (arg req "enabled" = EmptyString) then (true, w)
            else match ParseBool (arg req "enabled") with
                 | None => (false, w)
                 | Some enabled =>
                     if negb enabled && auto_enabled w && auto_IsStarted n then (false, w)   (* not supported *)
                     else
                       let w := set_auto enabled w in
                       (true, if enabled && negb (auto_IsStarted n) then set_node (auto_Start n) w else w)
                 end
        end
    end.

(** FetchNow for each source, until one fails. *)
Fixpoint fetch_all (sources : list string) (n : N) : bool * N :=
  match sources with
  | [] => (true, n)
  | s :: sources => match fetcher_FetchNow s n with (true, n) => fetch_all sources n | (false, n) => (false, n) end
  end.
Definition auto_Refresh (source : string) (w : world N) : bool * world N :=
  let n := node w in
  if negb (has_fetcher n) then (false, w)
  else
    let source := TrimSpace source in
    let '(ok, n) := if negb (bool_decide (source = EmptyString)) then fetcher_FetchNow source n
                    else fetch_all (fetcher_Sources n) n in
    (ok, set_node n w).

Definition getAutoPeer (_ : json) (w : world N) : hresult * world N := answers (AAutoPeer (auto_Snapshot w)) w.
Definition setAutoPeer : json -> world N -> hresult * world N :=
  into_struct setAutoPeer_fields (fun req w =>
    match auto_Apply req w with
    | (false, w) => fails "setAutoPeer" w
    | (true, w) => answers (AAutoPeer (auto_Snapshot w)) w
    end).
Definition refreshAutoPeer : json -> world N -> hresult * world N :=
  into_struct refreshAutoPeer_fields (fun req w =>
    match auto_Refresh (arg req "source") w with
    | (false, w) => fails "refreshAutoPeer" w
    | (true, w) => answers (AAutoPeer (auto_Snapshot w)) w
    end).

(** ** Jumper *)

Definition jumper_Snapshot (w : world N) : GetJumperResponse :=
  mkJumper (jumper_enabled w) (jumper_IsStarted (node w)) (jumper_addresses w) (jumper_Config (node w)).

Definition advertised_json (addresses : list string) : gmap string json :=
  match AdvertisedNodeInfo url_Parse url_String addresses with
  | None => ∅
  | Some info => (fun entry => Obj (map (fun kv => (kv.1, Arr (map Str kv.2))) (map_to_list entry))) <$> info
  end.
Definition mergeJumperNodeInfo (base : gmap string json) (enabled : bool) (addresses : list string) : gmap string json :=
  let merged := delete NodeInfoKey base in
  if enabled then advertised_json addresses ∪ merged else merged.

(** [updater]: whether there is something to publish the node info. *)
Definition applyNodeInfoLocked (updater : bool) (w : world N) : bool * world N :=
  if negb updater then (true, w)
  else
    let '(ok, n) := SetNodeInfo (mergeJumperNodeInfo (NodeInfo loaded) (jumper_enabled w) (jumper_addresses w)) (NodeInfoPrivacy loaded) (node w) in
    (ok, set_node n w).

(** [None]: the process ends. *)
Definition jumper_Apply (updater : bool) (req : request) (w : world N) : option (bool * world N) :=
  let c := jumper_Config (node w) in
  match (check ← when_set (arg req "check_interval") ParseDuration (Jumper.CheckInterval c);
         timeout ← when_set (arg req "link_timeout") ParseDuration (Jumper.LinkTimeout c);
         Some (Jumper.mkConfig check timeout)) with
  | None => Some (false, w)
  | Some c =>
      let w := set_node (jumper_SetConfig c (node w)) w in
      let '(ok, w) :=
        if bool_decide (arg req "addresses" = EmptyString) then (true, w)
        else applyNodeInfoLocked updater (set_jumper (jumper_enabled w) (splitAdminCSV (arg req "addresses")) w) in
      if negb ok then Some (false, w)
      else if bool_decide (arg req "enabled" = EmptyString) then Some (true, w)
      else match ParseBool (arg req "enabled") with
           | None => Some (false, w)
           | Some enabled =>
               let '(ok, w) := applyNodeInfoLocked updater (set_jumper enabled (jumper_addresses w) w) in
               if negb ok then Some (false, w)
               else if enabled then (fun n => (true, set_node n w)) <$> jumper_Start (node w)
               else (fun '(ok, n) => (ok, set_node n w)) <$> jumper_Stop (node w)
           end
  end.

Definition getJumper (_ : json) (w : world N) : hresult * world N := answers (AJumper (jumper_Snapshot w)) w.
Definition setJumper (updater : bool) : json -> world N -> hresult * world N :=
  into_struct setJumper_fields (fun req w =>
    match jumper_Apply updater req w with
    | None => (Panic, w)
    | Some (false, w) => fails "setJumper" w
    | Some (true, w) => answers (AJumper (jumper_Snapshot w)) w
    end).

(** ** TUN *)

Definition getTun (_ : json) (w : world N) : hresult * world N := answers (ATun (tun_Status (node w))) w.
(** attachTun and replaceTun *)
Definition attachTun (replace : bool) : json -> world N -> hresult * world N :=
  into_struct attachTun_fields (fun req w =>
    match tun_Attach req replace (node w) with
    | None => (Panic, w)
    | Some (false, n) => fails "attachTun" (set_node n w)
    | Some (true, n) => answers (ATun (tun_Status n)) (set_node n w)
    end).
Definition detachTun (_ : json) (w : world N) : hresult * world N :=
  match tun_Detach (node w) with
  | None => (Panic, w)
  | Some (false, n) => fails "detachTun" (set_node n w)
  | Some (true, n) => answers (ATun (tun_Status n)) (set_node n w)
  end.

Definition proxy_fields : list (field TunSocksProxyConfig) := [
  string_field "filter" (fun s p => mkProxy s (ProxyURL p));
  string_field "proxy_url" (fun s p => mkProxy (Filter p) s)
].
Definition decode_proxy (j : json) : option TunSocksProxyConfig :=
  match unmarshal false proxy_fields j (mkProxy EmptyString EmptyString) with (p, true) => Some p | (_, false) => None end.

Definition getTunSocksProxies (_ : json) (w : world N) : hresult * world N := answers (AProxies (GetSocksProxies (node w))) w.
Definition setTunSocksProxies : json -> world N -> hresult * world N :=
  into_struct setProxies_fields (fun req w =>
    match (if blank (arg req "proxies") then Some [] else j ← json_Parse (arg req "proxies"); decode_slice decode_proxy j) with
    | None => fails "proxies" w
    | Some proxies =>
        match SetSocksProxies (mkRouting proxies (TrimSpace (arg req "default_proxy_url"))) (node w) with
        | (false, n) => fails "setTunSocksProxies" (set_node n w)
        | (true, n) => answers (AProxies (GetSocksProxies n)) (set_node n w)
        end
    end).

Definition getTunSocksDNS (_ : json) (w : world N) : hresult * world N := answers (ADNS (GetSocksDNS (node w))) w.
Definition setTunSocksDNS : json -> world N -> hresult * world N :=
  into_struct setDNS_fields (fun req w =>
    match (if blank (arg req "no_resolve_zones") then Some [] else j ← json_Parse (arg req "no_resolve_zones"); decode_slice decode_string j) with
    | None => fails "no_resolve_zones" w
    | Some zones =>
        match SetSocksDNS (mkDNS (TrimSpace (arg req "fallback_server")) zones) (node w) with
        | (false, n) => fails "setTunSocksDNS" (set_node n w)
        | (true, n) => answers (ADNS (GetSocksDNS n)) (set_node n w)
        end
    end).

Definition getTunFirewall (_ : json) (w : world N) : hresult * world N :=
  answers (AFirewall (GetFirewall (node w)) (tun_TrackedFlows (node w))) w.
Definition firewall_update (req : request) (c : TunFirewallConfig) : option TunFirewallConfig :=
  enabled ← (if blank (arg req "enabled") then Some (Enabled c) else ParseBool (arg req "enabled"));
  tcp ← (if blank (arg req "allowed_tcp_ports") then Some (AllowedTCPPorts c) else parseAdminPorts (arg req "allowed_tcp_ports"));
  udp ← (if blank (arg req "allowed_udp_ports") then Some (AllowedUDPPorts c) else parseAdminPorts (arg req "allowed_udp_ports"));
  Some (mkTunFirewall enabled tcp udp).
Definition setTunFirewall : json -> world N -> hresult * world N :=
  into_struct setFirewall_fields (fun req w =>
    match firewall_update req (GetFirewall (node w)) with
    | None => fails "setTunFirewall" w
    | Some c => match SetFirewall c (node w) with
                | (false, n) => fails "setTunFirewall" (set_node n w)
                | (true, n) => answers (AFirewall (GetFirewall n) (tun_TrackedFlows n)) (set_node n w)
                end
    end).

(** ** Configuration and multicast *)

(** The snapshot of ConfigController is made when the daemon starts. *)
Definition getConfig (_ : json) (w : world N) : hresult * world N := answers (AConfig (snapshotNodeConfig loaded)) w.
Definition getMulticastInterfaces (_ : json) (w : world N) : hresult * world N := answers (AMulticast (node_InterfaceStates (node w))) w.

(** ** Lookups *)

Definition Day : Z := 24 * 3600 * 1000000000.
(** The callback of the router. *)
Definition lookup_logged (now : Z) (key : bytes) (path : list Z) (w : world N) : world N :=
  set_infos (<[copy (replicate 32 0) key := (path, now)]> (infos w)) w.
(** An entry that is older than a day is deleted, and still listed. *)
Definition lookups (now : Z) (_ : json) (w : world N) : hresult * world N :=
  answers (ALookups (map (fun e => (e.1, e.2.1, e.2.2)) (map_to_list (infos w))))
    (set_infos (base.filter (fun e => now - e.2.2 <= Day) (infos w)) w).

(** ** The tables *)

Definition registration : Type := string * string * list string * HandlerFunc (world N).
Definition register (l : list registration) (a : gmap string (handler (world N))) : gmap string (handler (world N)) :=
  fold_left (fun a '(name, desc, args, f) => (AddHandler name desc args f a).2) l a.

Definition new_handlers : list registration := [("list", "List available commands", [], Listing)%string].
Definition config_handlers : list registration := [("getConfig", "Show the loaded node configuration", [], Func getConfig)]%string.
Definition multicast_handlers : list registration :=
  [("getMulticastInterfaces", "Show which interfaces multicast is enabled on", [], Func getMulticastInterfaces)]%string.
Definition core_handlers (now : Z) : list registration := [
  ("getSelf", "Show details about this node", [], Func getSelf);
  ("getNodeInfo", "Request nodeinfo from a remote node by its public key", ["key"], Func getNodeInfo);
  ("debug_remoteGetSelf", "Debug use only", ["key"], Func debug_remoteGetSelf);
  ("debug_remoteGetPeers", "Debug use only", ["key"], Func debug_remoteGetPeers);
  ("debug_remoteGetTree", "Debug use only", ["key"], Func debug_remoteGetTree);
  ("getPeers", "Show directly connected peers", ["sort"], Func (getPeers now));
  ("getTree", "Show known Tree entries", [], Func getTree);
  ("getPaths", "Show established paths through this node", [], Func getPaths);
  ("getSessions", "Show established traffic sessions with remote nodes", [], Func getSessions);
  ("getTransport", "Show transport manager network configuration", [], Func getTransport);
  ("setTransport", "Update runtime transport manager networks",
     ["default_network"; "default_network_config"; "network_mappings"; "unset_network_mappings"], Func setTransport);
  ("addPeer", "Add a peer to the peer list", ["uri"; "interface"], Func addPeer);
  ("removePeer", "Remove a peer from the peer list", ["uri"; "interface"], Func removePeer)
]%string.
Definition autopeer_handlers : list registration := [
  ("getAutoPeer", "Show autopeer configuration, state and fetched peers", [], Func getAutoPeer);
  ("setAutoPeer", "Update runtime autopeer configuration",
     ["enabled"; "sources"; "fetch_interval"; "check_interval"; "minimum_connected"; "minimum_connected_from_fetch"; "countries"; "transport_schemes"],
     Func setAutoPeer);
  ("refreshAutoPeer", "Refresh autopeer sources immediately", ["source"], Func refreshAutoPeer)
]%string.
Definition jumper_handlers (updater : bool) : list registration := [
  ("getJumper", "Show jumper configuration and state", [], Func getJumper);
  ("setJumper", "Update runtime jumper configuration", ["enabled"; "addresses"; "check_interval"; "link_timeout"], Func (setJumper updater))
]%string.
Definition tun_arguments : list string :=
  ["type"; "name"; "mtu"; "socks_listen"; "socks_proxies"; "socks_default_proxy"; "socks_dns_fallback"; "socks_no_resolve";
   "socks_tls_mitm_ca"; "socks_tls_mitm_key"; "socks_tls_mitm_hosts"; "mwo"; "mro"; "firewall_enabled"; "firewall_tcp_ports"; "firewall_udp_ports"]%string.
(** With a controller, as the daemon has it. *)
Definition tun_handlers : list registration := [
  ("getTun", "Show information about the node's TUN interface", [], Func getTun);
  ("attachTun", "Attach a TUN implementation", tun_arguments, Func (attachTun false));
  ("replaceTun", "Replace the active TUN implementation", tun_arguments, Func (attachTun true));
  ("detachTun", "Detach the active TUN implementation", [], Func detachTun);
  ("getTunSocksProxies", "Show TUN SOCKS proxy routing", [], Func getTunSocksProxies);
  ("setTunSocksProxies", "Replace TUN SOCKS proxy routing", ["proxies"; "default_proxy_url"], Func setTunSocksProxies);
  ("getTunSocksDNS", "Show sockstun DNS resolution settings", [], Func getTunSocksDNS);
  ("setTunSocksDNS", "Replace sockstun DNS resolution settings", ["fallback_server"; "no_resolve_zones"], Func setTunSocksDNS);
  ("getTunFirewall", "Show TUN IP firewall configuration and state", [], Func getTunFirewall);
  ("setTunFirewall", "Replace TUN IP firewall configuration", ["enabled"; "allowed_tcp_ports"; "allowed_udp_ports"], Func setTunFirewall)
]%string.
Definition lookup_handlers (now : Z) : list registration :=
  [("lookups", "Dump a record of lookups received in the past hour", [], Func (lookups now))%string].

(** The table of a daemon with every module; "lookups" is registered by an
    option, before "list". *)
Definition all_handlers (now : Z) (updater : bool) : list registration :=
  lookup_handlers now ++ new_handlers ++ config_handlers ++ core_handlers now ++ autopeer_handlers ++ jumper_handlers updater ++
  multicast_handlers ++ tun_handlers.
End Handlers.

(** ** Panics *)

Section Panics.
Context {N : Type} `{Node N} {T : Texts}.
Implicit Types (w : world N) (f : json -> world N -> hresult * world N).

(** When a handler panics. *)
Definition panics_when (P : json -> world N -> bool) f : Prop := forall j w, (f j w).1 = Panic <-> P j w = true.
Definition is_null (j : json) : bool := match j with Null => true | _ => false end.
Lemma is_null_iff j : is_null j = true <-> j = Null.
Proof. by destruct j. Qed.

(** The arguments of a request that read a struct name a peer of which [f] panics. *)
Definition panics_for (f : URL -> string -> N -> option (bool * N)) (req : request) (w : world N) : bool :=
  match url_Parse (arg req "uri") with
  | None => false
  | Some u => match f u (arg req "interface") (node w) with None => true | Some _ => false end
  end.
Definition is_none {A} (o : option A) : bool := match o with None => true | Some _ => false end.
(** The request calls an operation of the node that ends the process. *)
Definition remove_panics (j : json) (w : world N) : bool :=
  match unmarshal_pointer peer_fields j ∅ with
  | (Some req, true) => panics_for RemovePeer req w
  | _ => false
  end.
Definition jumper_panics (updater : bool) (j : json) (w : world N) : bool :=
  let '(req, ok) := unmarshal false setJumper_fields j ∅ in ok && is_none (jumper_Apply updater req w).
Definition attach_panics (replace : bool) (j : json) (w : world N) : bool :=
  let '(req, ok) := unmarshal false attachTun_fields j ∅ in ok && is_none (tun_Attach req replace (node w)).
Definition detach_panics (w : world N) : bool := is_none (tun_Detach (node w)).

Lemma through_pointer_panics_when fields k P :
  (forall req w, (k req w).1 = Panic <-> P req w = true) ->
  panics_when (fun j w => is_null j || match unmarshal_pointer fields j ∅ with (Some req, true) => P req w | _ => false end) (through_pointer fields k).
Proof.
  intros Hk j w. rewrite orb_true_iff, is_null_iff, <-(unmarshal_pointer_nil fields j (∅ : request)). unfold through_pointer.
  destruct (unmarshal_pointer fields j ∅) as [[req|] [|]] eqn:E; cbn; try done.
  - rewrite Hk. split; [by right|]. by intros [|].
  - split; [done|]. by intros [|].
  - split; [by left|done].
  - exfalso. destruct j; cbn in E; try done; by destruct (decode_fields _ _ _ _).
Qed.
Lemma through_pointer_panics fields k :
  (forall req w, (k req w).1 <> Panic) -> panics_when (fun j _ => is_null j) (through_pointer fields k).
Proof.
  intros Hk j w. pose proof (through_pointer_panics_when fields k (fun _ _ => false)) as Hp. unfold panics_when in Hp.
  rewrite Hp by (intros req w'; split; [by intros ?%Hk|done]). rewrite orb_true_iff. split; [|by left].
  intros [|Hf]; [done|]. destruct (unmarshal_pointer fields j ∅) as [[?|] [|]]; discriminate Hf.
Qed.
Definition never_panics f : Prop := panics_when (fun _ _ => false) f.
Lemma unread_pointer_panics k : (forall w, (k w).1 <> Panic) -> never_panics (unread_pointer k).
Proof. intros Hk j w. split; [|done]. unfold unread_pointer. destruct (unmarshal_pointer _ j _) as [? [|]]; [by intros ?%Hk|done]. Qed.
Lemma into_struct_panics fields k : (forall req w, (k req w).1 <> Panic) -> never_panics (into_struct fields k).
Proof. intros Hk j w. split; [|done]. unfold into_struct. destruct (unmarshal _ _ j _) as [req [|]]; [by intros ?%Hk|done]. Qed.

Lemma setJumper_panics updater : panics_when (jumper_panics updater) (setJumper updater).
Proof.
  intros j w. unfold setJumper, into_struct, jumper_panics. destruct (unmarshal _ _ j _) as [req [|]]; [|done].
  by destruct (jumper_Apply updater req w) as [[[|] w']|].
Qed.
Lemma attachTun_panics replace : panics_when (attach_panics replace) (attachTun replace).
Proof.
  intros j w. unfold attachTun, into_struct, attach_panics. destruct (unmarshal _ _ j _) as [req [|]]; [|done].
  by destruct (tun_Attach req replace (node w)) as [[[|] n]|].
Qed.
Lemma detachTun_panics : panics_when (fun _ => detach_panics) detachTun.
Proof. intros j w. unfold detachTun, detach_panics. by destruct (tun_Detach (node w)) as [[[|] n]|]. Qed.

Lemma with_peer_panics (f : URL -> string -> N -> option (bool * N)) :
  panics_when (fun j w => is_null j || match unmarshal_pointer peer_fields j ∅ with (Some req, true) => panics_for f req w | _ => false end) (with_peer f).
Proof.
  apply through_pointer_panics_when. intros req w. unfold panics_for. destruct (url_Parse _) as [u|]; [|done].
  by destruct (f u _ _) as [[[|] n]|].
Qed.
Lemma addPeer_panics : panics_when (fun j _ => is_null j) addPeer.
Proof.
  apply through_pointer_panics. intros req w. destruct (url_Parse _) as [u|]; [|done]. by destruct (AddPeer u _ _) as [[|] n].
Qed.

(** The handlers that read a field through a pointer. *)
Definition pointer_handlers : list string :=
  ["getNodeInfo"; "debug_remoteGetSelf"; "debug_remoteGetPeers"; "debug_remoteGetTree"; "getPeers"; "addPeer"; "removePeer"]%string.

(** Runs through the branches of a handler that does not panic. *)
Ltac no_panic := repeat (case_match || done).

(** The arguments with which a request, by the lower-case name of its handler,
    ends the process: [null] for one that reads through a pointer, and those
    with which it calls an operation of the node that panics. *)
Definition fatal (updater : bool) (name : string) (j : json) (w : world N) : bool :=
  if bool_decide (name = "removepeer"%string) then is_null j || remove_panics j w
  else if bool_decide (name = "setjumper"%string) then jumper_panics updater j w
  else if bool_decide (name = "attachtun"%string) then attach_panics false j w
  else if bool_decide (name = "replacetun"%string) then attach_panics true j w
  else if bool_decide (name = "detachtun"%string) then detach_panics w
  else if bool_decide (name ∈ map ToLower pointer_handlers) then is_null j else false.

Lemma handlers_panic now updater name desc args f :
  (name, desc, args, Func f) ∈ all_handlers now updater -> panics_when (fatal updater (ToLower name)) f.
Proof.
  unfold all_handlers, lookup_handlers, new_handlers, config_handlers, multicast_handlers, core_handlers, autopeer_handlers, jumper_handlers, tun_handlers.
  cbn [app]. intros Hin. repeat (apply elem_of_cons in Hin as [[= -> -> -> ->]|Hin]); [..|by apply elem_of_nil in Hin].
  all: unfold fatal; repeat match goal with |- context [if bool_decide ?P then _ else _] =>
         let b := eval vm_compute in (bool_decide P) in change (bool_decide P) with b; cbv iota end.
  all: try apply addPeer_panics; try apply (with_peer_panics RemovePeer);
    try apply setJumper_panics; try apply attachTun_panics; try apply detachTun_panics;
    try (apply through_pointer_panics || apply unread_pointer_panics || apply into_struct_panics).
  all: try (intros; unfold answers, fails; cbn; no_panic).
  all: unfold panics_when; intros; (split; [|done]); unfold answers, fails; cbn; no_panic.
Qed.
End Panics.

(** ** The table *)

Section Table.
Context {N : Type} `{Node N} {T : Texts}.
Implicit Types (w : world N) (a : gmap string (handler (world N))) (l : list (@registration N)).

Lemma register_app l k a : register (l ++ k) a = register k (register l a).
Proof. unfold register. apply fold_left_app. Qed.

(** Names that differ in lower case are all registered. *)
Lemma register_lookup l a n h :
  NoDup (map (fun r : registration => ToLower r.1.1.1) l) ->
  (forall r, r ∈ l -> a !! ToLower r.1.1.1 = None) ->
  (register l a !! n = Some h <->
   a !! n = Some h \/ exists name desc args f, (name, desc, args, f) ∈ l /\ ToLower name = n /\ h = mkHandler desc args f).
Proof.
  revert a. induction l as [|[[[name desc] args] f] l IH]; intros a Hn Ha.
  { cbn. split; [by left|]. intros [?|(?&?&?&?&?%elem_of_nil&_)]; done. }
  cbn [map fst] in Hn. apply NoDup_cons in Hn as [Hni Hn].
  assert (Hfresh : a !! ToLower name = None) by (apply (Ha (name, desc, args, f)); left).
  change (register (_ :: l) a) with (register l (AddHandler name desc args f a).2).
  unfold AddHandler. rewrite Hfresh. cbn [snd]. rewrite IH; [|done|].
  2: { intros r Hr. rewrite lookup_insert_ne; [apply Ha; by right|]. intros E. apply Hni. rewrite E.
       rewrite list_elem_of_In, in_map_iff. exists r. by rewrite <-list_elem_of_In. }
  split.
  - intros [Hi|(n'&d'&ar'&f'&Hin&<-&->)]; [|right; exists n', d', ar', f'; split; [by right|done]].
    apply lookup_insert_Some in Hi as [[<- <-]|[_ Hi]]; [|by left]. right. exists name, desc, args, f. split; [left|done].
  - intros [Hi|(n'&d'&ar'&f'&Hin&<-&->)].
    + left. rewrite lookup_insert_ne; [done|]. intros <-. by rewrite Hfresh in Hi.
    + apply elem_of_cons in Hin as [[= -> -> -> ->]|Hin]; [left; by rewrite lookup_insert_eq|].
      right. by exists n', d', ar', f'.
Qed.

(** The table of a running daemon. *)
Definition table (now : Z) (updater : bool) : gmap string (handler (world N)) := register (all_handlers now updater) ∅.

Lemma all_names_distinct now updater : NoDup (map (fun r : registration => ToLower r.1.1.1) (all_handlers now updater)).
Proof. by_computation. Qed.

(** The modules share one table and no registration is lost: a request, in any
    capitalisation, is answered by the handler that was registered under its
    name, and by none when there is none. *)
Theorem every_handler_registered now updater n h :
  table now updater !! n = Some h <->
  exists name desc args f, (name, desc, args, f) ∈ all_handlers now updater /\ ToLower name = n /\ h = mkHandler desc args f.
Proof.
  unfold table. rewrite register_lookup; [|apply all_names_distinct|by intros; apply lookup_empty].
  rewrite lookup_empty. naive_solver.
Qed.

(** ** Crashes *)

Definition names now updater : list string := map (fun r : registration => r.1.1.1) (all_handlers now updater).
(** Only the handlers that are registered can be fatal. *)
Lemma fatal_registered now updater name j w : fatal updater name j w = true -> name ∈ map ToLower (names now updater).
Proof.
  assert (Hall : Forall (fun n => n ∈ map ToLower (names now updater)) (map ToLower pointer_handlers)) by by_computation.
  unfold fatal. do 5 (case_bool_decide; [intros _; subst; by_computation|]). case_bool_decide as E; [intros _|done].
  rewrite Forall_forall in Hall. by apply Hall.
Qed.
Lemma fatal_not_empty updater j w : fatal updater EmptyString j w = false.
Proof. reflexivity. Qed.

Lemma names_elem now updater name :
  name ∈ names now updater <-> exists desc args f, (name, desc, args, f) ∈ all_handlers now updater.
Proof.
  unfold names. rewrite list_elem_of_In, in_map_iff. split.
  - intros ([[[n d] ar] f] & <- & Hin%list_elem_of_In). by exists d, ar, f.
  - intros (d & ar & f & Hin%list_elem_of_In). by exists (name, d, ar, f).
Qed.

Lemma Dispatch_crashes now updater order req w :
  (Dispatch order req (table now updater) w).1 = None <-> fatal updater (ToLower (Name req)) (default (Obj []) (Arguments req)) w = true.
Proof.
  unfold Dispatch. cbn [Name Arguments default]. case_bool_decide as En; [by rewrite En|].
  destruct (table now updater !! ToLower (Name req)) as [h|] eqn:Eh.
  - apply every_handler_registered in Eh as (name & desc & args & [|f] & Hin & Hname & ->); cbn [run].
    + split; [done|]. intros Hp. exfalso. revert Hin Hp. rewrite <-Hname.
      unfold all_handlers, lookup_handlers, new_handlers, config_handlers, multicast_handlers, core_handlers, autopeer_handlers, jumper_handlers, tun_handlers.
      cbn [app]. intros Hin. repeat (apply elem_of_cons in Hin as [[=]|Hin]); [subst|by apply elem_of_nil in Hin]. done.
    + rewrite <-Hname. apply handlers_panic in Hin. rewrite <-(Hin _ w). destruct (f _ w) as [[| |[]] w']; cbn; naive_solver.
  - split; [done|]. intros Hp%(fatal_registered now updater). exfalso.
    rewrite list_elem_of_In, in_map_iff in Hp. destruct Hp as (n & Hl & Hn%list_elem_of_In%names_elem).
    destruct Hn as (d & ar & f & Hin). assert (table now updater !! ToLower n = Some (mkHandler d ar f)) as E.
    { apply every_handler_registered. exists n, d, ar, f. exact (conj Hin (conj eq_refl eq_refl)). }
    rewrite Hl, Eh in E. discriminate.
Qed.
End Table.

Section Crash.
Context {N : Type} `{Node N} {T : Texts}.
Implicit Types (w : world N) (order : list (string * handler (world N))).

(** A request that ends the process. *)
Definition crashing (updater : bool) (text : option json) (w : world N) : bool :=
  match text with
  | None => false
  | Some j =>
      match unmarshal false request_fields j (mkRequest EmptyString (Some (Obj [])) false) with
      | (req, true) => fatal updater (ToLower (Name req)) (default (Obj []) (Arguments req)) w
      | (_, false) => false
      end
  end.

Lemma handle_one_crashes now updater order text w :
  (handle_one order text (table now updater) w).1.1 = None <-> crashing updater text w = true.
Proof.
  unfold handle_one, crashing.
  set (empty := mkRequest EmptyString (Some (Obj [])) false).
  assert (Hd : forall req err, (let '(resp, s) := Dispatch order req (table now updater) w in
     (option_map (match err with None => id | Some e => with_error e end) resp, KeepAlive req, s)).1.1 = None <->
     fatal updater (ToLower (Name req)) (default (Obj []) (Arguments req)) w = true).
  { intros req err. rewrite <-(Dispatch_crashes now updater order req w). by destruct (Dispatch _ req _ w) as [[resp|] s]. }
  destruct text as [j|]; [|exact (Hd empty (Some _))].
  destruct (unmarshal false request_fields j empty) as [req [|]].
  - exact (Hd req None).
  - exact (Hd (mkRequest EmptyString _ _) (Some _)).
Qed.

(** The node after the requests of [input]. *)
Definition after now updater order (input : list (option json)) (w : world N) : world N :=
  fold_left (fun w text => (handle_one order text (table now updater) w).2) input w.

(** C23: what ends the daemon over its admin socket: exactly a request, among those
    that are still read from the connection, that is either for one of the
    handlers that decode into a pointer, with the arguments [null], or calls an
    operation of the node that panics itself: the removal of a peer, the start
    or stop of the jumper, or the attaching, replacing or detaching of the TUN
    device.  Every other input, malformed ones included, is answered: the admin
    layer has no further way to end the process. *)
Theorem daemon_crashes now updater order input w :
  (handleRequest order input (table now updater) w).1.2 = false <->
  exists i text, input !! i = Some text /\ crashing updater text (after now updater order (take i input) w) = true /\
    forall k t, (k < i)%nat -> input !! k = Some t -> keeps t = true.
Proof.
  revert w. induction input as [|text input IH]; intros w; cbn [handleRequest].
  - pose proof (handle_one_crashes now updater order None w) as Hc.
    destruct (handle_one order None _ w) as [[[resp|] keep] s1]; cbn [fst snd] in Hc |- *.
    + split; [by destruct keep|]. by intros (i & t & Hi & _).
    + exfalso. destruct Hc as [Hc _]. specialize (Hc eq_refl). discriminate Hc.
  - pose proof (handle_one_crashes now updater order text w) as Hc. pose proof (handle_one_keep order text (table now updater) w) as Hk.
    assert (Hs : (handle_one order text (table now updater) w).2 = after now updater order [text] w) by done.
    destruct (handle_one order text _ w) as [[[resp|] keep] s1]; cbn [fst snd] in Hc, Hk, Hs |- *.
    + assert (crashing updater text w <> true) as Hct by (intros H1; by apply Hc in H1). subst keep. destruct (keeps text) eqn:Ek.
      * specialize (IH s1). destruct (handleRequest order input _ s1) as [[resps alive] s2]. cbn [fst snd] in IH |- *. rewrite IH.
        split; intros (i & t & Hi & Ht & Hb).
        -- exists (Datatypes.S i), t. split_and!; [done|by rewrite Hs in Ht|]. intros [|k] t' Hlt; cbn; [by intros [= <-]|]. apply Hb. lia.
        -- destruct i as [|i]; cbn in Hi; [injection Hi as ->; exfalso; by apply Hct|]. exists i, t.
           split_and!; [done|by rewrite Hs|]. intros k t' Hlt Hl. apply (Hb (Datatypes.S k)); [lia|done].
      * split; [done|]. intros ([|i] & t & Hi & Ht & Hb); cbn in Hi; [injection Hi as ->; exfalso; by apply Hct|].
        specialize (Hb 0%nat text). rewrite Hb in Ek; [done|lia|done].
    + split; [|done]. intros _. exists 0%nat, text. split_and!; [done|by apply Hc|lia].
Qed.
End Crash.

(** ** Answers in order *)


Section Order.
Context {N : Type} `{Node N} {T : Texts}.

(** The tree, path and session listings are in the order of the keys and hold
    one entry for every item whose key has an address; the others are left out. *)
Theorem listings_sorted tree paths sessions :
  (StronglySorted (fun x y => String.le (t_PublicKey x) (t_PublicKey y)) (treeEntries tree) /\
   Permutation (map t_PublicKey (treeEntries tree)) (map (fun d => hex_EncodeToString (te_Key d)) (base.filter (fun d => is_Some (AddrForKey (te_Key d))) tree))) /\
  (StronglySorted (fun x y => String.le (p_PublicKey x) (p_PublicKey y)) (pathEntries paths) /\
   Permutation (map p_PublicKey (pathEntries paths)) (map (fun d => hex_EncodeToString (pe_Key d)) (base.filter (fun d => is_Some (AddrForKey (pe_Key d))) paths))) /\
  (StronglySorted (fun x y => String.le (s_PublicKey x) (s_PublicKey y)) (sessionEntries sessions) /\
   Permutation (map s_PublicKey (sessionEntries sessions)) (map (fun d => hex_EncodeToString (se_Key d)) (base.filter (fun d => is_Some (AddrForKey (se_Key d))) sessions))).
Proof.
  assert (Hk : forall A B (key : B -> string) (k : A -> bytes) (f : A -> bytes -> B) l,
    (forall x a, key (f x a) = hex_EncodeToString (k x)) ->
    Permutation (map key (SortStableFunc (by_string key) (omap (fun x => match AddrForKey (k x) with None => None | Some a => Some (f x a) end) l)))
      (map (fun x => hex_EncodeToString (k x)) (base.filter (fun x => is_Some (AddrForKey (k x))) l))).
  { intros A B key k f l Hf. rewrite SortStableFunc_permutation. apply reflexive_eq.
    induction l as [|x l IH]; [done|]. rewrite filter_cons. cbn [omap list_omap].
    destruct (AddrForKey (k x)) as [a|].
    - rewrite decide_True by done. cbn [map]. by rewrite Hf, IH.
    - rewrite decide_False by (by intros []). done. }
  split_and!; try apply by_string_sorted.
  - by apply (Hk _ _ t_PublicKey te_Key (fun d a => mkTreeEntry (IP_String a) (hex_EncodeToString (te_Key d)) (hex_EncodeToString (te_Parent d)) (te_Sequence d))).
  - by apply (Hk _ _ p_PublicKey pe_Key (fun p a => mkPathEntry (IP_String a) (hex_EncodeToString (pe_Key p)) (pe_Path p) (pe_Sequence p))).
  - by apply (Hk _ _ s_PublicKey se_Key (fun s a => mkSessionEntry (IP_String a) (hex_EncodeToString (se_Key s)) (se_RXBytes s) (se_TXBytes s) (Seconds (se_Uptime s)))).
Qed.

(** ** Peers *)

Definition listed_by_cost (x y : PeerEntry) : Prop := e_Cost x <= e_Cost y.
(** Outgoing links before incoming ones, and each group in the order of the keys. *)
Definition listed_by_default (x y : PeerEntry) : Prop :=
  (e_Inbound x = false /\ e_Inbound y = true) \/
  (e_Inbound x = e_Inbound y /\ String.le (e_PublicKey x) (e_PublicKey y)).

Lemma u64_diff_sign a b : 0 <= a < 2 ^ 63 -> 0 <= b < 2 ^ 63 -> u64_diff a b = a - b.
Proof.
  intros Ha Hb. unfold u64_diff, i64, u64. rewrite Zplus_mod_idemp_l, Z.mod_small by lia. lia.
Qed.

Lemma listed_by_default_trans x y z : listed_by_default x y -> listed_by_default y z -> listed_by_default x z.
Proof.
  unfold listed_by_default. intros [[-> H1]|[H1 H2]] [[H3 H4]|[H3 H4]]; rewrite ?H1, ?H3 in *; try done; [by left..|].
  right. split; [done|]. by transitivity (e_PublicKey y).
Qed.

Lemma by_key_first x y rest :
  (first_nonzero (by_key x y :: rest) < 0 -> String.le (e_PublicKey x) (e_PublicKey y)) /\
  (0 <= first_nonzero (by_key x y :: rest) -> String.le (e_PublicKey y) (e_PublicKey x)).
Proof.
  unfold by_key. cbn [first_nonzero]. case_match eqn:E; [split; [apply Compare_lt|apply Compare_ge]|].
  bool_props. apply Compare_eq in E as ->. by split.
Qed.

(** GetPeers lists every peer once; asked for the cost, the cheaper first (the
    costs being below 2^63: the difference of larger ones overflows); asked for
    nothing in particular, the outgoing ones first and each group by key. *)
Theorem getPeers_sorted now peers :
  (forall p d, p ∈ peers -> pi_router p = Some d -> 0 <= dp_cost d < 2 ^ 63) ->
  (forall sort, Permutation (getPeersHandler now sort peers) (map (peerEntry now) peers)) /\
  (forall sort, ToLower sort = "cost"%string -> StronglySorted listed_by_cost (getPeersHandler now sort peers)) /\
  (forall sort, ToLower sort ∉ ["cost"; "uptime"]%string -> StronglySorted listed_by_default (getPeersHandler now sort peers)).
Proof.
  intros Hc. assert (Hp : forall cmp, Permutation (SortStableFunc cmp (map (peerEntry now) peers)) (map (peerEntry now) peers))
    by (intros; apply SortStableFunc_permutation).
  unfold getPeersHandler, peers_cmp. split_and!; [intros; apply Hp|..].
  - intros sort ->. rewrite bool_decide_false, bool_decide_true by done.
    apply (SortStableFunc_sorted _ _ (fun e => 0 <= e_Cost e < 2 ^ 63)); unfold listed_by_cost, sortByCost, by_cost; cbn [first_nonzero].
    + intros x y Hx Hy. rewrite u64_diff_sign by done. case_match; bool_props; lia.
    + intros x y Hx Hy. rewrite u64_diff_sign by done. case_match; bool_props; lia.
    + lia.
    + apply Forall_map, Forall_forall. intros p Hin. unfold peerEntry. destruct (AddrForKey (Key p)); cbn;
        (destruct (pi_router p) as [d|] eqn:E; [by apply (Hc p)|lia]).
  - intros sort Hs. rewrite !bool_decide_false by (intros E; apply Hs; rewrite E; set_solver).
    apply (SortStableFunc_sorted _ _ (fun _ => True)); [..|apply listed_by_default_trans|by apply Forall_true].
    + intros x y _ _. unfold sortByDefault, listed_by_default.
      destruct (e_Inbound x), (e_Inbound y); cbn [negb andb]; intros Hd; try lia; try by left.
      all: right; split; [done|by apply by_key_first in Hd].
    + intros x y _ _. unfold sortByDefault, listed_by_default.
      destruct (e_Inbound x), (e_Inbound y); cbn [negb andb]; intros Hd; try lia; try by left.
      all: right; split; [done|by apply by_key_first in Hd].
Qed.
End Order.

(** A configuration for examples. *)
Definition sample_config : NodeConfig :=
  mkNodeConfig (replicate 64 7) EmptyString None [] ∅ [] EmptyString EmptyString EmptyString EmptyString [] [] EmptyString
    (mkTransportConfig NullTransportNetworkConfig ∅) (mkAutoPeerConfig false [] "1h" "1m" 0 0 [] []) (mkJumperConfig false [] "10s" "30s")
    "native" "auto" 1280 EmptyString [] EmptyString EmptyString [] (mkMITM EmptyString EmptyString []) (mkFirewall None [] []) 0 0 false false ∅.

(** ** What the requests change *)

Section Effects.
Context {N : Type} `{Node N} {T : Texts}.
Implicit Types (w : world N) (req : request).

Lemma mapM_Forall {A B} (f : A -> option B) (P : B -> Prop) l k :
  (forall x y, f x = Some y -> P y) -> mapM f l = Some k -> Forall P k.
Proof.
  intros Hf Hk. apply mapM_Some in Hk. induction Hk as [|x y l k Hxy Hlk IH]; constructor; [by apply (Hf x)|done].
Qed.

Lemma decode_uint16_range j p : decode_uint16 j = Some p -> 0 <= p < 2 ^ 16.
Proof. destruct j; try done; cbn; [by intros [= <-]|]. apply ParseUint_range. Qed.

Lemma parseAdminPorts_range value ports : parseAdminPorts value = Some ports -> Forall (fun p => 0 <= p < 2 ^ 16) ports.
Proof.
  unfold parseAdminPorts. case_bool_decide; [by intros [= <-]|]. destruct (HasPrefix _ _).
  - destruct (json_Parse _) as [[]|]; try done; cbn [decode_slice]; [by intros [= <-]|]. apply mapM_Forall. apply decode_uint16_range.
  - apply mapM_Forall. intros s p. apply ParseUint_range.
Qed.

Definition ports_ok (c : TunFirewallConfig) : Prop :=
  Forall (fun p => 0 <= p < 2 ^ 16) (AllowedTCPPorts c) /\ Forall (fun p => 0 <= p < 2 ^ 16) (AllowedUDPPorts c).

Lemma ports_or value old p :
  (if blank value then Some old else parseAdminPorts value) = Some p -> Forall (fun p => 0 <= p < 2 ^ 16) old ->
  Forall (fun p => 0 <= p < 2 ^ 16) p /\ (blank value = true -> p = old).
Proof. destruct (blank value); [by intros [= ->]|]. intros Hp%parseAdminPorts_range _. by split. Qed.

Lemma firewall_update_ok req old c : ports_ok old -> firewall_update req old = Some c ->
  ports_ok c /\
  (blank (arg req "enabled") = true -> Enabled c = Enabled old) /\
  (blank (arg req "allowed_tcp_ports") = true -> AllowedTCPPorts c = AllowedTCPPorts old) /\
  (blank (arg req "allowed_udp_ports") = true -> AllowedUDPPorts c = AllowedUDPPorts old).
Proof.
  intros [Ht Hu] Hc. unfold firewall_update in Hc.
  apply bind_Some in Hc as (enabled & He & Hc). apply bind_Some in Hc as (tcp & Htcp & Hc).
  apply bind_Some in Hc as (udp & Hudp & [= <-]). unfold ports_ok. cbn [Enabled AllowedTCPPorts AllowedUDPPorts].
  apply ports_or in Htcp as [T1 T2]; [|done]. apply ports_or in Hudp as [U1 U2]; [|done].
  split_and!; [done..| |done|done]. intros Hb. rewrite Hb in He. by injection He.
Qed.

(** An update of the firewall over the admin socket either leaves the node as
    it is and reports an error, or hands the adapter one configuration: what the
    request leaves out is as before and every port is between 0 and 65535; the
    answer shows what the adapter then has. *)
Theorem setTunFirewall_checked j w :
  ports_ok (GetFirewall (node w)) ->
  let old := GetFirewall (node w) in
  let req := (unmarshal false setFirewall_fields j (∅ : request)).1 in
  let '(res, w') := setTunFirewall j w in
  (w' = w /\ exists err, res = Fails err) \/
  exists c, ports_ok c /\ w' = set_node (SetFirewall c (node w)).2 w /\
    (blank (arg req "enabled") = true -> Enabled c = Enabled old) /\
    (blank (arg req "allowed_tcp_ports") = true -> AllowedTCPPorts c = AllowedTCPPorts old) /\
    (blank (arg req "allowed_udp_ports") = true -> AllowedUDPPorts c = AllowedUDPPorts old) /\
    (if (SetFirewall c (node w)).1 then res = Answer (Marshal (AFirewall (GetFirewall (node w')) (tun_TrackedFlows (node w'))))
     else exists err, res = Fails err).
Proof.
  intros Hold. cbv zeta. unfold setTunFirewall, into_struct.
  destruct (unmarshal false setFirewall_fields j ∅) as [req [|]]; [|left; split; [done|by eexists]]. cbn [fst].
  destruct (firewall_update req (GetFirewall (node w))) as [c|] eqn:Ec; [|left; split; [done|by eexists]].
  apply firewall_update_ok in Ec as (H1 & H2 & H3 & H4); [|done].
  destruct (SetFirewall c (node w)) as [[|] n] eqn:Es; unfold answers, fails; right; exists c; rewrite Es; cbn [fst snd];
    split_and!; try done; by eexists.
Qed.

Lemma arg_delete req n m : n <> m -> arg (delete n req) m = arg req m.
Proof. intros Hn. unfold arg. f_equal. by apply (lookup_delete_ne (M := gmap string)). Qed.
Lemma arg_deleted req n : arg (delete n req) n = EmptyString.
Proof. unfold arg. by rewrite (lookup_delete_eq (M := gmap string) req n : delete n req !! n = None). Qed.

(** C24: a request to setAutoPeer that is refused has changed nothing, with one
    exception: when it is the value of "enabled" that is refused, the rest of the
    request has been carried out, as if it had been sent without it. *)
Theorem auto_Apply_errors req w w' :
  auto_Apply req w = (false, w') ->
  w' = w \/
  ((ParseBool (arg req "enabled") = None \/ (ParseBool (arg req "enabled") = Some false /\ auto_enabled w = true)) /\
   auto_Apply (delete "enabled"%string req) w = (true, w')).
Proof.
  unfold auto_Apply. rewrite arg_deleted.
  repeat match goal with |- context [arg (delete ?n req) ?m] => rewrite (arg_delete req n m) by done end.
  destruct (has_fetcher (node w)); cbn [negb]; [|intros [= <-]; by left].
  destruct (_ ≫= _) as [config|]; [|intros [= <-]; by left].
  destruct (if bool_decide _ then _ else _) as [n|]; [|intros [= <-]; by left].
  rewrite (bool_decide_true (EmptyString = EmptyString)) by done.
  destruct (bool_decide (arg req "enabled" = EmptyString)); [done|].
  destruct (ParseBool _) as [enabled|] eqn:Eb; [|intros [= <-]; right; split; [by left|done]].
  destruct (negb enabled && _ && _) eqn:E; [|done]. intros [= <-]. right. bool_props. subst. split; [|done].
  right. by split.
Qed.

(** The published node info says where the jumper is reached exactly when it
    is enabled and one of its addresses is usable; the rest of the node info is
    what the configuration has. *)
Theorem merge_publishes base enabled addresses :
  let merged := mergeJumperNodeInfo base enabled addresses in
  (forall k, k <> NodeInfoKey -> merged !! k = base !! k) /\
  (is_Some (merged !! NodeInfoKey) <-> enabled = true /\ normalizeAddresses url_Parse url_String addresses <> []).
Proof.
  cbv zeta. unfold mergeJumperNodeInfo, advertised_json, AdvertisedNodeInfo.
  destruct enabled; [destruct (normalizeAddresses url_Parse url_String addresses) as [|x l] eqn:E|].
  - rewrite (left_id_L ∅ _). split; [intros k Hk; by rewrite lookup_delete_ne|]. rewrite lookup_delete_eq.
    split; [by intros []|by intros [_ []]].
  - split.
    + intros k Hk. rewrite lookup_union, lookup_fmap, lookup_singleton_ne, lookup_delete_ne by done. cbn. by rewrite (left_id_L None _).
    + rewrite lookup_union, lookup_fmap, lookup_singleton_eq. cbn. rewrite lookup_delete_eq. split; [done|by eexists].
  - split; [intros k Hk; by rewrite lookup_delete_ne|]. rewrite lookup_delete_eq. split; [by intros []|by intros [? _]].
Qed.

(** GetConfig shows every field of the configuration once, the private key
    among them: whoever can ask for it has the key of the node. *)
Theorem getConfig_complete j w :
  wf_bytes (PrivateKey loaded) ->
  exists c, getConfig j w = (Answer (Marshal (AConfig c)), w) /\ Permutation (map_to_list c) (config_fields loaded) /\
    (key ← c !! "PrivateKey"%string; KeyBytes_UnmarshalJSON key) = Some (PrivateKey loaded).
Proof.
  intros Hw. exists (snapshotNodeConfig loaded). split; [done|]. unfold snapshotNodeConfig.
  assert (Hn : NoDup (config_fields loaded).*1).
  { change ((config_fields loaded).*1) with (config_fields sample_config).*1. by_computation. }
  split; [by apply map_to_list_to_map|].
  rewrite (elem_of_list_to_map_1 _ "PrivateKey" (KeyBytes_MarshalJSON (PrivateKey loaded))); [|done|left].
  cbn [mbind option_bind]. unfold KeyBytes_UnmarshalJSON, KeyBytes_MarshalJSON. cbn [decode_string mbind option_bind]. by apply hex_roundtrip.
Qed.

(** A lookup is remembered until "lookups" is asked for more than 24 hours
    after it, with the path of the last one for its key; that answer is the last
    one that has it. *)
Theorem lookups_kept now j w :
  let '(res, w') := lookups now j w in
  (exists l, res = Answer (Marshal (ALookups l)) /\ NoDup (map (fun e => e.1.1) l) /\
     forall k path t, (k, path, t) ∈ l <-> infos w !! k = Some (path, t)) /\
  (forall k path t, infos w' !! k = Some (path, t) <-> infos w !! k = Some (path, t) /\ now - t <= Day) /\
  node w' = node w /\
  forall key path k, infos (lookup_logged now key path w') !! k =
    if decide (k = copy (replicate 32 0) key) then Some (path, now) else infos w' !! k.
Proof.
  unfold lookups, answers. cbn [infos set_infos node]. split_and!; [|intros k path t|done|].
  - eexists. split; [done|]. split.
    + rewrite map_map. cbn. apply NoDup_fst_map_to_list.
    + intros k path t. rewrite list_elem_of_In, in_map_iff. split.
      * intros ([k' [p' t']] & [= <- <- <-] & Hin%list_elem_of_In). by apply elem_of_map_to_list.
      * intros Hk. exists (k, (path, t)). split; [done|]. by rewrite <-list_elem_of_In, elem_of_map_to_list.
  - rewrite map_lookup_filter_Some. done.
  - intros key path k. unfold lookup_logged. cbn [infos set_infos]. case_decide as E; [rewrite E; apply lookup_insert_eq|by apply lookup_insert_ne].
Qed.
End Effects.

(** ** Concrete runs *)

Module Sample.
(** A node that is its firewall configuration. *)
Definition state : Type := TunFirewallConfig.
#[global] Instance sample_node : Node state := {|
  GetSelf _ := (replicate 32 7, 3);
  GetPeers _ := []; node_GetTree _ := []; node_GetPaths _ := []; node_GetSessions _ := [];
  GetNodeInfo _ _ := Some (Obj []); DebugRemoteGetSelf _ _ := None; DebugRemoteGetPeers _ _ := None; DebugRemoteGetTree _ _ := None;
  AddPeer _ _ n := (true, n); RemovePeer u _ n := if bool_decide (Host u = "incoming"%string) then None else Some (false, n);
  DefaultNetwork _ := None; NetworkMappings _ := ∅; SetTransportDefaultNetwork _ n := n;
  MapTransportNetwork _ _ n := (true, n); UnmapTransportNetwork _ n := (true, n);
  auto_Config _ := Autopeer.mkConfig 1 1 1 [] []; auto_SetConfig _ n := n; auto_IsStarted _ := true; auto_Start n := n; auto_Peers _ := [];
  has_fetcher _ := true; fetcher_Sources _ := []; fetcher_Interval _ := 5; fetcher_SetInterval _ n := n; fetcher_SetSources _ n := n;
  fetcher_FetchNow _ n := (true, n);
  jumper_Config _ := Jumper.mkConfig 1 1; jumper_SetConfig _ n := n; jumper_IsStarted _ := false; jumper_Start n := Some n; jumper_Stop n := Some (true, n);
  SetNodeInfo _ _ n := (true, n);
  node_InterfaceStates _ := [];
  tun_Status _ := Null; tun_TrackedFlows _ := 0; tun_Attach r _ n := if bool_decide (arg r "type" = "native"%string) then None else Some (true, n); tun_Detach n := Some (true, n);
  GetSocksProxies _ := mkRouting [] ""; SetSocksProxies _ n := (true, n);
  GetSocksDNS _ := mkDNS "" []; SetSocksDNS _ n := (true, n);
  GetFirewall n := n; SetFirewall c _ := (true, c)
|}.
#[global] Instance sample_texts : Texts := {|
  json_Parse _ := None; ParseDuration _ := None; url_Parse s := Some (mkURL "tls" s "" "" []); url_String := Host; IP_String _ := "200::1"%string;
  ClientFromURL _ := true; network_up := true; Marshal _ := Some (Obj []); range m := map_to_list m; loaded := sample_config
|}.
Definition start : world state := mkWorld (mkTunFirewall true [22] []) true false [] ∅.
End Sample.

Lemma setTunFirewall_checked_witness :
  let '(res, w') := setTunFirewall (Obj [("allowed_udp_ports", Str "53, 65535")]%string) Sample.start in
  res = Answer (Some (Obj [])) /\ AllowedUDPPorts (node w') = [53; 65535] /\
  ((w' = Sample.start /\ exists err, res = Fails err) \/ exists c, ports_ok c /\ node w' = c).
Proof.
  pose proof (setTunFirewall_checked (Obj [("allowed_udp_ports", Str "53, 65535")]%string) Sample.start) as Hs.
  destruct (setTunFirewall _ Sample.start) as [res w'] eqn:E. vm_compute in E. injection E as <- <-.
  split_and!; [done|done|]. destruct Hs as [Hs|(c & Hc & Hw & _)].
  - unfold ports_ok. cbn. by repeat constructor.
  - by left.
  - right. exists c. split; [done|]. by rewrite Hw.
Defined.

Lemma auto_Apply_errors_witness :
  let req := list_to_map [("enabled", "maybe"); ("sources", "https://a")]%string : request in
  auto_Apply req Sample.start = (false, Sample.start) /\
  (Sample.start = Sample.start \/
   ((ParseBool (arg req "enabled") = None \/ (ParseBool (arg req "enabled") = Some false /\ auto_enabled Sample.start = true)) /\
    auto_Apply (delete "enabled"%string req) Sample.start = (true, Sample.start))).
Proof. intros req. assert (H : auto_Apply req Sample.start = (false, Sample.start)) by reflexivity. split; [exact H|]. apply (auto_Apply_errors _ _ _ H). Defined.

(** A connected peer with the cost and uptime given. *)
Definition sample_peer (cost uptime : Z) : PeerInfo :=
  mkPeerInfo "tls://a"%string true false None 0 None uptime (Some (mkDebugPeer 0 (replicate 32 (cost mod 256)) (replicate 32 0) 1 0 0 cost)).

Lemma getPeers_sorted_witness :
  let peers := [sample_peer 5 0; sample_peer 2 0; sample_peer 9 0] in
  map e_Cost (getPeersHandler 0 "Cost" peers) = [2; 5; 9] /\
  StronglySorted listed_by_cost (getPeersHandler 0 "Cost" peers).
Proof.
  intros peers. split; [vm_compute; reflexivity|].
  apply (getPeers_sorted 0 peers); [|reflexivity].
  intros p d Hp Hd. repeat (apply elem_of_cons in Hp as [->|Hp]); [..|by apply elem_of_nil in Hp]; injection Hd as <-; cbn; lia.
Defined.

(** Asked for the uptime, getPeers may list a peer after one that has been up
    for longer by more than a second: differences below one second are cut to
    zero, which makes the comparison intransitive. *)
Theorem uptime_not_sorted :
  let listing := getPeersHandler 0 "uptime" [sample_peer 1 1200000000; sample_peer 2 600000000; sample_peer 3 0] in
  exists x y z, listing = [x; y; z] /\ e_Cost x = 1 /\ e_Cost z = 3 /\
    sortByUptime y x = 0 /\ sortByUptime z y = 0 /\ sortByUptime z x < 0.
Proof. do 3 eexists. split; [vm_compute; reflexivity|]. by vm_compute. Qed.

Lemma getConfig_complete_witness :
  exists c, getConfig Null Sample.start = (Answer (Some (Obj [])), Sample.start) /\
    (key ← (c : gmap string json) !! "PrivateKey"%string; KeyBytes_UnmarshalJSON key) = Some (replicate 64 7).
Proof.
  destruct (getConfig_complete Null Sample.start) as (c & H1 & _ & H2); [by apply Forall_replicate|]. exists c. split; [exact H1|exact H2].
Defined.
