(* ===== verification/Controller.v ===== *)
(** * Controller: the TUN controller of the daemon (yggd/yggd/main.go,
    daemonTunController)

    It creates the devices of the admin requests and of the start-up, attaches
    them to the adapter, and keeps the configuration and the routes of the active
    SOCKS device in step.  The adapter's firewall is the one of Firewall, the
    routes are those of Routing, the devices those of Socks; whether the adapter
    accepts a device is an outcome, as are the calls of the system. *)

From Stdlib Require Import Ascii.
From S2P Require Import Prelude GoStd Address Firewall Routing Outproxy Socks Json Config Admin AdminHandlers.

(** ** Data *)

Record outcomes := mkOutcomes { native_created : bool; socks_created : Socks.Create.outcomes; adapter_ok : bool }.

(** The active device that has routes. *)
Inductive socksTun := ASockstun (n : routeNetwork) | AOutproxy (n : routeNetwork).
Definition active_network (a : socksTun) : routeNetwork := match a with ASockstun n | AOutproxy n => n end.
Definition with_network (n : routeNetwork) (a : socksTun) : socksTun :=
  match a with ASockstun _ => ASockstun n | AOutproxy _ => AOutproxy n end.

Record daemonTunController := mkController { cfg : NodeConfig; activeSocks : option socksTun; fw : option Firewall.Firewall }.

Inductive error :=
| BadMTU | BadMWO | BadMRO | BadProxies | BadZones | BadHosts | BadFirewall
| NativeFailed | SocksFailed (e : Socks.Create.error) | UnsupportedType (typ : string) | AdapterFailed
| RouteFailed (e : routeError) | NoDNSOfOutproxy.

(** What is done to devices and to the firewall of the adapter. *)
Inductive effect :=
| ECreateNative (name address : string) (mtu : Z)
| ECreateSocks (typ : string) (c : Socks.Create.Config) (mwo mro : Z)
| ESetFirewall (c : AdminHandlers.TunFirewallConfig)
| EAttach (typ : string) | EReplace (typ : string) | EDetach | EClose.

(** The fields of the configuration that the controller changes. *)
Definition set_routing (proxies : list Config.TunSocksProxyConfig) (url : string) (c : NodeConfig) : NodeConfig :=
  mkNodeConfig (PrivateKey c) (PrivateKeyPath c) (Certificate c) (Peers c) (InterfacePeers c) (Listen c)
    (AdminListen c) (AdminWebListen c) (AdminWebStaticDir c) (LocalDNSListen c) (MulticastInterfaces c) (AllowedPublicKeys c) (GroupPassword c)
    (Transport c) (AutoPeer c) (Config.Jumper c) (TunType c) (IfName c) (IfMTU c) (TunSocksListen c) proxies url
    (TunSocksDNSFallback c) (TunSocksNoResolve c) (TunSocksTLSMITM c) (TunFirewall c) (TunMWO c) (TunMRO c)
    (LogLookups c) (NodeInfoPrivacy c) (NodeInfo c).
Definition set_dns (server : string) (zones : list string) (c : NodeConfig) : NodeConfig :=
  mkNodeConfig (PrivateKey c) (PrivateKeyPath c) (Certificate c) (Peers c) (InterfacePeers c) (Listen c)
    (AdminListen c) (AdminWebListen c) (AdminWebStaticDir c) (LocalDNSListen c) (MulticastInterfaces c) (AllowedPublicKeys c) (GroupPassword c)
    (Transport c) (AutoPeer c) (Config.Jumper c) (TunType c) (IfName c) (IfMTU c) (TunSocksListen c) (TunSocksProxies c) (TunSocksDefaultProxy c)
    server zones (TunSocksTLSMITM c) (TunFirewall c) (TunMWO c) (TunMRO c)
    (LogLookups c) (NodeInfoPrivacy c) (NodeInfo c).
Definition set_firewall (f : Config.TunFirewallConfig) (c : NodeConfig) : NodeConfig :=
  mkNodeConfig (PrivateKey c) (PrivateKeyPath c) (Certificate c) (Peers c) (InterfacePeers c) (Listen c)
    (AdminListen c) (AdminWebListen c) (AdminWebStaticDir c) (LocalDNSListen c) (MulticastInterfaces c) (AllowedPublicKeys c) (GroupPassword c)
    (Transport c) (AutoPeer c) (Config.Jumper c) (TunType c) (IfName c) (IfMTU c) (TunSocksListen c) (TunSocksProxies c) (TunSocksDefaultProxy c)
    (TunSocksDNSFallback c) (TunSocksNoResolve c) (TunSocksTLSMITM c) f (TunMWO c) (TunMRO c)
    (LogLookups c) (NodeInfoPrivacy c) (NodeInfo c).

(** ** Proxies in their three forms *)

Definition configToSockstunProxies (l : list Config.TunSocksProxyConfig) : list ProxyConfig :=
  map (fun p => mkProxyConfig (Config.Filter p) (Config.ProxyURL p)) l.
(** The admin interface has the structure of the configuration. *)
Definition configToAdminTunSocksProxies (l : list Config.TunSocksProxyConfig) : list Config.TunSocksProxyConfig := l.
Definition adminToConfigTunSocksProxies (l : list Config.TunSocksProxyConfig) : list Config.TunSocksProxyConfig :=
  map (fun p => mkProxy (TrimSpace (Config.Filter p)) (TrimSpace (Config.ProxyURL p))) l.
Definition adminToSockstunProxies (l : list Config.TunSocksProxyConfig) : list ProxyConfig := configToSockstunProxies l.
Definition sockstunToAdminProxies (l : list ProxyConfig) : list Config.TunSocksProxyConfig :=
  map (fun p => mkProxy (Routing.Filter p) (Routing.ProxyURL p)) l.

(** ** Values of a request *)

Definition normalizeUint16s (values : list Z) : list Z := normalizePortSlice values.
Definition adminFirewallToTun (c : AdminHandlers.TunFirewallConfig) : Firewall.FirewallConfig :=
  {| cfg_Enabled := Enabled c; cfg_AllowedTCPPorts := AllowedTCPPorts c; cfg_AllowedUDPPorts := AllowedUDPPorts c |}.
Definition effectiveTunFirewallEnabled (c : NodeConfig) (typ : string) : bool :=
  match fw_Enabled (TunFirewall c) with Some b => b | None => bool_decide (NormalizeTunType typ = "native"%string) end.

(** [Some None]: the value is not set; [None]: it cannot be parsed. *)
Definition parseOptionalUint (value : string) : option (option Z) :=
  let value := TrimSpace value in if bool_decide (value = EmptyString) then Some None else Some <$> ParseUint 64 value.
Definition parseOptionalInt (value : string) : option (option Z) :=
  let value := TrimSpace value in if bool_decide (value = EmptyString) then Some None else Some <$> Atoi value.

Section Controller.
Context {X : Externals} {T : Texts}.
(** The address of the node. *)
Context (address : bytes).

Definition parseAdminUint16s (value : string) : option (list Z) :=
  let value := TrimSpace value in
  if bool_decide (value = EmptyString) then Some []
  else if HasPrefix value "[" then
    match json_Parse value with Some j => normalizeUint16s <$> decode_slice decode_uint16 j | None => None end
  else normalizeUint16s <$> mapM (ParseUint 16) (base.filter (fun p => p <> EmptyString) (map TrimSpace (Split value ","%char))).

Definition parseOptionalSocksRouting (proxiesValue defaultProxyValue : string) (fallbackProxies : list Config.TunSocksProxyConfig)
    (fallbackDefaultProxy : string) : option (list ProxyConfig * string) :=
  let url := TrimSpace (firstNonEmpty [defaultProxyValue; fallbackDefaultProxy]) in
  let value := TrimSpace proxiesValue in
  if bool_decide (value = EmptyString) then Some (configToSockstunProxies fallbackProxies, url)
  else j ← json_Parse value; proxies ← decode_slice decode_proxy j; Some (adminToSockstunProxies proxies, url).

Definition parseOptionalSocksDNS (fallbackValue noResolveValue fallbackServer : string) (fallbackZones : list string) : option DNSConfig :=
  let server := TrimSpace (firstNonEmpty [fallbackValue; fallbackServer]) in
  let value := TrimSpace noResolveValue in
  if bool_decide (value = EmptyString) then Some (mkDNSConfig server fallbackZones)
  else j ← json_Parse value; zones ← decode_slice decode_string j; Some (mkDNSConfig server zones).

Definition parseOptionalSocksTLSMITM (caValue keyValue hostsValue : string) (fallback : TunSocksTLSMITMConfig) : option TunSocksTLSMITMConfig :=
  let ca := TrimSpace (firstNonEmpty [caValue; CAFile fallback]) in
  let key := TrimSpace (firstNonEmpty [keyValue; KeyFile fallback]) in
  let value := TrimSpace hostsValue in
  if bool_decide (value = EmptyString) then Some (mkMITM ca key (Hostnames fallback))
  else j ← json_Parse value; hosts ← decode_slice decode_string j; Some (mkMITM ca key hosts).

Definition buildTunAddress (ip : bytes) : string :=
  String.append (AdminHandlers.IP_String ip) (String.append "/" (format_int (8 * Z.of_nat (length GetPrefix) - 1))).

Definition firewallConfigForAttach (typ : string) (req : request) (c : NodeConfig) : option AdminHandlers.TunFirewallConfig :=
  enabled ← (if blank (arg req "firewall_enabled") then Some (effectiveTunFirewallEnabled c typ) else ParseBool (arg req "firewall_enabled"));
  tcp ← (if blank (arg req "firewall_tcp_ports") then Some (Config.AllowedTCPPorts (TunFirewall c)) else parseAdminUint16s (arg req "firewall_tcp_ports"));
  udp ← (if blank (arg req "firewall_udp_ports") then Some (Config.AllowedUDPPorts (TunFirewall c)) else parseAdminUint16s (arg req "firewall_udp_ports"));
  Some (mkTunFirewall enabled (normalizeUint16s tcp) (normalizeUint16s udp)).

(** ** Attach and Detach *)

Definition set_active (a : option socksTun) (c : daemonTunController) : daemonTunController := mkController (cfg c) a (fw c).
Definition set_fw (f : AdminHandlers.TunFirewallConfig) (c : daemonTunController) : daemonTunController :=
  mkController (cfg c) (activeSocks c) (Firewall.SetConfig (fw c) (adminFirewallToTun f)).

Definition Detach (o : outcomes) (c : daemonTunController) : option error * daemonTunController * list effect :=
  if negb (adapter_ok o) then (Some AdapterFailed, c, [EDetach]) else (None, set_active None c, [EDetach]).

(** The type that a request asks for. *)
Definition requested_type (req : request) (c : NodeConfig) : string :=
  let t := TrimSpace (arg req "type") in
  if bool_decide (t = EmptyString) then NormalizeTunType (TunType c) else NormalizeTunType t.

(** The values that sockstun and outproxy have in common. *)
Definition offsets (req : request) (c : NodeConfig) : result error (Z * Z) :=
  match parseOptionalInt (arg req "mwo") with
  | None => Err BadMWO
  | Some mwo => match parseOptionalInt (arg req "mro") with
                | None => Err BadMRO
                | Some mro => Ok (default (TunMWO c) mwo, default (TunMRO c) mro)
                end
  end.
Definition socks_name (name default : string) : string :=
  if bool_decide (name = EmptyString) || bool_decide (name = "auto"%string) then default else name.
Definition socks_listen (req : request) (c : NodeConfig) : string :=
  let l := TrimSpace (arg req "socks_listen") in if bool_decide (l = EmptyString) then TunSocksListen c else l.

(** The device of the request: what is active with it, and what was created.  A
    constructor that fails closes what it has opened (Socks). *)
Definition create_device (typ name : string) (mtu : Z) (req : request) (o : outcomes) (c : NodeConfig)
    : result error (option socksTun * effect) :=
  let routing := parseOptionalSocksRouting (arg req "socks_proxies") (arg req "socks_default_proxy") (TunSocksProxies c) (TunSocksDefaultProxy c) in
  if bool_decide (typ = "native"%string) then
    if native_created o then Ok (None, ECreateNative name (buildTunAddress address) mtu) else Err NativeFailed
  else if bool_decide (typ = "sockstun"%string) then
    match offsets req c with
    | Err e => Err e
    | Ok (mwo, mro) =>
        match routing with
        | None => Err BadProxies
        | Some (proxies, url) =>
            match parseOptionalSocksDNS (arg req "socks_dns_fallback") (arg req "socks_no_resolve") (TunSocksDNSFallback c) (TunSocksNoResolve c) with
            | None => Err BadZones
            | Some dns =>
                match parseOptionalSocksTLSMITM (arg req "socks_tls_mitm_ca") (arg req "socks_tls_mitm_key") (arg req "socks_tls_mitm_hosts") (TunSocksTLSMITM c) with
                | None => Err BadHosts
                | Some m =>
                    let config := Socks.Create.mkConfig (socks_name name "sockstun") (socks_listen req c) address mtu proxies url dns
                                    (CAFile m) (KeyFile m) (Hostnames m) in
                    match (Socks.Create.sockstun config (socks_created o)).1 with
                    | Err e => Err (SocksFailed e)
                    | Ok s => Ok (Some (ASockstun (Socks.Create.network s)), ECreateSocks typ config mwo mro)
                    end
                end
            end
        end
    end
  else if bool_decide (typ = "outproxy"%string) then
    match offsets req c with
    | Err e => Err e
    | Ok (mwo, mro) =>
        match routing with
        | None => Err BadProxies
        | Some (proxies, url) =>
            let config := Socks.Create.mkConfig (socks_name name "outproxy") (socks_listen req c) address mtu proxies url
                            (mkDNSConfig EmptyString []) EmptyString EmptyString [] in
            match (Socks.Create.outproxy config (socks_created o)).1 with
            | Err e => Err (SocksFailed e)
            | Ok (s, _) => Ok (Some (AOutproxy (Socks.Create.network s)), ECreateSocks typ config mwo mro)
            end
        end
    end
  else Err (UnsupportedType typ).

Definition tun_firewall (c : daemonTunController) : AdminHandlers.TunFirewallConfig :=
  let f := Firewall.Config (fw c) in mkTunFirewall (cfg_Enabled f) (cfg_AllowedTCPPorts f) (cfg_AllowedUDPPorts f).

Definition Attach (req : request) (replace : bool) (o : outcomes) (c : daemonTunController)
    : option error * daemonTunController * list effect :=
  let typ := requested_type req (cfg c) in
  if bool_decide (typ = "none"%string) then Detach o c
  else
    match parseOptionalUint (arg req "mtu") with
    | None => (Some BadMTU, c, [])
    | Some mtu =>
        let mtu := default (IfMTU (cfg c)) mtu in
        let name := TrimSpace (arg req "name") in
        let name := if bool_decide (name = EmptyString) then IfName (cfg c) else name in
        match create_device typ name mtu req o (cfg c) with
        | Err e => (Some e, c, [])
        | Ok (active, created) =>
            match firewallConfigForAttach typ req (cfg c) with
            | None => (Some BadFirewall, c, [created; EClose])
            | Some f =>
                let previous := tun_firewall c in
                let c' := set_fw f c in
                let es := [created; ESetFirewall f; if replace then EReplace typ else EAttach typ] in
                if adapter_ok o then (None, set_active active c', es)
                else (Some AdapterFailed, set_fw previous c', es ++ [ESetFirewall previous; EClose])
            end
        end
    end.

(** ** Settings at run time *)

Definition GetSocksProxies (c : daemonTunController) : TunSocksProxyRouting :=
  match activeSocks c with
  | None => mkRouting (configToAdminTunSocksProxies (TunSocksProxies (cfg c))) (TunSocksDefaultProxy (cfg c))
  | Some a => mkRouting (sockstunToAdminProxies (Routing.Proxies (active_network a))) (Routing.DefaultProxyURL (active_network a))
  end.

Definition set_cfg (n : NodeConfig) (c : daemonTunController) : daemonTunController := mkController n (activeSocks c) (fw c).
Definition SetSocksProxies (r : TunSocksProxyRouting) (c : daemonTunController) : option error * daemonTunController :=
  let store (c : daemonTunController) :=
    (None, set_cfg (set_routing (adminToConfigTunSocksProxies (AdminHandlers.Proxies r)) (TrimSpace (AdminHandlers.DefaultProxyURL r)) (cfg c)) c) in
  match activeSocks c with
  | None => store c
  | Some a =>
      match Routing.SetProxies (adminToSockstunProxies (AdminHandlers.Proxies r)) (AdminHandlers.DefaultProxyURL r) (active_network a) with
      | (Err e, _) => (Some (RouteFailed e), c)
      | (Ok _, n) => store (set_active (Some (with_network n a)) c)
      end
  end.

Definition GetSocksDNS (c : daemonTunController) : TunSocksDNSConfig :=
  match activeSocks c with
  | Some (ASockstun n) => mkDNS (Routing.FallbackServer (Routing.DNS n)) (Routing.NoResolveZones (Routing.DNS n))
  | _ => mkDNS (TunSocksDNSFallback (cfg c)) (TunSocksNoResolve (cfg c))
  end.

Definition SetSocksDNS (d : TunSocksDNSConfig) (c : daemonTunController) : option error * daemonTunController :=
  let dns := mkDNSConfig (TrimSpace (AdminHandlers.FallbackServer d)) (AdminHandlers.NoResolveZones d) in
  let asks := negb (bool_decide (Routing.FallbackServer dns = EmptyString)) || negb (bool_decide (Routing.NoResolveZones dns = [])) in
  let store (dns : DNSConfig) (c : daemonTunController) :=
    (None, set_cfg (set_dns (Routing.FallbackServer dns) (Routing.NoResolveZones dns) (cfg c)) c) in
  match activeSocks c with
  | None => if bool_decide (NormalizeTunType (TunType (cfg c)) = "outproxy"%string) && asks then (Some NoDNSOfOutproxy, c) else store dns c
  | Some (ASockstun n) => let n := Routing.SetDNS dns n in store (Routing.DNS n) (set_active (Some (ASockstun n)) c)
  | Some (AOutproxy _) => if asks then (Some NoDNSOfOutproxy, c) else store dns c
  end.

Definition GetFirewall (c : daemonTunController) : AdminHandlers.TunFirewallConfig := tun_firewall c.
Definition SetFirewall (f : AdminHandlers.TunFirewallConfig) (c : daemonTunController) : daemonTunController :=
  let f := mkTunFirewall (Enabled f) (normalizeUint16s (AllowedTCPPorts f)) (normalizeUint16s (AllowedUDPPorts f)) in
  set_cfg (set_firewall (mkFirewall (Some (Enabled f)) (AllowedTCPPorts f) (AllowedUDPPorts f)) (cfg c)) (set_fw f c).

(** The network of the local DNS server: the one of the active device, or the
    native one. *)
Definition localDNSNetwork (c : option daemonTunController) : option routeNetwork :=
  match c with Some c => active_network <$> activeSocks c | None => None end.

(** ** The request of the start-up *)

Definition shouldAttachTun (c : NodeConfig) : bool :=
  if bool_decide (NormalizeTunType (TunType c) = "none"%string) then false
  else negb (bool_decide (IfName c = "none"%string)) && negb (bool_decide (IfName c = "dummy"%string)).

(** json.Marshal to text *)
Context (Marshal_text : json -> string).
Definition mustMarshalTunSocksProxies (l : list Config.TunSocksProxyConfig) : string :=
  match l with [] => EmptyString | _ => Marshal_text (Arr (map proxy_json (configToAdminTunSocksProxies l))) end.
Definition mustMarshalStrings (l : list string) : string :=
  match l with [] => EmptyString | _ => Marshal_text (of_strings l) end.
Definition mustMarshalUint16s (l : list Z) : string :=
  match l with [] => EmptyString | _ => Marshal_text (of_ports l) end.

Definition startup_request (c : NodeConfig) : request := list_to_map [
  ("type", TunType c); ("name", IfName c); ("mtu", format_uint (IfMTU c)); ("socks_listen", TunSocksListen c);
  ("socks_proxies", mustMarshalTunSocksProxies (TunSocksProxies c)); ("socks_default_proxy", TunSocksDefaultProxy c);
  ("socks_dns_fallback", TunSocksDNSFallback c); ("socks_no_resolve", mustMarshalStrings (TunSocksNoResolve c));
  ("socks_tls_mitm_ca", CAFile (TunSocksTLSMITM c)); ("socks_tls_mitm_key", KeyFile (TunSocksTLSMITM c));
  ("socks_tls_mitm_hosts", mustMarshalStrings (Hostnames (TunSocksTLSMITM c)));
  ("mwo", format_int (TunMWO c)); ("mro", format_int (TunMRO c));
  ("firewall_tcp_ports", mustMarshalUint16s (Config.AllowedTCPPorts (TunFirewall c)));
  ("firewall_udp_ports", mustMarshalUint16s (Config.AllowedUDPPorts (TunFirewall c)))
]%string.
End Controller.

(** ** Firewall settings *)

Lemma sortedPorts_of l : StronglySorted Z.lt l -> sortedPorts (portsToSet l) = l.
Proof.
  intros Hs. assert (NoDup l) as Hnd.
  { induction Hs as [|x l Hs IH Hx]; constructor; [|done]. rewrite Forall_forall in Hx. intros H. specialize (Hx x H). lia. }
  unfold sortedPorts, portsToSet. apply (StronglySorted_unique Z.le).
  - apply (StronglySorted_merge_sort Z.le).
  - induction Hs as [|x l Hs IH Hx]; constructor; [apply IH; by inversion Hnd|]. eapply Forall_impl; [exact Hx|]. cbn. lia.
  - rewrite merge_sort_Permutation. by apply elements_list_to_set.
Qed.

(** A configuration in the form in which the firewall stores it. *)
Definition stored (f : AdminHandlers.TunFirewallConfig) : AdminHandlers.TunFirewallConfig :=
  mkTunFirewall (Enabled f) (normalizeUint16s (AllowedTCPPorts f)) (normalizeUint16s (AllowedUDPPorts f)).

Lemma tun_firewall_set f c : is_Some (fw c) -> tun_firewall (set_fw (stored f) c) = stored f.
Proof.
  intros [g Hg]. unfold tun_firewall, set_fw. cbn [fw]. rewrite Hg. cbn. unfold stored. cbn.
  by rewrite !sortedPorts_of by apply normalizePortSlice_spec.
Qed.

(** Putting back what was read restores the configuration. *)
Lemma tun_firewall_restore f c : tun_firewall (set_fw (tun_firewall c) (set_fw f c)) = tun_firewall c.
Proof. unfold tun_firewall, set_fw. cbn [fw]. destruct (fw c) as [g|]; [|done]. cbn. by rewrite !portsToSet_sorted. Qed.

Section Theorems.
Context {X : Externals} {T : Texts}.
Context (address : bytes).
Implicit Types (c : daemonTunController) (req : request) (o : outcomes).

Lemma firewallConfigForAttach_stored typ req n f : firewallConfigForAttach typ req n = Some f -> stored f = f.
Proof.
  unfold firewallConfigForAttach. intros Hf. apply bind_Some in Hf as (enabled & _ & Hf). apply bind_Some in Hf as (tcp & _ & Hf).
  apply bind_Some in Hf as (udp & _ & [= <-]). unfold stored, normalizeUint16s.
  cbn [Enabled AllowedTCPPorts AllowedUDPPorts]. by rewrite !normalizePortSlice_idem.
Qed.

(** *** What a request asks for

    A value of the request, or that of the configuration when it is left out. *)
Definition chosen {A} (value : string) (parse : string -> option A) (default : A) : option A :=
  if blank value then Some default else parse (TrimSpace value).
Definition chosen_text (value default : string) : string := if blank value then default else TrimSpace value.
Definition json_list {A} (decode : json -> option A) (value : string) : option (list A) := j ← json_Parse value; decode_slice decode j.

(** The device that is created for a request, and what is active with it, in
    terms of the request and the configuration.  [o] is what the constructors
    of the devices meet. *)
Inductive device_asked (typ : string) req o (n : NodeConfig) : option socksTun -> effect -> Prop :=
| asked_native mtu :
    typ = "native"%string -> native_created o = true ->
    chosen (arg req "mtu") (ParseUint 64) (IfMTU n) = Some mtu ->
    device_asked typ req o n None (ECreateNative (chosen_text (arg req "name") (IfName n)) (buildTunAddress address) mtu)
| asked_sockstun mtu mwo mro proxies zones hosts s :
    typ = "sockstun"%string ->
    chosen (arg req "mtu") (ParseUint 64) (IfMTU n) = Some mtu ->
    chosen (arg req "mwo") Atoi (TunMWO n) = Some mwo -> chosen (arg req "mro") Atoi (TunMRO n) = Some mro ->
    chosen (arg req "socks_proxies") (json_list decode_proxy) (TunSocksProxies n) = Some proxies ->
    chosen (arg req "socks_no_resolve") (json_list decode_string) (TunSocksNoResolve n) = Some zones ->
    chosen (arg req "socks_tls_mitm_hosts") (json_list decode_string) (Hostnames (TunSocksTLSMITM n)) = Some hosts ->
    let config := Socks.Create.mkConfig (socks_name (chosen_text (arg req "name") (IfName n)) "sockstun")
      (chosen_text (arg req "socks_listen") (TunSocksListen n)) address mtu (configToSockstunProxies proxies)
      (TrimSpace (chosen_text (arg req "socks_default_proxy") (TunSocksDefaultProxy n)))
      (mkDNSConfig (TrimSpace (chosen_text (arg req "socks_dns_fallback") (TunSocksDNSFallback n))) zones)
      (TrimSpace (chosen_text (arg req "socks_tls_mitm_ca") (CAFile (TunSocksTLSMITM n))))
      (TrimSpace (chosen_text (arg req "socks_tls_mitm_key") (KeyFile (TunSocksTLSMITM n)))) hosts in
    (Socks.Create.sockstun config (socks_created o)).1 = Ok s ->
    device_asked typ req o n (Some (ASockstun (Socks.Create.network s))) (ECreateSocks typ config mwo mro)
| asked_outproxy mtu mwo mro proxies s x :
    typ = "outproxy"%string ->
    chosen (arg req "mtu") (ParseUint 64) (IfMTU n) = Some mtu ->
    chosen (arg req "mwo") Atoi (TunMWO n) = Some mwo -> chosen (arg req "mro") Atoi (TunMRO n) = Some mro ->
    chosen (arg req "socks_proxies") (json_list decode_proxy) (TunSocksProxies n) = Some proxies ->
    let config := Socks.Create.mkConfig (socks_name (chosen_text (arg req "name") (IfName n)) "outproxy")
      (chosen_text (arg req "socks_listen") (TunSocksListen n)) address mtu (configToSockstunProxies proxies)
      (TrimSpace (chosen_text (arg req "socks_default_proxy") (TunSocksDefaultProxy n)))
      (mkDNSConfig EmptyString []) EmptyString EmptyString [] in
    (Socks.Create.outproxy config (socks_created o)).1 = Ok (s, x) ->
    device_asked typ req o n (Some (AOutproxy (Socks.Create.network s))) (ECreateSocks typ config mwo mro).

(** The parsers of optional values choose. *)
Lemma parseOptional_chosen {A} (parse : string -> option A) value v d :
  (let value := TrimSpace value in if bool_decide (value = EmptyString) then Some None else Some <$> parse value) = Some v ->
  chosen value parse d = Some (default d v).
Proof. unfold chosen, blank. cbv zeta. case_bool_decide; [by intros [= <-]|]. by destruct (parse _); [intros [= <-]|]. Qed.

Lemma offsets_chosen req n mwo mro : offsets req n = Ok (mwo, mro) ->
  chosen (arg req "mwo") Atoi (TunMWO n) = Some mwo /\ chosen (arg req "mro") Atoi (TunMRO n) = Some mro.
Proof.
  unfold offsets. destruct (parseOptionalInt (arg req "mwo")) as [a|] eqn:Ea; [|done].
  destruct (parseOptionalInt (arg req "mro")) as [b|] eqn:Eb; [|done]. intros [= <- <-].
  split; by apply parseOptional_chosen.
Qed.

Lemma firstNonEmpty_chosen a b : TrimSpace (firstNonEmpty [a; b]) = TrimSpace (chosen_text a b).
Proof.
  unfold firstNonEmpty, chosen_text, blank. cbn -[TrimSpace].
  destruct (bool_decide (TrimSpace a = EmptyString)) eqn:Ea; [|by rewrite TrimSpace_idem].
  destruct (bool_decide (TrimSpace b = EmptyString)) eqn:Eb; [|done]. bool_props. by rewrite Eb.
Qed.

Lemma routing_chosen pv uv ps u proxies url : parseOptionalSocksRouting pv uv ps u = Some (proxies, url) ->
  exists l, chosen pv (json_list decode_proxy) ps = Some l /\ proxies = configToSockstunProxies l /\ url = TrimSpace (chosen_text uv u).
Proof.
  unfold parseOptionalSocksRouting, chosen, blank. cbv zeta. rewrite firstNonEmpty_chosen.
  case_bool_decide; [intros [= <- <-]; by eexists|]. unfold json_list. destruct (json_Parse _) as [j|]; [|done]. cbn.
  destruct (decode_slice decode_proxy j) as [l|]; [|done]. intros [= <- <-]. by exists l.
Qed.

Lemma dns_chosen fv zv f zs d : parseOptionalSocksDNS fv zv f zs = Some d ->
  exists l, chosen zv (json_list decode_string) zs = Some l /\ d = mkDNSConfig (TrimSpace (chosen_text fv f)) l.
Proof.
  unfold parseOptionalSocksDNS, chosen, blank. cbv zeta. rewrite firstNonEmpty_chosen.
  case_bool_decide; [intros [= <-]; by eexists|]. unfold json_list. destruct (json_Parse _) as [j|]; [|done]. cbn.
  destruct (decode_slice decode_string j) as [l|]; [|done]. intros [= <-]. by exists l.
Qed.

Lemma mitm_chosen cv kv hv f m : parseOptionalSocksTLSMITM cv kv hv f = Some m ->
  exists l, chosen hv (json_list decode_string) (Hostnames f) = Some l /\
    m = mkMITM (TrimSpace (chosen_text cv (CAFile f))) (TrimSpace (chosen_text kv (KeyFile f))) l.
Proof.
  unfold parseOptionalSocksTLSMITM, chosen, blank. cbv zeta. rewrite !firstNonEmpty_chosen.
  case_bool_decide; [intros [= <-]; by eexists|]. unfold json_list. destruct (json_Parse _) as [j|]; [|done]. cbn.
  destruct (decode_slice decode_string j) as [l|]; [|done]. intros [= <-]. by exists l.
Qed.

Lemma create_device_asked typ mtu req o n a e :
  chosen (arg req "mtu") (ParseUint 64) (IfMTU n) = Some mtu ->
  create_device address typ (chosen_text (arg req "name") (IfName n)) mtu req o n = Ok (a, e) -> device_asked typ req o n a e.
Proof.
  intros Hmtu. unfold create_device. case_bool_decide as H1; [|case_bool_decide as H2; [|case_bool_decide as H3; [|done]]].
  - destruct (native_created o) eqn:Eo; [|done]. intros [= <- <-]. by apply asked_native.
  - destruct (offsets req n) as [[mwo mro]|] eqn:Eoff; [|done]. apply offsets_chosen in Eoff as [Hw Hr].
    destruct (parseOptionalSocksRouting _ _ _ _) as [[proxies url]|] eqn:Ep; [|done]. apply routing_chosen in Ep as (ps & Hp & -> & ->).
    destruct (parseOptionalSocksDNS _ _ _ _) as [dns|] eqn:Ed; [|done]. apply dns_chosen in Ed as (zones & Hz & ->).
    destruct (parseOptionalSocksTLSMITM _ _ _ _) as [m|] eqn:Em; [|done]. apply mitm_chosen in Em as (hosts & Hh & ->). cbn [CAFile KeyFile Hostnames].
    destruct (Socks.Create.sockstun _ _).1 as [s|] eqn:Es; [|done]. intros [= <- <-]. by eapply asked_sockstun.
  - destruct (offsets req n) as [[mwo mro]|] eqn:Eoff; [|done]. apply offsets_chosen in Eoff as [Hw Hr].
    destruct (parseOptionalSocksRouting _ _ _ _) as [[proxies url]|] eqn:Ep; [|done]. apply routing_chosen in Ep as (ps & Hp & -> & ->).
    destruct (Socks.Create.outproxy _ _).1 as [[s x]|] eqn:Es; [|done]. intros [= <- <-]. by eapply asked_outproxy.
Qed.

(** C31: a request to attach a device is carried out or refused as a whole.  When it
    is refused, the configuration, the active device and the settings of the
    firewall are as before and a device that was created is closed again; when it
    is carried out, exactly one device was created and handed over: the one of
    the type asked for, of which every setting is the value of the request, or
    the configured one where the request leaves it out; its routes are kept for
    a sockstun and an outproxy, and the firewall has the settings of the
    request.  The type "none" detaches. *)
Theorem Attach_all_or_nothing req replace o c :
  is_Some (fw c) ->
  let typ := requested_type req (cfg c) in
  let '(r, c', es) := Attach address req replace o c in
  cfg c' = cfg c /\
  match r with
  | Some _ =>
      activeSocks c' = activeSocks c /\ tun_firewall c' = tun_firewall c /\
      (es = [] \/ es = [EDetach] \/ (exists created mid, es = created :: (mid ++ [EClose]) /\ (EClose ∉ mid) /\ created <> EClose))
  | None =>
      if bool_decide (typ = "none"%string) then es = [EDetach] /\ activeSocks c' = None /\ tun_firewall c' = tun_firewall c
      else exists created f, es = [created; ESetFirewall f; if replace then EReplace typ else EAttach typ] /\
             device_asked typ req o (cfg c) (activeSocks c') created /\
             firewallConfigForAttach typ req (cfg c) = Some f /\ tun_firewall c' = f
  end.
Proof.
  intros Hfw. cbv zeta. unfold Attach. set (typ := requested_type req (cfg c)). case_bool_decide as Ht.
  { unfold Detach. destruct (adapter_ok o); cbn [negb]; (split; [done|]); [done|]. split_and!; [done|done|by right; left]. }
  destruct (parseOptionalUint (arg req "mtu")) as [mtu|] eqn:Emtu; [|split; [done|]; split_and!; [done|done|by left]].
  destruct (create_device _ _ _ _ _ _ _) as [[active created]|e] eqn:Ed; [|split; [done|]; split_and!; [done|done|by left]].
  pose proof (create_device_asked typ _ req o (cfg c) active created (parseOptional_chosen _ _ _ (IfMTU (cfg c)) Emtu) Ed) as Ha.
  assert (Hne : created <> EClose) by by destruct Ha.
  destruct (firewallConfigForAttach typ req (cfg c)) as [f|] eqn:Ef.
  2: { split; [done|]. split_and!; [done|done|]. right; right. exists created, []. split_and!; [done|by apply not_elem_of_nil|done]. }
  destruct (adapter_ok o); (split; [done|]).
  - exists created, f. split_and!; [done|exact Ha|done|].
    pose proof (firewallConfigForAttach_stored _ _ _ _ Ef) as Es. rewrite <-Es at 2.
    change (tun_firewall (set_active active (set_fw f c))) with (tun_firewall (set_fw f c)). rewrite <-Es at 1. by apply tun_firewall_set.
  - split_and!; [done|apply tun_firewall_restore|]. right; right. eexists created, [_; _; _]. split; [by cbn|]. split; [|done].
    destruct replace; rewrite !elem_of_cons, elem_of_nil; naive_solver.
Qed.

(** ** The start-up asks for what is configured *)

Lemma firstNonEmpty_same s : firstNonEmpty [s; s] = firstNonEmpty [EmptyString; s].
Proof. unfold firstNonEmpty. cbn -[TrimSpace]. by destruct (bool_decide (TrimSpace s = EmptyString)). Qed.

Lemma NormalizeTunType_trim t : NormalizeTunType (TrimSpace t) = NormalizeTunType t.
Proof. unfold NormalizeTunType. by rewrite TrimSpace_idem. Qed.

Lemma or_default_trimmed s d x : TrimSpace d = d -> or_default (TrimSpace s) d = x -> TrimSpace x = x.
Proof. intros Hd <-. unfold or_default. case_bool_decide; [done|apply TrimSpace_idem]. Qed.

Lemma decode_proxy_json p : decode_proxy (proxy_json p) = Some p.
Proof.
  destruct p as [f u]. unfold decode_proxy, proxy_json, omit_string, omitempty. cbn [Config.Filter Config.ProxyURL].
  destruct (bool_decide (f = EmptyString)) eqn:Ef; destruct (bool_decide (u = EmptyString)) eqn:Eu; bool_props; subst; reflexivity.
Qed.

Lemma mapM_map_Some {A B} (f : A -> B) (g : B -> option A) l : (forall x, x ∈ l -> g (f x) = Some x) -> mapM g (map f l) = Some l.
Proof.
  induction l as [|x l IH]; intros Hg; [done|]. cbn [map mapM]. rewrite Hg by left. cbn [mbind option_bind].
  rewrite IH by (intros y Hy; apply Hg; by right). done.
Qed.

Lemma decode_ports l : Forall (fun p => 0 <= p < 2 ^ 16) l -> decode_slice decode_uint16 (of_ports l) = Some l.
Proof.
  intros Hl. apply mapM_map_Some. intros p Hp. rewrite Forall_forall in Hl. cbn. apply ParseUint_format; [by apply Hl|done].
Qed.

(** What encoding/json promises for a text that it has written. *)
Definition reads_back (Marshal_text : json -> string) (j : json) : Prop :=
  json_Parse (Marshal_text j) = Some j /\ TrimSpace (Marshal_text j) = Marshal_text j /\ HasPrefix (Marshal_text j) "[" = true.

Section Startup.
Context (Marshal_text : json -> string) (n : NodeConfig).
Hypothesis (Hproxies : reads_back Marshal_text (Arr (map proxy_json (TunSocksProxies n)))).
Hypothesis (Hstrings : forall l, l ∈ [TunSocksNoResolve n; Hostnames (TunSocksTLSMITM n)] -> reads_back Marshal_text (of_strings l)).
Hypothesis (Hports : forall l, l ∈ [Config.AllowedTCPPorts (TunFirewall n); Config.AllowedUDPPorts (TunFirewall n)] ->
  reads_back Marshal_text (of_ports l) /\ Forall (fun p => 0 <= p < 2 ^ 16) l).
Hypothesis (Hnormal : normalize_strings n = n).
Hypothesis (Hmtu : 0 <= IfMTU n < 2 ^ 64).
Hypothesis (Hoffsets : - 2 ^ 63 <= TunMWO n < 2 ^ 63 /\ - 2 ^ 63 <= TunMRO n < 2 ^ 63).
Let req := startup_request Marshal_text n.

Lemma reads_back_not_blank j : reads_back Marshal_text j -> bool_decide (TrimSpace (Marshal_text j) = EmptyString) = false.
Proof. intros (_ & Ht & Hp). rewrite Ht. apply bool_decide_false. intros E. by rewrite E in Hp. Qed.

Lemma startup_routing :
  parseOptionalSocksRouting (arg req "socks_proxies") (arg req "socks_default_proxy") (TunSocksProxies n) (TunSocksDefaultProxy n) =
  parseOptionalSocksRouting EmptyString EmptyString (TunSocksProxies n) (TunSocksDefaultProxy n).
Proof using Hproxies.
  change (arg req "socks_proxies") with (mustMarshalTunSocksProxies Marshal_text (TunSocksProxies n)).
  change (arg req "socks_default_proxy") with (TunSocksDefaultProxy n).
  unfold parseOptionalSocksRouting, mustMarshalTunSocksProxies. rewrite firstNonEmpty_same.
  destruct (TunSocksProxies n) as [|p l] eqn:E; [done|]. unfold configToAdminTunSocksProxies. rewrite reads_back_not_blank by done.
  destruct Hproxies as (H1 & H2 & _). rewrite H2, H1. cbn [mbind option_bind decode_slice].
  rewrite mapM_map_Some by (intros; apply decode_proxy_json). done.
Qed.

Lemma startup_strings l : l ∈ [TunSocksNoResolve n; Hostnames (TunSocksTLSMITM n)] ->
  forall (A : Type) (k : list string -> A),
  (if bool_decide (TrimSpace (mustMarshalStrings Marshal_text l) = EmptyString) then Some (k l)
   else j ← json_Parse (TrimSpace (mustMarshalStrings Marshal_text l)); zones ← decode_slice decode_string j; Some (k zones)) = Some (k l).
Proof using Hstrings.
  intros Hl A k. unfold mustMarshalStrings. destruct l as [|s l]; [done|]. rewrite reads_back_not_blank by by apply Hstrings.
  destruct (Hstrings _ Hl) as (H1 & H2 & _). rewrite H2, H1. cbn [mbind option_bind decode_slice of_strings].
  by rewrite (mapM_map_Some Str decode_string).
Qed.

Lemma startup_ports l : l ∈ [Config.AllowedTCPPorts (TunFirewall n); Config.AllowedUDPPorts (TunFirewall n)] ->
  (if blank (mustMarshalUint16s Marshal_text l) then Some l else parseAdminUint16s (mustMarshalUint16s Marshal_text l)) = Some l \/
  (if blank (mustMarshalUint16s Marshal_text l) then Some l else parseAdminUint16s (mustMarshalUint16s Marshal_text l)) = Some (normalizeUint16s l).
Proof using Hports.
  intros Hl. unfold mustMarshalUint16s. destruct l as [|p l]; [by left|]. right. destruct (Hports _ Hl) as [Hr Hf].
  unfold blank, parseAdminUint16s. rewrite reads_back_not_blank by done. destruct Hr as (H1 & H2 & H3).
  by rewrite H2, H3, H1, decode_ports.
Qed.

Lemma startup_uint v : 0 <= v < 2 ^ 64 -> parseOptionalUint (format_uint v) = Some (Some v).
Proof.
  intros Hv. unfold parseOptionalUint. rewrite format_uint_trimmed by done. rewrite bool_decide_false; [by rewrite ParseUint_format|].
  intros E. apply (ParseUint_format 64) in Hv; [|done]. by rewrite E in Hv.
Qed.
Lemma startup_int v : - 2 ^ 63 <= v < 2 ^ 63 -> parseOptionalInt (format_int v) = Some (Some v).
Proof.
  intros Hv. unfold parseOptionalInt. rewrite format_int_trimmed by done. rewrite bool_decide_false; [by rewrite Atoi_format|].
  intros E. apply Atoi_format in Hv. by rewrite E in Hv.
Qed.

Lemma normal_trimmed : TrimSpace (IfName n) = IfName n /\ TrimSpace (TunSocksListen n) = TunSocksListen n.
Proof using Hnormal.
  split.
  - apply (or_default_trimmed (IfName n) "auto"); [done|]. exact (f_equal IfName Hnormal).
  - apply (or_default_trimmed (TunSocksListen n) "127.0.0.1:1080"); [done|]. exact (f_equal TunSocksListen Hnormal).
Qed.

Lemma startup_device typ name mtu o : create_device address typ name mtu req o n = create_device address typ name mtu ∅ o n.
Proof using All.
  destruct normal_trimmed as [_ Hl]. destruct Hoffsets as [Ho1 Ho2].
  assert (Hoff : offsets req n = offsets ∅ n).
  { unfold offsets. change (arg req "mwo") with (format_int (TunMWO n)). change (arg req "mro") with (format_int (TunMRO n)).
    by rewrite !startup_int by done. }
  assert (Hlisten : socks_listen req n = socks_listen ∅ n).
  { unfold socks_listen. change (arg req "socks_listen") with (TunSocksListen n). rewrite Hl. by case_bool_decide. }
  unfold create_device. rewrite startup_routing, Hoff, Hlisten.
  assert (parseOptionalSocksDNS (arg req "socks_dns_fallback") (arg req "socks_no_resolve") (TunSocksDNSFallback n) (TunSocksNoResolve n) =
          parseOptionalSocksDNS EmptyString EmptyString (TunSocksDNSFallback n) (TunSocksNoResolve n)) as ->.
  { change (arg req "socks_dns_fallback") with (TunSocksDNSFallback n). change (arg req "socks_no_resolve") with (mustMarshalStrings Marshal_text (TunSocksNoResolve n)).
    unfold parseOptionalSocksDNS. rewrite firstNonEmpty_same. apply startup_strings. left. }
  assert (parseOptionalSocksTLSMITM (arg req "socks_tls_mitm_ca") (arg req "socks_tls_mitm_key") (arg req "socks_tls_mitm_hosts") (TunSocksTLSMITM n) =
          parseOptionalSocksTLSMITM EmptyString EmptyString EmptyString (TunSocksTLSMITM n)) as ->.
  { change (arg req "socks_tls_mitm_ca") with (CAFile (TunSocksTLSMITM n)). change (arg req "socks_tls_mitm_key") with (KeyFile (TunSocksTLSMITM n)).
    change (arg req "socks_tls_mitm_hosts") with (mustMarshalStrings Marshal_text (Hostnames (TunSocksTLSMITM n))).
    unfold parseOptionalSocksTLSMITM. rewrite !firstNonEmpty_same.
    apply (startup_strings (Hostnames (TunSocksTLSMITM n)) ltac:(right; left) _ (mkMITM _ _)). }
  done.
Qed.

Lemma startup_firewall typ : firewallConfigForAttach typ req n = firewallConfigForAttach typ ∅ n.
Proof using Hports.
  unfold firewallConfigForAttach.
  change (arg req "firewall_tcp_ports") with (mustMarshalUint16s Marshal_text (Config.AllowedTCPPorts (TunFirewall n))).
  change (arg req "firewall_udp_ports") with (mustMarshalUint16s Marshal_text (Config.AllowedUDPPorts (TunFirewall n))).
  change (blank (arg req "firewall_enabled")) with true. cbn [mbind option_bind].
  change (blank (arg (∅ : request) ?x)) with true.
  assert (Hn : forall l, normalizeUint16s (normalizeUint16s l) = normalizeUint16s l) by (intros; apply normalizePortSlice_idem).
  destruct (startup_ports (Config.AllowedTCPPorts (TunFirewall n)) ltac:(left)) as [-> | ->],
    (startup_ports (Config.AllowedUDPPorts (TunFirewall n)) ltac:(right; left)) as [-> | ->]; cbn [mbind option_bind]; by rewrite ?Hn.
Qed.

(** C40: The daemon starts the device that is configured: the request that it builds
    from its configuration is the same as one that leaves everything out. *)
Theorem startup_as_configured replace o c : cfg c = n ->
  Attach address req replace o c = Attach address ∅ replace o c.
Proof using All.
  intros Hc. destruct normal_trimmed as [Hname _]. unfold Attach. rewrite Hc.
  assert (requested_type req n = requested_type ∅ n) as ->.
  { unfold requested_type. change (arg req "type") with (TunType n). rewrite NormalizeTunType_trim. by case_bool_decide. }
  change (arg req "mtu") with (format_uint (IfMTU n)). rewrite startup_uint by done.
  change (arg req "name") with (IfName n). rewrite Hname.
  change (parseOptionalUint (arg (∅ : request) "mtu")) with (Some (@None Z)). cbn [default].
  change (TrimSpace (arg (∅ : request) "name")) with EmptyString. rewrite (bool_decide_true (EmptyString = EmptyString)) by done.
  assert ((if bool_decide (IfName n = EmptyString) then IfName n else IfName n) = IfName n) as -> by by case_bool_decide.
  by rewrite startup_device, startup_firewall.
Qed.
End Startup.
End Theorems.

(** ** Settings at run time *)

Section Settings.
Context {X : Externals} {T : Texts}.
Context (address : bytes).
Implicit Types (c : daemonTunController) (req : request) (o : outcomes).

Definition trimmed_routing (r : TunSocksProxyRouting) : TunSocksProxyRouting :=
  mkRouting (adminToConfigTunSocksProxies (AdminHandlers.Proxies r)) (TrimSpace (AdminHandlers.DefaultProxyURL r)).

Lemma SetProxies_Ok cfgs url n n' : Routing.SetProxies cfgs url n = (Ok tt, n') ->
  Routing.Proxies n' = map (fun p => mkProxyConfig (TrimSpace (Routing.Filter p)) (TrimSpace (Routing.ProxyURL p))) cfgs /\
  Routing.DefaultProxyURL n' = TrimSpace url.
Proof.
  unfold Routing.SetProxies. destruct (build_routes cfgs) as [rs|e] eqn:E; [|done].
  destruct (build_routes_spec _ _ E) as [E1 _]. case_bool_decide; [by intros [= <-]|].
  destruct (Routing.ClientFromURL (TrimSpace url)); [by intros [= <-]|done].
Qed.

(** New routes are refused as a whole or they are shown from then on, trimmed,
    whether a device is active or not and also after it is detached. *)
Theorem SetSocksProxies_sticks r o c :
  let '(err, c') := SetSocksProxies r c in
  match err with
  | Some _ => c' = c
  | None => GetSocksProxies c' = trimmed_routing r /\ fw c' = fw c /\
      (adapter_ok o = true -> GetSocksProxies (Detach o c').1.2 = trimmed_routing r)
  end.
Proof.
  assert (Hd : forall c, adapter_ok o = true -> (Detach o c).1.2 = set_active None c) by (intros ? Ho; unfold Detach; by rewrite Ho).
  unfold SetSocksProxies. destruct (activeSocks c) as [a|] eqn:Ea.
  - destruct (Routing.SetProxies _ _ _) as [[[]|e] n] eqn:E; [|done]. apply SetProxies_Ok in E as [E1 E2].
    split_and!; [|done|intros Ho; by rewrite Hd]. unfold GetSocksProxies, trimmed_routing. cbn -[TrimSpace].
    destruct a; cbn [with_network active_network]; rewrite E1, E2; f_equal; unfold sockstunToAdminProxies, adminToSockstunProxies, adminToConfigTunSocksProxies, configToSockstunProxies;
      by rewrite !map_map.
  - split_and!; [|done|intros Ho; by rewrite Hd]. unfold GetSocksProxies. cbn [activeSocks set_cfg]. by rewrite Ea.
Qed.

(** The name resolution of sockstun can be set unless the device is an
    outproxy; what is set is shown from then on, by a running sockstun in its
    normal form, and also after it is detached. *)
Theorem SetSocksDNS_sticks d o c :
  let '(err, c') := SetSocksDNS d c in
  match err with
  | Some _ => c' = c /\ (exists n, activeSocks c = Some (AOutproxy n)) \/
              c' = c /\ activeSocks c = None /\ NormalizeTunType (TunType (cfg c)) = "outproxy"%string
  | None => fw c' = fw c /\
      GetSocksDNS c' = mkDNS (TrimSpace (AdminHandlers.FallbackServer d))
        (match activeSocks c with
         | Some (ASockstun _) => normalizeNoResolveZones (AdminHandlers.NoResolveZones d)
         | _ => AdminHandlers.NoResolveZones d
         end) /\
      (adapter_ok o = true -> GetSocksDNS (Detach o c').1.2 = GetSocksDNS c')
  end.
Proof.
  assert (Hd : forall c, adapter_ok o = true -> (Detach o c).1.2 = set_active None c) by (intros ? Ho; unfold Detach; by rewrite Ho).
  unfold SetSocksDNS. destruct (activeSocks c) as [[n|n]|] eqn:Ea.
  - split_and!; [done| |intros Ho; by rewrite Hd]. unfold GetSocksDNS. cbn [activeSocks set_cfg set_active]. cbn -[TrimSpace normalizeNoResolveZones].
    by rewrite TrimSpace_idem.
  - destruct (negb _ || negb _); [left; split; [done|by exists n]|].
    split_and!; [done| |intros Ho; rewrite Hd by done]; unfold GetSocksDNS; cbn [activeSocks set_cfg set_active]; by rewrite Ea.
  - destruct (_ && (negb _ || negb _)) eqn:E; [right; split_and!; [done|done|]; apply andb_true_iff in E as [E _]; by apply bool_decide_eq_true in E|].
    split_and!; [done| |intros Ho; rewrite Hd by done]; unfold GetSocksDNS; cbn [activeSocks set_cfg set_active]; by rewrite Ea.
Qed.

(** The settings of the firewall that are made at run time hold at once and for
    every device that is attached later without settings of its own. *)
Theorem SetFirewall_sticks f c req replace o :
  is_Some (fw c) ->
  blank (arg req "firewall_enabled") = true -> blank (arg req "firewall_tcp_ports") = true -> blank (arg req "firewall_udp_ports") = true ->
  GetFirewall (SetFirewall f c) = stored f /\
  GetFirewall (Attach address req replace o (SetFirewall f c)).1.2 = stored f.
Proof.
  intros Hfw H1 H2 H3. set (c1 := SetFirewall f c).
  assert (Hget : tun_firewall c1 = stored f) by exact (tun_firewall_set f c Hfw).
  assert (Hfw1 : is_Some (fw c1)) by (destruct Hfw as [g Hg]; subst c1; unfold SetFirewall, set_fw; cbn; rewrite Hg; by eexists).
  split; [exact Hget|]. unfold Attach, GetFirewall. case_bool_decide.
  { unfold Detach. by destruct (adapter_ok o). }
  destruct (parseOptionalUint _); [|done]. destruct (create_device _ _ _ _ _ _ _) as [[active created]|e]; [|done].
  assert (Hf : forall typ, firewallConfigForAttach typ req (cfg c1) = Some (stored f)).
  { intros typ. unfold firewallConfigForAttach. rewrite H1, H2, H3. cbn [mbind option_bind]. subst c1. unfold SetFirewall, effectiveTunFirewallEnabled.
    cbn. unfold stored, normalizeUint16s. f_equal. f_equal; apply normalizePortSlice_idem. }
  rewrite Hf. destruct (adapter_ok o); [|rewrite <-Hget; apply tun_firewall_restore].
  assert (stored (stored f) = stored f) as Es by (unfold stored, normalizeUint16s; cbn [Enabled AllowedTCPPorts AllowedUDPPorts]; by rewrite !normalizePortSlice_idem).
  change (tun_firewall (set_active active (set_fw (stored f) c1))) with (tun_firewall (set_fw (stored f) c1)).
  pose proof (tun_firewall_set (stored f) c1 Hfw1) as Hs. by rewrite !Es in Hs.
Qed.
End Settings.

(** ** Concrete runs *)

Module Sample.
Import AdminHandlers.Sample.
(** The JSON texts of one list of names and of no ports are known. *)
Definition one_zone : json := of_strings ["corp"%string].
Definition texts : Texts := {|
  json_Parse s := if bool_decide (s = "[]"%string) then Some (Arr []) else if bool_decide (s = "[corp]"%string) then Some one_zone else None;
  ParseDuration _ := None; url_Parse _ := None; url_String := Host; AdminHandlers.IP_String _ := "200::1"%string;
  AdminHandlers.ClientFromURL _ := true; network_up := true; Marshal _ := Some Null; range m := map_to_list m; loaded := sample_config
|}.
Definition text (j : json) : string := match j with Arr [] => "[]" | _ => "[corp]" end.
Definition fine : outcomes := mkOutcomes true (Socks.Create.mkOutcomes true true true) true.
Definition refused : outcomes := mkOutcomes true (Socks.Create.mkOutcomes true true true) false.
(** A node with a native device, whose firewall tracks one flow. *)
Definition flow : flowKey := FlowKey 6 (replicate 16 1) (replicate 16 2) 80 5000.
Definition running : daemonTunController :=
  mkController (set_dns EmptyString ["corp"%string] (set_firewall (mkFirewall None [22] []) sample_config)) None
    (Some (MkFirewall true {[22]} ∅ {[flow := 10]})).
Definition configured : daemonTunController := mkController (normalize_strings (set_dns EmptyString ["corp"%string] sample_config)) None (fw running).
Definition socks_request : request := {["type"%string := "sockstun"%string]}.
Definition own_address : bytes := replicate 16 2.
End Sample.

#[local] Existing Instance Sample.texts.
#[local] Existing Instance Routing.Sample.externals.

Lemma Attach_all_or_nothing_witness :
  let '(r, c', es) := Attach Sample.own_address Sample.socks_request true Sample.fine Sample.running in
  r = None /\ exists created f, es = [created; ESetFirewall f; EReplace "sockstun"] /\ tun_firewall c' = f /\
    device_asked Sample.own_address "sockstun" Sample.socks_request Sample.fine (cfg Sample.running) (activeSocks c') created.
Proof.
  pose proof (Attach_all_or_nothing Sample.own_address Sample.socks_request true Sample.fine Sample.running ltac:(by eexists)) as Ha.
  cbv zeta in Ha. destruct (Attach _ _ _ _ _) as [[r c'] es] eqn:E. assert (r = None) as -> by (change r with (r, c', es).1.1; rewrite <-E; vm_compute; reflexivity).
  split; [done|]. destruct Ha as [_ Ha]. change (requested_type Sample.socks_request (cfg Sample.running)) with "sockstun"%string in Ha.
  cbv iota beta in Ha. rewrite bool_decide_false in Ha by done. destruct Ha as (created & f & H1 & H2 & _ & H3).
  exists created, f. split_and!; [done|done|exact H2].
Defined.

Lemma startup_as_configured_witness :
  let n := cfg Sample.configured in
  Attach Sample.own_address (startup_request Sample.text n) false Sample.fine Sample.configured =
  Attach Sample.own_address ∅ false Sample.fine Sample.configured /\
  arg (startup_request Sample.text n) "socks_no_resolve" = "[corp]"%string.
Proof.
  intros n. split; [|reflexivity].
  apply (startup_as_configured Sample.own_address Sample.text n).
  - by split_and!.
  - intros l Hl. repeat (apply elem_of_cons in Hl as [->|Hl]); [by split_and!..|by apply elem_of_nil in Hl].
  - intros l Hl. repeat (apply elem_of_cons in Hl as [->|Hl]); [by split_and!; [..|constructor]|by split_and!; [..|constructor]|by apply elem_of_nil in Hl].
  - vm_compute. reflexivity.
  - by vm_compute.
  - by vm_compute.
  - reflexivity.
Defined.

Lemma SetFirewall_sticks_witness :
  let f := mkTunFirewall false [443; 80; 443] [] in
  GetFirewall (SetFirewall f Sample.running) = mkTunFirewall false [80; 443] [] /\
  GetFirewall (Attach Sample.own_address Sample.socks_request true Sample.fine (SetFirewall f Sample.running)).1.2 = mkTunFirewall false [80; 443] [].
Proof.
  intros f. destruct (SetFirewall_sticks Sample.own_address f Sample.running Sample.socks_request true Sample.fine) as [H1 H2];
    [by eexists|reflexivity..|]. split; [exact H1|exact H2].
Defined.

(** Counterexample: a request that is refused is not without effect.  While a
    native device runs behind its firewall, a request for a sockstun that the
    adapter refuses, one device being attached, first switches the firewall off
    and then on again, and the flows that it tracked are forgotten. *)
Theorem refused_attach_opens_firewall :
  exists c', Attach Sample.own_address Sample.socks_request false Sample.refused Sample.running =
    (Some AdapterFailed, c', [
       ECreateSocks "sockstun" (Socks.Create.mkConfig "sockstun" EmptyString Sample.own_address 1280 [] EmptyString (mkDNSConfig EmptyString ["corp"%string]) EmptyString EmptyString []) 0 0;
       ESetFirewall (mkTunFirewall false [22] []); EAttach "sockstun"; ESetFirewall (mkTunFirewall true [22] []); EClose]) /\
    fs_TrackedFlows (Firewall.Status (fw Sample.running)) = 1%nat /\ fs_TrackedFlows (Firewall.Status (fw c')) = 0%nat.
Proof. eexists. split; [vm_compute; reflexivity|]. by vm_compute. Qed.
