(* ===== verification/LocalDNS.v ===== *)
(** * LocalDNS: the local DNS server of the daemon (yggd/yggd/localdns.go)

    A message is answered question by question; the lookups go to the resolver
    of mnlib over the network of the active device.  The DNS codec, the servers
    and the resolver are library code: a message is the fields that the handler
    and the reply it starts from share, the library's [SetReply] is a parameter
    with its documented behaviour as a law, and starting a server is an outcome. *)

From S2P Require Import Prelude GoStd.

(** ** Messages *)

Definition ClassINET : Z := 1.
Definition TypeA : Z := 1.
Definition TypeAAAA : Z := 28.
Definition localDNSTTL : Z := 60.

Inductive rcode := RcodeSuccess | RcodeServerFailure | RcodeNameError | RcodeNotImplemented.
Global Instance rcode_eq_dec : EqDecision rcode.
Proof. solve_decision. Defined.

Record Question := mkQuestion { Name : string; Qtype : Z; Qclass : Z }.
Record RR := mkRR { rr_Name : string; Rrtype : Z; Class : Z; Ttl : Z; rr_ip : bytes }.
Record Msg := mkMsg {
  Id : Z; IsResponse : bool; RecursionDesired : bool; Authoritative : bool; RecursionAvailable : bool; Rcode : rcode;
  Questions : list Question; Answer : list RR
}.

(** What the resolver says. *)
Inductive lookup_result := Found (ips : list bytes) | NotFound | LookupFailed.

Inductive network := IP4 | IP6.

Section Handle.
Context (SetReply : Msg -> Msg) (LookupIP : network -> string -> lookup_result).

Definition set_rcode (c : rcode) (m : Msg) : Msg :=
  mkMsg (Id m) (IsResponse m) (RecursionDesired m) (Authoritative m) (RecursionAvailable m) c (Questions m) (Answer m).
Definition add_answers (l : list RR) (m : Msg) : Msg :=
  mkMsg (Id m) (IsResponse m) (RecursionDesired m) (Authoritative m) (RecursionAvailable m) (Rcode m) (Questions m) (Answer m ++ l).
Definition set_flags (aa ra : bool) (m : Msg) : Msg :=
  mkMsg (Id m) (IsResponse m) (RecursionDesired m) aa ra (Rcode m) (Questions m) (Answer m).

Definition answer (n : network) (name : string) (ip : bytes) : option RR :=
  match n with
  | IP4 => match To4 ip with Some ip4 => Some (mkRR name TypeA ClassINET localDNSTTL ip4) | None => None end
  | IP6 => match To4 ip with
           | Some _ => None
           | None => match To16 ip with Some ip16 => Some (mkRR name TypeAAAA ClassINET localDNSTTL ip16) | None => None end
           end
  end.

Definition addAddressAnswers (q : Question) (n : network) (resp : Msg) : Msg :=
  match LookupIP n (Name q) with
  | NotFound => set_rcode RcodeNameError resp
  | LookupFailed => if bool_decide (Rcode resp = RcodeSuccess) then set_rcode RcodeServerFailure resp else resp
  | Found ips => add_answers (omap (answer n (Name q)) ips) resp
  end.

(** The family that a question asks for, when it is supported. *)
Definition family (q : Question) : option network :=
  if negb (Qclass q =? ClassINET) then None
  else if Qtype q =? TypeA then Some IP4 else if Qtype q =? TypeAAAA then Some IP6 else None.

(** The loop over the questions. *)
Fixpoint questions_loop (qs : list Question) (supported : bool) (resp : Msg) : bool * Msg :=
  match qs with
  | [] => (supported, resp)
  | q :: qs => match family q with
               | None => questions_loop qs supported resp
               | Some n => questions_loop qs true (addAddressAnswers q n resp)
               end
  end.

(** The message that is written back. *)
Definition handleDNS (req : Msg) : Msg :=
  let resp := set_flags false false (SetReply req) in
  let '(supported, resp) := questions_loop (Questions req) false resp in
  if negb supported && negb (bool_decide (Questions req = [])) then set_rcode RcodeNotImplemented resp else resp.
End Handle.

(** dns.Msg.SetReply of a new message: the reply to [req] has its number and its
    first question, is marked as a response, reports success and has no
    answers yet. *)
Definition replies (SetReply : Msg -> Msg) : Prop := forall req,
  Id (SetReply req) = Id req /\ IsResponse (SetReply req) = true /\ Rcode (SetReply req) = RcodeSuccess /\
  Questions (SetReply req) = take 1 (Questions req) /\ Answer (SetReply req) = [].

(** ** The two servers *)

Record localDNSServer := mkServer { udp : bool; tcp : bool; once : bool }.
Definition newLocalDNSServer (has_network : bool) : option localDNSServer :=
  if has_network then Some (mkServer false false false) else None.

Definition Stop (s : option localDNSServer) : option localDNSServer :=
  match s with
  | None => None
  | Some s => if once s then Some s else Some (mkServer false false true)
  end.
(** Whether each server could be started. *)
Definition Start (udp_ok tcp_ok : bool) (s : localDNSServer) : bool * localDNSServer :=
  if negb udp_ok then (false, s)
  else
    let s := mkServer true (tcp s) (once s) in
    if negb tcp_ok then (false, default s (Stop (Some s))) else (true, mkServer true true (once s)).

(** ** Theorems *)

Section Theorems.
Context (LookupIP : network -> string -> lookup_result).

(** The lookups that a message causes. *)
Definition asked (qs : list Question) : list (Question * network) := omap (fun q => (fun n => (q, n)) <$> family q) qs.
Definition outcome (a : Question * network) : lookup_result := LookupIP a.2 (Name a.1).
Definition answers_of (a : Question * network) : list RR :=
  match outcome a with Found ips => omap (answer a.2 (Name a.1)) ips | _ => [] end.

Definition missing (a : Question * network) : bool := match outcome a with NotFound => true | _ => false end.
Definition failing (a : Question * network) : bool := match outcome a with LookupFailed => true | _ => false end.
(** The response code does not depend on the order of the lookups. *)
Definition code (r : rcode) (l : list (Question * network)) : rcode :=
  if existsb missing l then RcodeNameError
  else if bool_decide (r = RcodeSuccess) && existsb failing l then RcodeServerFailure else r.

Lemma questions_loop_spec qs supported resp :
  Rcode resp <> RcodeNotImplemented ->
  questions_loop LookupIP qs supported resp =
    (supported || negb (bool_decide (asked qs = [])),
     set_rcode (code (Rcode resp) (asked qs)) (add_answers (concat (map answers_of (asked qs))) resp)).
Proof.
  revert supported resp. induction qs as [|q qs IH]; intros supported resp Hr; cbn [questions_loop asked omap list_omap].
  { cbn. rewrite orb_false_r. unfold add_answers, set_rcode, code. cbn. rewrite app_nil_r, andb_false_r. by destruct resp. }
  change (omap (fun q => (fun n => (q, n)) <$> family q) qs) with (asked qs).
  destruct (family q) as [n|]; cbn [fmap option_fmap option_map]; [|by apply IH].
  unfold addAddressAnswers. change (LookupIP n (Name q)) with (outcome (q, n)).
  rewrite (bool_decide_false ((q, n) :: asked qs = [])) by done. rewrite orb_true_r.
  assert (Hfacts : answers_of (q, n) = match outcome (q, n) with Found ips => omap (answer n (Name q)) ips | _ => [] end /\
    missing (q, n) = match outcome (q, n) with NotFound => true | _ => false end /\
    failing (q, n) = match outcome (q, n) with LookupFailed => true | _ => false end) by by split_and!.
  destruct Hfacts as (Ha & Hm & Hf). unfold code. cbn [map concat existsb]. rewrite Ha, Hm, Hf.
  destruct (outcome (q, n)) as [ips| |]; cbn [orb app].
  - rewrite IH by done. cbn [orb]. unfold add_answers, set_rcode. cbn. by rewrite <-app_assoc.
  - rewrite IH by done. cbn [orb]. unfold add_answers, set_rcode, code. cbn.
    rewrite (bool_decide_false (RcodeNameError = RcodeSuccess)) by done. cbn [andb]. by destruct (existsb missing _).
  - destruct (bool_decide (Rcode resp = RcodeSuccess)) eqn:Hs; (rewrite IH; [|done]); cbn [orb andb]; unfold add_answers, set_rcode, code; cbn.
    + rewrite (bool_decide_false (RcodeServerFailure = RcodeSuccess)) by done. cbn [andb]. by destruct (existsb missing _).
    + by rewrite Hs.
Qed.

Lemma answer_family n name ip rr : answer n name ip = Some rr ->
  rr_Name rr = name /\ Class rr = ClassINET /\ Ttl rr = localDNSTTL /\
  match n with
  | IP4 => Rrtype rr = TypeA /\ To4 ip = Some (rr_ip rr) /\ length (rr_ip rr) = 4%nat
  | IP6 => Rrtype rr = TypeAAAA /\ rr_ip rr = ip /\ To4 ip = None /\ length ip = 16%nat
  end.
Proof.
  assert (H4 : forall x, To4 ip = Some x -> length x = 4%nat).
  { intros x. unfold To4. destruct (length ip =? 4)%nat eqn:E; bool_props; [by intros [= <-]|].
    destruct (length ip =? 16)%nat eqn:E2; [|done]. bool_props. case_bool_decide; [|done]. intros [= <-]. rewrite length_drop. lia. }
  unfold answer. destruct n.
  - destruct (To4 ip) as [x|] eqn:E; [|done]. intros [= <-]. by split_and!; [..|by apply H4].
  - destruct (To4 ip) eqn:E; [done|]. unfold To16. destruct (length ip =? 4)%nat eqn:E4.
    + unfold To4 in E. by rewrite E4 in E.
    + destruct (length ip =? 16)%nat eqn:E16; [|done]. bool_props. intros [= <-]. by split_and!.
Qed.

(** Every answer is of the name and the type of a question of the message. *)
Lemma answers_family qs a rr : a ∈ asked qs -> rr ∈ answers_of a ->
  a.1 ∈ qs /\ rr_Name rr = Name a.1 /\ Rrtype rr = Qtype a.1 /\ Qclass a.1 = ClassINET /\ Class rr = ClassINET /\
  length (rr_ip rr) = (if (Qtype a.1 =? TypeA)%Z then 4 else 16)%nat.
Proof.
  destruct a as [q n]. intros Ha Hrr. cbn [fst]. unfold asked in Ha. apply list_elem_of_omap in Ha as (q' & Hq & Hf).
  destruct (family q') as [n'|] eqn:Ef; [|done]. injection Hf as -> ->. unfold answers_of in Hrr.
  destruct (outcome (q, n)) as [ips| |]; [|by apply elem_of_nil in Hrr..]. apply list_elem_of_omap in Hrr as (ip & _ & Hip).
  apply answer_family in Hip as (H1 & H2 & _ & H3). unfold family in Ef.
  destruct (Qclass q =? ClassINET) eqn:Ec; [|done]. cbn [negb] in Ef. bool_props.
  destruct (Qtype q =? TypeA) eqn:Et; [injection Ef as <-|destruct (Qtype q =? TypeAAAA) eqn:E6; [injection Ef as <-|done]]; bool_props;
    cbn in H3; split_and!; try done; try (destruct H3 as (-> & _ & ?); congruence).
  - by destruct H3 as (_ & _ & ?).
  - by destruct H3 as (_ & -> & _ & ?).
Qed.

(** C30: the answer to a message: it has the number of the message and repeats its
    first question only; its answers are the addresses of the supported
    questions in their order, IPv4 ones for A and the others for AAAA, each
    named as its question; and its code only tells whether some name does not
    exist, else whether some lookup failed, else success; a message with
    questions of other kinds only is not implemented. *)
Theorem handleDNS_spec SetReply req :
  replies SetReply ->
  let m := handleDNS SetReply LookupIP req in
  let qs := Questions req in
  Id m = Id req /\ IsResponse m = true /\ Authoritative m = false /\ RecursionAvailable m = false /\ Questions m = take 1 qs /\
  Answer m = concat (map answers_of (asked qs)) /\
  (forall a rr, a ∈ asked qs -> rr ∈ answers_of a ->
     a.1 ∈ qs /\ rr_Name rr = Name a.1 /\ Rrtype rr = Qtype a.1 /\ Qclass a.1 = ClassINET /\ Class rr = ClassINET /\
     length (rr_ip rr) = (if (Qtype a.1 =? TypeA)%Z then 4 else 16)%nat) /\
  Rcode m = (if bool_decide (asked qs = []) then if bool_decide (qs = []) then RcodeSuccess else RcodeNotImplemented
             else code RcodeSuccess (asked qs)).
Proof.
  intros Hreply. cbv zeta. destruct (Hreply req) as (R1 & R2 & R3 & R4 & R5). unfold handleDNS. set (qs := Questions req) in *.
  rewrite questions_loop_spec by (cbn; by rewrite R3). cbn [orb set_flags Rcode Answer]. rewrite negb_involutive, R3.
  assert (Hm : exists c, (if bool_decide (asked qs = []) && negb (bool_decide (qs = []))
      then set_rcode RcodeNotImplemented (set_rcode (code RcodeSuccess (asked qs)) (add_answers (concat (map answers_of (asked qs))) (set_flags false false (SetReply req))))
      else set_rcode (code RcodeSuccess (asked qs)) (add_answers (concat (map answers_of (asked qs))) (set_flags false false (SetReply req)))) =
      set_rcode c (add_answers (concat (map answers_of (asked qs))) (set_flags false false (SetReply req))) /\
      c = (if bool_decide (asked qs = []) then if bool_decide (qs = []) then RcodeSuccess else RcodeNotImplemented else code RcodeSuccess (asked qs))).
  { destruct (bool_decide (asked qs = [])) eqn:E; [|by eexists]. apply bool_decide_eq_true in E. rewrite E.
    destruct (bool_decide (qs = [])); by eexists. }
  destruct Hm as (c & -> & Hc). unfold set_rcode, add_answers, set_flags. cbn. rewrite R5. split_and!; try done.
  intros a rr. apply answers_family.
Qed.

(** The two servers run together or not at all: a start that fails leaves none
    of them running, Stop ends both, and stopping again changes nothing. *)
Theorem servers_together udp_ok tcp_ok s :
  newLocalDNSServer true = Some s ->
  let '(ok, s') := Start udp_ok tcp_ok s in
  (ok = true <-> udp_ok = true /\ tcp_ok = true) /\
  udp s' = ok /\ tcp s' = ok /\
  (exists e, Stop (Some s') = Some e /\ udp e = false /\ tcp e = false /\ Stop (Some e) = Some e).
Proof.
  intros [= <-]. destruct udp_ok, tcp_ok; cbn; (split_and!; [naive_solver|done|done|by eexists]).
Qed.
End Theorems.

(** Two questions: both are answered, the first alone is repeated. *)
Definition sample_reply (req : Msg) : Msg :=
  mkMsg (Id req) true (RecursionDesired req) false false RcodeSuccess (take 1 (Questions req)) [].
Definition sample_lookup (n : network) (name : string) : lookup_result :=
  match n with IP4 => Found [[10; 0; 0; 1]] | IP6 => NotFound end.
Definition sample_request : Msg :=
  mkMsg 7 false true false false RcodeSuccess [mkQuestion "a." TypeA ClassINET; mkQuestion "b." TypeAAAA ClassINET] [].

Lemma handleDNS_spec_witness :
  let m := handleDNS sample_reply sample_lookup sample_request in
  Questions m = [mkQuestion "a." TypeA ClassINET] /\ Answer m = [mkRR "a." TypeA ClassINET localDNSTTL [10; 0; 0; 1]] /\
  Rcode m = RcodeNameError.
Proof.
  destruct (handleDNS_spec sample_lookup sample_reply sample_request) as (_ & _ & _ & _ & H1 & H2 & _ & H3); [by intros req|].
  split; [exact H1|]. split; [exact H2|exact H3].
Defined.

Lemma servers_together_witness :
  let '(ok, s') := Start true false (mkServer false false false) in ok = false /\ udp s' = false.
Proof.
  destruct (servers_together true false (mkServer false false false) eq_refl) as (_ & H & _). split; [reflexivity|exact H].
Defined.
