(* ===== verification/Daemon.v ===== *)
(** * Daemon: the daemon's start-up and shutdown (yggd/yggd/main.go)

    What the command line selects, the transport manager and the options of the
    core that are made from the configuration, the order in which the components
    are started, and the order in which they are stopped.  A panic ends the
    process. *)

From Stdlib Require Import Ascii.
From S2P Require Import Prelude GoStd Address Links Transport Core Json Config Admin AdminHandlers Controller LocalDNS.

(** ** The transport manager *)

Definition daemon_transports : list Transport.Transport := [
  Transport.mkTransport 0 ["tcp"]; Transport.mkTransport 1 ["tls"]; Transport.mkTransport 2 ["unix"]; Transport.mkTransport 3 ["ws"]; Transport.mkTransport 4 ["wss"]; Transport.mkTransport 5 ["quic"]
]%string.

Inductive manager_error := BadNetwork (pattern : string) (e : netError) | ManagerError (e : terror).

Fixpoint register_all (ts : list Transport.Transport) (m : Manager) : result manager_error Manager :=
  match ts with
  | [] => Ok m
  | t :: ts => match RegisterTransport (Some t) m with
               | (Some e, _) => Err (ManagerError e)
               | (None, m) => register_all ts m
               end
  end.

Section Networks.
(** socksgo's ClientFromURL and network.Up; a network of the configuration as the
    manager sees it; the order in which closers run. *)
Context (ClientFromURL : string -> bool) (up : bool) (net_value : Config.Network -> Transport.Network) (order : gset Z -> list Z).

Definition transportNetworkFromConfig (c : TransportNetworkConfig) : result netError (option Transport.Network) :=
  match NetworkFromConfig ClientFromURL up c with Err e => Err e | Ok n => Ok (net_value <$> n) end.

(** [l]: the mappings in the order of a map range. *)
Fixpoint map_all (l : list (string * TransportNetworkConfig)) (m : Manager) : result manager_error Manager :=
  match l with
  | [] => Ok m
  | (pattern, c) :: l =>
      match transportNetworkFromConfig c with
      | Err e => Err (BadNetwork pattern e)
      | Ok n => match MapNetwork order pattern n m with
                | Err e => Err (ManagerError e)
                | Ok (m, _) => map_all l m
                end
      end
  end.

Definition newTransportManager (l : list (string * TransportNetworkConfig)) (c : NodeConfig) : result manager_error (Manager * option Transport.Network) :=
  match transportNetworkFromConfig (Config.DefaultNetwork (Config.Transport c)) with
  | Err e => Err (BadNetwork EmptyString e)
  | Ok default =>
      match register_all daemon_transports (NewManager default) with
      | Err e => Err e
      | Ok m => match map_all l m with Err e => Err e | Ok m => Ok (m, default) end
      end
  end.
End Networks.

(** newTransportManager of the node in the browser (web/main.go), on a network that
    rejects everything. *)
Definition browser_transports : list Transport.Transport := [Transport.mkTransport 0 ["ws"]; Transport.mkTransport 1 ["wss"]]%string.
Definition browser_manager (reject : Transport.Network) : result manager_error Manager := register_all browser_transports (NewManager (Some reject)).

(** ** The options of the core *)

Definition appendGroupPasswordOption (options : list SetupOption) (password : string) : list SetupOption :=
  if bool_decide (password = EmptyString) then options else options ++ [OptGroupPassword password].

Definition mergeNodeInfo (base overlay : gmap string json) : gmap string json :=
  if bool_decide (overlay = ∅) then base else overlay ∪ base.

Section Options.
Context {T : Texts}.
(** The core treats the values of the node info as opaque; [peer_filter] is the
    one that refuses peers in 200::/7. *)
Context (value : json -> Z) (peer_filter : Z).

Definition start_nodeinfo (c : NodeConfig) : gmap string json :=
  if Config.j_Enabled (Config.Jumper c) then mergeNodeInfo (NodeInfo c) (advertised_json (Config.Addresses (Config.Jumper c))) else NodeInfo c.

(** [interfaces]: the interface peers in the order of a map range.  [None]: a key
    is not hexadecimal. *)
Definition core_options (interfaces : list (string * list string)) (m : Manager) (c : NodeConfig) : option (list SetupOption) :=
  keys ← mapM hex_DecodeString (AllowedPublicKeys c);
  Some (appendGroupPasswordOption
          ([OptTransportManager (Some m); OptNodeInfo (value <$> start_nodeinfo c); OptNodeInfoPrivacy (NodeInfoPrivacy c); OptPeerFilter peer_filter] ++
           map OptListenAddress (Config.Listen c) ++ map (fun p => OptPeer p EmptyString) (Peers c))
          (GroupPassword c) ++
        concat (map (fun e => map (fun p => OptPeer p e.1) e.2) interfaces) ++ map OptAllowedPublicKey keys).
End Options.

(** ** The admin socket *)

Definition set_admin_listen (listen : string) (c : NodeConfig) : NodeConfig :=
  mkNodeConfig (PrivateKey c) (PrivateKeyPath c) (Certificate c) (Peers c) (InterfacePeers c) (Config.Listen c)
    listen (AdminWebListen c) (AdminWebStaticDir c) (LocalDNSListen c) (MulticastInterfaces c) (AllowedPublicKeys c)
    (GroupPassword c) (Config.Transport c) (Config.AutoPeer c) (Config.Jumper c) (TunType c) (IfName c) (IfMTU c) (TunSocksListen c)
    (TunSocksProxies c) (TunSocksDefaultProxy c) (TunSocksDNSFallback c) (TunSocksNoResolve c) (TunSocksTLSMITM c) (TunFirewall c)
    (TunMWO c) (TunMRO c) (LogLookups c) (NodeInfoPrivacy c) (NodeInfo c).

(** [permission]: whether the error of a failing start is one of permission. *)
Definition start_admin (platform_default : string) (first second : Lifecycle.outcomes) (permission : bool) (c : NodeConfig)
    : option (NodeConfig * Lifecycle.started) * list Lifecycle.effect :=
  match Lifecycle.New (Lifecycle.mkConfig (AdminListen c) (AdminWebListen c)) first with
  | (Lifecycle.Failure, es) =>
      if negb (UseUnprivilegedAdminFallback platform_default (Some c)) || negb permission then (None, es)
      else
        match Lifecycle.New (Lifecycle.mkConfig UnprivilegedAdminListen (AdminWebListen c)) second with
        | (Lifecycle.Failure, es') => (None, es ++ es')
        | (s, es') => (Some (set_admin_listen UnprivilegedAdminListen c, s), es ++ es')
        end
  | (s, es) => (Some (c, s), es)
  end.

(** ** Start and shutdown *)

Inductive component := Core | Autopeer | Jumper | Admin | Multicast | Tun | LocalDNS.
Global Instance component_eq_dec : EqDecision component.
Proof. solve_decision. Defined.
(** [Made]: the component exists; [Begun]: its work goes on; [Device]: the
    start-up device is attached. *)
Inductive event := Made (x : component) | Begun (x : component) | Device | Stopped (x : component).
Inductive reason :=
| NoManager | BadKey | NoCore | BadDuration (which : string) | NoAdmin | BadRegex | NoMulticast | NoTun | NoDevice | NoDNS | NoUser | NoPledge.

(** What the calls answer. *)
Record answers := mkAnswers {
  manager_made : bool; core_made : bool; admin_made : option bool;      (* [Some false]: there is no admin socket *)
  regex_ok : string -> bool; multicast_made : bool; tun_made : bool; device_attached : bool; dns_started : bool;
  user_changed : bool; pledged : bool                                   (* [user_changed] is true when no user is asked for *)
}.

(** The steps in turn; the first that fails is a panic. *)
Fixpoint run_steps (l : list (bool * reason * list event)) : list event * option reason :=
  match l with
  | [] => ([], None)
  | (ok, why, es) :: l => if ok then let '(es', r) := run_steps l in (es ++ es', r) else ([], Some why)
  end.

Section Start.
Context (ParseDuration_ok : string -> bool).

Definition start_steps (c : NodeConfig) (a : answers) : list (bool * reason * list event) := [
  (manager_made a, NoManager, []);
  (forallb (fun k => bool_decide (is_Some (hex_DecodeString k))) (AllowedPublicKeys c), BadKey, []);
  (core_made a, NoCore, [Made Core; Begun Core]);
  (ParseDuration_ok (FetchInterval (Config.AutoPeer c)), BadDuration "AutoPeer.FetchInterval", []);
  (ParseDuration_ok (ap_CheckInterval (Config.AutoPeer c)), BadDuration "AutoPeer.CheckInterval",
     Made Autopeer :: (if ap_Enabled (Config.AutoPeer c) then [Begun Autopeer] else []));
  (ParseDuration_ok (j_CheckInterval (Config.Jumper c)), BadDuration "Jumper.CheckInterval", []);
  (ParseDuration_ok (LinkTimeout (Config.Jumper c)), BadDuration "Jumper.LinkTimeout", [Made Jumper]);
  (bool_decide (is_Some (admin_made a)), NoAdmin, if default false (admin_made a) then [Made Admin; Begun Admin] else []);
  (forallb (fun i => regex_ok a (Regex i)) (MulticastInterfaces c), BadRegex, []);
  (multicast_made a, NoMulticast, [Made Multicast; Begun Multicast]);
  (tun_made a, NoTun, [Made Tun; Begun Tun]);
  (negb (shouldAttachTun c) || device_attached a, NoDevice, if shouldAttachTun c then [Device] else []);
  (true, NoTun, if Config.j_Enabled (Config.Jumper c) then [Begun Jumper] else []);
  (bool_decide (LocalDNSListen c = EmptyString) || dns_started a, NoDNS,
     if bool_decide (LocalDNSListen c = EmptyString) then [] else [Made LocalDNS; Begun LocalDNS]);
  (user_changed a, NoUser, []);
  (pledged a, NoPledge, [])
].
Definition start (c : NodeConfig) (a : answers) : list event * option reason := run_steps (start_steps c a).
End Start.

(** Stopping what was never made does nothing. *)
Definition shutdown : list event := map Stopped [LocalDNS; Admin; Jumper; Autopeer; Multicast; Tun; Core].

(** ** The command line *)

Record flags := mkFlags {
  genconf : bool; useconf : bool; useconffile : string; normaliseconf : bool; exportkey : bool; confjson : bool;
  autoconf : bool; ver : bool; getaddr : bool; getsnet : bool; getpkey : bool
}.

(** What the program does once the configuration is there. *)
Inductive action :=
| PrintVersion | PrintConfig (c : NodeConfig) (as_json : bool) | Usage (missing_config : bool) | Panics
| PrintAddress (ip : bytes) | PrintSubnet (ip : bytes) (ones : Z) | PrintPublicKey (hex : string) | ExportKey (key : bytes)
| Run (c : NodeConfig).

(** The default configuration file: read, absent, or not readable; and whether the
    generated one could be marshalled and its directory made. *)
Inductive opened := Contents (b : bytes) | NotExist | OpenError.
Inductive file_effect := MkdirAll (dir : string) | CreateExclusive (path : string).

Definition tryWriteGeneratedConfig (path dir : string) (marshalled mkdir_ok : bool) : list file_effect :=
  if negb marshalled then []
  else if negb (bool_decide (dir = "."%string)) && negb (bool_decide (dir = EmptyString)) then
    if mkdir_ok then [MkdirAll dir; CreateExclusive path] else [MkdirAll dir]
  else [CreateExclusive path].

Section Main.
Context {P : Platform}.
(** The key that ReadFrom generates for the values that are left out. *)
Context (key : bytes).

Definition read_config (conf : option bytes) (c : NodeConfig) : option NodeConfig :=
  match Config.ReadFrom conf key c with (c, _, Fine) => Some c | _ => None end.

(** [None] is an error. *)
Definition readOrGenerateDefaultConfig (path dir : string) (f : opened) (marshalled mkdir_ok : bool) (c : NodeConfig)
    : option NodeConfig * list file_effect :=
  if bool_decide (TrimSpace path = EmptyString) then (Some c, [])
  else match f with
       | Contents b => (read_config (Some b) c, [])
       | OpenError => (None, [])
       | NotExist => (Some c, tryWriteGeneratedConfig path dir marshalled mkdir_ok)
       end.

(** The first switch: the configuration, or what is done instead. *)
Definition choose_config (f : flags) (stdin : option bytes) (file : opened) (default_config : option NodeConfig) (c : NodeConfig)
    : NodeConfig + action :=
  let read o := match o with Some c => inl c | None => inr Panics end in
  if ver f then inr PrintVersion
  else if autoconf f then inl c
  else if useconf f then read (read_config stdin c)
  else if negb (bool_decide (useconffile f = EmptyString)) then
    match file with Contents b => read (read_config (Some b) c) | _ => inr Panics end
  else if genconf f then inr (PrintConfig c (confjson f))
  else if negb (getaddr f) && negb (getsnet f) && negb (getpkey f) then read default_config
  else inr (Usage (getaddr f || getsnet f)).

(** ed25519's Public: the second half of the key; a shorter key panics. *)
Definition public_of (private_key : bytes) : option bytes :=
  if bool_decide (length private_key < 32)%nat then None else Some (take 32 (drop 32 private_key ++ replicate 32 0)).

(** The second switch. *)
Definition act (f : flags) (c : NodeConfig) : action :=
  match public_of (PrivateKey c) with
  | None => Panics
  | Some public =>
  if getaddr f then match AddrForKey public with Some addr => PrintAddress addr | None => Panics end
  else if getsnet f then match SubnetForKey public with Some snet => PrintSubnet (snet ++ replicate 8 0) (8 * Z.of_nat (length snet)) | None => Panics end
  else if getpkey f then PrintPublicKey (hex_EncodeToString public)
  else if normaliseconf f then
    PrintConfig (set_admin_listen EmptyString (if bool_decide (PrivateKeyPath c = EmptyString) then c else with_key [] (Certificate c) c)) (confjson f)
  else if exportkey f then ExportKey (PrivateKey c)
  else Run c
  end.

(** Main up to the start of the node; [generated] is a new key. *)
Definition main (f : flags) (generated : bytes) (stdin : option bytes) (file : opened)
    (default_config : NodeConfig -> option NodeConfig * list file_effect) : action * list file_effect :=
  match GenerateConfig generated with
  | (c, Fine) =>
      let '(d, es) := default_config c in
      let uses_default := negb (ver f) && negb (autoconf f) && negb (useconf f) && bool_decide (useconffile f = EmptyString) && negb (genconf f)
                          && negb (getaddr f) && negb (getsnet f) && negb (getpkey f) in
      (match choose_config f stdin file d c with inr a => a | inl c => act f c end, if uses_default then es else [])
  | _ => (Panics, [])
  end.
End Main.

(** ** The networks of the links *)

(** The hosts that the default configuration gives no network: those that end in
    one of the three suffixes, without a slash before it. *)
Definition hidden_suffixes : list string := [".i2p"; ".loki"; ".onion"]%string.
Definition hidden (host : string) : Prop :=
  exists suf pre, suf ∈ hidden_suffixes /\ ("/"%char ∉ pre) /\ to_chars host = pre ++ to_chars suf.

Lemma hostMatches_hidden suf h : suf ∈ hidden_suffixes ->
  hostMatches (String "*" suf) h = true <-> exists pre, ("/"%char ∉ pre) /\ to_chars h = pre ++ to_chars suf.
Proof.
  intros Hs. destruct (Match_suffix suf h) as (b & Hb & Hiff).
  - unfold hidden_suffixes in Hs. intros E. set_unfold. naive_solver.
  - unfold hidden_suffixes in Hs. set_unfold. destruct Hs as [->|[->|[->|[]]]]; reflexivity.
  - unfold hostMatches. by rewrite Hb.
Qed.

(** Registering the six transports never fails. *)
Definition with_six (d : option Transport.Network) : Manager :=
  match register_all daemon_transports (NewManager d) with Ok m => m | Err _ => NewManager d end.

Lemma register_six d :
  register_all daemon_transports (NewManager d) = Ok (with_six d) /\ closed (with_six d) = false /\ defaultNet (with_six d) = d /\
  mappings (with_six d) = ∅ /\ dom (transports (with_six d)) = list_to_set ["tcp"; "tls"; "unix"; "ws"; "wss"; "quic"]%string.
Proof. split_and!; vm_compute; reflexivity. Qed.

Section Networks_theorems.
Context (ClientFromURL : string -> bool) (up : bool) (net_value : Config.Network -> Transport.Network) (order : gset Z -> list Z).
Local Abbreviation network := (transportNetworkFromConfig ClientFromURL up net_value).

(** What the mappings become, when no two patterns are the same. *)
Lemma map_all_ok l : forall m, closed m = false -> NoDup l.*1 ->
  (forall e, e ∈ l -> normalizePattern e.1 = Ok e.1 /\ exists n, network e.2 = Ok n) ->
  exists m', map_all ClientFromURL up net_value order l m = Ok m' /\ closed m' = false /\ defaultNet m' = defaultNet m /\
    transports m' = transports m /\
    forall p n, mappings m' !! p = Some n <-> (exists c, (p, c) ∈ l /\ network c = Ok n) \/ ((p ∉ l.*1) /\ mappings m !! p = Some n).
Proof.
  induction l as [|[p c] l IH]; intros m Hc Hnd Hl.
  { exists m. split_and!; [done..|]. intros p n. split; [intros H; right; split; [set_solver|done]|]. intros [(x & Hx & _)|[_ H]]; [set_solver|done]. }
  cbn [fmap list_fmap fst] in Hnd. apply NoDup_cons in Hnd as [Hp Hnd]. destruct (Hl (p, c)) as [Hn [n Hnet]]; [set_solver|]. cbn [fst snd] in Hn, Hnet.
  cbn [map_all]. rewrite Hnet. unfold MapNetwork, rbind. rewrite Hn, Hc.
  destruct (IH (bump (set_mappings (<[p := n]> (mappings m)) m))) as (m' & E & H1 & H2 & H3 & H4);
    [exact Hc|exact Hnd|intros e He; apply Hl; by right|].
  exists m'. split; [exact E|]. split_and!; [done..|]. intros q n'. rewrite H4. cbn [fmap list_fmap fst].
  unfold bump, set_mappings. cbn [mappings]. rewrite not_elem_of_cons. split.
  - intros [(x & Hx & Hq)|[Hq Hm]]; [left; exists x; split; [by right|done]|]. apply lookup_insert_Some in Hm as [[<- <-]|[Hne Hm]].
    + left. exists c. split; [left|done].
    + right. done.
  - intros [(x & [[= -> ->]|Hx]%elem_of_cons & Hq)|[[Hne Hq] Hm]].
    + right. split; [done|]. rewrite lookup_insert_eq. congruence.
    + left. by exists x.
    + right. split; [done|]. by rewrite lookup_insert_ne.
Qed.
End Networks_theorems.

Section Loaded.
Context {P : Platform}.

(** A configuration that was generated has the networks of the defaults. *)
Lemma GenerateConfig_transport key c : GenerateConfig key = (c, Fine) ->
  Config.Transport c = mkTransportConfig (NewTransportNetworkConfig "native") defaultTransportNetworkMappings.
Proof.
  unfold GenerateConfig, postprocessConfig. cbn [AutoPeer Config.Transport Config.Jumper].
  destruct (normalize_autopeer _) as [a [e|]]; [done|]. destruct (normalize_jumper _) as [j [e|]]; [done|].
  destruct (load_key _) as [c2 [e|]] eqn:El; [done|]. intros Ec.
  transitivity (Config.Transport c2).
  - unfold certify in Ec. case_bool_decide; [by injection Ec as <-|]. repeat case_match; try done; by injection Ec as <-.
  - unfold load_key in El. case_bool_decide; [injection El as <-; vm_compute; reflexivity|].
    repeat case_match; try done.
Qed.

(** The daemon's transport manager, made from a generated configuration, is
    always made: it is open, has exactly the six link transports, and hides the
    node from nothing but overlay names: a host that ends in .i2p, .loki or
    .onion has no network, so that a link to it is refused before anything is
    dialed, and every other host has the native network.  The order in which the
    mappings are ranged over does not matter. *)
Theorem generated_networks ClientFromURL net_value order key c l :
  GenerateConfig key = (c, Fine) -> l ≡ₚ map_to_list (Config.NetworkMappings (Config.Transport c)) ->
  exists m, newTransportManager ClientFromURL true net_value order l c = Ok (m, Some (net_value NativeNet)) /\ closed m = false /\
    (forall s, HasTransport s m = true <-> normalizeScheme s ∈ ["tcp"; "tls"; "unix"; "ws"; "wss"; "quic"]%string) /\
    forall o u, o ≡ₚ elements (dom (mappings m)) -> HasTransport (Scheme u) m = true ->
      let host := normalizeHost (Some u) in
      (hidden host -> snapshotFor o u m = Err (ErrNoNetwork host)) /\
      (~ hidden host -> exists s, snapshotFor o u m = Ok s /\ ss_network s = net_value NativeNet).
Proof.
  intros Hg Hl. apply GenerateConfig_transport in Hg. rewrite Hg in Hl. cbn [Config.NetworkMappings] in Hl.
  unfold newTransportManager. rewrite Hg. cbn [Config.DefaultNetwork].
  assert (transportNetworkFromConfig ClientFromURL true net_value (NewTransportNetworkConfig "native") = Ok (Some (net_value NativeNet))) as -> by reflexivity.
  destruct (register_six (Some (net_value NativeNet))) as (-> & Hc & Hd & Hm & Ht).
  assert (Hin : forall p x, (p, x) ∈ l <-> x = NullTransportNetworkConfig /\ exists suf, suf ∈ hidden_suffixes /\ p = String "*" suf).
  { intros p x. rewrite Hl, elem_of_map_to_list. split.
    - unfold defaultTransportNetworkMappings. intros H. apply elem_of_list_to_map_2 in H. unfold hidden_suffixes. set_unfold. naive_solver.
    - intros (-> & suf & Hs & ->). unfold hidden_suffixes in Hs. set_unfold. destruct Hs as [->|[->|[->|[]]]]; vm_compute; reflexivity. }
  destruct (map_all_ok ClientFromURL true net_value order l (with_six (Some (net_value NativeNet)))) as (m & -> & Hc' & Hd' & Ht' & Hm').
  - exact Hc.
  - rewrite Hl. apply NoDup_fst_map_to_list.
  - intros [p x] Hpx. apply Hin in Hpx as (-> & suf & Hs & ->). unfold hidden_suffixes in Hs. set_unfold. destruct Hs as [->|[->|[->|[]]]]; (split; [vm_compute; reflexivity|by eexists]).
  - exists m. split; [done|]. split; [done|]. rewrite Hm in Hm'.
    assert (HT : forall s, HasTransport s m = true <-> normalizeScheme s ∈ ["tcp"; "tls"; "unix"; "ws"; "wss"; "quic"]%string).
    { intros s. unfold HasTransport. rewrite Hc', bool_decide_eq_true, <-elem_of_dom, Ht', Ht. by rewrite elem_of_list_to_set. }
    split; [exact HT|]. intros o u Ho Hs. set (host := normalizeHost (Some u)). unfold snapshotFor. rewrite Hc'. unfold HasTransport in Hs. rewrite Hc' in Hs.
    apply bool_decide_eq_true in Hs. destruct Hs as [t ->]. fold host. destruct (resolveNetworkLocked o m host) as [n p] eqn:Er.
    apply resolve_selects in Er; [|done].
    assert (Hmap : forall q n', mappings m !! q = Some n' <-> n' = None /\ exists suf, suf ∈ hidden_suffixes /\ q = String "*" suf).
    { intros q n'. rewrite Hm'. split; [|intros (-> & Hq); left; exists NullTransportNetworkConfig; split; [by apply Hin|done]].
      intros [(x & Hx & Hn)|[_ H]]; [apply Hin in Hx as (-> & Hx); injection Hn as <-; done|by rewrite lookup_empty in H]. }
    destruct Er as [(-> & -> & Hno)|(Hp & Hmatch & _)]; (split; intros Hh).
    + exfalso. destruct Hh as (suf & pre & Hs & Hpre & Hh). specialize (Hno (String "*" suf)).
      rewrite (proj2 (hostMatches_hidden suf host Hs) (ex_intro _ pre (conj Hpre Hh))) in Hno.
      enough (String "*" suf ∈ dom (mappings m)) as Hdom by discriminate (Hno Hdom).
      apply elem_of_dom. exists None. apply Hmap. split; [done|by exists suf].
    + rewrite Hd', Hd. by eexists.
    + apply Hmap in Hp as (-> & _). done.
    + exfalso. apply Hh. apply Hmap in Hp as (_ & suf & Hs & ->). apply hostMatches_hidden in Hmatch as (pre & H1 & H2); [|done].
      by exists suf, pre.
Qed.
End Loaded.

(** ** The node info at the start and later *)

Section Info.
Context {T : Texts}.

(** The node info that the daemon publishes at its start is the one that the
    admin socket publishes for the same settings, exactly when the configured
    node info has no entry of the jumper or the jumper has an address to
    advertise.  Otherwise the start publishes the configured entry, and the first
    request that touches the jumper removes it. *)
Theorem start_nodeinfo_spec c :
  let e := Config.j_Enabled (Config.Jumper c) in
  let addresses := Config.Addresses (Config.Jumper c) in
  (mergeJumperNodeInfo (NodeInfo c) e addresses = start_nodeinfo c <->
   NodeInfo c !! Jumper.NodeInfoKey = None \/ (e = true /\ is_Some (Jumper.AdvertisedNodeInfo url_Parse url_String addresses))) /\
  (forall k, k <> Jumper.NodeInfoKey -> start_nodeinfo c !! k = NodeInfo c !! k).
Proof.
  cbv zeta. unfold mergeJumperNodeInfo, start_nodeinfo, mergeNodeInfo, advertised_json, Jumper.AdvertisedNodeInfo.
  assert (Hdel : delete Jumper.NodeInfoKey (NodeInfo c) = NodeInfo c <-> NodeInfo c !! Jumper.NodeInfoKey = None).
  { split; [intros <-; apply lookup_delete_eq|apply delete_id]. }
  destruct (Config.j_Enabled (Config.Jumper c)).
  2: { rewrite Hdel. split; [|done]. split; [by left|]. by intros [?|[]]. }
  destruct (Jumper.normalizeAddresses url_Parse url_String _) as [|x l].
  - rewrite (left_id_L ∅ _), bool_decide_true, Hdel by done. split; [|done]. split; [by left|]. by intros [?|[_ []]].
  - rewrite bool_decide_false by (rewrite map_fmap_singleton; apply map_non_empty_singleton). rewrite map_fmap_singleton. split.
    + split; [intros _; right; split; [done|by eexists]|intros _]. rewrite <-!insert_union_singleton_l. apply insert_delete_eq.
    + intros k Hk. by rewrite lookup_union, lookup_singleton_ne, (left_id_L None _) by done.
Qed.
End Info.

(** The manager of the browser node is always made, and has WebSockets only. *)
Theorem browser_schemes reject : exists m, browser_manager reject = Ok m /\ Transport.DefaultNetwork m = Some reject /\
  forall scheme, HasTransport scheme m = bool_decide (Transport.normalizeScheme scheme ∈ ["ws"; "wss"]%string).
Proof.
  eexists. split; [reflexivity|]. split; [reflexivity|]. intros scheme. unfold HasTransport. cbn [closed]. cbn.
  apply bool_decide_ext. rewrite !lookup_insert_is_Some', lookup_empty, !elem_of_cons, elem_of_nil.
  split; [intros [<-|[<-|[? ?]]]; [by right; left|by left|done]|intros [->|[->|[]]]; [by right; left|by left]].
Qed.

(** ** Start and shutdown *)

(** What has to be there before an event. *)
Definition needs (e : event) : list event :=
  match e with
  | Made Core => [] | Made _ => [Begun Core]
  | Begun Core => [Made Core] | Begun Jumper => [Made Jumper; Begun Tun] | Begun x => [Made x]
  | Device => [Begun Tun]
  | Stopped _ => []
  end.
Global Instance event_eq_dec : EqDecision event.
Proof. solve_decision. Defined.

Fixpoint ordered (before : list event) (es : list event) : bool :=
  match es with
  | [] => true
  | e :: es => forallb (fun x => bool_decide (x ∈ before)) (needs e) && ordered (before ++ [e]) es
  end.

Lemma ordered_app before es es' : ordered before (es ++ es') = true -> ordered before es = true.
Proof.
  revert before. induction es as [|e es IH]; intros before; [done|]. cbn. intros [-> H]%andb_true_iff. by apply IH.
Qed.

Lemma run_steps_prefix l : exists rest, concat (map snd l) = (run_steps l).1 ++ rest /\ ((run_steps l).2 = None -> rest = []) /\
  forall r, (run_steps l).2 = Some r -> exists es, (false, r, es) ∈ l.
Proof.
  induction l as [|[[ok why] es] l (rest & IH & H & Hr)]; [by exists []|]. cbn. destruct ok.
  - destruct (run_steps l) as [es' r] eqn:E. cbn in *. exists rest. rewrite IH, (assoc_L (++)). split_and!; [done..|].
    intros r' Hr'. destruct (Hr _ Hr') as [x Hx]. exists x. by right.
  - eexists. split; [done|]. split; [done|]. intros r [= <-]. exists es. left.
Qed.

Lemma all_ordered dur c a : ordered [] (concat (map snd (start_steps dur c a))) = true.
Proof.
  unfold start_steps. cbn [map snd concat]. destruct (ap_Enabled (Config.AutoPeer c)); destruct (default false (admin_made a));
    destruct (shouldAttachTun c); destruct (Config.j_Enabled (Config.Jumper c));
    destruct (bool_decide (LocalDNSListen c = EmptyString)); vm_compute; reflexivity.
Qed.

Section Start_theorems.
Context {P : Platform}.

(** The durations of a configuration that was loaded. *)
Lemma normal_durations c : normal c ->
  ParseDuration_ok (FetchInterval (Config.AutoPeer c)) = true /\ ParseDuration_ok (ap_CheckInterval (Config.AutoPeer c)) = true /\
  ParseDuration_ok (Config.j_CheckInterval (Config.Jumper c)) = true /\ ParseDuration_ok (Config.LinkTimeout (Config.Jumper c)) = true.
Proof.
  intros (_ & Ha & Hj & _). unfold normalize_autopeer in Ha. unfold normalize_jumper in Hj. cbv zeta in Ha, Hj.
  destruct (ParseDuration_ok _) eqn:E1 in Ha; cbn [negb] in Ha; [|done].
  destruct (ParseDuration_ok _) eqn:E2 in Ha; cbn [negb] in Ha; [|done].
  destruct (ParseDuration_ok _) eqn:E3 in Hj; cbn [negb] in Hj; [|done].
  destruct (ParseDuration_ok _) eqn:E4 in Hj; cbn [negb] in Hj; [|done].
  injection Ha as Ha. injection Hj as Hj. rewrite <-Ha, <-Hj. done.
Qed.

(** The start of a daemon whose configuration was loaded does nothing before
    what it needs is there, whether it succeeds or ends with a panic, and it
    never panics over a duration, because loading has checked them all.  The
    shutdown stops every component that was begun, once, each before those it
    needs, and the core last. *)
Theorem start_and_shutdown c c' a : postprocessConfig c = (c', Fine) ->
  let '(es, r) := start ParseDuration_ok c' a in
  ordered [] es = true /\ (forall w, r <> Some (BadDuration w)) /\
  (r = None -> Begun Core ∈ es /\ (Device ∈ es <-> shouldAttachTun c' = true) /\ (Begun Jumper ∈ es <-> Config.j_Enabled (Config.Jumper c') = true)) /\
  NoDup shutdown /\ (forall x, Stopped x ∈ shutdown) /\
  forall i j x y, shutdown !! i = Some (Stopped x) -> shutdown !! j = Some (Stopped y) -> x <> Core -> Begun y ∈ needs (Made x) ++ needs (Begun x) -> (i < j)%nat.
Proof.
  intros Hp. apply postprocess_fine in Hp as (Hn & _). apply normal_durations in Hn as (D1 & D2 & D3 & D4).
  unfold start. destruct (run_steps_prefix (start_steps ParseDuration_ok c' a)) as (rest & Hpre & Hok & Hbad).
  pose proof (all_ordered ParseDuration_ok c' a) as Ho. rewrite Hpre in Ho. apply ordered_app in Ho.
  destruct (run_steps _) as [es r] eqn:Er. cbn [fst snd] in *. split; [exact Ho|]. split.
  { intros w ->. destruct (Hbad _ eq_refl) as [x Hx]. unfold start_steps in Hx. rewrite D1, D2, D3, D4 in Hx.
    rewrite !elem_of_cons, elem_of_nil in Hx. clear -Hx. naive_solver. }
  split.
  { intros ->. rewrite (Hok eq_refl), app_nil_r in Hpre. rewrite <-Hpre. clear.
    unfold start_steps. cbn [map snd concat]. destruct (ap_Enabled (Config.AutoPeer c')); destruct (default false (admin_made a));
      destruct (shouldAttachTun c'); destruct (Config.j_Enabled (Config.Jumper c'));
      destruct (bool_decide (LocalDNSListen c' = EmptyString)); by_computation. }
  split; [by_computation|]. split; [intros []; by_computation|].
  intros i j x y Hi Hj Hx Hy. assert (Hnd : NoDup shutdown) by by_computation.
  assert (y = Core \/ (x = Jumper /\ y = Tun)) as [->|[-> ->]] by (clear -Hx Hy; destruct x; cbn in Hy; set_unfold; naive_solver).
  - pose proof (NoDup_lookup shutdown j 6 (Stopped Core) Hnd Hj eq_refl) as ->.
    pose proof (lookup_lt_Some _ _ _ Hi) as Hlt. change (length shutdown) with 7%nat in Hlt.
    destruct (decide (i = 6%nat)) as [->|]; [by injection Hi as <-|lia].
  - pose proof (NoDup_lookup shutdown j 5 (Stopped Tun) Hnd Hj eq_refl) as ->.
    pose proof (NoDup_lookup shutdown i 2 (Stopped Jumper) Hnd Hi eq_refl) as ->. lia.
Qed.
End Start_theorems.

(** ** The admin socket *)

(** When the start of the admin socket fails nothing stays bound.  A second
    attempt is made only when the socket was left at the platform's default, the
    start-up device needs no privileges and the first error was one of
    permission; then the configuration names the address of the fallback, and
    otherwise it is unchanged. *)
Theorem start_admin_spec d o1 o2 permission c :
  let '(r, es) := start_admin d o1 o2 permission c in
  match r with
  | None => Lifecycle.bound es = ∅
  | Some (c', s) =>
      s <> Lifecycle.Failure /\
      (c' = c \/ (UseUnprivilegedAdminFallback d (Some c) = true /\ permission = true /\ c' = set_admin_listen UnprivilegedAdminListen c)) /\
      match s with
      | Lifecycle.Running (Some x) _ => x ∈ Lifecycle.bound es
      | _ => True
      end
  end.
Proof.
  unfold start_admin. pose proof (New_is_careful (Lifecycle.mkConfig (AdminListen c) (AdminWebListen c)) o1) as H1.
  pose proof (New_is_careful (Lifecycle.mkConfig UnprivilegedAdminListen (AdminWebListen c)) o2) as H2.
  destruct (Lifecycle.New _ o1) as [s1 es1]. destruct (Lifecycle.New _ o2) as [s2 es2]. destruct H1 as [_ H1]. destruct H2 as [_ H2].
  destruct s1 as [| |x web].
  - split_and!; [done|by left|done].
  - destruct (UseUnprivilegedAdminFallback d (Some c)) eqn:Eu; [destruct permission|]; cbn [negb orb]; [|exact H1..].
    assert (Hb : Lifecycle.bound (es1 ++ es2) = Lifecycle.bound es2).
    { unfold Lifecycle.bound in *. by rewrite bound_app, H1. }
    destruct s2 as [| |x web].
    + split_and!; [done|by right|done].
    + by rewrite Hb.
    + split_and!; [done|by right|]. destruct x as [x|]; [|done]. rewrite Hb. by apply H2.
  - split_and!; [done|by left|]. destruct x as [x|]; [|done]. by apply H1.
Qed.

(** ** The command line *)

Section Command_line.
Context {P : Platform}.

(** What -normaliseconf prints does not disclose a key that lives in a file of
    its own; but it has an empty listen address for the admin socket whatever was
    configured, so that a daemon started from it has no admin socket. *)
Theorem normalised_config f c c' js : act f c = PrintConfig c' js ->
  (PrivateKeyPath c <> EmptyString -> PrivateKey c' = []) /\
  AdminListen c' = EmptyString /\ ("AdminListen"%string, Str EmptyString) ∈ config_fields c' /\
  (forall k v, k ∉ ["AdminListen"; "PrivateKey"]%string -> (k, v) ∈ config_fields c <-> (k, v) ∈ config_fields c') /\
  (forall d o1 o2 permission s es, d <> EmptyString -> start_admin d o1 o2 permission c' = (Some (c', s), es) ->
     s = Lifecycle.Nothing \/ exists web, s = Lifecycle.Running None web).
Proof.
  unfold act. destruct (public_of (PrivateKey c)) as [public|]; [|done].
  destruct (getaddr f); [by destruct (AddrForKey public)|]. destruct (getsnet f); [by destruct (SubnetForKey public)|].
  destruct (getpkey f); [done|]. destruct (normaliseconf f); [|by destruct (exportkey f)]. intros [= <- <-].
  set (c1 := if bool_decide (PrivateKeyPath c = EmptyString) then c else with_key [] (Certificate c) c).
  split; [intros Hp; unfold c1; by rewrite bool_decide_false|]. split; [done|].
  split; [unfold config_fields; rewrite !elem_of_cons; cbn [AdminListen set_admin_listen]; tauto|]. split.
  - intros k v Hk. assert (Hc : config_fields (set_admin_listen EmptyString c1) =
      ("PrivateKey"%string, KeyBytes_MarshalJSON (PrivateKey c1)) :: take 4 (drop 1 (config_fields c)) ++ ("AdminListen"%string, Str EmptyString) :: drop 6 (config_fields c))
      by (unfold c1; case_bool_decide; done).
    assert (config_fields c = ("PrivateKey"%string, KeyBytes_MarshalJSON (PrivateKey c)) :: take 4 (drop 1 (config_fields c)) ++ ("AdminListen"%string, Str (AdminListen c)) :: drop 6 (config_fields c))
      as -> by done.
    rewrite Hc, !elem_of_cons, !elem_of_app, !elem_of_cons. rewrite !elem_of_cons in Hk. cbn [take drop app]. split; intros H; intuition (congruence || tauto).
  - intros d o1 o2 permission s es Hd. unfold start_admin. set (c2 := set_admin_listen EmptyString c1).
    assert (UseUnprivilegedAdminFallback d (Some c2) = false) as ->.
    { unfold UseUnprivilegedAdminFallback. change (TrimSpace (AdminListen c2)) with EmptyString. by rewrite bool_decide_false by congruence. }
    cbn [negb orb].
    unfold Lifecycle.New. change (Lifecycle.disabled (Lifecycle.listenaddr (Lifecycle.mkConfig (AdminListen c2) (AdminWebListen c2)))) with true. cbn [Lifecycle.webListenaddr].
    destruct (Lifecycle.disabled (AdminWebListen c2)); [intros [= <- <-]; by left|].
    destruct (Lifecycle.startWebAdmin _ _) as [[] es']; intros [= <- <-]; right; by eexists.
Qed.

(** The default configuration file is written only when the daemon was started
    without any of the options that select a configuration and the file does not
    exist; it is opened so that an existing one is never overwritten, and the
    daemon runs the configuration that was generated.  A file that is there but
    cannot be opened or read ends the start. *)
Theorem default_file key f generated stdin file path dir o marshalled mkdir_ok :
  let '(a, es) := main key f generated stdin file (readOrGenerateDefaultConfig key path dir o marshalled mkdir_ok) in
  (es <> [] -> o = NotExist /\ TrimSpace path <> EmptyString /\ (forall e, e ∈ es -> e = MkdirAll dir \/ e = CreateExclusive path) /\
     useconf f = false /\ useconffile f = EmptyString /\ genconf f = false /\ autoconf f = false /\
     exists c, GenerateConfig generated = (c, Fine) /\ a = act f c) /\
  (forall c, ver f = false -> useconf f = false -> useconffile f = EmptyString -> genconf f = false -> autoconf f = false ->
     getaddr f = false -> getsnet f = false -> getpkey f = false -> GenerateConfig generated = (c, Fine) -> TrimSpace path <> EmptyString ->
     match o with
     | Contents b => es = [] /\ a = match read_config key (Some b) c with Some c' => act f c' | None => Panics end
     | OpenError => es = [] /\ a = Panics
     | NotExist => a = act f c
     end).
Proof.
  unfold main. destruct (GenerateConfig generated) as [c [|e|]] eqn:Eg; [|split; [done|congruence]..].
  unfold readOrGenerateDefaultConfig. destruct (bool_decide (TrimSpace path = EmptyString)) eqn:Ep.
  { cbv beta iota zeta. destruct (_ && _); (split; [done|]); intros; bool_props; congruence. }
  unfold choose_config. destruct o as [b| |]; cbv beta iota zeta;
    (destruct (ver f); cbn [negb andb]; [split; [done|congruence]|]);
    (destruct (autoconf f); cbn [negb andb]; [split; [done|congruence]|]);
    (destruct (useconf f); cbn [negb andb]; [split; [done|congruence]|]);
    (destruct (bool_decide (useconffile f = EmptyString)) eqn:Ef; cbn [negb andb]; [|split; [done|intros; bool_props; congruence]]);
    (destruct (genconf f); cbn [negb andb]; [split; [done|congruence]|]);
    (destruct (getaddr f); cbn [negb andb]; [split; [done|congruence]|]);
    (destruct (getsnet f); cbn [negb andb]; [split; [done|congruence]|]);
    (destruct (getpkey f); cbn [negb andb]; [split; [done|congruence]|]); bool_props.
  - split; [done|]. intros c0 _ _ _ _ _ _ _ _ [= <-] _. split; [done|]. by destruct (read_config key (Some b) c).
  - split.
    + intros _. split_and!; [done..| |done|done|done|done|].
      * intros e. unfold tryWriteGeneratedConfig. repeat case_match; rewrite ?elem_of_cons, ?elem_of_nil; naive_solver.
      * by exists c.
    + intros c0 _ _ _ _ _ _ _ _ [= <-] _. done.
  - split; [done|]. intros c0 _ _ _ _ _ _ _ _ [= <-] _. done.
Qed.
End Command_line.

(** ** Witnesses *)

Module Sample.
(** All calls succeed; there is an admin socket. *)
Definition good : answers := mkAnswers true true (Some true) (fun _ => true) true true true true true true.
Definition normalise : flags := mkFlags false true EmptyString true false false false false false false false.
End Sample.

Lemma generated_networks_witness :
  let l := map_to_list (Config.NetworkMappings (Config.Transport Config.Sample.generated)) in
  exists m, newTransportManager (fun _ => true) true (fun _ => 1) elements l Config.Sample.generated = Ok (m, Some 1) /\
    HasTransport " QUIC " m = true /\ HasTransport "ftp" m = false.
Proof.
  intros l.
  destruct (generated_networks (P := Config.Sample.platform) (fun _ => true) (fun _ => 1) elements Config.Sample.good_key Config.Sample.generated l
    Config.Sample.generated_fine (reflexivity l)) as (m & Hm & _ & Hs & _).
  exists m. split; [exact Hm|]. split; [apply Hs; by_computation|].
  apply not_true_iff_false. intros H. apply Hs in H. revert H. by_computation.
Defined.

Lemma start_and_shutdown_witness :
  let c := Config.Sample.generated in
  postprocessConfig (P := Config.Sample.platform) c = (c, Fine) /\
  Begun Core ∈ (start (ParseDuration_ok (Platform := Config.Sample.platform)) c Sample.good).1 /\
  (start (ParseDuration_ok (Platform := Config.Sample.platform)) c Sample.good).2 = None.
Proof.
  intros c. assert (H : postprocessConfig (P := Config.Sample.platform) c = (c, Fine)) by (vm_compute; reflexivity). split; [exact H|].
  pose proof (start_and_shutdown (P := Config.Sample.platform) c c Sample.good H) as Hs.
  destruct (start _ c Sample.good) as [es r] eqn:E. assert (r = None) as -> by (clear -E; vm_compute in E; by injection E as _ <-).
  destruct Hs as (_ & _ & Hs & _). split; [|reflexivity]. by apply Hs.
Defined.

Lemma normalised_config_witness :
  exists c, act Sample.normalise Config.Sample.generated = PrintConfig c false /\ AdminListen c = EmptyString /\
    AdminListen Config.Sample.generated = "unix:///var/run/yggdrasil.sock"%string.
Proof.
  eexists. assert (H : act Sample.normalise Config.Sample.generated = PrintConfig (set_admin_listen EmptyString Config.Sample.generated) false) by (vm_compute; reflexivity).
  split; [exact H|]. split; [|vm_compute; reflexivity]. by destruct (normalised_config _ _ _ _ H) as (_ & Ha & _).
Defined.
