(* ===== verification/Yggctl.v ===== *)
(** * Yggctl: the command-line client of the admin socket
    (yggd/yggctl/main.go, cmd_line_env.go, DataUnit of ygglib/admin/admin.go)

    The endpoint is found, one request is sent, and the answer is printed as a
    table.  A panic is caught by [run], which prints the log.  The parsers of
    flags, URLs, HJSON and floats, the texts of JSON values and durations, and
    the connection are parameters. *)

From Stdlib Require Import Ascii Floats.SpecFloat.
From S2P Require Import Prelude GoStd Json Config Autopeer AdminHandlers Admin Daemon.

(** ** Numbers as text *)

(** The nearest integer to [a / b], the even one when there are two. *)
Definition round_half_even (a b : Z) : Z :=
  let q := a / b in
  let r := 2 * (a mod b) in
  if r <? b then q else if b <? r then q + 1 else if Z.even q then q else q + 1.

(** %.1f and the like, of the fraction [num / den]. *)
Definition pad_zeros (n : nat) (l : chars) : chars := repeat "0"%char (n - length l) ++ l.
Definition format_fixed (decimals : nat) (num den : Z) : string :=
  let v := round_half_even (num * 10 ^ Z.of_nat decimals) den in
  let p := 10 ^ Z.of_nat decimals in
  String.append (format_uint (v / p)) (String.append "." (of_chars (pad_zeros decimals (to_chars (format_uint (v mod p)))))).
Definition format_float (decimals : nat) (f : float64) : string :=
  match f with
  | S754_finite s m e =>
      String.append (if s then "-" else "")
        (if 0 <=? e then format_fixed decimals (Z.pos m * 2 ^ e) 1 else format_fixed decimals (Z.pos m) (2 ^ (- e)))
  | S754_zero s => String.append (if s then "-" else "") (format_fixed decimals 0 1)
  | S754_infinity s => if s then "-Inf" else "+Inf"
  | S754_nan => "NaN"
  end.

(** DataUnit.String *)
Fixpoint div_1024 (n : nat) (f : float64) : float64 := match n with O => f | S n => div_1024 n (f_div f (of_Z 1024)) end.
Definition DataUnit_String (d : Z) : string :=
  if 1024 * 1024 * 1024 * 1024 <=? d then String.append (format_float 1 (div_1024 4 (of_Z d))) "TB"
  else if 1024 * 1024 * 1024 <=? d then String.append (format_float 1 (div_1024 3 (of_Z d))) "GB"
  else if 1024 * 1024 <=? d then String.append (format_float 1 (div_1024 2 (of_Z d))) "MB"
  else if 100 <=? d then String.append (format_float 1 (div_1024 1 (of_Z d))) "KB"
  else String.append (format_int d) "B".
Example DataUnit_1 : map DataUnit_String [99; 100; 1536; 5 * 1024 * 1024; 2 ^ 40 + 2 ^ 36] = ["99B"; "0.1KB"; "1.5KB"; "5.0MB"; "1.1TB"]%string.
Proof. vm_compute. reflexivity. Qed.

(** Duration.Round *)
Definition second : Z := 1000000000.
Definition Duration_Round (d m : Z) : Z :=
  if m <=? 0 then d
  else
    let r := Z.rem d m in
    if d <? 0 then
      let r := - r in
      if u64 (r + r) <? m then d + r
      else let d1 := i64 (d - m + r) in if d1 <? d then d1 else - 2 ^ 63
    else
      if u64 (r + r) <? m then d - r
      else let d1 := i64 (d + m - r) in if d <? d1 then d1 else 2 ^ 63 - 1.

(** ** Values of the answers

    A struct is the list of its fields by their JSON names, the last one stored
    first; what is absent is the zero value. *)

Inductive ftype := TString | TBool | TUint (bits : Z) | TInt | TFloat | TSlice (t : ftype) | TStruct (fields : list (string * ftype)).
Inductive value := VString (s : string) | VBool (b : bool) | VInt (z : Z) | VFloat (f : float64) | VSlice (l : list value) | VStruct (kvs : list (string * value)).

Definition zero (t : ftype) : value :=
  match t with
  | TString => VString EmptyString | TBool => VBool false | TUint _ | TInt => VInt 0 | TFloat => VFloat (S754_zero false)
  | TSlice _ => VSlice [] | TStruct _ => VStruct []
  end.

Definition lookup_value (n : string) (v : value) : option value :=
  match v with VStruct kvs => snd <$> find (fun kv => bool_decide (kv.1 = n)) kvs | _ => None end.
Definition get_string (n : string) (v : value) : string := match lookup_value n v with Some (VString s) => s | _ => EmptyString end.
Definition get_bool (n : string) (v : value) : bool := match lookup_value n v with Some (VBool b) => b | _ => false end.
Definition get_int (n : string) (v : value) : Z := match lookup_value n v with Some (VInt z) => z | _ => 0 end.
Definition get_float (n : string) (v : value) : float64 := match lookup_value n v with Some (VFloat f) => f | _ => S754_zero false end.
Definition get_slice (n : string) (v : value) : list value := match lookup_value n v with Some (VSlice l) => l | _ => [] end.

Section Decode.
Context (ParseFloat : string -> option float64).

(** Storing a value in a field that holds the zero value. *)
Fixpoint decode (t : ftype) (j : json) : option value :=
  match t with
  | TString => match j with Null => Some (VString EmptyString) | Str s => Some (VString s) | _ => None end
  | TBool => match j with Null => Some (VBool false) | Bool b => Some (VBool b) | _ => None end
  | TUint bits => match j with Null => Some (VInt 0) | Num lit => VInt <$> ParseUint bits lit | _ => None end
  | TInt => match j with Null => Some (VInt 0) | Num lit => VInt <$> Atoi lit | _ => None end
  | TFloat => match j with Null => Some (VFloat (S754_zero false)) | Num lit => VFloat <$> ParseFloat lit | _ => None end
  | TSlice t => match j with Null => Some (VSlice []) | Arr l => VSlice <$> mapM (decode t) l | _ => None end
  | TStruct fields =>
      let fields := map (fun nt => let '(n, t) := nt in
        (n, fun j (kvs : list (string * value)) =>
              match j, t with
              | Null, TSlice _ => Some ((n, VSlice []) :: kvs)
              | Null, _ => Some kvs
              | _, _ => (fun v => (n, v) :: kvs) <$> decode t j
              end)) fields in
      match unmarshal false fields j [] with
      | (kvs, true) => Some (VStruct kvs)
      | (_, false) => None
      end
  end.
End Decode.

(** ** The endpoint *)

(** What the flags and the arguments that follow them are parsed into. *)
Record CmdLineEnv := mkCmdLineEnv { args : list string; endpoint : string; server : string; injson : bool; borders : bool; ver : bool }.

(** The answers of the system and of the libraries. *)
Class System := {
  default_config_file : option bytes;                     (* os.ReadFile *)
  defaults : Defaults;
  UTF16_Bytes : bytes -> option bytes;
  hjson_map : bytes -> option (gmap string json);
  URL_Parse : string -> option URL;
  URL_String : URL -> string;
  connects : string -> string -> bool;                    (* net.Dial *)
  JSON_ParseFloat : string -> option float64;
  Duration_String : Z -> string;
  range_infos : list (string * json) -> list (string * json)   (* the order of a map range *)
}.

Section Client.
Context {Y : System}.

Definition string_of (dat : gmap string json) (key default : string) : string :=
  match dat !! key with Some (Str s) => s | _ => default end.

Definition bom (cfg : bytes) : bool :=
  (* cfg[0:2] reads into the capacity of a shorter file, which is zero *)
  bool_decide (take 2 (cfg ++ [0; 0]) ∈ [[0xff; 0xfe]; [0xfe; 0xff]]).

(** [None]: it panics. *)
Definition setEndpoint (c : CmdLineEnv) : option CmdLineEnv :=
  let with_endpoint e := mkCmdLineEnv (args c) e (server c) (injson c) (borders c) (ver c) in
  if bool_decide (server c = endpoint c) then
    match default_config_file with
    | None => Some c
    | Some cfg =>
        match (if bom cfg then UTF16_Bytes cfg else Some cfg) with
        | None => None
        | Some cfg =>
            match hjson_map cfg with
            | None => None
            | Some dat =>
                let adminListen := string_of dat "AdminListen" (DefaultAdminListen defaults) in
                let tunType := string_of dat "TunType" "native" in
                let ifName := string_of dat "IfName" (DefaultIfName defaults) in
                let ep := EffectiveAdminListenFor (DefaultAdminListen defaults) adminListen tunType ifName in
                if negb (bool_decide (ep = "none"%string)) && negb (bool_decide (ep = EmptyString)) then Some (with_endpoint ep) else Some c
            end
        end
    end
  else Some (with_endpoint (server c)).
(** How [run] connects: [Crash] when it panics. *)
Inductive attempt := Crash | Connect (network address : string).

(** endpoint[7:] *)
Definition drop_7 (s : string) : option string :=
  if (7 <=? length (to_chars s))%nat then Some (of_chars (drop 7 (to_chars s))) else None.

Definition connect (endpoint : string) : attempt :=
  match URL_Parse endpoint with
  | Some u =>
      if bool_decide (ToLower (Scheme u) = "unix"%string) then
        match drop_7 endpoint with None => Crash | Some path => Connect "unix" path end
      else if bool_decide (ToLower (Scheme u) = "tcp"%string) then Connect "tcp" (Host u)
      else Crash                                             (* protocol not supported *)
  | None => Crash                                            (* the URL is nil, and its host is logged *)
  end.

(** ** The request *)

(** The map is written in the order of the arguments. *)
Fixpoint parse_args (l : list string) (m : gmap string string) : gmap string string :=
  match l with
  | [] => m
  | a :: l => match Cut a "=" with
              | (key, v, true) => parse_args l (<[key := v]> m)
              | (_, _, false) => parse_args l m              (* ignored *)
              end
  end.
Definition request_name (l : list string) : string :=
  match l with [] => EmptyString | a :: _ => if HasPrefix a "-" then EmptyString else a end.
Definition request_args (l : list string) : gmap string string := parse_args (tail l) ∅.

(** The JSON of a request and of a response. *)
Definition request_json (r : AdminSocketRequest) : json :=
  Obj ([("request"%string, Str (Name r))] ++
       match Arguments r with None => [] | Some j => [("arguments"%string, j)] end ++
       (if KeepAlive r then [("keepalive"%string, Bool true)] else [])).
Definition response_json (r : AdminSocketResponse) : json :=
  Obj ([("status"%string, Str (Status r))] ++ omit_string "error" (Error r) ++
       [("request"%string, request_json (Request r)); ("response"%string, default Null (Response r))]).
Definition sent (c : CmdLineEnv) : AdminSocketRequest :=
  mkRequest (request_name (args c)) (Some (of_map Str (request_args (args c)))) false.

Definition response_fields : list (field AdminSocketResponse) := [
  string_field "status" (fun s r => mkResponse s (Error r) (Request r) (Response r));
  string_field "error" (fun s r => mkResponse (Status r) s (Request r) (Response r));
  ("request"%string, fun j r => match unmarshal false request_fields j (Request r) with
                                | (q, true) => Some (mkResponse (Status r) (Error r) q (Response r))
                                | (_, false) => None
                                end);
  raw_field "response" (fun j r => mkResponse (Status r) (Error r) (Request r) (Some j))
].
Definition no_response : AdminSocketResponse := mkResponse EmptyString EmptyString (mkRequest EmptyString None false) None.

(** ** The tables *)

Inductive output := Line (text : string) | Raw (j : option json) | Indented (j : json) | Table (borders : bool) (header : list string) (rows : list (list string)).

Definition strings_text (sep : string) (l : list string) : string := String.concat sep l.
Definition of_value_string (v : value) : string := match v with VString s => s | _ => EmptyString end.
Definition of_value_int (v : value) : Z := match v with VInt z => z | _ => 0 end.
(** %v of a slice of numbers, %#v of a bool *)
Definition ints_text (l : list value) : string :=
  String.append "[" (String.append (String.concat " " (map (fun v => format_uint (of_value_int v)) l)) "]").
Definition bool_text (b : bool) : string := if b then "true" else "false".
Definition fmtBool (b : bool) : string := if b then "Yes" else "-".

Definition list_type : ftype :=
  TStruct [("list", TSlice (TStruct [("command", TString); ("description", TString); ("fields", TSlice TString)]))]%string.
Definition list_row (e : value) : list string :=
  [get_string "command" e;
   String.concat ", " (map (fun f => String.append (of_value_string f) "=...") (get_slice "fields" e));
   get_string "description" e].

Definition self_type : ftype :=
  TStruct [("build_name", TString); ("build_version", TString); ("key", TString); ("address", TString); ("routing_entries", TUint 64); ("subnet", TString)]%string.
Definition self_rows (v : value) : list (list string) :=
  [["Build name:"; get_string "build_name" v]; ["Build version:"; get_string "build_version" v];
   ["IPv6 address:"; get_string "address" v]; ["IPv6 subnet:"; get_string "subnet" v];
   ["Routing table size:"; format_uint (get_int "routing_entries" v)]; ["Public key:"; get_string "key" v]]%string.

Definition peers_type : ftype :=
  TStruct [("peers", TSlice (TStruct [("remote", TString); ("up", TBool); ("inbound", TBool); ("address", TString); ("key", TString);
    ("port", TUint 64); ("priority", TUint 64); ("cost", TUint 64); ("bytes_recvd", TUint 64); ("bytes_sent", TUint 64);
    ("rate_recvd", TUint 64); ("rate_sent", TUint 64); ("uptime", TFloat); ("latency", TInt); ("last_error_time", TInt); ("last_error", TString)]))]%string.
Definition f_positive (f : float64) : bool := match f with S754_finite false _ _ | S754_infinity false => true | _ => false end.
Definition uptime_text (v : value) : string := Duration_String (i64 (i64 (f_int (get_float "uptime" v)) * second)).
Definition rate_text (d : Z) : string := if 0 <? d then String.append (DataUnit_String d) "/s" else "-".
Definition uri_text (uri : string) : string :=
  match URL_Parse uri with Some u => URL_String (mkURL (Scheme u) (Host u) (Path u) (RawPath u) []) | None => uri end.
Definition peer_row (p : value) : list string :=
  let up := get_bool "up" p in
  let lasterr := get_string "last_error" p in
  let rttms := f_div (of_Z (Z.quot (get_int "latency" p) 1000)) (of_Z 1000) in
  [uri_text (get_string "remote" p);
   (if up then "Up" else "Down");
   (if get_bool "inbound" p then "In" else "Out");
   get_string "address" p;
   uptime_text p;
   (if up && f_positive rttms then String.append (format_float 2 rttms) "ms" else "-");
   DataUnit_String (get_int "bytes_recvd" p); DataUnit_String (get_int "bytes_sent" p);
   rate_text (get_int "rate_recvd" p); rate_text (get_int "rate_sent" p);
   format_uint (get_int "priority" p); format_uint (get_int "cost" p);
   (if negb up && negb (bool_decide (lasterr = EmptyString))
    then String.append (Duration_String (Duration_Round (get_int "last_error_time" p) second)) (String.append " ago: " lasterr) else "-")]%string.

Definition tree_type : ftype :=
  TStruct [("tree", TSlice (TStruct [("address", TString); ("key", TString); ("parent", TString); ("sequence", TUint 64)]))]%string.
Definition tree_row (t : value) : list string :=
  [get_string "key" t; get_string "address" t; get_string "parent" t; format_uint (get_int "sequence" t)].
Definition paths_type : ftype :=
  TStruct [("paths", TSlice (TStruct [("address", TString); ("key", TString); ("path", TSlice (TUint 64)); ("sequence", TUint 64)]))]%string.
Definition path_row (p : value) : list string :=
  [get_string "key" p; get_string "address" p; ints_text (get_slice "path" p); format_uint (get_int "sequence" p)].
Definition sessions_type : ftype :=
  TStruct [("sessions", TSlice (TStruct [("address", TString); ("key", TString); ("bytes_recvd", TUint 64); ("bytes_sent", TUint 64); ("uptime", TFloat)]))]%string.
Definition session_row (p : value) : list string :=
  [get_string "key" p; get_string "address" p; uptime_text p; DataUnit_String (get_int "bytes_recvd" p); DataUnit_String (get_int "bytes_sent" p)].
Definition multicast_type : ftype :=
  TStruct [("multicast_interfaces", TSlice (TStruct [("name", TString); ("address", TString); ("beacon", TBool); ("listen", TBool); ("password", TBool)]))]%string.
Definition multicast_row (p : value) : list string :=
  [get_string "name" p; get_string "address" p; fmtBool (get_bool "beacon" p); fmtBool (get_bool "listen" p); fmtBool (get_bool "password" p)].
Definition tun_type : ftype :=
  TStruct [("state", TString); ("enabled", TBool); ("attached", TBool); ("type", TString); ("name", TString);
           ("mtu", TUint 64); ("mro", TInt); ("mwo", TInt)]%string.
Definition tun_rows (v : value) : list (list string) :=
  [["TUN enabled:"; bool_text (get_bool "enabled" v)]; ["TUN state:"; get_string "state" v]; ["TUN attached:"; bool_text (get_bool "attached" v)]]%string ++
   if get_bool "attached" v then
     [["Attachment type:"; get_string "type" v]; ["Interface name:"; get_string "name" v]; ["Interface MTU:"; format_uint (get_int "mtu" v)];
      ["Interface MRO:"; format_int (get_int "mro" v)]; ["Interface MWO:"; format_int (get_int "mwo" v)]]%string
   else [].
Definition firewall_type : ftype :=
  TStruct [("enabled", TBool); ("allowed_tcp_ports", TSlice (TUint 16)); ("allowed_udp_ports", TSlice (TUint 16)); ("tracked_flows", TInt)]%string.
Definition firewall_rows (v : value) : list (list string) :=
  [["Firewall enabled:"; bool_text (get_bool "enabled" v)]; ["Allowed TCP ports:"; ints_text (get_slice "allowed_tcp_ports" v)];
   ["Allowed UDP ports:"; ints_text (get_slice "allowed_udp_ports" v)]; ["Tracked flows:"; format_int (get_int "tracked_flows" v)]]%string.

(** What each request prints: the type of its answer, the header and the rows;
    [None] for the requests that print no table. *)
Definition table_of (cmd : string) : option (ftype * list string * (value -> list (list string))) :=
  (if bool_decide (cmd = "list") then Some (list_type, ["Command"; "Arguments"; "Description"], fun v => map list_row (get_slice "list" v))
   else if bool_decide (cmd = "getself") then Some (self_type, [], self_rows)
   else if bool_decide (cmd = "getpeers") then
     Some (peers_type, ["URI"; "State"; "Dir"; "IP Address"; "Uptime"; "RTT"; "RX"; "TX"; "Down"; "Up"; "Pr"; "Cost"; "Last Error"], fun v => map peer_row (get_slice "peers" v))
   else if bool_decide (cmd = "gettree") then Some (tree_type, ["Public Key"; "IP Address"; "Parent"; "Sequence"], fun v => map tree_row (get_slice "tree" v))
   else if bool_decide (cmd = "getpaths") then Some (paths_type, ["Public Key"; "IP Address"; "Path"; "Seq"], fun v => map path_row (get_slice "paths" v))
   else if bool_decide (cmd = "getsessions") then
     Some (sessions_type, ["Public Key"; "IP Address"; "Uptime"; "RX"; "TX"], fun v => map session_row (get_slice "sessions" v))
   else if bool_decide (cmd = "getmulticastinterfaces") then
     Some (multicast_type, ["Name"; "Listen Address"; "Beacon"; "Listen"; "Password"], fun v => map multicast_row (get_slice "multicast_interfaces" v))
   else if bool_decide (cmd = "gettun") then Some (tun_type, [], tun_rows)
   else if bool_decide (cmd = "gettunfirewall") then Some (firewall_type, [], firewall_rows)
   else None)%string.

(** [None]: the answer cannot be decoded, and the client panics. *)
Definition print (borders : bool) (cmd : string) (response : option json) : option (list output) :=
  let cmd := ToLower cmd in
  match table_of cmd with
  | Some (t, header, rows) =>
      j ← response; v ← decode JSON_ParseFloat t j; Some [Table borders header (rows v)]
  | None =>
      if bool_decide (cmd = "getnodeinfo"%string) then
        j ← response; infos ← decode_map Some j;
        Some match range_infos infos with (_, v) :: _ => [Raw (Some v)] | [] => [] end
      else if bool_decide (cmd ∈ ["addpeer"; "removepeer"]%string) then Some []
      else Some [Raw response]
  end.

(** ** run *)

(** The exit status and the output.  After a panic the log is printed, and the
    status that the deferred function returns is dropped: [run] returns 0. *)
Inductive ending := Exit (code : Z) (out : list output) | Panicked_and_logged.
Definition exit_status (e : ending) : Z := match e with Exit code _ => code | Panicked_and_logged => 0 end.
Definition or_panic {A} (o : option A) (k : A -> ending) : ending := match o with Some a => k a | None => Panicked_and_logged end.

Definition report (c : CmdLineEnv) (r : AdminSocketResponse) : ending :=
  if bool_decide (Status r = "error"%string) then
    Exit 1 [Line (if bool_decide (Error r = EmptyString) then "Admin socket returned an error but didn't specify any error text"
                  else String.append "Admin socket returned an error: " (Error r))]
  else if injson c then Exit 0 [Indented (default Null (Response r))]
  else or_panic (print (borders c) (request_name (args c)) (Response r)) (Exit 0).

(** [reply]: what is read after the request was written, [None] when either fails. *)
Definition exchange (reply : json -> option json) (c : CmdLineEnv) : ending :=
  or_panic (reply (request_json (sent c))) (fun j =>
    match unmarshal_pointer response_fields j no_response with
    | (_, false) | (None, _) => Panicked_and_logged
    | (Some r, true) => report c r
    end).

Definition run (version : list output) (usage : list output) (reply : string -> string -> json -> option json) (c : CmdLineEnv) : ending :=
  if ver c then Exit 0 version
  else match args c with
       | [] => Exit 0 usage
       | _ => or_panic (setEndpoint c) (fun c =>
                match connect (endpoint c) with
                | Crash => Panicked_and_logged
                | Connect network address =>
                    if connects network address then exchange (reply network address) c else Panicked_and_logged
                end)
       end.
End Client.

(** ** Theorems *)

Section Theorems.
Context {Y : System}.

Lemma round_half_even_near a b : 0 < b -> 2 * Z.abs (b * round_half_even a b - a) <= b.
Proof.
  intros Hb. unfold round_half_even. pose proof (Z.div_mod a b ltac:(lia)). pose proof (Z.mod_pos_bound a b Hb).
  destruct (2 * (a mod b) <? b) eqn:E1; [|destruct (b <? 2 * (a mod b)) eqn:E2; [|destruct (Z.even (a / b))]]; bool_props; nia.
Qed.

(** *** Requests *)

Lemma find_field_exact names k : k ∈ names -> find_field (strings_fields names) k = Some (string_field k (fun s r => <[k := s]> r)).
Proof.
  intros Hk. unfold find_field, strings_fields.
  assert (Hf : find (fun f => bool_decide (f.1 = k)) (map (fun n => string_field n (fun s r => <[n := s]> r)) names)
             = Some (string_field k (fun s r => <[k := s]> (r : AdminHandlers.request)))); [|by rewrite Hf].
  induction names as [|n names IH]; [by apply elem_of_nil in Hk|]. cbn. case_bool_decide as E; [by subst|].
  apply elem_of_cons in Hk as [->|Hk]; [done|by apply IH].
Qed.

(** A map that is written into a struct of strings. *)
Lemma decode_strings names l r : Forall (fun kv => kv.1 ∈ names) l ->
  decode_fields false (strings_fields names) (map (fun kv => (kv.1, Str kv.2)) l) r = (fold_left (fun r kv => <[kv.1 := kv.2]> r) l r, true).
Proof.
  revert r. induction l as [|[k v] l IH]; intros r Hl; cbn [map decode_fields fold_left fst snd]; [done|].
  apply Forall_cons in Hl as [Hk Hl]. cbn [fst] in Hk. rewrite (find_field_exact _ _ Hk). by apply IH.
Qed.

Lemma fold_insert_map (l : list (string * string)) (m0 : gmap string string) : NoDup (map fst l) ->
  fold_left (fun r kv => <[kv.1 := kv.2]> r) l m0 = list_to_map l ∪ m0.
Proof.
  revert m0. induction l as [|[k v] l IH]; intros m0 Hn; cbn [fold_left list_to_map foldr fst snd]; [by rewrite (left_id_L ∅ (∪))|].
  apply NoDup_cons in Hn as [Hk Hn]. rewrite IH by done. cbn. rewrite <-insert_union_l, <-insert_union_r; [done|].
  apply not_elem_of_list_to_map_1. exact Hk.
Qed.

Lemma strings_arrive names (m : gmap string string) : (forall k v, m !! k = Some v -> k ∈ names) ->
  unmarshal_pointer (strings_fields names) (of_map Str m) ∅ = (Some m, true).
Proof.
  intros Hm. unfold unmarshal_pointer, of_map, unmarshal.
  set (l := SortStableFunc (fun x y => Compare x.1 y.1) (map_to_list m)).
  assert (Hp : Permutation l (map_to_list m)) by apply SortStableFunc_permutation.
  rewrite decode_strings.
  - rewrite fold_insert_map; [|rewrite Hp; apply NoDup_fst_map_to_list]. rewrite (right_id_L ∅ (∪)). do 2 f_equal.
    rewrite <-(list_to_map_to_list m). apply list_to_map_proper; [rewrite Hp; apply NoDup_fst_map_to_list|done].
  - rewrite Hp. apply Forall_forall. intros [k v] Hin. apply elem_of_map_to_list in Hin. by eapply Hm.
Qed.

(** A response as it is read: an absent answer is null. *)
Definition received (r : AdminSocketResponse) : AdminSocketResponse :=
  mkResponse (Status r) (Error r) (Request r) (Some (default Null (Response r))).

Lemma response_arrives r : unmarshal_pointer response_fields (response_json r) no_response = (Some (received r), true).
Proof.
  destruct r as [st err [name [a|] [|]] resp]; unfold response_json, omit_string, omitempty, received; cbn [Status Error Request Response];
    case_bool_decide as E; subst; reflexivity.
Qed.

(** The request is dispatched as it was typed, and the connection is not kept. *)
Lemma request_reaches {S : Type} order (a : gmap string (handler S)) (s : S) c :
  let '(resp, s') := Dispatch order (sent c) a s in handle_one order (Some (request_json (sent c))) a s = (resp, false, s').
Proof.
  assert (E : unmarshal false request_fields (request_json (sent c)) (mkRequest EmptyString (Some (Obj [])) false) = (sent c, true)) by reflexivity.
  unfold handle_one. rewrite E. by destruct (Dispatch order (sent c) a s) as [[r|] s'].
Qed.

(** What the user typed is what the handler reads: when it has arguments of
    these names it finds each with its last value and no other; the name is dispatched as it
    is, and the connection is not kept. *)
Theorem request_arrives {S : Type} order (a : gmap string (handler S)) (s : S) c :
  (let '(resp, s') := Dispatch order (sent c) a s in handle_one order (Some (request_json (sent c))) a s = (resp, false, s')) /\
  (forall names, (forall k v, request_args (args c) !! k = Some v -> k ∈ names) ->
     unmarshal_pointer (strings_fields names) (default Null (Arguments (sent c))) ∅ = (Some (request_args (args c)), true)).
Proof.
  split; [apply request_reaches|]. intros names Hm. by apply strings_arrive.
Qed.

(** *** Answers *)

(** The client against a daemon with the handlers [a] in the state [s]. *)
Definition with_daemon {S : Type} (order : list (string * handler S)) (a : gmap string (handler S)) (s : S) (c : CmdLineEnv) : ending :=
  exchange (fun j => response_json <$> (handle_one order (Some j) a s).1.1) c.

Lemma exchange_with_daemon {S : Type} order (a : gmap string (handler S)) (s : S) c :
  with_daemon order a s c = or_panic (Dispatch order (sent c) a s).1 (fun r => report c (received r)).
Proof.
  unfold with_daemon, exchange. pose proof (request_reaches order a s c) as H.
  destruct (Dispatch order (sent c) a s) as [[r|] s']; rewrite H; cbn [fst fmap option_fmap option_map or_panic]; [|done].
  by rewrite response_arrives.
Qed.

Lemma mapM_map_values {A B C} (f : B -> option C) (g : A -> B) (h : A -> C) l : (forall x, f (g x) = Some (h x)) -> mapM f (map g l) = Some (map h l).
Proof. intros Hf. induction l as [|x l IH]; [done|]. cbn. rewrite Hf. cbn. by rewrite IH. Qed.

Definition entry_value (e : ListEntry) : value :=
  VStruct ((match Fields e with [] => [] | l => [("fields"%string, VSlice (map VString l))] end) ++
           [("description"%string, VString (Description e)); ("command"%string, VString (Command e))]).

(** One level of [decode]. *)
Definition value_field (pf : string -> option float64) (nt : string * ftype) : field (list (string * value)) :=
  let '(n, t) := nt in
  (n, fun j kvs => match j, t with
                   | Null, TSlice _ => Some ((n, VSlice []) :: kvs)
                   | Null, _ => Some kvs
                   | _, _ => (fun v => (n, v) :: kvs) <$> decode pf t j
                   end).
Lemma decode_struct pf fields j : decode pf (TStruct fields) j =
  match unmarshal false (map (value_field pf) fields) j [] with (kvs, true) => Some (VStruct kvs) | (_, false) => None end.
Proof. reflexivity. Qed.
Lemma decode_struct_fields pf fields kvs vs :
  decode_fields false (map (value_field pf) fields) kvs [] = (vs, true) -> decode pf (TStruct fields) (Obj kvs) = Some (VStruct vs).
Proof. intros H. rewrite decode_struct. unfold unmarshal. by rewrite H. Qed.
Lemma decode_fields_cons {A} strict (fields : list (field A)) key j kvs a f a' :
  find_field fields key = Some f -> f.2 j a = Some a' -> decode_fields strict fields ((key, j) :: kvs) a = decode_fields strict fields kvs a'.
Proof. intros Hf Hj. cbn [decode_fields]. by rewrite Hf, Hj. Qed.
Lemma decode_slice_map {A} pf t (f : A -> json) (h : A -> value) l : (forall x, decode pf t (f x) = Some (h x)) ->
  decode pf (TSlice t) (Arr (map f l)) = Some (VSlice (map h l)).
Proof. intros Hf. cbn [decode]. by rewrite (mapM_map_values _ f h). Qed.

Lemma decode_list pf l : decode pf list_type (list_json l) = Some (VStruct [("list"%string, VSlice (map entry_value l))]).
Proof.
  set (t := TStruct [("command", TString); ("description", TString); ("fields", TSlice TString)]%string).
  assert (He : forall e, decode pf t (entry_json e) = Some (entry_value e)).
  { intros [cmd d [|f fs]]; [reflexivity|]. apply decode_struct_fields. cbn [app Fields Command Description].
    do 2 (erewrite decode_fields_cons; [|reflexivity|reflexivity]).
    erewrite (decode_fields_cons _ _ _ _ _ _ (value_field pf ("fields"%string, TSlice TString))); [reflexivity|reflexivity|]. cbn [snd value_field]. by rewrite (decode_slice_map pf TString Str VString). }
  destruct l as [|e l]; [reflexivity|]. apply decode_struct_fields. cbn [app Fields Command Description].
  erewrite (decode_fields_cons _ _ _ _ _ _ (value_field pf ("list"%string, TSlice t))); [reflexivity|reflexivity|]. cbn [snd value_field]. by rewrite (decode_slice_map pf t entry_json entry_value).
Qed.

Lemma list_row_entry e : list_row (entry_value e) =
  [Command e; String.concat ", " (map (fun f => String.append f "=...") (Fields e)); Description e].
Proof.
  destruct e as [cmd d fs]. unfold list_row. replace (get_slice "fields" _) with (map VString fs) by by destruct fs.
  rewrite map_map. by destruct fs.
Qed.

Lemma print_list b cmd l : ToLower cmd = "list"%string ->
  print b cmd (Some (list_json l)) = Some [Table b ["Command"; "Arguments"; "Description"]%string
    (map (fun e => [Command e; String.concat ", " (map (fun f => String.append f "=...") (Fields e)); Description e]) l)].
Proof.
  intros Hc. unfold print. rewrite Hc.
  change (table_of "list") with (Some (list_type, ["Command"; "Arguments"; "Description"]%string, fun v => map list_row (get_slice "list" v))).
  cbv beta iota. cbn [mbind option_bind]. rewrite decode_list.
  transitivity (Some [Table b ["Command"; "Arguments"; "Description"]%string (map list_row (map entry_value l))]); [reflexivity|].
  do 3 f_equal. rewrite map_map. apply map_ext. apply list_row_entry.
Qed.

(** C36: end to end over the socket of the daemon, the exit status is 1 exactly when
    the request is answered with an error, whose text is then the only output;
    and "list", typed in any capitalisation and without -json, prints a table
    with exactly one row for every handler of the daemon's table, in the order
    of the names, whatever order the range over the table took. *)
Theorem client_and_daemon {S : Type} order (a : gmap string (handler S)) (s : S) c :
  (exit_status (with_daemon order a s c) = 1 <-> exists r, (Dispatch order (sent c) a s).1 = Some r /\ Status r = "error"%string) /\
  (forall r, (Dispatch order (sent c) a s).1 = Some r -> Status r = "error"%string ->
     exists text, with_daemon order a s c = Exit 1 [Line text] /\ (Error r <> EmptyString -> text = String.append "Admin socket returned an error: " (Error r))) /\
  (forall h, Permutation order (map_to_list a) ->
     a !! "list"%string = Some h -> Admin.run h = Listing -> ToLower (request_name (args c)) = "list"%string -> injson c = false ->
     exists l,
       with_daemon order a s c = Exit 0 [Table (borders c) ["Command"; "Arguments"; "Description"]%string
         (map (fun e => [Command e; String.concat ", " (map (fun f => String.append f "=...") (Fields e)); Description e]) l)] /\
       StronglySorted (fun x y => String.le (Command x) (Command y)) l /\ NoDup (map Command l) /\
       (forall e, e ∈ l <-> exists h, a !! Command e = Some h /\ e = mkEntry (Command e) (desc h) (Admin.args h))).
Proof.
  rewrite exchange_with_daemon. split_and!.
  - destruct (Dispatch order (sent c) a s).1 as [r|]; cbn [or_panic]; [|split; [done|by intros (? & ? & _)]].
    unfold report. cbn [Status received]. case_bool_decide as E; [split; [by exists r|done]|]. split; [|by intros (r' & [= <-] & ?)].
    destruct (injson c); [done|]. by destruct (print _ _ _).
  - intros r -> Hr. cbn [or_panic]. unfold report. cbn [Status received]. rewrite (bool_decide_true _ Hr). eexists. split; [done|].
    intros He. cbn [Error received]. by rewrite (bool_decide_false _ He).
  - intros h Hp Ha Hh Hn Hj. exists (list_handlers order). destruct (list_complete a order Hp) as (Hsorted & Hnd & Hall & _).
    split; [|by split_and!]. assert (Hne : request_name (args c) <> EmptyString) by (intros E; by rewrite E in Hn).
    unfold Dispatch. cbn [Name Arguments sent]. rewrite (bool_decide_false _ Hne), Hn, Ha, Hh. cbn [fst or_panic].
    unfold report. cbn [Status received Response default]. rewrite Hj, bool_decide_false by done.
    transitivity (or_panic (print (borders c) (request_name (args c)) (Some (list_json (list_handlers order)))) (Exit 0)); [reflexivity|].
    by rewrite (print_list _ _ _ Hn).
Qed.

(** *** Tables *)

Definition well_shaped (o : output) : Prop :=
  match o with Table _ header rows => Forall (fun r => length r = match header with [] => 2 | _ => length header end)%nat rows | _ => True end.

Lemma rows_forall {A} (f : A -> list string) n l : (forall x, length (f x) = n) -> Forall (fun r => length r = n) (map f l).
Proof. intros Hf. apply Forall_forall. intros r Hr. rewrite list_elem_of_In, in_map_iff in Hr. destruct Hr as (x & <- & _). apply Hf. Qed.

Lemma table_of_shaped cmd t header rows v : table_of cmd = Some (t, header, rows) ->
  Forall (fun r => length r = match header with [] => 2 | _ => length header end)%nat (rows v).
Proof.
  unfold table_of. intros H. repeat (destruct (bool_decide (cmd = _)); [injection H as <- <- <-; try by apply rows_forall|]); [| | |done].
  - by repeat constructor.
  - unfold tun_rows. destruct (get_bool "attached" v); by repeat constructor.
  - by repeat constructor.
Qed.

(** Whatever the daemon answers, each table that is printed is rectangular: its
    rows have a cell per column of the header, or a name and a value. *)
Theorem tables_well_shaped b cmd resp out : print b cmd resp = Some out -> Forall well_shaped out.
Proof.
  unfold print. destruct (table_of (ToLower cmd)) as [[[t header] rows]|] eqn:E.
  - intros (j & _ & (v & _ & [= <-])%bind_Some)%bind_Some. constructor; [|constructor]. by eapply table_of_shaped.
  - case_bool_decide; [|case_bool_decide; intros [= <-]; by repeat constructor].
    intros (j & _ & (infos & _ & [= <-])%bind_Some)%bind_Some. destruct (range_infos infos) as [|[] ?]; by repeat constructor.
Qed.

(** *** The endpoint *)

(** Where the socket of the daemon listens, the client finds it exactly when the
    address is a URL of the scheme tcp, or one of the scheme unix whose path is
    its text after the seventh byte; it panics on the other forms that the
    daemon takes, such as "localhost:9001". *)
Theorem client_finds_socket o e network address es :
  Lifecycle.parsed o = URL_Parse -> Lifecycle.startSocket e o = (Some (network, address), es) ->
  (connect e = Connect network address <->
   exists u, URL_Parse e = Some u /\ (ToLower (Scheme u) = "tcp"%string \/ (ToLower (Scheme u) = "unix"%string /\ drop_7 e = Some (Path u)))).
Proof.
  intros Ho. unfold Lifecycle.startSocket, connect. rewrite Ho. destruct (URL_Parse e) as [u|].
  2:{ intros _. split; [done|by intros (? & ? & _)]. }
  destruct (bool_decide (ToLower (Scheme u) = "unix"%string)) eqn:Eu; bool_props.
  - intros Hs. assert (network = "unix"%string /\ address = Path u) as [-> ->].
    { destruct (Lifecycle.exists_file o), (Lifecycle.unixSocketInUse (Lifecycle.dialed o)), (Lifecycle.removed o), (Lifecycle.socket_bound o); by inversion Hs. }
    split.
    + destruct (drop_7 e) as [p|] eqn:Ed; [|done]. intros [= ->]. exists u. split; [done|by right].
    + intros (u' & [= <-] & [?|[_ ->]]); [congruence|done].
  - destruct (bool_decide (ToLower (Scheme u) = "tcp"%string)) eqn:Et; bool_props.
    + destruct (Lifecycle.socket_bound o); [|done]. intros [= <- <- _]. split; [intros _; exists u; split; [done|by left]|done].
    + intros _. split; [done|]. intros (u' & [= <-] & [?|[? _]]); congruence.
Qed.

Lemma running_socket_enabled a w o x web es : Lifecycle.New (Lifecycle.mkConfig a w) o = (Lifecycle.Running (Some x) web, es) -> Lifecycle.disabled a = false.
Proof.
  unfold Lifecycle.New. cbn [Lifecycle.listenaddr Lifecycle.webListenaddr]. destruct (Lifecycle.disabled a); [|done]. intros H. exfalso.
  destruct (Lifecycle.disabled w); [done|]. by destruct (Lifecycle.startWebAdmin w o) as [[] ?].
Qed.

(** Without a flag, and with a readable configuration file, the client goes to
    the address on which the daemon that was started from the same configuration
    listens, except in one case: the platform's default address, which needs
    privileges, is configured next to a TUN type that needs none, and the daemon
    could bind it all the same.  Then the client goes to the unprivileged
    address, where nobody listens. *)
Theorem client_follows_daemon cl cfg dat c o1 o2 permission c' x web es :
  let d := DefaultAdminListen defaults in
  server cl = endpoint cl -> default_config_file = Some cfg -> bom cfg = false -> hjson_map cfg = Some dat ->
  string_of dat "AdminListen" d = AdminListen c -> string_of dat "TunType" "native" = TunType c -> string_of dat "IfName" (DefaultIfName defaults) = IfName c ->
  TrimSpace (AdminListen c) = AdminListen c -> d <> EmptyString -> d <> "none"%string -> EqualFold d "none" = false ->
  start_admin d o1 o2 permission c = (Some (c', Lifecycle.Running (Some x) web), es) ->
  exists cl', setEndpoint cl = Some cl' /\
    endpoint cl' = if UseUnprivilegedAdminFallback d (Some c) then UnprivilegedAdminListen else AdminListen c'.
Proof.
  intros d Hs Hf Hb Hh Ea Et En Htrim Hd1 Hd2 Hd3 Hstart. unfold setEndpoint. rewrite (bool_decide_true _ Hs), Hf, Hb, Hh.
  fold d. rewrite Ea, Et, En. unfold start_admin in Hstart. unfold EffectiveAdminListenFor. rewrite Htrim.
  destruct (UseUnprivilegedAdminFallback d (Some c)) eqn:Eu.
  - unfold UseUnprivilegedAdminFallback in Eu. rewrite Htrim in Eu. apply andb_true_iff in Eu as [El Ep]. bool_props.
    rewrite El, (bool_decide_false _ Hd1), Hd3, (bool_decide_true (d = d)), Ep by done. by eexists.
  - assert (c' = c /\ Lifecycle.disabled (AdminListen c) = false) as [-> Hdis].
    { cbn [negb orb] in Hstart. destruct (Lifecycle.New _ o1) as [[] es1] eqn:En1; try done.
      injection Hstart as <- -> -> _. split; [done|]. by eapply running_socket_enabled. }
    unfold Lifecycle.disabled in Hdis. apply orb_false_iff in Hdis as [H1 H2]. rewrite H1. cbn [orb].
    unfold UseUnprivilegedAdminFallback in Eu. rewrite Htrim in Eu. rewrite Eu. destruct (EqualFold (AdminListen c) "none"); rewrite H1, H2; by eexists.
Qed.

(** *** The exit status *)

Lemma report_status c r : exit_status (report c r) = if bool_decide (Status r = "error"%string) then 1 else 0.
Proof. unfold report. case_bool_decide; [done|]. destruct (injson c); [done|]. by destruct (print _ _ _). Qed.

(** The exit status is 1 only when a daemon was reached and answered with an
    error; every failure of the client itself, a refused connection or an
    unreadable answer included, is a panic after which the status is 0. *)
Theorem run_status version usage reply c :
  let e := run version usage reply c in
  (exit_status e = 0 \/ exit_status e = 1) /\ (e = Panicked_and_logged -> exit_status e = 0) /\
  (exit_status e = 1 ->
     exists c' network address j r, setEndpoint c = Some c' /\ connect (endpoint c') = Connect network address /\ connects network address = true /\
       reply network address (request_json (sent c')) = Some j /\ unmarshal_pointer response_fields j no_response = (Some r, true) /\ Status r = "error"%string).
Proof.
  intros e. assert (H : exit_status e = 0 \/ exit_status e = 1 /\ exists c' network address j r, setEndpoint c = Some c' /\
    connect (endpoint c') = Connect network address /\ connects network address = true /\
    reply network address (request_json (sent c')) = Some j /\ unmarshal_pointer response_fields j no_response = (Some r, true) /\ Status r = "error"%string).
  { unfold e, run. destruct (ver c); [by left|]. destruct (args c); [by left|]. destruct (setEndpoint c) as [c'|] eqn:E1; [|by left]. cbn [or_panic].
    destruct (connect (endpoint c')) as [|network address] eqn:E2; [by left|]. destruct (connects network address) eqn:E3; [|by left].
    unfold exchange. destruct (reply network address _) as [j|] eqn:E4; [|by left]. cbn [or_panic].
    destruct (unmarshal_pointer response_fields j no_response) as [[r|] []] eqn:E5; try by left.
    rewrite report_status. case_bool_decide as E6; [right|by left]. split; [done|]. by exists c', network, address, j, r. }
  destruct H as [H|[H Hex]]; rewrite H; split_and!; try done; auto; by intros ->.
Qed.

End Theorems.

(** ** Concrete runs *)

Module Sample.
(** A system whose configuration file has an administration socket and no TUN. *)
Definition parse (s : string) : option URL :=
  if bool_decide (s = "unix:///var/run/yggdrasil.sock"%string) then Some (mkURL "unix" EmptyString "/var/run/yggdrasil.sock" EmptyString [])
  else if bool_decide (s = "tcp://localhost:9001"%string) then Some (mkURL "tcp" "localhost:9001" EmptyString EmptyString []) else None.
#[local] Instance system : System := {|
  default_config_file := Some [123; 125];
  defaults := mkDefaults "unix:///var/run/yggdrasil.sock" [] 65535 "auto";
  UTF16_Bytes _ := None;
  hjson_map _ := Some {["TunType"%string := Str " VTun+Socks"; "IfName"%string := Str "  "]};
  URL_Parse := parse; URL_String u := Host u;
  connects network _ := bool_decide (network = "unix"%string);
  JSON_ParseFloat _ := Some (S754_zero false);
  Duration_String d := format_int d;
  range_infos := id
|}.
Definition cl : CmdLineEnv := mkCmdLineEnv ["getPeers"; "sort=cost"; "sort=uptime"; "stray"]%string "unix:///var/run/yggdrasil.sock" "unix:///var/run/yggdrasil.sock" false true false.
Definition answer : json := Obj [("peers"%string, Arr [Obj [("remote"%string, Str "tcp://h:1"); ("up"%string, Bool true); ("latency"%string, Num "12345678"); ("bytes_recvd"%string, Num "2048")]])].
Definition printed : option (list output) := print true "getPeers" (Some answer).
Definition client (endpoint : string) : attempt := connect endpoint.
Definition chosen : option CmdLineEnv := setEndpoint cl.
Definition ran : ending := run [] [] (fun _ _ _ => None) cl.
(** A daemon with "list" and one other handler. *)
Definition table : gmap string (handler nat) :=
  (AddHandler "list" "List available commands" [] Listing
    (AddHandler "Count" "counts" ["n"%string] (Func (fun _ s => (Answer (Some Null), s))) ∅).2).2.
Definition listing : CmdLineEnv := mkCmdLineEnv ["LIST"%string] EmptyString EmptyString false false false.
End Sample.

#[local] Existing Instance Sample.system.
Lemma client_and_daemon_witness :
  exists l, with_daemon (map_to_list Sample.table) Sample.table 0%nat Sample.listing =
    Exit 0 [Table false ["Command"; "Arguments"; "Description"]%string
      (map (fun e => [Command e; String.concat ", " (map (fun f => String.append f "=...") (Fields e)); Description e]) l)] /\ NoDup (map Command l).
Proof.
  destruct (client_and_daemon (map_to_list Sample.table) Sample.table 0%nat Sample.listing) as (_ & _ & H).
  destruct (H (mkHandler "List available commands" [] Listing)) as (l & E & _ & Hn & _); [reflexivity|vm_compute; reflexivity|reflexivity|reflexivity|reflexivity|].
  exists l. exact (conj E Hn).
Defined.

Example printed_peers : Sample.printed = Some [Table true ["URI"; "State"; "Dir"; "IP Address"; "Uptime"; "RTT"; "RX"; "TX"; "Down"; "Up"; "Pr"; "Cost"; "Last Error"]%string
  [["tcp://h:1"; "Up"; "Out"; ""; "0"; "12.35ms"; "2.0KB"; "0B"; "-"; "-"; "0"; "0"; "-"]%string]].
Proof. vm_compute. reflexivity. Qed.
(** The daemon can run with privileges and no TUN: nobody answers here. *)
Example goes_elsewhere : endpoint <$> Sample.chosen = Some "tcp://localhost:9001"%string /\ Sample.ran = Panicked_and_logged.
Proof. vm_compute. done. Qed.
Example plain_address : Sample.client "127.0.0.1:9001" = Crash.
Proof. vm_compute. reflexivity. Qed.

Lemma tables_well_shaped_witness : exists out, Sample.printed = Some out /\ Forall well_shaped out.
Proof. eexists. split; [vm_compute; reflexivity|]. apply (tables_well_shaped (Y := Sample.system) true "getPeers" (Some Sample.answer)). reflexivity. Defined.

Lemma client_finds_socket_witness :
  connect (Y := Sample.system) "tcp://localhost:9001" = Connect "tcp" "localhost:9001".
Proof.
  apply (client_finds_socket (Y := Sample.system) (Lifecycle.mkOutcomes Sample.parse false Lifecycle.OtherError true true true true) _ _ _ [Lifecycle.Bind "tcp" "localhost:9001"]);
    [reflexivity|reflexivity|]. exists (mkURL "tcp" "localhost:9001" EmptyString EmptyString []). split; [reflexivity|]. left. reflexivity.
Defined.

(** A privileged daemon with a user-space TUN: the client is sent elsewhere. *)
Lemma client_follows_daemon_witness :
  exists cl', setEndpoint (Y := Sample.system) Sample.cl = Some cl' /\ endpoint cl' = UnprivilegedAdminListen.
Proof.
  refine (client_follows_daemon (Y := Sample.system) Sample.cl [123; 125] {["TunType"%string := Str " VTun+Socks"; "IfName"%string := Str "  "]} Config.Sample.untidy
    (Lifecycle.mkOutcomes Sample.parse false Lifecycle.OtherError true true true true) (Lifecycle.mkOutcomes Sample.parse false Lifecycle.OtherError true true true true)
    true Config.Sample.untidy ("unix"%string, "/var/run/yggdrasil.sock"%string) true _ _ _ _ _ _ _ _ _ _ _ _ _); try reflexivity; discriminate.
Defined.
