(* ===== verification/Tools.v ===== *)
(** * Tools: the key generator and the change of user
    (yggd/genkeys/main.go, yggd/yggd/chuser_unix.go)

    Key generation is a parameter: what a worker generates is a list of pairs of
    a private and a public key.  So are the user database, url.Parse and the
    system calls that change the identity of the process. *)

From Stdlib Require Import Ascii.
From S2P Require Import Prelude GoStd Address Json Admin.

(** ** genkeys *)

Module Genkeys.

Definition key : Type := bytes * bytes.                    (* private and public *)
Record keySet := mkKeySet { priv : bytes; pub : bytes; count : Z }.

(** The loop stops at the first byte that differs.  Public keys have one length. *)
Fixpoint isBetter (oldPub newPub : bytes) : bool :=
  match oldPub, newPub with
  | o :: oldPub, n :: newPub => if n <? o then true else if o <? n then false else isBetter oldPub newPub
  | _, _ => false
  end.

(** What a worker sends for the keys that it generates. *)
Fixpoint doKeys (bestKey : bytes) (count : Z) (generated : list key) : list keySet :=
  match generated with
  | [] => []
  | (priv, pub) :: generated =>
      let count := u64 (count + 1) in
      if isBetter bestKey pub then mkKeySet priv pub count :: doKeys pub 0 generated else doKeys bestKey count generated
  end.
Definition worker : list key -> list keySet := doKeys (replicate PublicKeySize 0xff) 0.

(** The loop of main: the best key, the total, and what was printed: the total
    and the keys with the address. *)
Record state := mkState { currentBest : bytes; totalKeys : Z; printed : list (Z * keySet * option bytes) }.
Definition receive (s : state) (newKey : keySet) : state :=
  if isBetter (currentBest s) (pub newKey) || bool_decide (currentBest s = []) then
    let total := u64 (totalKeys s + count newKey) in
    mkState (pub newKey) total (printed s ++ [(total, newKey, AddrForKey (pub newKey))])
  else s.
Definition main (received : list keySet) : state := fold_left receive received (mkState [] 0 []).

End Genkeys.

(** *** Orders on bits and bytes *)

Fixpoint bits_lt (a b : list bool) : bool :=
  match a, b with
  | x :: a, y :: b => if Bool.eqb x y then bits_lt a b else y
  | _, _ => false
  end.
(** The order of byte strings of one length, the order of their numbers. *)
Definition bytes_lt (a b : bytes) : bool := Genkeys.isBetter b a.

Lemma bits_lt_app a b k l : length a = length b ->
  bits_lt (a ++ k) (b ++ l) = if bool_decide (a = b) then bits_lt k l else bits_lt a b.
Proof.
  revert b. induction a as [|x a IH]; intros [|y b] H; try done. injection H as H. cbn [app bits_lt].
  rewrite IH by done. destruct (Bool.eqb x y) eqn:E.
  - apply Bool.eqb_prop in E as ->. case_bool_decide as E1; [subst; by rewrite bool_decide_true|].
    rewrite bool_decide_false by congruence. done.
  - rewrite bool_decide_false; [done|]. intros [= -> _]. by rewrite Bool.eqb_reflx in E.
Qed.

Lemma bits_lt_negb a b : length a = length b -> bits_lt (map negb a) (map negb b) = bits_lt b a.
Proof.
  revert b. induction a as [|x a IH]; intros [|y b] H; try done. injection H as H. cbn. rewrite IH by done. by destruct x, y.
Qed.

Lemma bits_lt_byte x y : wf_byte x -> wf_byte y -> bits_lt (byte_bits x) (byte_bits y) = (x <? y).
Proof.
  intros Hx Hy. apply eqb_true_iff.
  assert (H : forallb (fun y => Bool.eqb (bits_lt (byte_bits x) (byte_bits y)) (x <? y)) (seqZ 0 256) = true).
  { revert x Hx. apply byte_forall. vm_compute. reflexivity. }
  revert y Hy. by apply byte_forall.
Qed.

Lemma byte_bits_inj x y : wf_byte x -> wf_byte y -> byte_bits x = byte_bits y -> x = y.
Proof. intros Hx Hy E. by rewrite <-(bits_val_byte_bits x Hx), E, bits_val_byte_bits. Qed.

Lemma bytes_lt_cons x y a b : bytes_lt (x :: a) (y :: b) = if x =? y then bytes_lt a b else x <? y.
Proof.
  unfold bytes_lt. cbn. destruct (Z.eqb_spec x y) as [->|H]; [by rewrite Z.ltb_irrefl|].
  destruct (Z.ltb_spec x y); [done|]. by rewrite (proj2 (Z.ltb_lt y x)) by lia.
Qed.

Lemma bits_lt_bytes a b : wf_bytes a -> wf_bytes b -> length a = length b -> bits_lt (to_bits a) (to_bits b) = bytes_lt a b.
Proof.
  intros Ha. revert b. induction Ha as [|x a Hx Ha IH]; intros [|y b] Hb H; try done.
  apply Forall_cons in Hb as [Hy Hb]. injection H as H. rewrite !to_bits_cons, bits_lt_app, bytes_lt_cons, IH, bits_lt_byte by (done || by rewrite !length_byte_bits).
  destruct (Z.eqb_spec x y) as [->|E]; [by rewrite bool_decide_true|]. rewrite bool_decide_false; [done|].
  intros E'. by apply byte_bits_inj in E'.
Qed.

(** *** Better keys have higher addresses *)

Lemma bits_lt_leading a b : bits_lt a b = true ->
  (leading_ones a < leading_ones b)%nat \/
  (leading_ones a = leading_ones b /\ bits_lt (drop (S (leading_ones a)) a) (drop (S (leading_ones b)) b) = true).
Proof.
  revert b. induction a as [|x a IH]; intros [|y b]; try done. cbn [bits_lt]. destruct x, y; cbn [Bool.eqb leading_ones]; try done.
  - intros H. destruct (IH b H) as [?|[E H']]; [left; lia|right]. split; [lia|exact H'].
  - intros _. left. lia.
  - intros H. right. split; [done|]. by rewrite !skipn_cons, !drop_0.
Qed.

Lemma bytes_lt_app a b k l : length a = length b ->
  bytes_lt (a ++ k) (b ++ l) = if bool_decide (a = b) then bytes_lt k l else bytes_lt a b.
Proof.
  revert b. induction a as [|x a IH]; intros [|y b] H; try done. injection H as H. cbn [app].
  rewrite !bytes_lt_cons, IH by done. destruct (Z.eqb_spec x y) as [->|E].
  - case_bool_decide as E1; [subst; by rewrite bool_decide_true|]. by rewrite bool_decide_false by congruence.
  - by rewrite bool_decide_false by congruence.
Qed.

Lemma bytes_lt_irrefl a : bytes_lt a a = false.
Proof. induction a as [|x a IH]; [done|]. by rewrite bytes_lt_cons, Z.eqb_refl. Qed.

Lemma bytes_lt_asym a b : bytes_lt a b = true -> bytes_lt b a = false.
Proof.
  revert b. induction a as [|x a IH]; intros [|y b]; try done. rewrite !bytes_lt_cons. rewrite (Z.eqb_sym y x).
  destruct (x =? y); [apply IH|]. intros H%Z.ltb_lt. apply Z.ltb_ge. lia.
Qed.

Lemma bytes_lt_take n a b : bytes_lt (take n a) (take n b) = true -> bytes_lt a b = true.
Proof.
  revert a b. induction n as [|n IH]; intros [|x a] [|y b]; try done. cbn [take]. rewrite !bytes_lt_cons. destruct (x =? y); [apply IH|done].
Qed.

Lemma of_bits_monotone a : forall b, length a = length b -> bits_lt a b = true -> bytes_lt (of_bits b) (of_bits a) = false.
Proof.
  induction a as [a H|l k H IH] using eight_ind; intros b Hl Hb; [by rewrite (of_bits_short a) by done; destruct (of_bits b)|].
  rewrite <-(take_drop 8 b) in Hb |- *. rewrite length_app in Hl.
  assert (Hl' : length (take 8 b) = 8%nat) by (rewrite length_take; lia).
  rewrite bits_lt_app in Hb by lia. rewrite !of_bits_cons by done. rewrite bytes_lt_cons.
  case_bool_decide as E.
  - rewrite <-E, Z.eqb_refl. apply IH; [rewrite length_drop; lia|done].
  - rewrite <-(byte_bits_bits_val l H), <-(byte_bits_bits_val (take 8 b) Hl'), bits_lt_byte in Hb by by apply bits_val_wf.
    apply Z.ltb_lt in Hb. rewrite (proj2 (Z.eqb_neq _ _)) by lia. apply Z.ltb_ge. lia.
Qed.

Lemma pad_monotone n a b : length a = length b -> bytes_lt b a = false -> bytes_lt (pad 0 n b) (pad 0 n a) = false.
Proof.
  intros Hl H. apply not_true_is_false. intros Ht%bytes_lt_take. rewrite bytes_lt_app in Ht by done.
  case_bool_decide; [by rewrite bytes_lt_irrefl in Ht|congruence].
Qed.

Lemma spec_addr_monotone a b : length a = length b -> (leading_ones b < 256)%nat -> bits_lt a b = true -> bytes_lt (spec_addr b) (spec_addr a) = false.
Proof.
  intros Hl Hb H. unfold spec_addr. cbn [app]. rewrite bytes_lt_cons, Z.eqb_refl, bytes_lt_cons.
  destruct (bits_lt_leading a b H) as [Hlt|[E Hd]].
  - rewrite !u8_small by (unfold wf_byte; lia). rewrite (proj2 (Z.eqb_neq _ _)) by lia. apply Z.ltb_ge. lia.
  - rewrite E, Z.eqb_refl. rewrite E in Hd.
    assert (Hn : length (drop (S (leading_ones b)) a) = length (drop (S (leading_ones b)) b)) by (rewrite !length_drop; lia).
    apply pad_monotone; [by rewrite !length_of_bits, Hn|]. by apply of_bits_monotone.
Qed.

Lemma leading_ones_all l : (length l <= leading_ones l)%nat -> l = replicate (length l) true.
Proof. induction l as [|[] l IH]; cbn; [done| |lia]. intros H. f_equal. apply IH. lia. Qed.

Lemma to_bits_inj a b : wf_bytes a -> wf_bytes b -> to_bits a = to_bits b -> a = b.
Proof. intros Ha Hb E. by rewrite <-(of_bits_to_bits a), E, of_bits_to_bits. Qed.

Lemma leading_ones_key k : wf_bytes k -> length k = PublicKeySize -> k <> replicate PublicKeySize 0 -> (leading_ones (map negb (to_bits k)) < 256)%nat.
Proof.
  intros Hw Hl Hk. destruct (decide (leading_ones (map negb (to_bits k)) < 256)%nat) as [|Hge]; [done|]. exfalso. apply Hk.
  assert (Hlen : length (map negb (to_bits k)) = 256%nat) by (rewrite length_map, length_to_bits, Hl; done).
  apply to_bits_inj; [done|repeat constructor; lia|].
  assert (E : map negb (to_bits k) = replicate 256 true) by (rewrite <-Hlen; apply leading_ones_all; lia).
  rewrite <-(map_id (to_bits k)), <-(map_ext _ _ negb_involutive), <-map_map, E. reflexivity.
Qed.

(** What genkeys takes for a better key is one of a higher address, or of the
    same one: the address never falls along its output. *)
Theorem better_key_higher_address old new a a' :
  wf_bytes old -> wf_bytes new -> Genkeys.isBetter old new = true -> new <> replicate PublicKeySize 0 ->
  AddrForKey old = Some a -> AddrForKey new = Some a' -> bytes_lt a' a = false.
Proof.
  intros Ho Hn Hb Hz Ea Ea'. destruct (AddrForKey_Some old a Ho Ea) as (Hlo & -> & _). destruct (AddrForKey_Some new a' Hn Ea') as (Hln & -> & _).
  change (bytes_lt new old = true) in Hb.
  assert (Hl : length (to_bits old) = length (to_bits new)) by (rewrite !length_to_bits; congruence).
  apply spec_addr_monotone; [by rewrite !length_map|by apply leading_ones_key|].
  rewrite bits_lt_negb by done. rewrite bits_lt_bytes by (done || congruence). exact Hb.
Qed.

(** *** The best key is found *)

Lemma bytes_le_trans x y z : length x = length y -> length y = length z ->
  bytes_lt y x = false -> bytes_lt z y = false -> bytes_lt z x = false.
Proof.
  revert y z. induction x as [|a x IH]; intros [|b y] [|c z] H1 H2; try done. rewrite !bytes_lt_cons.
  injection H1 as H1. injection H2 as H2. specialize (IH y z H1 H2).
  destruct (Z.eqb_spec b a), (Z.eqb_spec c b), (Z.eqb_spec c a); subst; try done; try lia; rewrite ?Z.ltb_ge; intros; try lia; auto.
Qed.

Definition sized (k : bytes) : Prop := length k = PublicKeySize.

Lemma doKeys_sound best c ks r : r ∈ Genkeys.doKeys best c ks -> exists k, k ∈ ks /\ Genkeys.pub r = k.2 /\ Genkeys.priv r = k.1.
Proof.
  revert best c. induction ks as [|[priv pub] ks IH]; intros best c; cbn [Genkeys.doKeys]; [by intros ?%elem_of_nil|]. cbv zeta.
  assert (Hrest : forall best c, r ∈ Genkeys.doKeys best c ks -> exists k, k ∈ (priv, pub) :: ks /\ Genkeys.pub r = k.2 /\ Genkeys.priv r = k.1).
  { intros best' c' H. destruct (IH best' c' H) as (k & Hk & E). exists k. split; [by right|done]. }
  destruct (Genkeys.isBetter best pub); [|apply Hrest]. intros [->|H]%elem_of_cons; [|by eapply Hrest]. exists (priv, pub). split; [left|done].
Qed.

Lemma doKeys_complete best c ks k : sized best -> Forall (fun k => sized k.2) ks -> k ∈ ks ->
  bytes_lt k.2 best = false \/ exists r, r ∈ Genkeys.doKeys best c ks /\ bytes_lt k.2 (Genkeys.pub r) = false.
Proof.
  revert best c. induction ks as [|[priv pub] ks IH]; intros best c Hb Hs Hk; cbn [Genkeys.doKeys]; [by apply elem_of_nil in Hk|]. cbv zeta.
  apply Forall_cons in Hs as [Hp Hs]. cbn [snd] in Hp. destruct (Genkeys.isBetter best pub) eqn:E.
  - right. apply elem_of_cons in Hk as [->|Hk]; [|destruct (IH pub 0 Hp Hs Hk) as [Hle|(r & Hr & Hle)]].
    1, 2: eexists; split; [left|done || by cbn [snd]; apply bytes_lt_irrefl]. exists r. split; [by right|done].
  - apply elem_of_cons in Hk as [->|Hk]; [left; exact E|]. by apply IH.
Qed.

Lemma main_best rs : forall s, (Genkeys.currentBest s = [] \/ sized (Genkeys.currentBest s)) -> Forall (fun r => sized (Genkeys.pub r)) rs ->
  let fin := Genkeys.currentBest (fold_left Genkeys.receive rs s) in
  (fin = Genkeys.currentBest s \/ exists r, r ∈ rs /\ fin = Genkeys.pub r) /\
  (Genkeys.currentBest s <> [] -> bytes_lt (Genkeys.currentBest s) fin = false) /\
  (forall r, r ∈ rs -> bytes_lt (Genkeys.pub r) fin = false).
Proof.
  induction rs as [|r rs IH]; intros s Hs Hrs; cbn [fold_left].
  { split_and!; [by left|intros _; apply bytes_lt_irrefl|by intros r ?%elem_of_nil]. }
  apply Forall_cons in Hrs as [Hr Hrs]. set (s1 := Genkeys.receive s r).
  assert (H1 : (Genkeys.currentBest s1 = Genkeys.pub r \/ Genkeys.currentBest s1 = Genkeys.currentBest s) /\ sized (Genkeys.currentBest s1) /\
    (Genkeys.currentBest s <> [] -> bytes_lt (Genkeys.currentBest s) (Genkeys.currentBest s1) = false) /\ bytes_lt (Genkeys.pub r) (Genkeys.currentBest s1) = false).
  { unfold s1, Genkeys.receive. destruct (Genkeys.isBetter (Genkeys.currentBest s) (Genkeys.pub r)) eqn:Eb; cbn [orb].
    - split_and!; [by left|done| |apply bytes_lt_irrefl]. intros _. by apply bytes_lt_asym.
    - case_bool_decide as En; cbn [Genkeys.currentBest].
      + split_and!; [by left|done|done|apply bytes_lt_irrefl].
      + split_and!; [by right|by destruct Hs|intros _; apply bytes_lt_irrefl|exact Eb]. }
  destruct H1 as (Hc & Hz & Hold & Hnew). destruct (IH s1 (or_intror Hz) Hrs) as (Hf & Hle & Hall).
  assert (Hn : Genkeys.currentBest s1 <> []) by (intros E; rewrite E in Hz; done). specialize (Hle Hn).
  set (fin := Genkeys.currentBest (fold_left Genkeys.receive rs s1)) in *.
  assert (Hfz : sized fin).
  { destruct Hf as [->|(r' & Hr' & ->)]; [done|]. rewrite Forall_forall in Hrs. by apply Hrs. }
  split_and!.
  - destruct Hf as [->|(r' & Hr' & ->)]; [destruct Hc as [->| ->]; [right; exists r; split; [left|done]|by left]|]. right. exists r'. split; [by right|done].
  - intros Hne. destruct Hs as [?|Hs]; [done|]. eapply (bytes_le_trans fin (Genkeys.currentBest s1)); [congruence|congruence|done|by apply Hold].
  - intros r' [->|Hr']%elem_of_cons; [|by apply Hall]. eapply (bytes_le_trans fin (Genkeys.currentBest s1)); [congruence|congruence|done|done].
Qed.

Lemma le_ff n k : length k = n -> wf_bytes k -> bytes_lt (replicate n 0xff) k = false.
Proof.
  revert n. induction k as [|x k IH]; intros [|n] Hl Hk; try done. apply Forall_cons in Hk as [Hx Hk]. cbn [replicate].
  rewrite bytes_lt_cons. destruct (Z.eqb_spec 255 x); [apply IH; [by injection Hl|done]|]. unfold wf_byte in Hx. apply Z.ltb_ge. lia.
Qed.

Lemma main_from rs : rs <> [] -> Forall (fun r => sized (Genkeys.pub r)) rs ->
  exists r, r ∈ rs /\ Genkeys.currentBest (Genkeys.main rs) = Genkeys.pub r.
Proof.
  destruct rs as [|r rs]; [done|]. intros _ Hz. apply Forall_cons in Hz as [Hr Hz].
  set (s1 := Genkeys.receive (Genkeys.mkState [] 0 []) r).
  assert (E : Genkeys.currentBest s1 = Genkeys.pub r) by done.
  destruct (main_best rs s1 (or_intror Hr) Hz) as ([H|(r' & Hr' & H)] & _); [exists r; split; [left|by rewrite <-E]|].
  exists r'. split; [by right|exact H].
Qed.

Lemma reported_by rs kss r : Permutation rs (concat (map Genkeys.worker kss)) -> r ∈ rs <-> exists ks, ks ∈ kss /\ r ∈ Genkeys.worker ks.
Proof.
  intros ->. rewrite list_elem_of_In, in_concat. setoid_rewrite in_map_iff. setoid_rewrite list_elem_of_In. naive_solver.
Qed.

(** In every interleaving of the workers, the key that is printed last is one
    that was generated, and no generated key is better: nothing is lost because
    a worker sends only what improves on its own best. *)
Theorem genkeys_finds_best kss rs :
  (forall ks k, ks ∈ kss -> k ∈ ks -> sized k.2 /\ wf_bytes k.2) -> Permutation rs (concat (map Genkeys.worker kss)) -> rs <> [] ->
  let best := Genkeys.currentBest (Genkeys.main rs) in
  (exists ks k, ks ∈ kss /\ k ∈ ks /\ best = k.2) /\ (forall ks k, ks ∈ kss -> k ∈ ks -> bytes_lt k.2 best = false).
Proof.
  intros Hs Hp Hne best.
  assert (Hfrom : forall r, r ∈ rs -> exists ks k, ks ∈ kss /\ k ∈ ks /\ Genkeys.pub r = k.2).
  { intros r Hr. apply (reported_by _ _ _ Hp) in Hr as (ks & Hks & Hr). apply doKeys_sound in Hr as (k & Hk & E & _). by exists ks, k. }
  assert (Hz : Forall (fun r => sized (Genkeys.pub r)) rs).
  { apply Forall_forall. intros r Hr. destruct (Hfrom r Hr) as (ks & k & Hks & Hk & ->). by eapply Hs. }
  assert (Hin : exists ks k, ks ∈ kss /\ k ∈ ks /\ best = k.2).
  { destruct (main_from rs Hne Hz) as (r & Hr & E). unfold best. rewrite E. by apply Hfrom. }
  split; [exact Hin|]. intros ks k Hks Hk. destruct Hin as (ks' & k' & Hks' & Hk' & E). destruct (Hs ks' k' Hks' Hk') as [Hb Hbw]. rewrite <-E in Hb, Hbw.
  destruct (Hs ks k Hks Hk) as [Hksz _]. assert (Hff : sized (replicate PublicKeySize 0xff)) by apply length_replicate.
  destruct (doKeys_complete (replicate PublicKeySize 0xff) 0 ks k) as [H|(r & Hr & H)]; [done| |done| |].
  - apply Forall_forall. intros k2 Hk2. by eapply Hs.
  - eapply (bytes_le_trans best (replicate PublicKeySize 0xff)); [congruence|congruence|by apply le_ff|exact H].
  - assert (Hr' : r ∈ rs) by (apply (reported_by _ _ _ Hp); by exists ks).
    rewrite Forall_forall in Hz. specialize (Hz r Hr'). destruct (main_best rs (Genkeys.mkState [] 0 [])) as (_ & _ & Hall); [by left|by apply Forall_forall; intros r2 Hr2; destruct (Hfrom r2 Hr2) as (? & ? & ? & ? & ->); eapply Hs|].
    unfold sized in *. eapply (bytes_le_trans best (Genkeys.pub r)); [congruence|congruence|by apply Hall|exact H].
Qed.

(** Counterexample: the count of a report that is not the best so far is dropped,
    so that the printed number of keys tried is too small. *)
Theorem keys_tried_understated (worst middle best : Genkeys.key) :
  (worst.2 = repeat 9 32 /\ middle.2 = repeat 8 32 /\ best.2 = repeat 7 32) ->
  exists rs, Permutation rs (concat (map Genkeys.worker [[middle; best]; [worst]])) /\ Genkeys.totalKeys (Genkeys.main rs) = 2.
Proof.
  destruct worst as [p1 w], middle as [p2 m], best as [p3 b]. cbn [snd]. intros (-> & -> & ->).
  exists [Genkeys.mkKeySet p2 (repeat 8 32) 1; Genkeys.mkKeySet p1 (repeat 9 32) 1; Genkeys.mkKeySet p3 (repeat 7 32) 1].
  split; [|vm_compute; reflexivity]. change (concat _) with [Genkeys.mkKeySet p2 (repeat 8 32) 1; Genkeys.mkKeySet p3 (repeat 7 32) 1; Genkeys.mkKeySet p1 (repeat 9 32) 1].
  apply perm_skip, perm_swap.
Qed.
(** ** Changing the user *)

Module ChUser.

(** os/user: a user is its ids in decimal, a group its id. *)
Record User := mkUser { Uid : string; Gid : string }.
Class Users := {
  LookupId : string -> option User; Lookup : string -> option User;
  LookupGroupId : string -> option string; LookupGroup : string -> option string;
  url_Parse : string -> option URL
}.

Inductive call := Chown (path : string) (uid gid : Z) | Setgroups (gids : list Z) | Setgid (gid : Z) | Setuid (uid : Z).
#[global] Instance call_eq_dec : EqDecision call. Proof. solve_decision. Defined.

Section ChUser.
Context {U : Users}.

(** The value that strconv.Atoi returns next to an error: 0, or the nearest number. *)
Definition Atoi_value (s : string) : Z :=
  match Atoi s with
  | Some v => v
  | None =>
      let '(negative, digits) := match to_chars s with "-"%char :: l => (true, l) | "+"%char :: l => (false, l) | l => (false, l) end in
      match digits, digits_value digits 0 with
      | _ :: _, Some _ => if negative then - 2 ^ 63 else 2 ^ 63 - 1
      | _, _ => 0
      end
  end.

Definition filesystemAdminSocketPath (address : string) : option string :=
  if bool_decide (address = EmptyString) || EqualFold address "none" then None
  else match url_Parse address with
       | None => None
       | Some u =>
           if negb (EqualFold (Scheme u) "unix") then None
           else if bool_decide (Path u = EmptyString) || HasPrefix (Path u) "@" then None
           else Some (Path u)
       end.

Definition chownAdminSocket (address : string) (uid gid : Z) : list call :=
  match filesystemAdminSocketPath address with None => [] | Some path => [Chown path uid gid] end.

(** The calls in turn, up to the first that fails. *)
Fixpoint in_turn (ok : call -> bool) (l : list call) : bool * list call :=
  match l with
  | [] => (true, [])
  | c :: l => if ok c then let '(r, cs) := in_turn ok l in (r, c :: cs) else (false, [c])
  end.

(** The ids that the argument names; [None] is an error before any call. *)
Definition ids (input : string) : option (Z * Z) :=
  let '(givenUser, givenGroup, colon) := Cut input ":" in
  if bool_decide (givenUser = EmptyString) then None
  else if colon && bool_decide (givenGroup = EmptyString) then None
  else
    match (match LookupId givenUser with Some usr => Some usr | None => Lookup givenUser end) with
    | None => None
    | Some usr =>
        match Atoi (Uid usr) with
        | None => None
        | Some uid =>
            if negb (bool_decide (givenGroup = EmptyString)) then
              match (match LookupGroupId givenGroup with Some grp => Some grp | None => LookupGroup givenGroup end) with
              | None => None
              | Some gid => Some (uid, Atoi_value gid)
              end
            else Some (uid, Atoi_value (Gid usr))
        end
    end.

Definition changeUser (input adminAddress : string) (ok : call -> bool) : bool * list call :=
  match ids input with
  | None => (false, [])
  | Some (uid, gid) => in_turn ok (chownAdminSocket adminAddress uid gid ++ [Setgroups [gid]; Setgid gid; Setuid uid])
  end.
End ChUser.
End ChUser.

(** *** Order *)

Lemma in_turn_spec ok l : let '(r, cs) := ChUser.in_turn ok l in
  (r = true -> cs = l /\ Forall (fun c => ok c = true) l) /\
  (r = false -> exists pre c post, l = pre ++ c :: post /\ cs = pre ++ [c] /\ Forall (fun c => ok c = true) pre /\ ok c = false).
Proof.
  induction l as [|c l IH]; cbn [ChUser.in_turn]; [split; [by repeat constructor|done]|]. destruct (ok c) eqn:E.
  - destruct (ChUser.in_turn ok l) as [r cs]. destruct IH as [IH1 IH2]. split; intros Hr.
    + destruct (IH1 Hr) as [-> H]. split; [done|by constructor].
    + destruct (IH2 Hr) as (pre & c' & post & -> & -> & H1 & H2). exists (c :: pre), c', post. split_and!; [done|done|by constructor|done].
  - split; [done|]. intros _. exists [], c, l. by repeat constructor.
Qed.

(** The process changes its user last, once its groups are dropped and the
    socket was handed over; nothing is done for an unknown user, a call that
    fails is the last one, and success means that every call was made. *)
Theorem changeUser_spec {U : ChUser.Users} input address ok :
  let '(r, cs) := ChUser.changeUser input address ok in
  match ChUser.ids input with
  | None => r = false /\ cs = []
  | Some (uid, gid) =>
      let plan := ChUser.chownAdminSocket address uid gid ++ [ChUser.Setgroups [gid]; ChUser.Setgid gid; ChUser.Setuid uid] in
      (exists rest, plan = cs ++ rest) /\ (r = true <-> cs = plan /\ ok (ChUser.Setuid uid) = true) /\
      (forall v, ChUser.Setuid v ∈ cs -> v = uid /\ ok (ChUser.Setgroups [gid]) = true /\ ok (ChUser.Setgid gid) = true)
  end.
Proof.
  unfold ChUser.changeUser. destruct (ChUser.ids input) as [[uid gid]|]; [|done].
  set (pre := ChUser.chownAdminSocket address uid gid). set (plan := pre ++ _).
  assert (Hno : forall v, ChUser.Setuid v ∉ pre).
  { intros v. unfold pre, ChUser.chownAdminSocket. destruct (ChUser.filesystemAdminSocketPath address); set_solver. }
  assert (Hno2 : forall v, ChUser.Setuid v ∉ pre ++ [ChUser.Setgroups [gid]; ChUser.Setgid gid]) by (intros v; specialize (Hno v); set_solver).
  assert (Eplan : plan = (pre ++ [ChUser.Setgroups [gid]; ChUser.Setgid gid]) ++ [ChUser.Setuid uid]) by (by rewrite <-(assoc_L (++))).
  pose proof (in_turn_spec ok plan) as H. destruct (ChUser.in_turn ok plan) as [r cs]. destruct H as [H1 H2]. destruct r.
  - destruct (H1 eq_refl) as [-> Hok]. rewrite Forall_forall in Hok.
    assert (Hin : forall c, c ∈ [ChUser.Setgroups [gid]; ChUser.Setgid gid; ChUser.Setuid uid] -> ok c = true) by (intros c Hc; apply Hok, elem_of_app; by right).
    split_and!; [exists []; by rewrite app_nil_r|split; [|done]; split; [done|apply Hin; set_solver]|].
    intros v Hv. apply elem_of_app in Hv as [Hv|Hv]; [by destruct (Hno v)|]. split_and!; [set_solver|apply Hin; set_solver|apply Hin; set_solver].
  - destruct (H2 eq_refl) as (p & c & post & E & -> & Hp & Hc). split_and!.
    + exists post. by rewrite <-(assoc_L (++)).
    + split; [done|]. intros [E2 Hu]. exfalso. assert (c = ChUser.Setuid uid) as ->; [|congruence].
      rewrite Eplan in E2. by apply app_inj_tail in E2 as [_ ?].
    + intros v Hv. rewrite Eplan in E. destruct post as [|x post _] using rev_ind.
      * apply app_inj_tail in E as [<- <-]. apply elem_of_app in Hv as [Hv|Hv]; [by destruct (Hno2 v)|].
        rewrite Forall_forall in Hp. split_and!; [set_solver|apply Hp; set_solver|apply Hp; set_solver].
      * rewrite app_comm_cons, (assoc_L (++)) in E. apply app_inj_tail in E as [E _]. destruct (Hno2 v). rewrite E.
        apply elem_of_app in Hv as [Hv|Hv]; set_solver.
Qed.

(** The socket that is handed over is the file that the daemon has created: it
    is the one whose mode the start of the admin socket changes, and nothing is
    handed over where it changes none. *)
Theorem chown_socket_file {U : ChUser.Users} address o network a es :
  Lifecycle.parsed o = ChUser.url_Parse -> EqualFold address "none" = false -> address <> EmptyString ->
  Lifecycle.startSocket address o = (Some (network, a), es) ->
  (forall path, ChUser.filesystemAdminSocketPath address = Some path <-> Lifecycle.Chmod path ∈ es) /\
  (forall path, ChUser.filesystemAdminSocketPath address = Some path -> network = "unix"%string /\ a = path).
Proof.
  intros Ho Hn He. unfold Lifecycle.startSocket, ChUser.filesystemAdminSocketPath. rewrite Ho, Hn, (bool_decide_false _ He). cbn [orb].
  assert (Hbind : forall net addr, (if Lifecycle.socket_bound o then (Some (net, addr), [Lifecycle.Bind net addr]) else (None, [])) = (Some (network, a), es) ->
    forall path, Lifecycle.Chmod path ∉ es) by (intros net addr H path; destruct (Lifecycle.socket_bound o); [|done]; injection H as _ _ <-; set_solver).
  destruct (ChUser.url_Parse address) as [u|]; [|intros H; split; [intros path; split; [done|intros Hc; by destruct (Hbind _ _ H path)]|done]].
  change (EqualFold (Scheme u) "unix") with (bool_decide (ToLower (Scheme u) = "unix"%string)).
  destruct (bool_decide (ToLower (Scheme u) = "unix"%string)); cbn [negb].
  2:{ intros H. split; [|done]. intros path. split; [done|]. intros Hc. exfalso.
      destruct (bool_decide (ToLower (Scheme u) = "tcp"%string)); by destruct (Hbind _ _ H path). }
  intros H. assert (H1 : network = "unix"%string /\ a = Path u /\ forall path, Lifecycle.Chmod path ∈ es <->
    path = Path u /\ bool_decide (Path u = EmptyString) = false /\ HasPrefix (Path u) "@" = false).
  { destruct (Lifecycle.exists_file o), (Lifecycle.unixSocketInUse (Lifecycle.dialed o)), (Lifecycle.removed o), (Lifecycle.socket_bound o),
      (bool_decide (Path u = EmptyString)), (HasPrefix (Path u) "@"); cbn [negb andb] in H; simplify_eq; split_and!; try done;
      intros path; split; set_solver. }
  destruct H1 as (-> & -> & H1). split.
  - intros path. rewrite H1. destruct (bool_decide (Path u = EmptyString)), (HasPrefix (Path u) "@"); naive_solver.
  - intros path. destruct (bool_decide (Path u = EmptyString)), (HasPrefix (Path u) "@"); cbn [orb]; try done. by intros [= ->].
Qed.

(** ** Concrete runs *)

Module Sample.
Definition key (x : Z) : Genkeys.key := ([x], repeat x 32).
#[local] Instance users : ChUser.Users := {|
  ChUser.LookupId _ := None;
  ChUser.Lookup name := if bool_decide (name = "ygg"%string) then Some (ChUser.mkUser "1000" "1001") else None;
  ChUser.LookupGroupId _ := None; ChUser.LookupGroup _ := Some "7"%string;
  ChUser.url_Parse s := if bool_decide (s = "unix:///run/y.sock"%string) then Some (mkURL "unix" EmptyString "/run/y.sock" EmptyString []) else None
|}.
Definition change (input : string) (ok : ChUser.call -> bool) : bool * list ChUser.call := ChUser.changeUser input "unix:///run/y.sock" ok.
Definition outcomes : Lifecycle.outcomes := Lifecycle.mkOutcomes ChUser.url_Parse false Lifecycle.OtherError true true true true.
End Sample.

Example change_user : Sample.change "ygg:staff" (fun _ => true) =
  (true, [ChUser.Chown "/run/y.sock" 1000 7; ChUser.Setgroups [7]; ChUser.Setgid 7; ChUser.Setuid 1000]).
Proof. vm_compute. reflexivity. Qed.
Example change_user_stops : Sample.change "ygg" (fun c => negb (bool_decide (c = ChUser.Setgid 1001))) =
  (false, [ChUser.Chown "/run/y.sock" 1000 1001; ChUser.Setgroups [1001]; ChUser.Setgid 1001]).
Proof. vm_compute. reflexivity. Qed.

Lemma better_key_higher_address_witness : exists a a', AddrForKey (repeat 9 32) = Some a /\ AddrForKey (repeat 8 32) = Some a' /\ bytes_lt a' a = false.
Proof.
  eexists _, _. split; [vm_compute; reflexivity|]. split; [vm_compute; reflexivity|].
  apply (better_key_higher_address (repeat 9 32) (repeat 8 32)); [repeat constructor; lia|repeat constructor; lia|reflexivity|discriminate|vm_compute; reflexivity|vm_compute; reflexivity].
Defined.

Lemma genkeys_finds_best_witness :
  let rs := concat (map Genkeys.worker [[Sample.key 9; Sample.key 7]; [Sample.key 8]]) in
  Genkeys.currentBest (Genkeys.main rs) = repeat 7 32 /\ bytes_lt (repeat 8 32) (Genkeys.currentBest (Genkeys.main rs)) = false.
Proof.
  intros rs. split; [vm_compute; reflexivity|].
  refine (proj2 (genkeys_finds_best [[Sample.key 9; Sample.key 7]; [Sample.key 8]] rs _ (Permutation_refl _) _) [Sample.key 8] (Sample.key 8) _ _); [|discriminate| |left].
  - assert (Forall (Forall (fun k : Genkeys.key => sized k.2 /\ wf_bytes k.2)) [[Sample.key 9; Sample.key 7]; [Sample.key 8]]) as H by (repeat constructor; lia).
    intros ks k Hks Hk. rewrite Forall_forall in H. specialize (H ks Hks). rewrite Forall_forall in H. by apply H.
  - right. left.
Defined.

Lemma keys_tried_understated_witness :
  exists rs, Permutation rs (concat (map Genkeys.worker [[Sample.key 8; Sample.key 7]; [Sample.key 9]])) /\ Genkeys.totalKeys (Genkeys.main rs) = 2.
Proof. apply (keys_tried_understated (Sample.key 9) (Sample.key 8) (Sample.key 7)). split; [reflexivity|]. split; reflexivity. Defined.

Lemma chown_socket_file_witness :
  forall path, ChUser.filesystemAdminSocketPath (U := Sample.users) "unix:///run/y.sock" = Some path -> "/run/y.sock"%string = path.
Proof.
  intros path H. refine (proj2 (proj2 (chown_socket_file (U := Sample.users) "unix:///run/y.sock" (Lifecycle.mkOutcomes (ChUser.url_Parse (Users := Sample.users)) false Lifecycle.OtherError true true true true)
    "unix" "/run/y.sock" _ _ _ _ _) path H)); [reflexivity|reflexivity|discriminate|vm_compute; reflexivity].
Defined.
