(* ===== verification/Web.v ===== *)
(** * Web: the node in the browser (web/main.go)

    The functions that the page calls.  Lists and messages are parsed as the code
    does; making and closing a node records what is opened and closed; the
    sections under the mutex and the steps between them of the functions that
    share the node are a transition system.  The page, HTTP, the IRC library and
    the components of the node are parameters: whether a call succeeds is an
    outcome. *)

From Stdlib Require Import Ascii.
From S2P Require Import Prelude GoStd Json Fetcher Autopeer.

(** ** Lists and headers *)

Definition is_separator (c : ascii) : bool :=
  bool_decide (c = ","%char) || bool_decide (c = " "%char) || bool_decide (c = "009"%char) || bool_decide (c = "010"%char) || bool_decide (c = "013"%char).

(** strings.FieldsFunc: the runs of the other characters, [acc] reversed. *)
Fixpoint fields_func (p : ascii -> bool) (l acc : chars) : list chars :=
  match l with
  | [] => match acc with [] => [] | _ => [rev acc] end
  | c :: l => if p c then match acc with [] => fields_func p l [] | _ => rev acc :: fields_func p l [] end
              else fields_func p l (c :: acc)
  end.
Definition splitList (raw : string) : list string :=
  base.filter (fun f => f <> EmptyString) (map (fun f => TrimSpace (of_chars f)) (fields_func is_separator (to_chars raw) [])).

(** The headers that are added, in order; [None] for a line without a colon. *)
Fixpoint header_lines (lines : list string) : option (list (string * string)) :=
  match lines with
  | [] => Some []
  | line :: lines =>
      let line := TrimSpace line in
      if bool_decide (line = EmptyString) then header_lines lines
      else match Cut line ":" with
           | (name, value, true) => hs ← header_lines lines; Some ((TrimSpace name, TrimSpace value) :: hs)
           | (_, _, false) => None
           end
  end.
Definition applyHeaders (raw : string) : option (list (string * string)) := header_lines (Split raw "010").

Definition makeSet (values : list string) : gset string :=
  fold_left (fun set value => let value := ToLower (TrimSpace value) in if bool_decide (value = EmptyString) then set else {[value]} ∪ set) values ∅.

Section Eligible.
Context (url_Parse : string -> option URL).

Definition countEndpoint (schemeSet : gset string) (e : Endpoint) : bool :=
  let scheme := ToLower (TrimSpace (ep_Protocol e)) in
  let scheme := if bool_decide (scheme = EmptyString)
                then match url_Parse (ep_URL e) with Some u => ToLower (Scheme u) | None => scheme end else scheme in
  if (0 <? size schemeSet)%nat && negb (bool_decide (scheme ∈ schemeSet)) then false
  else negb (bool_decide (TrimSpace (ep_URL e) = EmptyString)).
Definition countPeer (countrySet schemeSet : gset string) (count : nat) (p : Peer) : nat :=
  if (0 <? size countrySet)%nat && negb (bool_decide (ToLower (TrimSpace (p_Country p)) ∈ countrySet)) then count
  else fold_left (fun count e => if countEndpoint schemeSet e then S count else count) (p_Endpoints p) count.
Definition countEligibleAutoPeerEndpoints (peers : list Peer) (countries schemes : list string) : nat :=
  fold_left (countPeer (makeSet countries) (makeSet schemes)) peers 0%nat.
End Eligible.

(** The configuration that startAutoPeer gives to the manager, in nanoseconds. *)
Definition autopeer_config (Countries TransportSchemes : string) : ManagerConfig :=
  mkConfig 10000000000 1 1 (splitList Countries) (splitList TransportSchemes).

(** ** Requests *)

Record requestConfig := mkRequestConfig { rc_Method : string; rc_URL : string; rc_Headers : string; rc_Body : string }.
Record response := mkResponse { resp_Status : string; resp_StatusCode : Z; resp_Header : gmap string (list string); resp_Body : option string }.
Record requestResult := mkResult { res_Status : string; res_StatusCode : Z; res_Headers : gmap string string; res_Body : string }.

(** [NewRequest] is http.NewRequestWithContext, [Do] the client: the method, the
    URL, the headers that were added and the body; the body of a response may fail
    to be read. *)
Definition runHTTPRequest (NewRequest : string -> string -> bool) (Do : string -> string -> list (string * string) -> string -> option response)
    (running : bool) (cfg : requestConfig) : option requestResult :=
  if negb running then None
  else if bool_decide (TrimSpace (rc_URL cfg) = EmptyString) then None
  else
    let method := ToUpper (TrimSpace (rc_Method cfg)) in
    let method := if bool_decide (method = EmptyString) then "GET"%string else method in
    if negb (NewRequest method (rc_URL cfg)) then None
    else headers ← applyHeaders (rc_Headers cfg);
         resp ← Do method (rc_URL cfg) headers (rc_Body cfg);
         body ← resp_Body resp;
         Some (mkResult (resp_Status resp) (resp_StatusCode resp) (String.concat ", " <$> resp_Header resp) body).

(** ** IRC messages *)

Module Irc.
Record Message := mkMessage { Prefix : string; Command : string; Params : list string }.
Record ircConnectConfig := mkConnect {
  Server : string; Nick : string; Username : string; Realname : string; Channel : string;
  NickServMode : string; NickServPassword : string; NickServEmail : string
}.
Record ircSendConfig := mkSend { Target : string; Text : string }.

Definition defaultIRCServer : string := "[324:71e:281a:9ed3::41]:6667".
Definition app (l : list string) : string := String.concat "" l.

(** [now] in seconds *)
Definition normalizeIRCConnectConfig (now : Z) (cfg : ircConnectConfig) : ircConnectConfig :=
  let or (s d : string) := if bool_decide (TrimSpace s = EmptyString) then d else TrimSpace s in
  mkConnect (or (Server cfg) defaultIRCServer) (or (Nick cfg) (String.append "yggweb" (format_int (Z.rem now 10000))))
    (or (Username cfg) "yggweb") (or (Realname cfg) "Yggdrasil Web IRC") (TrimSpace (Channel cfg))
    (ToLower (TrimSpace (NickServMode cfg))) (TrimSpace (NickServPassword cfg)) (TrimSpace (NickServEmail cfg)).

(** What is sent and what is shown on the page; [None]: the mode is refused. *)
Definition sendNickServAuth (cfg : ircConnectConfig) : option (list (Message * string)) :=
  let mode := NickServMode cfg in
  if bool_decide (mode ∈ [""; "none"]%string) then Some []
  else if bool_decide (mode = "login"%string) then
    if bool_decide (NickServPassword cfg = EmptyString) then None
    else Some [(mkMessage EmptyString "PRIVMSG" ["NickServ"%string; String.append "IDENTIFY " (NickServPassword cfg)], "NickServ IDENTIFY ********"%string)]
  else if bool_decide (mode = "register"%string) then
    if bool_decide (NickServPassword cfg = EmptyString) then None
    else
      let mail s := if bool_decide (NickServEmail cfg = EmptyString) then s else app [s; " "%string; NickServEmail cfg] in
      Some [(mkMessage EmptyString "PRIVMSG" ["NickServ"%string; mail (String.append "REGISTER " (NickServPassword cfg))], mail "NickServ REGISTER ********"%string)]
  else None.

(** The messages of connectIRC, in order, with what is shown once each is sent. *)
Definition session_messages (cfg : ircConnectConfig) : list (Message * string) * bool :=
  let hello := [(mkMessage EmptyString "NICK" [Nick cfg], String.append "/nick " (Nick cfg));
                (mkMessage EmptyString "USER" [Username cfg; "0"; "*"; Realname cfg]%string, String.append "/user " (Username cfg))] in
  match sendNickServAuth cfg with
  | None => (hello, false)
  | Some auth =>
      (hello ++ auth ++ (if bool_decide (Channel cfg = EmptyString) then []
                         else [(mkMessage EmptyString "JOIN" [Channel cfg], String.append "/join " (Channel cfg))]), true)
  end.

Section Parse.
(** ParseMessage of the IRC library *)
Context (ParseMessage : string -> option Message).

Definition with_argument (command rest : string) : option (Message * string) :=
  if bool_decide (rest = EmptyString) then None
  else Some (mkMessage EmptyString command [rest], app ["/"; ToLower command; " "; rest]%string).
Definition to_target (rest : string) (f : string -> string -> Message * string) : option (Message * string) :=
  match Cut rest " " with
  | (target, text, true) =>
      if bool_decide (TrimSpace target = EmptyString) || bool_decide (TrimSpace text = EmptyString) then None
      else Some (f target (TrimSpace text))
  | _ => None
  end.
Definition chat (target text : string) : Message * string :=
  (mkMessage EmptyString "PRIVMSG" [target; text], app ["<me:"; target; "> "; text]%string).
Definition ctcp : string := String "001" EmptyString.
Definition act (target text : string) : Message * string :=
  (mkMessage EmptyString "PRIVMSG" [target; app [ctcp; "ACTION "; text; ctcp]%string], app ["* me:"; target; " "; text]%string).

Definition parseIRCCommand (raw : string) : option (Message * string) :=
  let raw := TrimSpace raw in
  if bool_decide (raw = EmptyString) then None
  else
    let '(command, rest, _) := Cut raw " " in
    let command := ToUpper (TrimSpace command) in
    let rest := TrimSpace rest in
    if bool_decide (command ∈ ["JOIN"; "PART"; "NICK"]%string) then with_argument command rest
    else if bool_decide (command = "MSG"%string) then to_target rest chat
    else if bool_decide (command = "ME"%string) then to_target rest act
    else if bool_decide (command = "QUIT"%string) then
      let rest := if bool_decide (rest = EmptyString) then "leaving"%string else rest in
      Some (mkMessage EmptyString "QUIT" [rest], String.append "/quit " rest)
    else if bool_decide (rest = EmptyString) then Some (mkMessage EmptyString command [], String.append "/" command)
    else msg ← ParseMessage (app [command; " "; rest]%string); Some (msg, app ["/"; command; " "; rest]%string).

Definition buildIRCMessage (cfg : ircSendConfig) : option (Message * string) :=
  let text := TrimSpace (Text cfg) in
  if bool_decide (text = EmptyString) then None
  else match to_chars text with
       | "/"%char :: rest => parseIRCCommand (of_chars rest)
       | _ => if bool_decide (TrimSpace (Target cfg) = EmptyString) then None else Some (chat (TrimSpace (Target cfg)) text)
       end.
End Parse.

Definition formatIRCMessage (msg : Message) : string :=
  app [(if bool_decide (Prefix msg = EmptyString) then EmptyString else app ["["; Prefix msg; "] "]%string); Command msg;
       match Params msg with [] => EmptyString | l => String.append " " (String.concat " " l) end].
End Irc.

(** ** The node *)

Module Node.
Inductive resource := Core | RWC | Adapter | VTun | AutoPeer | IRC.
#[global] Instance resource_eq_dec : EqDecision resource. Proof. solve_decision. Defined.
#[global] Instance resource_countable : Countable resource.
Proof.
  refine (inj_countable' (fun r => match r with Core => 0 | RWC => 1 | Adapter => 2 | VTun => 3 | AutoPeer => 4 | IRC => 5 end)%nat
    (fun n => match n with 0 => Core | 1 => RWC | 2 => Adapter | 3 => VTun | 4 => AutoPeer | _ => IRC end)%nat _). by intros [].
Defined.
Inductive effect := Make (r : resource) | Shut (r : resource) | Peer (uri : string).

(** The fields of a node that are not nil. *)
Local Abbreviation fields := (gset resource).
Definition close (n : fields) : list effect :=
  omap (fun r => if bool_decide (r ∈ n) then Some (Shut r) else None) [IRC; AutoPeer; Adapter; VTun; RWC; Core].

Record outcomes := mkOutcomes {
  certificate : bool; manager : bool; core_made : bool; adapter_made : bool; vtun_made : bool; attached : bool;
  parses : string -> bool; peer_added : string -> bool
}.

(** Whether every peer was added. *)
Fixpoint addManualPeers (o : outcomes) (l : list string) : bool * list effect :=
  match l with
  | [] => (true, [])
  | uri :: l => if parses o uri && peer_added o uri
                then let '(ok, es) := addManualPeers o l in (ok, Peer uri :: es)
                else (false, [])
  end.

(** The node, or nil.  The deferred function closes the node when the variable
    [err] of the body is set; the errors of Attach and of addManualPeers are
    variables of their own. *)
Definition newBrowserNode (o : outcomes) (manualPeers : string) : option fields * list effect :=
  if negb (certificate o && manager o && core_made o) then (None, [])
  else
    let n : fields := {[Core]} in
    let es := [Make Core; Make RWC] in
    if negb (adapter_made o) then (None, es ++ close n)
    else
      let n : fields := {[Core; RWC; Adapter]} in
      let es := es ++ [Make Adapter] in
      if negb (vtun_made o) then (None, es ++ close n)
      else
        let n : fields := {[Core; RWC; Adapter; VTun]} in
        let es := es ++ [Make VTun] in
        if negb (attached o) then (None, es)
        else
          let '(ok, ps) := addManualPeers o (splitList manualPeers) in
          if negb ok then (None, es ++ ps)
          else (Some {[Core; RWC; Adapter; VTun; AutoPeer]}, es ++ ps ++ [Make AutoPeer]).

(** The fields of a node that started. *)
Definition complete : fields := {[Core; RWC; Adapter; VTun; AutoPeer]}.

(** What is open after the effects. *)
Definition open_step (s : gset resource) (e : effect) : gset resource :=
  match e with Make r => {[r]} ∪ s | Shut r => s ∖ {[r]} | Peer _ => s end.
Definition open_after (es : list effect) : gset resource := fold_left open_step es ∅.
End Node.

(** ** The functions of the page

    The goroutines of connectIRC, disconnectIRC and sendIRC hold the mutex only
    for a moment; startNode and stopNode hold it all along.  A node and a session
    are named by numbers. *)

Module Page.
Inductive pc :=
| Replacing (n : Z) (old : option Z)         (* the old session is to be closed *)
| Connecting (n : Z)                         (* dialing, and sending the first messages *)
| Connected (n : Z) (session : Z)
| Closing (session : Z).                     (* to be closed *)

Record world := mkWorld {
  node : option Z;
  irc : gmap Z Z;                            (* the session of a node, by node *)
  routines : gmap Z pc;
  nodes : gset Z; sessions : gset Z;         (* every one that was ever begun *)
  fields : gset Node.resource;               (* the fields of the node that are not nil *)
  opened : gmap Z (gset Node.resource);      (* what is open of a node, by node *)
  shut : gset Z                              (* the sessions that were closed *)
}.
Definition start : world := mkWorld None ∅ ∅ ∅ ∅ ∅ ∅ ∅.
Definition open_of (w : world) (n : Z) : gset Node.resource := default ∅ (opened w !! n).

Definition set_routine (g : Z) (p : option pc) (w : world) : world :=
  mkWorld (node w) (irc w) (partial_alter (fun _ => p) g (routines w)) (nodes w) (sessions w) (fields w) (opened w) (shut w).
Definition close_session (s : Z) (w : world) : world :=
  mkWorld (node w) (irc w) (routines w) (nodes w) (sessions w) (fields w) (opened w) ({[s]} ∪ shut w).
(** Closing a node closes its session and what its fields name. *)
Definition close_node (w : world) : world :=
  match node w with
  | None => w
  | Some n => mkWorld None (irc w) (routines w) (nodes w) (sessions w) ∅
                (<[n := fold_left Node.open_step (Node.close (fields w)) (open_of w n)]> (opened w))
                (match irc w !! n with Some s => {[s]} | None => ∅ end ∪ shut w)
  end.

Inductive event :=
| StartNode (n : Z) (o : Node.outcomes) (manualPeers : string)
| StopNode
| ConnectIRC (g : Z) | CloseOld (g : Z) | DialFails (g : Z) | Dialed (g s : Z) | SendFails (g : Z) | Commit (g : Z)
| DisconnectIRC (g : Z) | CloseSession (g : Z).

Definition exec (e : event) (w : world) : option world :=
  match e with
  | StartNode n o raw =>
      if bool_decide (n ∈ nodes w) then None
      else
        let w := close_node w in
        let '(fs, es) := Node.newBrowserNode o raw in
        (* what newBrowserNode left open is open, also when it returned an error *)
        Some (mkWorld (match fs with Some _ => Some n | None => node w end) (irc w) (routines w) ({[n]} ∪ nodes w) (sessions w)
                (default (fields w) fs) (<[n := Node.open_after es]> (opened w)) (shut w))
  | StopNode => Some (close_node w)
  | ConnectIRC g =>
      match routines w !! g, node w with
      | None, Some n =>
          Some (mkWorld (node w) (delete n (irc w)) (<[g := Replacing n (irc w !! n)]> (routines w)) (nodes w) (sessions w) (fields w) (opened w) (shut w))
      | None, None => Some w                 (* node is not running *)
      | Some _, _ => None
      end
  | CloseOld g =>
      match routines w !! g with
      | Some (Replacing n old) =>
          Some (set_routine g (Some (Connecting n)) (match old with Some s => close_session s w | None => w end))
      | _ => None
      end
  | DialFails g => match routines w !! g with Some (Connecting _) => Some (set_routine g None w) | _ => None end
  | Dialed g s =>
      match routines w !! g with
      | Some (Connecting n) =>
          if bool_decide (s ∈ sessions w) then None
          else Some (set_routine g (Some (Connected n s))
                 (mkWorld (node w) (irc w) (routines w) (nodes w) ({[s]} ∪ sessions w) (fields w) (opened w) (shut w)))
      | _ => None
      end
  | SendFails g =>
      match routines w !! g with
      | Some (Connected n s) => Some (set_routine g None (close_session s w))
      | _ => None
      end
  | Commit g =>
      match routines w !! g with
      | Some (Connected n s) =>
          if bool_decide (node w = Some n)
          then Some (set_routine g None (mkWorld (node w) (<[n := s]> (irc w)) (routines w) (nodes w) (sessions w) (fields w) (opened w) (shut w)))
          else Some (set_routine g (Some (Closing s)) w)
      | _ => None
      end
  | DisconnectIRC g =>
      match routines w !! g, node w with
      | None, Some n =>
          match irc w !! n with
          | Some s => Some (mkWorld (node w) (delete n (irc w)) (<[g := Closing s]> (routines w)) (nodes w) (sessions w) (fields w) (opened w) (shut w))
          | None => Some w
          end
      | None, None => Some w
      | Some _, _ => None
      end
  | CloseSession g => match routines w !! g with Some (Closing s) => Some (set_routine g None (close_session s w)) | _ => None end
  end.

Fixpoint execs (es : list event) (w : world) : option world :=
  match es with [] => Some w | e :: es => w ← exec e w; execs es w end.

(** A commit that replaces a session which another call has set meanwhile. *)
Definition replaces (e : event) (w : world) : bool :=
  match e with
  | Commit g => match routines w !! g with
                | Some (Connected n s) => bool_decide (node w = Some n) && bool_decide (is_Some (irc w !! n))
                | _ => false
                end
  | _ => false
  end.
Fixpoint replacing (es : list event) (w : world) : bool :=
  match es with [] => false | e :: es => replaces e w || match exec e w with Some w => replacing es w | None => false end end.

Definition held_by (p : pc) : option Z :=
  match p with Replacing _ old => old | Connecting _ => None | Connected _ s | Closing s => Some s end.
(** Where a session that is still open is known. *)
Definition known (w : world) (s : Z) : Prop :=
  (exists n, node w = Some n /\ irc w !! n = Some s) \/ (exists g p, routines w !! g = Some p /\ held_by p = Some s).
End Page.

(** ** Theorems *)

(** *** Lists *)

Lemma fields_func_spec p l acc f : Forall (fun c => p c = false) acc -> f ∈ fields_func p l acc -> f <> [] /\ Forall (fun c => p c = false) f.
Proof.
  revert acc. induction l as [|c l IH]; intros acc Hacc; cbn [fields_func].
  - destruct acc as [|a acc]; [by intros ?%elem_of_nil|]. intros ->%list_elem_of_singleton. split; [|by apply Forall_rev].
    intros E. apply (f_equal length) in E. rewrite length_rev in E. done.
  - destruct (p c) eqn:E; [|apply IH; by constructor]. destruct acc as [|a acc]; [by apply IH|].
    intros [->|H]%elem_of_cons; [|by apply (IH [])]. split; [|by apply Forall_rev]. intros E2. apply (f_equal length) in E2. rewrite length_rev in E2. done.
Qed.

Lemma fields_func_run p f rest acc : Forall (fun c => p c = false) f -> fields_func p (f ++ rest) acc = fields_func p rest (rev f ++ acc).
Proof.
  revert acc. induction f as [|c f IH]; intros acc Hf; [done|]. apply Forall_cons in Hf as [Hc Hf]. cbn [app fields_func]. rewrite Hc, IH by done.
  cbn [rev]. by rewrite <-(assoc_L (++)).
Qed.

Lemma trim_by_Forall {A} (P : A -> Prop) f l : Forall P l -> Forall P (trim_by f l).
Proof.
  assert (H : forall l, Forall P l -> Forall P (drop_while f l)) by (induction 1 as [|x k Hx Hk IH]; cbn; [constructor|destruct (f x); [done|by constructor]]).
  intros Hl. unfold trim_by. by apply Forall_rev, H, Forall_rev, H.
Qed.

(** A text that is one element of a list. *)
Definition token (s : string) : Prop := s <> EmptyString /\ TrimSpace s = s /\ Forall (fun c => is_separator c = false) (to_chars s).

Lemma fields_func_concat sep ts : is_separator sep = true -> Forall token ts ->
  fields_func is_separator (to_chars (String.concat (String sep EmptyString) ts)) [] = map to_chars ts.
Proof.
  intros Hsep. induction 1 as [|t ts (Hne & _ & Ht) Hts IH]; [done|].
  assert (Hnil : rev (to_chars t) <> []).
  { intros E. apply Hne. rewrite <-(of_to_chars t), <-(rev_involutive (to_chars t)), E. reflexivity. }
  destruct ts as [|t' ts].
  - cbn [String.concat map]. rewrite <-(app_nil_r (to_chars t)) at 1. rewrite fields_func_run by done. cbn [fields_func]. rewrite app_nil_r.
    destruct (rev (to_chars t)) eqn:E; [done|]. by rewrite <-E, rev_involutive.
  - change (String.concat (String sep EmptyString) (t :: t' :: ts)) with
      (String.append t (String sep (String.concat (String sep EmptyString) (t' :: ts)))).
    rewrite to_chars_app, fields_func_run by done. rewrite app_nil_r.
    change (to_chars (String sep ?s)) with (sep :: to_chars s). cbn [fields_func]. rewrite Hsep, IH.
    destruct (rev (to_chars t)) eqn:E; [done|]. cbn [map]. by rewrite <-E, rev_involutive.
Qed.

(** A list that is written with any of the separators is read back, and no list
    has an empty element or one with a separator in it. *)
Theorem splitList_spec :
  (forall sep ts, is_separator sep = true -> Forall token ts -> splitList (String.concat (String sep EmptyString) ts) = ts) /\
  (forall raw s, s ∈ splitList raw -> s <> EmptyString /\ Forall (fun c => is_separator c = false) (to_chars s)).
Proof.
  split.
  - intros sep ts Hsep Hts. unfold splitList. rewrite fields_func_concat by done. rewrite map_map.
    induction Hts as [|t ts (Hne & Htrim & _) Hts IH]; [done|]. cbn [map]. rewrite of_to_chars, Htrim, filter_cons, decide_True by done.
    by rewrite IH.
  - intros raw s [Hne Hs]%list_elem_of_filter. split; [done|]. rewrite list_elem_of_In, in_map_iff in Hs. destruct Hs as (f & <- & Hf).
    rewrite <-list_elem_of_In in Hf. destruct (fields_func_spec is_separator (to_chars raw) [] f) as [_ H]; [constructor|done|].
    unfold TrimSpace. rewrite !to_of_chars. by apply trim_by_Forall.
Qed.

Lemma header_lines_length ls : forall hs, header_lines ls = Some hs -> length hs = length (base.filter (fun l => TrimSpace l <> EmptyString) ls).
Proof.
  induction ls as [|l ls IH]; intros hs H; cbn [header_lines] in H; [by simplify_eq|]. rewrite filter_cons. case_bool_decide as E.
  - rewrite decide_False by tauto. by apply IH.
  - rewrite decide_True by done. destruct (Cut (TrimSpace l) ":") as [[name value] []]; [|done].
    destruct (header_lines ls) as [hs'|]; [|done]. cbn [mbind option_bind] in H. simplify_eq. cbn. by rewrite (IH hs').
Qed.

(** A request that is answered was made with a running node, a method that is
    not empty, and every line of the headers that is not blank; the answer is the
    response with the values of each header joined. *)
Theorem runHTTPRequest_made NewRequest Do running cfg r : runHTTPRequest NewRequest Do running cfg = Some r ->
  running = true /\ rc_URL cfg <> EmptyString /\
  exists method hs resp, method <> EmptyString /\ NewRequest method (rc_URL cfg) = true /\
    length hs = length (base.filter (fun l => TrimSpace l <> EmptyString) (Split (rc_Headers cfg) "010")) /\
    Do method (rc_URL cfg) hs (rc_Body cfg) = Some resp /\ Some (res_Body r) = resp_Body resp /\
    forall k, res_Headers r !! k = (String.concat ", " <$> (resp_Header resp !! k)).
Proof.
  unfold runHTTPRequest. destruct running; cbn [negb]; [|done]. case_bool_decide as Hurl; [done|]. cbv zeta.
  set (m := if bool_decide _ then _ else _). destruct (NewRequest m (rc_URL cfg)) eqn:En; cbn [negb]; [|done]. intros H.
  destruct (applyHeaders (rc_Headers cfg)) as [hs|] eqn:Eh; [|done]. cbn [mbind option_bind] in H.
  destruct (Do m (rc_URL cfg) hs (rc_Body cfg)) as [resp|] eqn:Ed; [|done]. cbn [mbind option_bind] in H.
  destruct (resp_Body resp) as [body|] eqn:Eb; [|done]. cbn [mbind option_bind] in H. simplify_eq.
  split; [done|]. split; [by intros E; rewrite E in Hurl|]. exists m, hs, resp.
  repeat split; [unfold m; by case_bool_decide|done|by apply header_lines_length|done|done|]. intros k. apply lookup_fmap.
Qed.

Definition demo_request : requestConfig := mkRequestConfig " get " "http://[200::1]/" (String.append "X-A: 1" (String "010" " ")) "".
Definition demo_response : response := mkResponse "200 OK" 200 {["X" := ["1"; "2"]]}%string (Some "ok"%string).
Lemma runHTTPRequest_made_witness :
  exists r, runHTTPRequest (fun _ _ => true) (fun _ _ _ _ => Some demo_response) true demo_request = Some r /\
  rc_URL demo_request <> EmptyString /\ res_Headers r !! "X"%string = Some "1, 2"%string.
Proof.
  eexists. split; [reflexivity|]. split; [|reflexivity].
  by destruct (runHTTPRequest_made (fun _ _ => true) (fun _ _ _ _ => Some demo_response) true demo_request _ eq_refl) as (_ & H & _).
Defined.

(** *** Eligible endpoints *)

Lemma makeSet_from values : forall s, fold_left (fun set value => let value := ToLower (TrimSpace value) in if bool_decide (value = EmptyString) then set else {[value]} ∪ set) values s
  = normalizeSet values ∪ s.
Proof.
  induction values as [|v values IH]; intros s; cbn [fold_left]; [unfold normalizeSet; set_solver|]. cbv zeta. rewrite IH.
  unfold normalizeSet. cbn [map]. rewrite filter_cons. case_bool_decide as E; [rewrite decide_False by tauto; done|].
  rewrite decide_True by done. cbn [list_to_set]. set_solver.
Qed.

Lemma makeSet_normalizeSet values : makeSet values = normalizeSet values.
Proof. unfold makeSet. rewrite makeSet_from. set_solver. Qed.

Lemma size_positive (s : gset string) : (0 <? size s)%nat = negb (bool_decide (s = ∅)).
Proof.
  case_bool_decide as E; [by subst|]. apply Nat.ltb_lt. destruct (size s) eqn:H; [|lia]. apply size_empty_inv in H. by apply leibniz_equiv in H.
Qed.

Section Eligible_theorems.
Context (url_Parse : string -> option URL).

Lemma countEndpoint_passes n c cs schemes e : countEndpoint url_Parse schemes e = passes url_Parse (mkSnapshot n c cs schemes) e.
Proof.
  unfold countEndpoint, passes, endpointMatchesSchemes. cbn [transports]. rewrite size_positive. cbv zeta.
  case_bool_decide as E; cbn [negb andb]; [done|]. by case_bool_decide.
Qed.

Lemma count_fold {A} (f : A -> bool) l n : fold_left (fun n x => if f x then S n else n) l n = (length (base.filter (fun x => f x = true) l) + n)%nat.
Proof.
  revert n. induction l as [|x l IH]; intros n; [done|]. cbn [fold_left]. rewrite filter_cons, IH. destruct (f x).
  - rewrite decide_True by done. cbn [length]. lia.
  - by rewrite decide_False.
Qed.

Lemma countPeer_match cs schemes n p :
  countPeer url_Parse cs schemes n p =
  if peerMatchesCountries p cs then fold_left (fun count e => if countEndpoint url_Parse schemes e then S count else count) (p_Endpoints p) n else n.
Proof.
  unfold countPeer, peerMatchesCountries. rewrite size_positive.
  destruct (bool_decide (cs = ∅)); cbn [negb andb orb]; [done|]. by destruct (bool_decide _).
Qed.

Lemma countPeers_eligible c peers : forall n,
  fold_left (countPeer url_Parse (normalizeSet (Countries c)) (normalizeSet (TransportSchemes c))) peers n =
  (length (eligible url_Parse (mkSnapshot true c (normalizeSet (Countries c)) (normalizeSet (TransportSchemes c))) peers) + n)%nat.
Proof.
  set (sn := mkSnapshot _ _ _ _). induction peers as [|p peers IH]; intros n; [done|]. cbn [fold_left]. rewrite IH, countPeer_match.
  unfold eligible, examined. rewrite filter_cons. cbn [sn countries].
  destruct (peerMatchesCountries p (normalizeSet (Countries c))).
  - rewrite decide_True by done. cbn [map concat]. rewrite filter_app, length_app, count_fold.
    rewrite (list_filter_iff (fun e => countEndpoint url_Parse (normalizeSet (TransportSchemes c)) e = true) (fun e => passes url_Parse sn e = true));
      [lia|intros e; unfold sn; by rewrite (countEndpoint_passes true c (normalizeSet (Countries c)))].
  - by rewrite decide_False.
Qed.

(** The number of endpoints that the page shows as eligible is the number of
    those that the autopeering manager considers with the same configuration. *)
Theorem demo_counts_eligible c peers :
  countEligibleAutoPeerEndpoints url_Parse peers (Countries c) (TransportSchemes c) =
  length (eligible url_Parse (mkSnapshot true c (normalizeSet (Countries c)) (normalizeSet (TransportSchemes c))) peers).
Proof. unfold countEligibleAutoPeerEndpoints. rewrite !makeSet_normalizeSet, countPeers_eligible. lia. Qed.
End Eligible_theorems.

(** *** IRC *)

Definition with_password (cfg : Irc.ircConnectConfig) (p : string) : Irc.ircConnectConfig :=
  Irc.mkConnect (Irc.Server cfg) (Irc.Nick cfg) (Irc.Username cfg) (Irc.Realname cfg) (Irc.Channel cfg) (Irc.NickServMode cfg) p (Irc.NickServEmail cfg).
Definition to_NickServ (m : Irc.Message) : bool := bool_decide (head (Irc.Params m) = Some "NickServ"%string).

(** The password is not shown: what the page shows, and every message that is
    not for NickServ, are the same for any two passwords. *)
Theorem password_not_shown cfg p p' : p <> EmptyString -> p' <> EmptyString ->
  let run p := Irc.session_messages (with_password cfg p) in
  map snd (fst (run p)) = map snd (fst (run p')) /\
  base.filter (fun m => to_NickServ m = false) (map fst (fst (run p))) = base.filter (fun m => to_NickServ m = false) (map fst (fst (run p'))) /\
  snd (run p) = snd (run p').
Proof.
  intros Hp Hp'. unfold Irc.session_messages, Irc.sendNickServAuth. cbn [with_password Irc.NickServMode Irc.NickServPassword Irc.NickServEmail Irc.Channel Irc.Nick Irc.Username Irc.Realname].
  rewrite (bool_decide_false (p = EmptyString)), (bool_decide_false (p' = EmptyString)) by done.
  repeat lazymatch goal with |- context [if bool_decide ?P then _ else _] => destruct (bool_decide P) end;
    (split; [reflexivity|split; reflexivity]).
Qed.

Definition demo_connect : Irc.ircConnectConfig :=
  Irc.normalizeIRCConnectConfig 1700001234 (Irc.mkConnect "" "" "" "" " #ygg " "Login" " hunter2 " "").
Lemma password_not_shown_witness :
  ("hunter2" <> "")%string /\ ("secret" <> "")%string /\
  map snd (fst (Irc.session_messages (with_password demo_connect "hunter2"))) =
    map snd (fst (Irc.session_messages (with_password demo_connect "secret"))).
Proof. split; [done|]. split; [done|]. by apply (password_not_shown demo_connect "hunter2" "secret"). Defined.

Example demo_connect_shown : map snd (fst (Irc.session_messages demo_connect)) =
  ["/nick yggweb1234"; "/user yggweb"; "NickServ IDENTIFY ********"; "/join #ygg"]%string.
Proof. reflexivity. Qed.

(** A text is trimmed when neither end is white space. *)
Lemma drop_while_shorter {A} (f : A -> bool) l : (length (drop_while f l) <= length l)%nat /\ (length (drop_while f l) = length l -> drop_while f l = l).
Proof. induction l as [|x l [IH _]]; [done|]. cbn. destruct (f x); cbn; [|done]. split; lia. Qed.

Lemma trim_by_id {A} (f : A -> bool) l : trim_by f l = l <-> drop_while f l = l /\ drop_while f (rev l) = rev l.
Proof.
  unfold trim_by. split.
  - intros E. apply (f_equal length) in E as El. rewrite length_rev in El.
    destruct (drop_while_shorter f l) as [H1 H1'], (drop_while_shorter f (rev (drop_while f l))) as [H2 H2']. rewrite length_rev in H2, H2'.
    assert (Hf : drop_while f l = l) by (apply H1'; lia). rewrite Hf in *. split; [done|]. apply H2'. lia.
  - intros [-> ->]. apply rev_involutive.
Qed.

Lemma drop_while_front {A} (f : A -> bool) l k : l <> [] -> drop_while f l = l -> drop_while f (l ++ k) = l ++ k.
Proof. destruct l as [|x l]; [done|]. intros _ H. cbn in *. destruct (f x) eqn:E; [|done]. destruct (drop_while_shorter f l) as [Hs _]. rewrite H in Hs. cbn in Hs. lia. Qed.

Lemma to_chars_not_nil s : s <> EmptyString -> to_chars s <> [].
Proof. by destruct s. Qed.

Lemma TrimSpace_id s : TrimSpace s = s <-> trim_by is_space (to_chars s) = to_chars s.
Proof. unfold TrimSpace. split; [intros E; rewrite <-E at 2; by rewrite to_of_chars|intros ->; apply of_to_chars]. Qed.

(** Only the end matters behind a character that is no white space. *)
Lemma TrimSpace_prefixed c s l : is_space c = false -> TrimSpace s = s -> s <> EmptyString -> trim_by is_space (c :: l ++ to_chars s) = c :: l ++ to_chars s.
Proof.
  intros Hc Hs Hne. apply TrimSpace_id, trim_by_id in Hs as [_ Hs]. apply trim_by_id. split; [cbn; by rewrite Hc|].
  change (c :: l ++ to_chars s) with ((c :: l) ++ to_chars s). rewrite rev_app_distr. apply drop_while_front; [|done].
  intros E. apply (f_equal (@rev _)) in E. rewrite rev_involutive in E. by apply to_chars_not_nil in Hne.
Qed.

(** The command /msg sends the text to the target, and shows it, as the text
    alone does with that target, for a target without white space and a text that
    is no command. *)
Theorem msg_command_is_chat parse target text any :
  target <> EmptyString -> Forall (fun c => is_space c = false) (to_chars target) ->
  TrimSpace text = text -> text <> EmptyString -> head (to_chars text) <> Some "/"%char ->
  Irc.buildIRCMessage parse (Irc.mkSend any (Irc.app ["/msg "; target; " "; text]%string)) = Irc.buildIRCMessage parse (Irc.mkSend target text).
Proof.
  intros Hne Ht Hx Hxne Hslash.
  assert (Hmine : Irc.buildIRCMessage parse (Irc.mkSend target text) = Some (Irc.chat target text)).
  { unfold Irc.buildIRCMessage. cbn [Irc.Text Irc.Target]. rewrite Hx, (bool_decide_false (text = EmptyString)) by done.
    assert (TrimSpace target = target) as -> by (apply TrimSpace_id, trim_none; done). rewrite bool_decide_false by done.
    destruct (to_chars text) as [|[[] [] [] [] [] [] [] []] ?]; done. }
  rewrite Hmine. set (t := to_chars target ++ [" "%char]). set (l := ["m"; "s"; "g"; " "]%char ++ t).
  assert (Hl : to_chars (Irc.app ["/msg "; target; " "; text]%string) = "/"%char :: l ++ to_chars text).
  { unfold Irc.app, l. cbn [String.concat String.append]. rewrite !to_chars_app. cbn. unfold t. by rewrite <-(assoc_L (++)). }
  assert (Htrim : TrimSpace (Irc.app ["/msg "; target; " "; text]%string) = of_chars ("/"%char :: l ++ to_chars text)).
  { unfold TrimSpace. rewrite Hl, TrimSpace_prefixed by done. done. }
  unfold Irc.buildIRCMessage. cbn [Irc.Text]. rewrite Htrim, to_of_chars, bool_decide_false by done.
  unfold Irc.parseIRCCommand. cbv zeta.
  assert (TrimSpace (of_chars (l ++ to_chars text)) = of_chars (l ++ to_chars text)) as ->.
  { unfold TrimSpace. rewrite to_of_chars. exact (f_equal of_chars (TrimSpace_prefixed "m" text (["s"; "g"; " "]%char ++ t) eq_refl Hx Hxne)). }
  assert (Hcut : Cut (of_chars (l ++ to_chars text)) " " = ("msg"%string, of_chars (t ++ to_chars text), true)).
  { unfold Cut. rewrite to_of_chars. assert (cut_chars (l ++ to_chars text) " "%char = Some (["m"; "s"; "g"]%char, t ++ to_chars text)) as -> by done. done. }
  assert (Hrest : TrimSpace (of_chars (t ++ to_chars text)) = of_chars (t ++ to_chars text)).
  { unfold TrimSpace. rewrite to_of_chars. unfold t. destruct (to_chars target) as [|c k] eqn:Ec; [by apply to_chars_not_nil in Hne|].
    apply Forall_cons in Ht as [Hc _]. exact (f_equal of_chars (TrimSpace_prefixed c text (k ++ [" "%char]) Hc Hx Hxne)). }
  rewrite bool_decide_false by done. rewrite Hcut, Hrest.
  change (ToUpper (TrimSpace "msg")) with "MSG"%string. rewrite bool_decide_false by set_solver. rewrite bool_decide_true by done.
  unfold Irc.to_target, Cut. rewrite to_of_chars. unfold t. rewrite <-(assoc_L (++)). cbn [app].
  rewrite (proj2 (cut_chars_Some _ _ (to_chars target) (to_chars text))); [|split; [done|]; intros Hin; rewrite Forall_forall in Ht; by specialize (Ht _ Hin)].
  rewrite !of_to_chars, Hx. assert (TrimSpace target = target) as -> by (apply TrimSpace_id, trim_none; done).
  by rewrite !bool_decide_false.
Qed.

Lemma msg_command_is_chat_witness :
  Irc.buildIRCMessage (fun _ => None) (Irc.mkSend "" "/msg bob see you") = Irc.buildIRCMessage (fun _ => None) (Irc.mkSend "bob" "see you").
Proof. apply (msg_command_is_chat (fun _ => None) "bob" "see you" ""); [done|by repeat constructor|reflexivity|done|done]. Defined.

(** *** The node *)

Import Node.

(** Adding peers opens and closes nothing. *)
Lemma addManualPeers_opens o l s : fold_left open_step (snd (addManualPeers o l)) s = s.
Proof.
  revert s. induction l as [|uri l IH]; intros s; [done|]. cbn [addManualPeers]. destruct (parses o uri && peer_added o uri); [|done].
  destruct (addManualPeers o l) as [ok es]. apply IH.
Qed.

(** A node is returned with everything that was opened for it, and closing it
    closes it all. *)
Theorem newBrowserNode_owns o raw n es : newBrowserNode o raw = (Some n, es) ->
  open_after es = n /\ open_after (es ++ close n) = ∅.
Proof.
  unfold newBrowserNode. destruct (certificate o && manager o && core_made o); cbn [negb]; [|done].
  destruct (adapter_made o); cbn [negb]; [|done]. destruct (vtun_made o); cbn [negb]; [|done]. destruct (attached o); cbn [negb]; [|done].
  pose proof (addManualPeers_opens o (splitList raw)) as H. destruct (addManualPeers o (splitList raw)) as [[] ps]; cbn [negb]; [|done].
  intros [= <- <-]. cbn [snd] in H. unfold open_after. split; cbn [app fold_left]; rewrite <-?(assoc_L (++)), !fold_left_app, H; by_computation.
Qed.

(** What remains open when no node is returned: nothing, unless the adapter was
    not made, attaching it failed or a peer was refused. *)
Definition remains (o : outcomes) : gset resource :=
  if negb (certificate o && manager o && core_made o) then ∅
  else if negb (adapter_made o) then {[RWC]}
  else if negb (vtun_made o) then ∅
  else {[Core; RWC; Adapter; VTun]}.

Theorem newBrowserNode_leaks o raw es : newBrowserNode o raw = (None, es) -> open_after es = remains o.
Proof.
  unfold newBrowserNode, remains. destruct (certificate o && manager o && core_made o); cbn [negb]; [|by intros [= <-]].
  destruct (adapter_made o); cbn [negb]; [|intros [= <-]; by_computation].
  destruct (vtun_made o); cbn [negb]; [|intros [= <-]; by_computation]. destruct (attached o); cbn [negb]; [|intros [= <-]; by_computation].
  pose proof (addManualPeers_opens o (splitList raw)) as H. destruct (addManualPeers o (splitList raw)) as [[] ps]; cbn [negb]; [done|].
  intros [= <-]. cbn [snd] in H. unfold open_after. cbn [app fold_left]. rewrite ?fold_left_app, H. by_computation.
Qed.

Definition refuses_second : outcomes :=
  mkOutcomes true true true true true true (fun _ => true) (fun uri => bool_decide (uri = "ws://a"%string)).
Lemma newBrowserNode_owns_witness :
  exists es, newBrowserNode refuses_second " ws://a, " = (Some {[Core; RWC; Adapter; VTun; AutoPeer]}, es) /\
  open_after (es ++ close {[Core; RWC; Adapter; VTun; AutoPeer]}) = ∅.
Proof. eexists. split; [reflexivity|]. by apply (newBrowserNode_owns refuses_second " ws://a, "). Defined.
Lemma newBrowserNode_leaks_witness :
  exists es, newBrowserNode refuses_second "ws://a,ws://b" = (None, es) /\ open_after es = {[Core; RWC; Adapter; VTun]}.
Proof. eexists. split; [reflexivity|]. by apply (newBrowserNode_leaks refuses_second "ws://a,ws://b"). Defined.

(** *** The functions of the page *)

Import Page.

(** Every session that was made is closed, or is still known to be open. *)
Definition accounted (w : world) : Prop := forall s, s ∈ sessions w -> s ∈ shut w \/ known w s.

(** What the failed starts of [n] left open. *)
Definition left_open (es : list event) (n : Z) (r : resource) : Prop :=
  exists o raw, StartNode n o raw ∈ es /\ (newBrowserNode o raw).1 = None /\ r ∈ remains o.

(** After the steps [es]: what is open belongs to the current node, which is
    complete, or to a start that failed. *)
Record nodes_accounted (es : list event) (w : world) : Prop := {
  current_open n : node w = Some n -> n ∈ nodes w /\ open_of w n = fields w /\ fields w = complete /\ forall r, ~ left_open es n r;
  other_open n : node w <> Some n -> forall r, r ∈ open_of w n <-> left_open es n r;
  unused n : n ∉ nodes w -> open_of w n = ∅
}.

Lemma close_node_node w : node (close_node w) = None.
Proof. unfold close_node. by destruct (node w) eqn:E. Qed.

Lemma held_known w g p s : routines w !! g = Some p -> held_by p = Some s -> known w s.
Proof. intros. right. eauto. Qed.
Lemma current_known w n s : node w = Some n -> irc w !! n = Some s -> known w s.
Proof. intros. left. eauto. Qed.

(** A step of a routine, when what it held is closed or held by someone. *)
Lemma set_routine_accounted g p p' w :
  routines w !! g = Some p -> accounted w -> (forall s, held_by p = Some s -> s ∈ shut w \/ (p' ≫= held_by) = Some s) ->
  accounted (set_routine g p' w).
Proof.
  intros Hg Hw Hp s Hs. destruct (Hw s Hs) as [?|[(n & Hn & Hi)|(g' & q & Hq & Hheld)]]; [by left|right; left; eauto|].
  destruct (decide (g' = g)) as [->|Hne].
  - simplify_eq. destruct (Hp s Hheld) as [?|H]; [by left|]. right; right. destruct p' as [p'|]; [|done]. exists g, p'. split; [|done].
    cbn. by rewrite lookup_partial_alter_eq.
  - right; right. exists g', q. split; [|done]. cbn. by rewrite lookup_partial_alter_ne.
Qed.

Lemma close_session_accounted s w : accounted w -> accounted (close_session s w).
Proof. intros Hw t Ht. destruct (Hw t Ht) as [?|?]; [left; cbn; set_solver|by right]. Qed.

Lemma close_node_accounted w : accounted w -> accounted (close_node w).
Proof.
  intros Hw s Hs. unfold close_node in *. destruct (node w) as [n|] eqn:Hn; [|by apply Hw]. cbn in *.
  destruct (Hw s Hs) as [?|[(n' & Hn' & Hi)|H]]; [left; set_solver| |right; by right].
  simplify_eq. left. rewrite Hi. set_solver.
Qed.

(** Taking the session of the current node in the section under the mutex. *)
Lemma take_session_accounted g p n w :
  routines w !! g = None -> node w = Some n -> held_by p = irc w !! n -> accounted w ->
  accounted (mkWorld (node w) (delete n (irc w)) (<[g := p]> (routines w)) (nodes w) (sessions w) (fields w) (opened w) (shut w)).
Proof.
  intros Hg Hn Hp Hw s Hs. destruct (Hw s Hs) as [?|[(n' & Hn' & Hi)|(g' & q & Hq & Hheld)]]; [by left| |].
  - simplify_eq. right; right. exists g, p. cbn. by rewrite lookup_insert_eq, Hp.
  - right; right. exists g', q. cbn. rewrite lookup_insert_ne by congruence. done.
Qed.

Lemma exec_accounted e w w' : accounted w -> replaces e w = false -> exec e w = Some w' -> accounted w'.
Proof.
  intros Hw Hr He. destruct e as [n o raw| |g|g|g|g s|g|g|g|g]; cbn [exec replaces] in *.
  - case_bool_decide as Hfresh; [done|]. pose proof (close_node_accounted w Hw) as Hc. pose proof (close_node_node w) as Hnone.
    destruct (newBrowserNode o raw) as [fs ns]. simplify_eq.
    intros s Hs. destruct (Hc s Hs) as [?|[(n' & Hn' & _)|H]]; [by left|congruence|right; by right].
  - simplify_eq. by apply close_node_accounted.
  - destruct (routines w !! g) eqn:Hg; [done|]. destruct (node w) as [n|] eqn:Hn; [|by simplify_eq]. simplify_eq.
    rewrite <-Hn. by apply take_session_accounted.
  - destruct (routines w !! g) as [[n old| | |]|] eqn:Hg; simplify_eq.
    apply (set_routine_accounted g (Replacing n old)); [by destruct old|destruct old; [by apply close_session_accounted|done]|].
    intros s Hs. cbn in Hs. subst old. left. cbn. set_solver.
  - destruct (routines w !! g) as [[]|] eqn:Hg; simplify_eq. by eapply set_routine_accounted; eauto.
  - destruct (routines w !! g) as [[|n| |]|] eqn:Hg; simplify_eq. case_bool_decide as Es; [done|]. simplify_eq.
    intros t Ht. cbn in Ht. destruct (decide (t = s)) as [->|Hts].
    + right; right. exists g, (Connected n s). cbn. by rewrite lookup_partial_alter_eq.
    + apply (set_routine_accounted g (Connecting n) (Some (Connected n s)) w Hg Hw); [done|cbn; set_solver].
  - destruct (routines w !! g) as [[| |n s|]|] eqn:Hg; simplify_eq.
    apply (set_routine_accounted g (Connected n s)); [done|by apply close_session_accounted|]. intros t [= <-]. left. cbn. set_solver.
  - destruct (routines w !! g) as [[| |n s|]|] eqn:Hg; [done|done| |done|done]. case_bool_decide as En; simplify_eq.
    + apply andb_false_iff in Hr as [?|Hnone]; [done|]. apply bool_decide_eq_false, eq_None_not_Some in Hnone.
      intros t Ht. destruct (Hw t Ht) as [?|[(n' & Hn' & Hi)|(g' & q & Hq & Hheld)]]; [by left|congruence|]. right. destruct (decide (g' = g)) as [->|Hne].
      * simplify_eq. left. exists n. cbn in *. simplify_eq. by rewrite lookup_insert_eq.
      * right. exists g', q. cbn. by rewrite lookup_partial_alter_ne.
    + eapply set_routine_accounted; eauto.
  - destruct (routines w !! g) eqn:Hg; [done|]. destruct (node w) as [n|] eqn:Hn; [|by simplify_eq].
    destruct (irc w !! n) as [s|] eqn:Hi; [|by simplify_eq]. simplify_eq. rewrite <-Hn. by apply take_session_accounted.
  - destruct (routines w !! g) as [[| | |s]|] eqn:Hg; simplify_eq.
    apply (set_routine_accounted g (Closing s)); [done|by apply close_session_accounted|]. intros t [= <-]. left. cbn. set_solver.
Qed.

Lemma execs_accounted es : forall w w', accounted w -> replacing es w = false -> execs es w = Some w' -> accounted w'.
Proof.
  induction es as [|e es IH]; intros w w' Hw Hr He; cbn [execs replacing] in *; [by simplify_eq|].
  apply orb_false_iff in Hr as [Hr1 Hr2]. destruct (exec e w) as [w1|] eqn:E; [|done]. cbn [mbind option_bind] in He.
  apply (IH w1); [by apply (exec_accounted e w)|done|done].
Qed.

Lemma left_open_app es e n r : left_open (es ++ [e]) n r <-> left_open es n r \/ left_open [e] n r.
Proof. unfold left_open. setoid_rewrite elem_of_app. naive_solver. Qed.

(** A step that is not a start leaves nothing open. *)
Lemma left_open_other es e n r : (forall o raw, e <> StartNode n o raw) -> left_open (es ++ [e]) n r <-> left_open es n r.
Proof.
  intros He. rewrite left_open_app. split; [|by left]. intros [?|(o & raw & ?%list_elem_of_singleton & _)]; [done|]. by destruct (He o raw).
Qed.

(** A step which touches neither the node nor what is open. *)
Lemma nodes_accounted_frame es e w w' :
  nodes_accounted es w -> (forall n o raw, e <> StartNode n o raw) ->
  node w' = node w -> nodes w' = nodes w -> fields w' = fields w -> opened w' = opened w -> nodes_accounted (es ++ [e]) w'.
Proof.
  intros [Hc Ho Hu] He E1 E2 E3 E4. assert (E : forall n, open_of w' n = open_of w n) by (intros n; unfold open_of; by rewrite E4).
  split; intros n; rewrite ?E1, ?E2, ?E3, E.
  - intros Hn. destruct (Hc n Hn) as (? & ? & ? & H). repeat split; [done..|]. intros r Hr%left_open_other; [by apply (H r)|done].
  - intros Hn r. rewrite left_open_other by done. by apply Ho.
  - apply Hu.
Qed.

Lemma close_node_nodes es w : nodes_accounted es w -> nodes_accounted es (close_node w).
Proof.
  intros [Hc Ho Hu]. unfold close_node. destruct (node w) as [m|] eqn:Em; [|by split; rewrite ?Em].
  destruct (Hc m eq_refl) as (Hin & Hopen & Hfull & Hleft).
  assert (E : forall n, open_of (mkWorld None (irc w) (routines w) (nodes w) (sessions w) ∅
    (<[m := fold_left open_step (close (fields w)) (open_of w m)]> (opened w))
    (match irc w !! m with Some s => {[s]} | None => ∅ end ∪ shut w)) n = if decide (n = m) then ∅ else open_of w n).
  { intros n. unfold open_of at 1. cbn [opened]. case_decide as Hnm; [subst|by rewrite lookup_insert_ne].
    rewrite lookup_insert_eq. cbn [default from_option]. rewrite Hopen, Hfull. by_computation. }
  split; intros n; cbn [node nodes fields]; rewrite ?E; [done| |].
  - intros _ r. case_decide; [subst; split; [set_solver|]; by intros ?%Hleft|]. apply Ho. congruence.
  - intros Hn. case_decide; [done|]. by apply Hu.
Qed.

Lemma started_complete o raw fs es : newBrowserNode o raw = (Some fs, es) -> fs = complete /\ open_after es = complete.
Proof.
  unfold newBrowserNode. destruct (certificate o && manager o && core_made o); [|done]. destruct (adapter_made o); [|done].
  destruct (vtun_made o); [|done]. destruct (attached o); [|done]. cbn [negb].
  pose proof (addManualPeers_opens o (splitList raw)) as H. destruct (addManualPeers o (splitList raw)) as [[] ps]; cbn [negb]; [|done].
  intros [= <- <-]. cbn [snd] in H. split; [by_computation|].
  unfold open_after. cbn [app fold_left]. rewrite !fold_left_app, H. by_computation.
Qed.

Lemma exec_nodes es e w w' : nodes_accounted es w -> exec e w = Some w' -> nodes_accounted (es ++ [e]) w'.
Proof.
  intros Hw He. destruct e as [m o raw| |g|g|g|g s|g|g|g|g]; cbn [exec] in He.
  1:{ case_bool_decide as Hfresh; [done|]. pose proof (close_node_nodes es w Hw) as [_ Ho Hu]. pose proof (close_node_node w) as Hnone.
    assert (Hnodes : nodes (close_node w) = nodes w) by (unfold close_node; by destruct (node w)).
    rewrite <-Hnodes in Hfresh. pose proof (Hu m Hfresh) as Hm. destruct (newBrowserNode o raw) as [fs ns] eqn:Hnew. simplify_eq.
    assert (Hbefore : forall r, ~ left_open es m r) by (intros r Hr; apply (Ho m) in Hr; [set_solver|congruence]).
    assert (Hthis : forall r, left_open [StartNode m o raw] m r <-> fs = None /\ r ∈ remains o).
    { intros r. split; [|intros [-> ?]; exists o, raw; rewrite Hnew; set_solver].
      intros (o' & raw' & [= <- <-]%list_elem_of_singleton & Hf & Hr). by rewrite Hnew in Hf. }
    assert (Hother : forall n, n <> m -> open_of (mkWorld (match fs with Some _ => Some m | None => node (close_node w) end) (irc (close_node w))
      (routines (close_node w)) ({[m]} ∪ nodes (close_node w)) (sessions (close_node w)) (default (fields (close_node w)) fs)
      (<[m := open_after ns]> (opened (close_node w))) (shut (close_node w))) n = open_of (close_node w) n)
      by (intros n Hn; unfold open_of; cbn [opened]; by rewrite lookup_insert_ne).
    split; intros n; cbn [node nodes fields].
    + destruct fs as [fs|]; [|congruence]. intros [= <-]. destruct (started_complete _ _ _ _ Hnew) as [-> E].
      split; [set_solver|]. unfold open_of; cbn [opened]. rewrite lookup_insert_eq. cbn. repeat split; [done..|].
      intros r. rewrite left_open_app, Hthis. intros [?|[? _]]; [by apply (Hbefore r)|done].
    + intros Hn r. destruct (decide (n = m)) as [->|Hnm].
      * destruct fs as [fs|]; [done|]. rewrite left_open_app, Hthis. unfold open_of; cbn [opened]. rewrite lookup_insert_eq. cbn [default from_option].
        rewrite (newBrowserNode_leaks _ _ _ Hnew). split; [by right|]. intros [?|[_ ?]]; [by destruct (Hbefore r)|done].
      * rewrite Hother, left_open_other by congruence. apply Ho. congruence.
    + intros [Hnm%not_elem_of_singleton Hn]%not_elem_of_union. rewrite Hother by done. by apply Hu. }
  1:{ simplify_eq. apply (nodes_accounted_frame es _ (close_node w)); try done. by apply close_node_nodes. }
  all: repeat case_match; simplify_eq; by eapply nodes_accounted_frame.
Qed.

Lemma execs_nodes es : forall h w w', nodes_accounted h w -> execs es w = Some w' -> nodes_accounted (h ++ es) w'.
Proof.
  induction es as [|e es IH]; intros h w w' Hw He; cbn [execs] in He; [simplify_eq; by rewrite app_nil_r|].
  destruct (exec e w) as [w1|] eqn:E; [|done]. change (h ++ e :: es) with (h ++ [e] ++ es). rewrite (assoc_L (++)).
  apply (IH _ w1); [by apply (exec_nodes h e w)|done].
Qed.

Lemma start_nodes : nodes_accounted [] start.
Proof. split; [done| |done]. intros n _ r. split; [set_solver|]. by intros (o & raw & ?%elem_of_nil & _). Qed.

(** C32: however the calls of the page interleave, when no call sets a session that
    replaces the session of another, every session that was opened is closed or is
    known to the node or to a call that runs; once the calls have returned and the
    node is stopped every session is closed, and what is still open of the nodes is
    exactly what the starts that failed left: the interface of a node whose adapter
    was not made, and the core, interface, adapter and network of one that could not
    be attached or to which a peer could not be added. *)
Theorem sessions_are_closed es w : execs es start = Some w -> replacing es start = false ->
  accounted w /\
  (forall w', routines w = ∅ -> exec StopNode w = Some w' ->
     sessions w' ⊆ shut w' /\
     forall n r, r ∈ open_of w' n <->
       exists o raw, StartNode n o raw ∈ es /\ (newBrowserNode o raw).1 = None /\ r ∈ remains o).
Proof.
  intros He Hr. assert (Hw : accounted w) by (apply (execs_accounted es start); [intros s; cbn; set_solver|done|done]).
  pose proof (execs_nodes es [] start w start_nodes He) as Hn. split; [done|]. intros w' Hq [= <-].
  pose proof (close_node_accounted w Hw) as Hw'. destruct (close_node_nodes es w Hn) as [_ Ho _]. pose proof (close_node_node w) as Hnone.
  assert (Hr' : routines (close_node w) = routines w) by (unfold close_node; by destruct (node w)). split.
  - intros s Hs. destruct (Hw' s Hs) as [?|[(n & Hc & _)|(g & p & Hg & _)]]; [done|congruence|]. by rewrite Hr', Hq in Hg.
  - intros n. apply Ho. congruence.
Qed.

(** A call that connects again closes the session of the first; the node is
    restarted while a third dials; the last start is refused its second peer. *)
Definition reconnects : list event :=
  [StartNode 1 refuses_second "ws://a"; ConnectIRC 1; CloseOld 1; Dialed 1 10; Commit 1;
   ConnectIRC 2; CloseOld 2; Dialed 2 11; Commit 2; DisconnectIRC 3; CloseSession 3;
   ConnectIRC 4; CloseOld 4; StartNode 2 refuses_second ""; Dialed 4 12; Commit 4; CloseSession 4; StartNode 3 refuses_second "ws://a,ws://b"].
Definition reconnected : world := default start (execs reconnects start).
Lemma sessions_are_closed_witness :
  execs reconnects start = Some reconnected /\ replacing reconnects start = false /\ routines reconnected = ∅ /\
  sessions (close_node reconnected) ⊆ shut (close_node reconnected) /\ Core ∈ open_of (close_node reconnected) 3.
Proof.
  assert (execs reconnects start = Some reconnected) as He by (vm_compute; reflexivity).
  assert (replacing reconnects start = false) as Hr by (vm_compute; reflexivity).
  assert (routines reconnected = ∅) as Hq by (vm_compute; reflexivity).
  destruct (sessions_are_closed reconnects reconnected He Hr) as [_ H]. destruct (H (close_node reconnected) Hq eq_refl) as [Hs Ho].
  refine (conj He (conj Hr (conj Hq (conj Hs (proj2 (Ho 3 Core) _))))).
  exists refuses_second, "ws://a,ws://b"%string. split; [unfold reconnects; repeat (apply list_elem_of_here || apply list_elem_of_further)|]. split; [reflexivity|by_computation].
Defined.

(** Two calls dial at the same time. *)
Definition overlapping : list event :=
  [StartNode 1 refuses_second ""; ConnectIRC 1; CloseOld 1; ConnectIRC 2; CloseOld 2; Dialed 1 10; Dialed 2 11; Commit 1; Commit 2; StopNode].

(** Two calls of connectIRC that overlap: the second to finish replaces the
    session of the first, which stays open after the node is stopped. *)
Theorem overlapping_connects_leak :
  let w := default start (execs overlapping start) in
  execs overlapping start = Some w /\ routines w = ∅ /\ node w = None /\ 10 ∈ sessions w /\ 10 ∉ shut w.
Proof. cbv zeta. split; [vm_compute; reflexivity|]. split; [vm_compute; reflexivity|]. split; [vm_compute; reflexivity|]. split; by_computation. Qed.
