(* ===== verification/Native.v ===== *)
(** * Native: TUN devices of the operating system (yggd/tunnative)

    Every file of the package is one implementation of [create]; its system calls
    are recorded in order, each with its success, which the operating system
    ([os]) decides from the calls before it.  A call owns what it opens until it
    is closed.  The layout of the C structures is left out, except for the
    addresses in them, which Darwin and FreeBSD read back from text. *)

From Stdlib Require Import Ascii.
From S2P Require Import Prelude Address GoStd Json.

(** ** The text of an IPv6 address (net.IP.String of 16 bytes that are no IPv4 address) *)

Fixpoint words (ip : bytes) : list Z := match ip with a :: b :: ip => be16 [a; b] :: words ip | _ => [] end.
(** In hexadecimal, without leading zeros. *)
Definition hex16 (x : Z) : chars :=
  (if 0x1000 <=? x then [hex_char (Z.shiftr x 12)] else []) ++ (if 0x100 <=? x then [hex_char (Z.land (Z.shiftr x 8) 15)] else []) ++
  (if 0x10 <=? x then [hex_char (Z.land (Z.shiftr x 4) 15)] else []) ++ [hex_char (Z.land x 15)].
Fixpoint leading_zeros (ws : list Z) : nat := match ws with 0 :: ws => S (leading_zeros ws) | _ => 0 end.
(** The first of the longest runs of at least two zeros: its start and length. *)
Fixpoint longest (i : nat) (ws : list Z) (best : option (nat * nat)) : option (nat * nat) :=
  match ws with
  | [] => best
  | _ :: ws' =>
      let l := leading_zeros ws in
      longest (S i) ws' (if (2 <=? l)%nat && match best with Some (_, n) => (n <? l)%nat | None => true end then Some (i, l) else best)
  end.
(** What is between the colons. *)
Definition pieces (ws : list Z) : list chars :=
  match longest 0 ws None with
  | None => map hex16 ws
  | Some (i, n) =>
      match i with O => [[]] | _ => map hex16 (take i ws) end ++ [[]] ++ match drop (i + n) ws with [] => [[]] | r => map hex16 r end
  end.
Fixpoint join (ps : list chars) : chars := match ps with [] => [] | [p] => p | p :: ps => p ++ ":"%char :: join ps end.
Definition IP_text (ip : bytes) : string := of_chars (join (pieces (words ip))).
Example IP_text_1 : IP_text [0x02; 0; 0xab; 0xcd; 0; 0; 0; 0; 0; 1; 0; 0; 0; 0; 0; 5] = "200:abcd::1:0:0:5"%string. Proof. reflexivity. Qed.
Example IP_text_2 : map IP_text [replicate 16 0; replicate 15 0 ++ [1]; 2 :: replicate 15 0] = ["::"; "::1"; "200::"]%string. Proof. reflexivity. Qed.

(** The text that the daemon passes on: the address with the length of its prefix. *)
Definition tun_address (ip : bytes) : string := String.append (IP_text ip) (String.append "/" (format_int (8 * Z.of_nat (length GetPrefix) - 1))).

(** ** Addresses in C structures *)

(** strconv.ParseUint(s, 16, 16), without the error. *)
Fixpoint parse_hex16 (l : chars) (n : Z) : Z :=
  match l with
  | [] => n
  | c :: l => match hex_digit c with
              | None => 0
              | Some d => if 65535 <? 16 * n + d then 65535 else parse_hex16 l (16 * n + d)
              end
  end.
(** Written in little-endian and read in big-endian order. *)
Definition swap16 (part : Z) : Z := be16 [u8 part; u8 (Z.shiftr part 8)].
(** [None]: parts[i] is out of range. *)
Fixpoint sin6Addr (n : nat) (parts : list string) : option (list Z) :=
  match n with
  | O => Some []
  | S n => match parts with [] => None | p :: parts => rest ← sin6Addr n parts; Some (swap16 (parse_hex16 (to_chars p) 0) :: rest) end
  end.
Definition parse_address (addr : string) : option (list Z) := sin6Addr 8 (Split (List.hd EmptyString (Split addr "/")) ":").
Definition prefixmask : Z := be16 [u8 0xFE00; u8 (Z.shiftr 0xFE00 8)].
(** The memory of an array of 16-bit integers on a little-endian machine. *)
Definition memory (ws : list Z) : bytes := concat (map (fun w => [u8 w; u8 (Z.shiftr w 8)]) ws).

(** ** System calls *)

Record Config := mkConfig { Name : string; Address : string; MTU : Z; FD : Z }.
Inductive call :=
| CreateTUN (name : string) (mtu : Z) | CreateTUNFromFile (mtu : Z) | CloseDevice
| Dup (fd : Z) | SetNonblock | CloseFile | Socket | CloseSocket
| LinkByName (name : string) | AddrAdd (addr : string) | LinkSetMTU (mtu : Z) | LinkSetUp
| AddAddress (name : string) (addr mask : bytes) | SetMTU (name : string) (mtu : Z) | Ifconfig (name addr : string)
| DoAsSystem | Uninstall | SetAddresses (addr : string) | DeleteAddress (ip : bytes) | IPInterface | SetInterface (mtu : Z).
#[global] Instance call_eq_dec : EqDecision call. Proof. solve_decision. Defined.
Local Abbreviation trace := (list (call * bool)).

Class os := mkOS {
  ok : trace -> call -> bool;
  device_Name : option string; device_MTU : option Z;
  is_native : bool;                                        (* the device is a tuntap.NativeTun *)
  ParseAddr : string -> bool;                              (* of netlink *)
  ParseCIDR : string -> option (bytes * (nat * nat));      (* the address, the size of the mask *)
  ParsePrefix : string -> option bytes;                    (* of netip *)
  already_exists : trace -> bool;                          (* the error of SetAddresses *)
  adapters : option (list (bool * list bytes))             (* whether it is up, its addresses *)
}.

Inductive outcome (A : Type) := Ret (a : A) | Fails | Panics.
Arguments Ret {A} a. Arguments Fails {A}. Arguments Panics {A}.
Definition M (A : Type) : Type := trace -> outcome A * trace.
Definition ret {A} (a : A) : M A := fun t => (Ret a, t).
Definition fails {A} : M A := fun t => (Fails, t).
Definition panics {A} : M A := fun t => (Panics, t).
Definition bind {A B} (m : M A) (k : A -> M B) : M B :=
  fun t => match m t with (Ret a, t) => k a t | (Fails, t) => (Fails, t) | (Panics, t) => (Panics, t) end.
Notation "x <~ m ; k" := (bind m (fun x => k)) (at level 100, m at next level, right associativity).
Definition get {A} (x : option A) : M A := match x with Some a => ret a | None => fails end.
Definition index {A} (x : option A) : M A := match x with Some a => ret a | None => panics end.

Section Calls.
Context `{o : os}.

(** A call and whether it succeeds; the same, where its error is returned. *)
Definition attempt (c : call) : M bool := fun t => (Ret (ok t c), t ++ [(c, ok t c)]).
Definition sys (c : call) : M unit := b <~ attempt c; if b then ret tt else fails.
(** A deferred call runs on errors and on panics. *)
Definition deferred {A} (c : call) (m : M A) : M A := fun t => let '(r, t) := m t in (r, t ++ [(c, ok t c)]).
Definition on_error {A} (c : call) (m : M A) : M A :=
  fun t => match m t with (Fails, t) => (Fails, t ++ [(c, ok t c)]) | r => r end.

Definition configured (addr : string) (configureAddress : M unit) : M unit :=
  if bool_decide (addr = EmptyString) then ret tt else on_error CloseDevice configureAddress.

End Calls.

Module Linux.
Section Calls.
Context `{o : os}.
Definition configureAddress (addr : string) (mtu : Z) : M unit :=
  if negb (ParseAddr addr) then fails
  else name <~ get device_Name; _ <~ sys (LinkByName name); _ <~ sys (AddrAdd addr);
       let effectiveMTU := match device_MTU with Some m => m | None => i64 mtu end in
       _ <~ sys (LinkSetMTU effectiveMTU); sys LinkSetUp.
Definition create (cfg : Config) : M unit :=
  let ifname := if bool_decide (Name cfg = "auto"%string) then String "000" EmptyString else Name cfg in
  _ <~ sys (CreateTUN ifname (i64 (MTU cfg))); configured (Address cfg) (configureAddress (Address cfg) (MTU cfg)).
End Calls.
End Linux.

Module Darwin.
Section Calls.
Context `{o : os}.
Definition configureAddress (addr : string) : M unit :=
  name <~ get device_Name; mtu <~ get device_MTU; _ <~ sys Socket;
  deferred CloseSocket
    (ws <~ index (parse_address addr);
     _ <~ sys (AddAddress name (memory ws) (memory (prefixmask :: replicate 7 0))); sys (SetMTU name (mtu mod 2 ^ 32))).
(** The file belongs to the device that is made from it. *)
Definition create (cfg : Config) : M unit :=
  let ifname := if bool_decide (Name cfg = "auto"%string) then "utun"%string else Name cfg in
  _ <~ (if 0 <? FD cfg then _ <~ sys (Dup (FD cfg)); _ <~ on_error CloseFile (sys SetNonblock); sys (CreateTUNFromFile (i64 (MTU cfg)))
        else sys (CreateTUN ifname (i64 (MTU cfg))));
  configured (Address cfg) (configureAddress (Address cfg)).
End Calls.
End Darwin.

Module FreeBSD.
Section Calls.
Context `{o : os}.
Definition configureAddress (addr : string) : M unit :=
  name <~ get device_Name; _ <~ sys Socket;
  deferred CloseSocket
    (ws <~ index (parse_address addr);
     set <~ attempt (AddAddress name (memory ws) []);
     if set : bool then ret tt else _ <~ attempt (Ifconfig name addr); ret tt).
Definition create (cfg : Config) : M unit :=
  _ <~ sys (CreateTUN (Name cfg) (i64 (MTU cfg))); configured (Address cfg) (configureAddress (Address cfg)).
End Calls.
End FreeBSD.

Module OpenBSD.
Section Calls.
Context `{o : os}.
(** net.CIDRMask *)
Definition CIDRMask (ones bits : nat) : bytes :=
  map (fun i => u8 (Z.shiftl 255 (8 - Z.of_nat (Nat.min 8 (ones - 8 * i))))) (seq 0 (bits / 8)).
(** The first 16 bytes; [None]: out of range. *)
Definition setSockaddr (addr : bytes) : option bytes := if (length addr <? 16)%nat then None else Some (take 16 addr).
Definition configureAddress (addr : string) : M unit :=
  name <~ get device_Name; mtu <~ get device_MTU; prefix <~ get (ParseCIDR addr); _ <~ sys Socket;
  deferred CloseSocket
    (ip <~ index (setSockaddr (fst prefix)); mask <~ index (setSockaddr (CIDRMask (fst (snd prefix)) (snd (snd prefix)))); sys (AddAddress name ip mask)).
Definition create (cfg : Config) : M unit :=
  _ <~ sys (CreateTUN (Name cfg) (i64 (MTU cfg))); configured (Address cfg) (configureAddress (Address cfg)).
End Calls.
End OpenBSD.

Module Other.
Section Calls.
Context `{o : os}.
Definition create (cfg : Config) : M unit := sys (CreateTUN (Name cfg) (i64 (MTU cfg))).
End Calls.
End Other.

Module Windows.
Section Calls.
Context `{o : os}.
(** The addresses to delete from the interfaces that are not up. *)
Definition stale (addresses : list bytes) : list bytes :=
  concat (map (fun a : bool * list bytes => if fst a then [] else base.filter (fun ip => ip ∈ addresses) (snd a)) (default [] adapters)).
Fixpoint each (l : list call) : M unit := match l with [] => ret tt | c :: l => _ <~ attempt c; each l end.
Definition cleanupAddressesOnDisconnectedInterfaces (addresses : list bytes) : M unit :=
  if bool_decide (addresses = []) then ret tt else each (map DeleteAddress (stale addresses)).
Definition adapter_name : M unit :=
  name <~ get device_Name; if bool_decide (name = EmptyString) then fails else if is_native then ret tt else fails.
Definition configureAddress (addr : string) : M unit :=
  _ <~ adapter_name; ip <~ get (ParsePrefix addr); set <~ attempt (SetAddresses addr);
  if set : bool then ret tt
  else fun t => if already_exists t then (_ <~ cleanupAddressesOnDisconnectedInterfaces [ip]; sys (SetAddresses addr)) t else fails t.
Definition configureMTU (mtu : Z) : M unit := _ <~ adapter_name; _ <~ sys IPInterface; sys (SetInterface (mtu mod 2 ^ 32)).
Definition create (cfg : Config) : M unit :=
  if 0 <? FD cfg then fails
  else
    let ifname := if bool_decide (Name cfg = "auto"%string) then "Yggdrasil"%string else Name cfg in
    _ <~ sys DoAsSystem;
    made <~ attempt (CreateTUN ifname (i64 (MTU cfg)));
    _ <~ (if made : bool then ret tt else _ <~ attempt Uninstall; sys (CreateTUN ifname (i64 (MTU cfg))));
    _ <~ (if bool_decide (Address cfg = EmptyString) then ret tt else configureAddress (Address cfg));
    configureMTU (MTU cfg).
End Calls.
End Windows.
(** ** What is open *)

Inductive handle := Device | File | Sock.
#[global] Instance handle_eq_dec : EqDecision handle. Proof. solve_decision. Defined.
#[global] Instance handle_countable : Countable handle.
Proof.
  refine (inj_countable' (fun h => match h with Device => 0 | File => 1 | Sock => 2 end)%nat
    (fun n => match n with 0 => Device | 1 => File | _ => Sock end)%nat _). by intros [].
Defined.
Definition open_step (s : gset handle) (e : call * bool) : gset handle :=
  match e with
  | (CreateTUN _ _, true) => {[Device]} ∪ s
  | (CreateTUNFromFile _, b) => (if b then {[Device]} else ∅) ∪ s ∖ {[File]}
  | (Dup _, true) => {[File]} ∪ s
  | (Socket, true) => {[Sock]} ∪ s
  | (CloseDevice, _) => s ∖ {[Device]}
  | (CloseFile, _) => s ∖ {[File]}
  | (CloseSocket, _) => s ∖ {[Sock]}
  | _ => s
  end.
Definition open_after (t : trace) : gset handle := fold_left open_step t ∅.

(** ** Theorems *)

Inductive platform := OnLinux | OnDarwin | OnFreeBSD | OnOpenBSD | OnOther | OnWindows.
Definition create `{o : os} (p : platform) : Config -> M unit :=
  match p with
  | OnLinux => Linux.create | OnDarwin => Darwin.create | OnFreeBSD => FreeBSD.create | OnOpenBSD => OpenBSD.create
  | OnOther => Other.create | OnWindows => Windows.create
  end.

(** *** What is opened is closed *)

(** A step that opens and closes nothing. *)
Definition neutral {A} (m : M A) : Prop := forall t, open_after (snd (m t)) = open_after t.
Lemma open_after_snoc t c b : open_after (t ++ [(c, b)]) = open_step (open_after t) (c, b).
Proof. unfold open_after. by rewrite fold_left_app. Qed.

Definition is_neutral (c : call) : bool :=
  match c with
  | CreateTUN _ _ | CreateTUNFromFile _ | CloseDevice | Dup _ | CloseFile | Socket | CloseSocket => false
  | _ => true
  end.

Section Neutral.
Context `{o : os}.

Lemma sys_step c t : sys c t = (if ok t c then Ret tt else Fails, t ++ [(c, ok t c)]).
Proof. unfold sys, bind, attempt. by destruct (ok t c). Qed.

Lemma neutral_ret {A} (a : A) : neutral (ret a). Proof. done. Qed.
Lemma neutral_fails {A} : neutral (@fails A). Proof. done. Qed.
Lemma neutral_get {A} (x : option A) : neutral (get x). Proof. by destruct x. Qed.
Lemma neutral_index {A} (x : option A) : neutral (index x). Proof. by destruct x. Qed.
Lemma neutral_attempt c : is_neutral c = true -> neutral (attempt c).
Proof. intros Hc t. cbn [attempt snd]. rewrite open_after_snoc. by destruct c. Qed.
Lemma neutral_bind {A B} (m : M A) (k : A -> M B) : neutral m -> (forall a, neutral (k a)) -> neutral (bind m k).
Proof.
  intros Hm Hk t. unfold bind. specialize (Hm t). destruct (m t) as [[a| |] t']; [|done|done]. rewrite Hk. exact Hm.
Qed.
Lemma neutral_sys c : is_neutral c = true -> neutral (sys c).
Proof. intros Hc. apply neutral_bind; [by apply neutral_attempt|]. by intros []. Qed.
Lemma neutral_if {A} (b : bool) (m m' : M A) : neutral m -> neutral m' -> neutral (if b then m else m').
Proof. by destruct b. Qed.

(** A socket that is opened for a step without effect is closed behind it. *)
Lemma neutral_socket {A} (m : M A) : neutral m -> forall t, Sock ∉ open_after t -> open_after (snd ((_ <~ sys Socket; deferred CloseSocket m) t)) = open_after t.
Proof.
  intros Hm t Ht. unfold bind. rewrite sys_step. destruct (ok t Socket) eqn:E; cbn [snd]; [|by rewrite open_after_snoc].
  unfold deferred. specialize (Hm (t ++ [(Socket, true)])). destruct (m _) as [r t']. cbn [snd] in *. rewrite open_after_snoc, Hm, open_after_snoc. cbn. set_solver.
Qed.
End Neutral.
#[export] Hint Resolve neutral_ret neutral_fails neutral_get neutral_index neutral_attempt neutral_bind neutral_sys neutral_if : ygg.

Section Create_theorems.
Context `{o : os}.

(** A step that leaves open what was open, when there was no socket. *)
Definition tidy {A} (m : M A) : Prop := forall t, Sock ∉ open_after t -> open_after (snd (m t)) = open_after t.
Lemma neutral_tidy {A} (m : M A) : neutral m -> tidy m. Proof. intros Hm t _. apply Hm. Qed.
Lemma tidy_get {A B} (x : option A) (k : A -> M B) : (forall a, tidy (k a)) -> tidy (bind (get x) k).
Proof. intros Hk. destruct x as [a|]; [apply (Hk a)|done]. Qed.
Lemma tidy_socket {A} (m : M A) : neutral m -> tidy (_ <~ sys Socket; deferred CloseSocket m).
Proof. exact (neutral_socket m). Qed.

Lemma Linux_tidy addr mtu : tidy (Linux.configureAddress addr mtu).
Proof. apply neutral_tidy. unfold Linux.configureAddress. destruct (negb (ParseAddr addr)); auto 10 with ygg. Qed.
Lemma Darwin_tidy addr : tidy (Darwin.configureAddress addr).
Proof. apply tidy_get; intros name. apply tidy_get; intros mtu. apply tidy_socket. auto 10 with ygg. Qed.
Lemma FreeBSD_tidy addr : tidy (FreeBSD.configureAddress addr).
Proof. apply tidy_get; intros name. apply tidy_socket. apply neutral_bind; [auto with ygg|]. intros ws. apply neutral_bind; [auto with ygg|]. intros []; auto 10 with ygg. Qed.
Lemma OpenBSD_tidy addr : tidy (OpenBSD.configureAddress addr).
Proof. apply tidy_get; intros name. apply tidy_get; intros mtu. apply tidy_get; intros prefix. apply tidy_socket. auto 10 with ygg. Qed.

(** The device that was made is configured, or closed again. *)
Definition owned (r : outcome unit * trace) : Prop := open_after (snd r) = match fst r with Fails => ∅ | _ => {[Device]} end.
Lemma configured_owns addr m t : tidy m -> open_after t = {[Device]} -> owned (configured addr m t).
Proof.
  intros Hm Ht. unfold owned, configured. case_bool_decide; [done|]. pose proof (Hm t ltac:(set_solver)) as H1. unfold on_error.
  destruct (m t) as [[| |] t']; cbn [fst snd] in *; [congruence| |congruence]. rewrite open_after_snoc, H1, Ht. by_computation.
Qed.

Lemma made_owns (mk m : M unit) addr t0 : owned (mk t0) -> tidy m -> owned ((_ <~ mk; configured addr m) t0).
Proof.
  intros H Hm. unfold bind, owned in *. destruct (mk t0) as [[| |] t]; cbn [fst snd] in *; [|done|done]. by apply configured_owns.
Qed.
Lemma CreateTUN_owned name mtu : owned (sys (CreateTUN name mtu) []).
Proof. unfold owned. rewrite sys_step. destruct (ok [] _); by_computation. Qed.

Lemma Darwin_made_owned cfg name : owned ((if 0 <? FD cfg then _ <~ sys (Dup (FD cfg)); _ <~ on_error CloseFile (sys SetNonblock); sys (CreateTUNFromFile (i64 (MTU cfg)))
        else sys (CreateTUN name (i64 (MTU cfg)))) []).
Proof.
  destruct (0 <? FD cfg); [|apply CreateTUN_owned]. unfold owned, bind, on_error. rewrite sys_step. destruct (ok [] (Dup _)); [|by_computation].
  rewrite sys_step. destruct (ok _ SetNonblock); [|by_computation]. rewrite sys_step. destruct (ok _ (CreateTUNFromFile _)); by_computation.
Qed.

(** On every system but Windows a device that is returned is all that is open,
    and when there is an error nothing is; a panic leaves the device open. *)
Theorem create_owns p cfg : p <> OnWindows ->
  open_after (snd (create p cfg [])) = match fst (create p cfg []) with Fails => ∅ | _ => {[Device]} end.
Proof.
  intros Hp. change (owned (create p cfg [])). destruct p; [| | | | |done]; cbn [create].
  - apply made_owns; [apply CreateTUN_owned|apply Linux_tidy].
  - apply made_owns; [apply Darwin_made_owned|apply Darwin_tidy].
  - apply made_owns; [apply CreateTUN_owned|apply FreeBSD_tidy].
  - apply made_owns; [apply CreateTUN_owned|apply OpenBSD_tidy].
  - apply CreateTUN_owned.
Qed.

Lemma Windows_neutral cfg :
  neutral (_ <~ (if bool_decide (Address cfg = EmptyString) then ret tt else Windows.configureAddress (Address cfg)); Windows.configureMTU (MTU cfg)).
Proof.
  assert (Hn : neutral Windows.adapter_name).
  { apply neutral_bind; [auto with ygg|]. intros name. case_bool_decide; [auto with ygg|]. destruct is_native; auto with ygg. }
  assert (He : forall l, Forall (fun c => is_neutral c = true) l -> neutral (Windows.each l)).
  { induction 1 as [|c l Hc Hl IH]; [done|]. cbn [Windows.each]. apply neutral_bind; [by apply neutral_attempt|done]. }
  apply neutral_bind; [|intros _; apply neutral_bind; auto 10 with ygg]. case_bool_decide; [auto with ygg|].
  apply neutral_bind; [done|]. intros _. apply neutral_bind; [auto with ygg|]. intros ip. apply neutral_bind; [auto with ygg|].
  intros []; [auto with ygg|]. intros t. destruct (already_exists t); [|done]. revert t. apply neutral_bind; [|auto with ygg].
  unfold Windows.cleanupAddressesOnDisconnectedInterfaces. case_bool_decide; [auto with ygg|]. apply He. apply Forall_forall. intros c.
  rewrite list_elem_of_fmap. by intros (a & -> & _).
Qed.

(** On Windows a device that was made stays open, also when its configuration
    fails and an error is returned. *)
Theorem Windows_leaks cfg name : FD cfg <= 0 -> Name cfg = name -> name <> "auto"%string ->
  ok [] DoAsSystem = true -> ok [(DoAsSystem, true)] (CreateTUN name (i64 (MTU cfg))) = true ->
  open_after (snd (Windows.create cfg [])) = {[Device]}.
Proof.
  intros Hfd <- Hauto H1 H2. unfold Windows.create. destruct (Z.ltb_spec 0 (FD cfg)); [lia|]. cbv zeta.
  rewrite bool_decide_false by done. unfold bind at 1. rewrite sys_step, H1. unfold bind at 1, attempt at 1. cbn [app]. rewrite H2.
  unfold bind at 1. cbn [ret]. by rewrite (Windows_neutral cfg).
Qed.
End Create_theorems.

(** *** The address on Darwin and FreeBSD *)

Lemma words_length ip n : length ip = (2 * n)%nat -> length (words ip) = n.
Proof.
  revert ip. induction n as [|n IH]; intros ip H; [by destruct ip|]. destruct ip as [|a [|b ip]]; cbn in H; try lia. cbn. f_equal. apply IH. lia.
Qed.
Lemma words_range ip : wf_bytes ip -> Forall (fun w => 0 <= w < 65536) (words ip).
Proof.
  enough (H : forall n ip, (length ip <= n)%nat -> wf_bytes ip -> Forall (fun w => 0 <= w < 65536) (words ip)) by eauto.
  induction n as [|n IH]; intros [|a [|b l]] Hl Hw; cbn in *; try constructor; try lia.
  - apply be16_range. apply Forall_cons_1 in Hw as [? [? _]%Forall_cons_1]. constructor; [done|constructor; [done|constructor]].
  - apply IH; [lia|]. by apply Forall_cons_1 in Hw as [_ [_ Hw]%Forall_cons_1].
Qed.

Lemma leading_zeros_spec ws : exists k, ws = replicate (leading_zeros ws) 0 ++ k.
Proof.
  induction ws as [|w ws [k IH]]; [by exists []|]. destruct (decide (w = 0)) as [->|H]; [exists k; cbn; by rewrite <-IH|].
  exists (w :: ws). by destruct w.
Qed.

(** The run that is left out is a run of at least two zeros. *)
Definition is_run (ws : list Z) (r : option (nat * nat)) : Prop :=
  match r with None => True | Some (i, n) => (2 <= n)%nat /\ exists a k, ws = a ++ replicate n 0 ++ k /\ length a = i end.
Lemma longest_run ws : forall pre best, is_run (pre ++ ws) best -> is_run (pre ++ ws) (longest (length pre) ws best).
Proof.
  induction ws as [|w ws IH]; intros pre best Hb; [done|]. cbn [longest]. replace (pre ++ w :: ws) with ((pre ++ [w]) ++ ws) in * by by rewrite <-(assoc_L (++)).
  replace (S (length pre)) with (length (pre ++ [w])) by (rewrite length_app; cbn; lia). apply IH.
  destruct (_ && _) eqn:E; [|done]. apply andb_true_iff in E as [E%Nat.leb_le _]. split; [done|].
  destruct (leading_zeros_spec (w :: ws)) as [k Hk]. exists pre, k. rewrite <-Hk. by rewrite <-(assoc_L (++)).
Qed.

Definition hex_char_ok (d : Z) : bool :=
  bool_decide (hex_digit (hex_char d) = Some d) && negb (Ascii.eqb (hex_char d) ":") && negb (Ascii.eqb (hex_char d) "/").
Lemma hex_char_spec d : 0 <= d < 16 -> hex_digit (hex_char d) = Some d /\ hex_char d <> ":"%char /\ hex_char d <> "/"%char.
Proof.
  intros Hd. assert (H : forallb hex_char_ok (seqZ 0 16) = true) by reflexivity. rewrite forallb_forall in H.
  assert (Hin : In d (seqZ 0 16)) by (apply list_elem_of_In, elem_of_seqZ; lia). apply H in Hin.
  unfold hex_char_ok in Hin. rewrite !andb_true_iff, bool_decide_eq_true in Hin. destruct Hin as [[H1 H2] H3].
  split; [done|]. split; intros E; [by rewrite E in H2|by rewrite E in H3].
Qed.

Lemma parse_hex16_digit d l n : 0 <= d < 16 -> 16 * n + d < 65536 -> parse_hex16 (hex_char d :: l) n = parse_hex16 l (16 * n + d).
Proof. intros Hd Hn. cbn [parse_hex16]. destruct (hex_char_spec d Hd) as [-> _]. by destruct (Z.ltb_spec 65535 (16 * n + d)); [lia|]. Qed.

Lemma hex16_spec x : 0 <= x < 65536 -> parse_hex16 (hex16 x) 0 = x /\ Forall (fun c => c <> ":"%char /\ c <> "/"%char) (hex16 x).
Proof.
  intros Hx. unfold hex16. rewrite !Z.shiftr_div_pow2 by lia. change 15 with (Z.ones 4). rewrite !Z.land_ones by lia.
  change (2 ^ 12) with 4096. change (2 ^ 8) with 256. change (2 ^ 4) with 16.
  set (d3 := x / 4096). set (d2 := (x / 256) mod 16). set (d1 := (x / 16) mod 16). set (d0 := x mod 16).
  assert (H3 : 0 <= d3 < 16) by (unfold d3; Z.to_euclidean_division_equations; lia).
  assert (H2 : 0 <= d2 < 16) by (unfold d2; Z.to_euclidean_division_equations; lia).
  assert (H1 : 0 <= d1 < 16) by (unfold d1; Z.to_euclidean_division_equations; lia).
  assert (H0 : 0 <= d0 < 16) by (unfold d0; Z.to_euclidean_division_equations; lia).
  assert (E : x = 4096 * d3 + 256 * d2 + 16 * d1 + d0) by (unfold d3, d2, d1, d0; Z.to_euclidean_division_equations; lia).
  clearbody d3 d2 d1 d0.
  destruct (Z.leb_spec 4096 x), (Z.leb_spec 256 x), (Z.leb_spec 16 x); try lia; cbn [app];
    (split; [rewrite !parse_hex16_digit by lia; cbn [parse_hex16]; lia|repeat constructor; by apply hex_char_spec]).
Qed.

(** The texts between separators are read back. *)
Lemma split_join ps : ps <> [] -> Forall (fun p => ":"%char ∉ p) ps -> split_chars (join ps) ":"%char [] = ps.
Proof.
  intros Hne. induction ps as [|p ps IH]; [done|]. intros [Hp Hps]%Forall_cons_1. destruct ps as [|q ps].
  - cbn [join]. rewrite <-(app_nil_r p) at 1. rewrite split_chars_run by done. cbn [split_chars]. by rewrite app_nil_r, rev_involutive.
  - change (join (p :: q :: ps)) with (p ++ ":"%char :: join (q :: ps)). rewrite split_chars_run by done. cbn [split_chars].
    rewrite decide_True by done. rewrite app_nil_r, rev_involutive, IH; [done|done|done].
Qed.
Lemma join_sep (c : ascii) ps : (c <> ":"%char) -> Forall (fun p => c ∉ p) ps -> c ∉ join ps.
Proof.
  intros Hc. induction ps as [|p ps IH]; [set_solver|]. intros [Hp Hps]%Forall_cons_1. destruct ps as [|q ps]; [done|].
  change (join (p :: q :: ps)) with (p ++ ":"%char :: join (q :: ps)). specialize (IH Hps).
  rewrite elem_of_app, elem_of_cons. tauto.
Qed.

Definition plain (p : chars) : Prop := (":"%char ∉ p) /\ ("/"%char ∉ p).
Lemma hex16_plain ws : Forall (fun w => 0 <= w < 65536) ws -> Forall plain (map hex16 ws).
Proof.
  intros H. apply Forall_forall. intros p. rewrite list_elem_of_fmap. intros (w & -> & Hw). rewrite Forall_forall in H.
  destruct (hex16_spec w (H w Hw)) as [_ Hf]. rewrite Forall_forall in Hf. split; intros Hin; by destruct (Hf _ Hin).
Qed.
Lemma plain_nil : plain []. Proof. split; set_solver. Qed.
Lemma pieces_plain ws : Forall (fun w => 0 <= w < 65536) ws -> Forall plain (pieces ws).
Proof.
  intros H. unfold pieces. destruct (longest 0 ws None) as [[i n]|]; [|by apply hex16_plain].
  apply Forall_app; split; [|apply Forall_app; split; [constructor; [apply plain_nil|constructor]|]].
  - destruct i; [constructor; [apply plain_nil|constructor]|]. by apply hex16_plain, Forall_take.
  - destruct (drop (i + n) ws) eqn:E; [constructor; [apply plain_nil|constructor]|]. apply hex16_plain. rewrite <-E. by apply Forall_drop.
Qed.
Lemma pieces_not_nil ws : ws <> [] -> pieces ws <> [].
Proof. unfold pieces. destruct (longest 0 ws None) as [[i n]|]; [destruct i; [done|]; intros _ H; by apply app_eq_nil in H as [_ H]|]. by destruct ws. Qed.

(** The parts that the code goes through. *)
Lemma parts_of_address ip : wf_bytes ip -> (1 < length ip)%nat ->
  Split (List.hd EmptyString (Split (tun_address ip) "/")) ":" = map of_chars (pieces (words ip)).
Proof.
  intros Hw Hl. assert (Hr := words_range ip Hw). assert (Hp := pieces_plain _ Hr).
  assert (Hne' : words ip <> []) by (destruct ip as [|a [|b ip]]; cbn in *; [lia|lia|done]).
  unfold tun_address, Split at 2. rewrite to_chars_app. change (to_chars (String.append "/" ?s)) with ("/"%char :: to_chars s).
  unfold IP_text. rewrite to_of_chars, split_chars_run by (apply join_sep; [done|]; eapply Forall_impl; [exact Hp|by intros p [_ ?]]).
  cbn [split_chars]. rewrite decide_True by done. cbn [map List.hd]. rewrite app_nil_r, rev_involutive. unfold Split. rewrite to_of_chars, split_join; [done|by apply pieces_not_nil|].
  eapply Forall_impl; [exact Hp|by intros p [? _]].
Qed.

Lemma sin6Addr_spec n : forall parts, sin6Addr n parts = if (n <=? length parts)%nat then Some (map (fun p => swap16 (parse_hex16 (to_chars p) 0)) (take n parts)) else None.
Proof.
  induction n as [|n IH]; intros [|p parts]; cbn [sin6Addr]; [done|done|done|]. rewrite IH. cbn [length take map]. by destruct (n <=? length parts)%nat eqn:E; cbn; rewrite E.
Qed.

(** What the parts say, an empty one being zero. *)
Definition values (ps : list chars) : list Z := map (fun p => swap16 (parse_hex16 p 0)) ps.
Lemma values_hex ws : Forall (fun w => 0 <= w < 65536) ws -> values (map hex16 ws) = map swap16 ws.
Proof. intros H. unfold values. rewrite map_map. apply map_ext_Forall. eapply Forall_impl; [exact H|]. intros w Hw. cbn. by destruct (hex16_spec w Hw) as [-> _]. Qed.

(** The runs that leave eight parts. *)
Definition benign (r : option (nat * nat)) : bool :=
  match r with None => true | Some (i, n) => (n =? 2)%nat && ((i =? 0)%nat || (i + n =? 8)%nat) end.
Lemma pieces_values ws : length ws = 8%nat -> Forall (fun w => 0 <= w < 65536) ws ->
  if benign (longest 0 ws None) then length (pieces ws) = 8%nat /\ values (pieces ws) = map swap16 ws else (length (pieces ws) < 8)%nat.
Proof.
  intros Hl Hw. pose proof (longest_run ws [] None I) as Hrun. cbn [app length] in Hrun. unfold pieces. set (r := longest 0 ws None) in *. clearbody r.
  destruct r as [[i n]|]; [|by cbn [benign]; rewrite length_map, values_hex]. destruct Hrun as (Hn & a & k & E & Ha).
  assert (Hd : drop (i + n) ws = k).
  { rewrite E, app_assoc, drop_app_length'; [done|]. rewrite length_app, length_replicate. lia. }
  assert (Ht : take i ws = a) by (rewrite E; by apply take_app_length'). rewrite Hd, Ht.
  assert (Hlen : (i + n + length k = 8)%nat) by (rewrite <-Hl, E, !length_app, length_replicate; lia).
  rewrite E in Hw. apply Forall_app in Hw as [Hwa [_ Hwk]%Forall_app]. unfold benign.
  destruct (Nat.eqb_spec n 2) as [->|Hn2]; cbn [andb].
  - destruct i as [|i].
    + destruct a; [|done]. destruct k as [|x k]; [cbn in Hlen; lia|]. cbn [Nat.eqb orb app map replicate] in *.
      split; [cbn; rewrite length_map; cbn in Hlen; lia|]. rewrite E. cbn [app map values]. f_equal. f_equal. by apply (values_hex (x :: k)).
    + cbn [Nat.eqb orb]. destruct (Nat.eqb_spec (S i + 2) 8) as [H8|H8].
      * destruct k; [|cbn in Hlen; lia]. rewrite E, !length_app, length_map, Ha. split; [cbn; lia|]. unfold values. rewrite !map_app.
        f_equal. by apply values_hex.
      * destruct k as [|x k]; [cbn in Hlen; lia|]. rewrite !length_app, !length_map, Ha. cbn in *. lia.
  - destruct i as [|i]; destruct k as [|x k]; rewrite ?length_app, ?length_map, ?Ha; cbn in *; rewrite ?length_map; lia.
Qed.

Lemma memory_words ip n : length ip = (2 * n)%nat -> wf_bytes ip -> memory (map swap16 (words ip)) = ip.
Proof.
  revert ip. induction n as [|n IH]; intros ip Hl Hw; [by destruct ip|]. destruct ip as [|a [|b ip]]; cbn in Hl; try lia.
  apply Forall_cons_1 in Hw as [Ha [Hb Hw]%Forall_cons_1]. cbn [words map]. unfold memory in *. cbn [map concat]. rewrite IH by (done || lia).
  assert (Hab : [u8 (swap16 (be16 [a; b])); u8 (Z.shiftr (swap16 (be16 [a; b])) 8)] = [a; b]).
  { unfold swap16. pose proof (be16_put_be16 a b [] Ha Hb) as E. unfold be16_put in E. injection E as E1 E2. rewrite E1, E2.
    pose proof (be16_put_be16 b a [] Hb Ha) as E. unfold be16_put in E. by injection E as -> ->. }
  by rewrite Hab.
Qed.

(** Of the text that the daemon passes, Darwin and FreeBSD put exactly the address
    in memory, unless zeros are left out of the text anywhere but for two groups at
    one of its ends: then they read a part that is not there, and panic. *)
Theorem address_read_back ip : wf_bytes ip -> length ip = 16%nat ->
  if benign (longest 0 (words ip) None) then exists ws, parse_address (tun_address ip) = Some ws /\ memory ws = ip
  else parse_address (tun_address ip) = None.
Proof.
  intros Hw Hl. assert (H8 : length (words ip) = 8%nat) by by apply words_length.
  pose proof (pieces_values (words ip) H8 (words_range ip Hw)) as Hp.
  unfold parse_address. rewrite parts_of_address by (done || lia). rewrite sin6Addr_spec, length_map.
  destruct (benign _).
  - destruct Hp as [-> Hv]. cbn [Nat.leb]. exists (map swap16 (words ip)). split; [|by apply (memory_words ip 8)]. f_equal.
    rewrite take_ge by (rewrite length_map; pose proof Hv as E; apply (f_equal length) in E; unfold values in E; rewrite !length_map in E; lia).
    rewrite <-Hv. unfold values. rewrite map_map. apply map_ext. intros p. by rewrite to_of_chars.
  - by destruct (Nat.leb_spec 8 (length (pieces (words ip)))); [lia|].
Qed.

(** The mask covers the prefix of the network. *)
Example prefixmask_is_7 : take 2 (memory [prefixmask]) = [0xFE; 0]. Proof. reflexivity. Qed.

(** *** What a device that is returned has *)

Section Configured.
Context `{o : os}.

Lemma bind_ret {A B} (m : M A) (k : A -> M B) t b t' : bind m k t = (Ret b, t') -> exists a t1, m t = (Ret a, t1) /\ k a t1 = (Ret b, t').
Proof. unfold bind. destruct (m t) as [[a| |] t1]; [|done|done]. by exists a, t1. Qed.
Lemma sys_ret c t t' : sys c t = (Ret tt, t') -> ok t c = true /\ t' = t ++ [(c, true)].
Proof. rewrite sys_step. destruct (ok t c) eqn:E; [|done]. by intros [= <-]. Qed.
Lemma configured_ret addr m t t' : addr <> EmptyString -> configured addr m t = (Ret tt, t') -> m t = (Ret tt, t').
Proof. intros Ha. unfold configured, on_error. rewrite bool_decide_false by done. by destruct (m t) as [[| |] ?]. Qed.

(** A device that Linux returns has the address, and is up with the MTU that it
    says it has, or else with that of the configuration. *)
Theorem Linux_configured cfg t : Address cfg <> EmptyString -> Linux.create cfg [] = (Ret tt, t) ->
  exists ifname name, device_Name = Some name /\ ParseAddr (Address cfg) = true /\
  t = [(CreateTUN ifname (i64 (MTU cfg)), true); (LinkByName name, true); (AddrAdd (Address cfg), true);
       (LinkSetMTU (default (i64 (MTU cfg)) device_MTU), true); (LinkSetUp, true)].
Proof.
  intros Ha H. unfold Linux.create in H. cbv zeta in H. apply bind_ret in H as ([] & t1 & [_ ->]%sys_ret & H).
  apply configured_ret in H; [|done]. unfold Linux.configureAddress in H. destruct (ParseAddr (Address cfg)); cbn [negb] in H; [|done].
  apply bind_ret in H as (name & t2 & Hn & H). destruct device_Name as [n|]; [|done]. injection Hn as -> <-.
  apply bind_ret in H as ([] & t2 & [_ ->]%sys_ret & H). apply bind_ret in H as ([] & t2 & [_ ->]%sys_ret & H). cbv zeta in H.
  apply bind_ret in H as ([] & t2 & [_ ->]%sys_ret & [_ ->]%sys_ret). eexists _, name. split; [done|]. split; [done|]. by destruct device_MTU.
Qed.

(** Steps that do not panic. *)
Definition steady {A} (m : M A) : Prop := forall t, fst (m t) <> Panics.
Lemma steady_get {A} (x : option A) : steady (get x). Proof. by destruct x. Qed.
Lemma steady_bind {A B} (m : M A) (k : A -> M B) : steady m -> (forall a, steady (k a)) -> steady (bind m k).
Proof. intros Hm Hk t. unfold bind. specialize (Hm t). destruct (m t) as [[a| |] t']; [apply Hk|done|done]. Qed.
Lemma steady_sys c : steady (sys c).
Proof. intros t. rewrite sys_step. by destruct (ok t c). Qed.
Lemma steady_deferred {A} c (m : M A) : steady m -> steady (deferred c m).
Proof. intros Hm t. unfold deferred. specialize (Hm t). by destruct (m t). Qed.
Lemma steady_on_error {A} c (m : M A) : steady m -> steady (on_error c m).
Proof. intros Hm t. unfold on_error. specialize (Hm t). by destruct (m t) as [[| |] ?]. Qed.
Lemma steady_configured addr m : steady m -> steady (configured addr m).
Proof. intros Hm. unfold configured. case_bool_decide; [done|]. by apply steady_on_error. Qed.
Hint Resolve steady_get steady_bind steady_sys steady_deferred steady_on_error steady_configured : ygg.
Lemma Darwin_steady cfg ws : parse_address (Address cfg) = Some ws -> steady (Darwin.create cfg).
Proof.
  intros Hws. unfold Darwin.create. cbv zeta. apply steady_bind; [destruct (0 <? FD cfg); auto 10 with ygg|]. intros _.
  apply steady_configured. unfold Darwin.configureAddress. apply steady_bind; [auto with ygg|]. intros name. apply steady_bind; [auto with ygg|]. intros mtu.
  apply steady_bind; [auto with ygg|]. intros _. apply steady_deferred. apply steady_bind; [by rewrite Hws|]. auto with ygg.
Qed.

(** C39: with the text of the daemon, a device that Darwin returns has exactly the
    address with the mask of the network, and no zeros are left out of the text but
    for two groups at one of its ends; it panics, with the device open, only for
    another text. *)
Theorem Darwin_address cfg ip : wf_bytes ip -> length ip = 16%nat -> Address cfg = tun_address ip ->
  match Darwin.create cfg [] with
  | (Ret _, t) => benign (longest 0 (words ip) None) = true /\ exists name, (AddAddress name ip (0xFE :: replicate 15 0), true) ∈ t
  | (Fails, _) => True
  | (Panics, t) => benign (longest 0 (words ip) None) = false /\ open_after t = {[Device]}
  end.
Proof.
  intros Hw Hl Ha. assert (Hne : Address cfg <> EmptyString).
  { rewrite Ha. unfold tun_address. intros E. apply (f_equal to_chars) in E. rewrite to_chars_app in E. by apply app_eq_nil in E as [_ E]. }
  pose proof (address_read_back ip Hw Hl) as Hp. rewrite <-Ha in Hp.
  pose proof (made_owns _ _ (Address cfg) [] (Darwin_made_owned cfg (if bool_decide (Name cfg = "auto"%string) then "utun"%string else Name cfg)) (Darwin_tidy (Address cfg))) as Hown.
  change (owned (Darwin.create cfg [])) in Hown. unfold owned in Hown.
  destruct (Darwin.create cfg []) as [[[]| |] t] eqn:H; cbn [fst snd] in Hown; [|done|].
  - unfold Darwin.create in H. cbv zeta in H. apply bind_ret in H as ([] & t1 & _ & H). apply configured_ret in H; [|done].
    unfold Darwin.configureAddress in H. apply bind_ret in H as (name & t2 & _ & H). apply bind_ret in H as (mtu & t3 & _ & H).
    apply bind_ret in H as ([] & t4 & _ & H). unfold deferred in H.
    destruct ((ws <~ index _; _) t4) as [r t5] eqn:E. injection H as -> <-. apply bind_ret in E as (ws & t6 & E1 & E).
    destruct (benign _); [|by rewrite Hp in E1]. destruct Hp as (ws' & Hp & Hm). rewrite Hp in E1. injection E1 as <- <-.
    apply bind_ret in E as ([] & t7 & [_ ->]%sys_ret & [_ ->]%sys_ret). split; [done|]. exists name. rewrite Hm. set_solver.
  - split; [|done]. destruct (benign _); [|done]. destruct Hp as (ws & Hp & _). destruct (Darwin_steady cfg ws Hp []). by rewrite H.
Qed.
End Configured.

(** A system on which every call succeeds but those that [bad] says. *)
Definition demo_os (bad : call -> bool) : os :=
  mkOS (fun _ c => negb (bad c)) (Some "tun0"%string) (Some 1500) true (fun _ => true) (fun _ => None) (fun _ => Some [0x02]) (fun _ => false) None.
Definition demo_ip : bytes := 0x02 :: 1 :: replicate 12 0xab ++ [0; 0].
Definition demo_config (ip : bytes) : Config := mkConfig "auto" (tun_address ip) 65535 0.

Lemma create_owns_witness :
  OnLinux <> OnWindows /\
  open_after (snd (create (o := demo_os (fun c => bool_decide (c = LinkSetUp))) OnLinux (demo_config demo_ip) [])) = ∅.
Proof. split; [done|]. exact (create_owns (o := demo_os (fun c => bool_decide (c = LinkSetUp))) OnLinux (demo_config demo_ip) ltac:(done)). Defined.
Lemma Windows_leaks_witness :
  let run := Windows.create (o := demo_os (fun c => bool_decide (c = SetAddresses (tun_address demo_ip)))) (mkConfig "ygg" (tun_address demo_ip) 1500 0) [] in
  fst run = Fails /\ open_after (snd run) = {[Device]}.
Proof.
  cbv zeta. split; [vm_compute; reflexivity|].
  exact (Windows_leaks (o := demo_os (fun c => bool_decide (c = SetAddresses (tun_address demo_ip)))) (mkConfig "ygg" (tun_address demo_ip) 1500 0) "ygg"
    ltac:(done) eq_refl ltac:(done) eq_refl eq_refl).
Defined.
Lemma Linux_configured_witness :
  exists ifname, snd (Linux.create (o := demo_os (fun _ => false)) (demo_config demo_ip) []) =
    [(CreateTUN ifname 65535, true); (LinkByName "tun0", true); (AddrAdd (tun_address demo_ip), true); (LinkSetMTU 1500, true); (LinkSetUp, true)].
Proof.
  assert (Linux.create (o := demo_os (fun _ => false)) (demo_config demo_ip) [] = (Ret tt, snd (Linux.create (o := demo_os (fun _ => false)) (demo_config demo_ip) []))) as H
    by (vm_compute; reflexivity).
  destruct (Linux_configured (o := demo_os (fun _ => false)) (demo_config demo_ip) _ ltac:(done) H) as (ifname & name & Hn & _ & E).
  injection Hn as <-. exists ifname. exact E.
Defined.

(** Three groups of zeros are left out of the text of this address. *)
Definition sparse_ip : bytes := [0x02; 1] ++ replicate 6 0 ++ replicate 8 0xab.
Lemma wf_by_test ip : forallb (fun b => (0 <=? b) && (b <? 256)) ip = true -> wf_bytes ip.
Proof. rewrite forallb_forall. intros H. apply Forall_forall. intros b Hb%list_elem_of_In%H. unfold wf_byte. lia. Qed.
Lemma address_read_back_witness :
  wf_bytes sparse_ip /\ length sparse_ip = 16%nat /\ parse_address (tun_address sparse_ip) = None.
Proof.
  assert (wf_bytes sparse_ip) as Hw by (by apply wf_by_test). split; [done|]. split; [done|]. exact (address_read_back sparse_ip Hw eq_refl).
Defined.
Lemma Darwin_address_witness :
  let run := Darwin.create (o := demo_os (fun _ => false)) (demo_config sparse_ip) [] in
  fst run = Panics /\ open_after (snd run) = {[Device]}.
Proof.
  cbv zeta. split; [vm_compute; reflexivity|]. assert (wf_bytes sparse_ip) as Hw by (by apply wf_by_test).
  exact (proj2 (Darwin_address (o := demo_os (fun _ => false)) (demo_config sparse_ip) sparse_ip Hw eq_refl eq_refl)).
Defined.
