(* ===== verification/Startup.v ===== *)
(** * Startup: the components as the daemon configures them (yggd/yggd/main.go)

    What the daemon makes of the sections of the configuration that belong to
    autopeering, the jumper and multicast discovery, down to the state in which
    each component is left; and that the core is a peer manager as autopeering
    expects it ([core_peers_laws]).  time.ParseDuration, regexp.Compile and the
    BLAKE2b hash are parameters. *)

From Stdlib Require Import Ascii.
From S2P Require Import Prelude GoStd Handshake Transport Links Core Json Multicast Jumper Fetcher Autopeer Config.

(** ** Autopeering and the jumper *)

Section Managers.
Context (ParseDuration : string -> option Z) (Decode : bytes -> option Document) (builtinData : bytes).

(** [None]: a duration is not one, which is a panic. *)
Definition start_autopeer (defaultNetwork : option Fetcher.Network) (c : AutoPeerConfig) : option (Fetcher.Fetcher * Autopeer.Manager * Autopeer.task) :=
  fetchInterval ← ParseDuration (Config.FetchInterval c);
  checkInterval ← ParseDuration (ap_CheckInterval c);
  let fetcher := NewFetcher fetchInterval in
  let fetcher := fst (fst (SetDefaultNetwork Decode builtinData defaultNetwork fetcher)) in
  let fetcher := fst (fst (SetSources Decode builtinData (Sources c) fetcher)) in
  let m := Autopeer.NewManager in
  let m := fst (SetPeerManager true m) in
  let m := fst (Autopeer.SetConfig (Autopeer.mkConfig checkInterval (Config.MinimumConnected c) (Config.MinimumConnectedFromFetch c)
                                      (Config.Countries c) (Config.TransportSchemes c)) m) in
  let '(m, t) := if ap_Enabled c then Autopeer.Start true m else (m, Autopeer.Finished) in
  Some (fetcher, m, t).

Definition make_jumper (c : JumperConfig) : option Jumper.Manager :=
  check ← ParseDuration (j_CheckInterval c); timeout ← ParseDuration (Config.LinkTimeout c);
  Some (Jumper.NewManager (Jumper.mkConfig check timeout)).
End Managers.

(** *** The core as the peer manager of autopeering

    A table of links is what the interface of the manager is about; a peer is listed
    under its URL without query, fragment and user. *)

Section CorePeers.
Context (url_String : URL -> string) (ParseDuration : string -> option Z) (tm : option Transport.Manager).
Context (iwpeers : list DebugPeer) (counters : gmap Conn (linkConn * Z)) (now : Z).

Definition core_listed (u : URL) : string := url_String (urlForLinkInfo u).

#[local] Instance core_peers : PeerManager Table.links := {|
  Autopeer.PeerURIs w := Core.PeerURIs (Core.GetPeers iwpeers counters now (map_to_list (Table._links w)) w);
  Autopeer.AddPeer u w :=
    let '(err, w) := Core.AddPeer url_String ParseDuration tm u EmptyString w in (match err with None => true | Some _ => false end, w)
|}.

Lemma core_lists w v : Table.reach w ->
  v ∈ Autopeer.PeerURIs w <-> v <> EmptyString /\ exists i, i ∈ dom (Table._links w) /\ uri i = v.
Proof.
  intros Hr. cbn [Autopeer.PeerURIs core_peers].
  destruct (GetPeers_spec iwpeers counters now (map_to_list (Table._links w)) w) as (_ & -> & _).
  { intros [i p] Hip%elem_of_map_to_list. by destruct (TableTheorems.inv_owned _ (TableTheorems.links_inv_reach _ Hr) _ _ Hip). }
  rewrite list_elem_of_filter, list_elem_of_In, in_map_iff. split; intros [Hv H]; (split; [done|]).
  - destruct H as ([i p] & <- & Hip). rewrite <-list_elem_of_In, elem_of_map_to_list in Hip. exists i. split; [by apply elem_of_dom_2 in Hip|done].
  - destruct H as (i & [p Hip]%elem_of_dom & <-). exists (i, p). split; [done|]. by rewrite <-list_elem_of_In, elem_of_map_to_list.
Qed.

#[local] Instance core_peers_laws : PeerManagerLaws Table.links core_listed Table.reach.
Proof.
  split. intros u w Hr. cbn [Autopeer.AddPeer core_peers]. unfold Core.AddPeer.
  destruct (links_add url_String ParseDuration tm u EmptyString linkTypePersistent w) as [err w'] eqn:E. cbn [fst snd].
  destruct (links_add_table (fun _ => None) _ _ _ _ _ _ _ _ _ E) as [Hsub Hin].
  assert (Hr' : Table.reach w').
  { unfold links_add in E. destruct (ensureSchemeSupported _ _); [by injection E as _ <-|].
    destruct (add_options _ _) as [o|]; [|by injection E as _ <-].
    eapply (Table.reach_step w (Table.EAdd (link_info url_String u EmptyString) linkTypePersistent (ToUpper (Scheme u)) (maxBackoff o))); [done|].
    cbn. by rewrite E. }
  split; [done|]. split.
  - intros v. rewrite !core_lists by done. intros (Hv & i & Hi & Hu). split; [done|]. exists i. auto.
  - intros Hok Hne. apply core_lists; [done|]. split; [done|]. exists (link_info url_String u EmptyString). split; [|done].
    apply Hin. left. by destruct err.
Qed.
End CorePeers.

(** ** Multicast discovery *)

Section Options.
Context {N : Type}.                                                      (* networks *)

Inductive MulticastOption :=
| OptMulticastInterface (i : MulticastInterface) | OptGroupAddress (addr : string)
| OptProtocolVersion (Major Minor : Z) | OptNetwork (n : option N).

(** The interfaces are the keys of a map; two whose expressions were compiled
    apart are different keys. *)
Record multicastConfig := mkMulticastConfig {
  mc_interfaces : list MulticastInterface; mc_groupAddr : string; mc_version : Z * Z; mc_network : N
}.
Definition _applyOption (c : multicastConfig) (opt : MulticastOption) : multicastConfig :=
  match opt with
  | OptMulticastInterface i => mkMulticastConfig (mc_interfaces c ++ [i]) (mc_groupAddr c) (mc_version c) (mc_network c)
  | OptGroupAddress a => mkMulticastConfig (mc_interfaces c) a (mc_version c) (mc_network c)
  | OptProtocolVersion major minor => mkMulticastConfig (mc_interfaces c) (mc_groupAddr c) (major, minor) (mc_network c)
  | OptNetwork None => c
  | OptNetwork (Some n) => mkMulticastConfig (mc_interfaces c) (mc_groupAddr c) (mc_version c) n
  end.
Definition default_multicast (native : N) : multicastConfig := mkMulticastConfig [] "[ff02::114]:9001" (0, 0) native.
Definition apply_multicast (native : N) (opts : list MulticastOption) : multicastConfig := fold_left _applyOption opts (default_multicast native).

(** regexp.MustCompile; [None] is a panic. *)
Context (Compile : string -> option (string -> bool)).

Definition interface_option (i : MulticastInterfaceConfig) : option MulticastInterface :=
  re ← Compile (Config.Regex i);
  Some (mkMulticastInterface re (Config.Beacon i) (Listen_on i) (Port i) (u8 (Config.Priority i)) (Config.Password i)).
Definition multicast_options (defaultNetwork : option N) (l : list MulticastInterfaceConfig) : option (list MulticastOption) :=
  ifs ← mapM interface_option l;
  Some (map OptMulticastInterface ifs ++ [OptProtocolVersion ProtocolVersionMajor ProtocolVersionMinor] ++
        match defaultNetwork with Some n => [OptNetwork (Some n)] | None => [] end).
End Options.
Arguments MulticastOption : clear implicits.
Arguments multicastConfig : clear implicits.

(** ** Theorems *)

Section Managers_theorems.
Context (ParseDuration : string -> option Z) (Decode : bytes -> option Document) (builtinData : bytes).

(** What the sections of the fetcher leave alone. *)
Lemma reconcile_keeps f : let f' := fst (reconcileLocked Decode builtinData f) in
  sourceOrder f' = sourceOrder f /\ Fetcher.defaultNetwork f' = Fetcher.defaultNetwork f /\ interval f' = interval f /\ Fetcher.active f' = Fetcher.active f /\
  sourcePeers f' = (if bool_decide (BuiltinSource ∈ sourceOrder f)
                    then match getBuiltinPeers Decode builtinData with Some ps => <[BuiltinSource := ps]> | None => delete BuiltinSource end
                    else delete BuiltinSource) (base.filter (fun '(source, _) => keep_source f source = true) (sourcePeers f)).
Proof.
  cbv zeta. unfold reconcileLocked, rebuildPeersLocked. set (sp := if bool_decide _ then _ else _).
  destruct (bool_decide (peers _ = _)); cbn; subst sp; (split_and!; try done);
    destruct (bool_decide (BuiltinSource ∈ _)); try destruct (getBuiltinPeers Decode builtinData); done.
Qed.

(** The start leaves the autopeering manager with the configured sources, network,
    interval and limits, without peers but those that are built in, and running
    exactly when it is enabled. *)
Theorem autopeer_as_configured n c f m t : start_autopeer ParseDuration Decode builtinData n c = Some (f, m, t) ->
  sourceOrder f = Sources c /\ Fetcher.defaultNetwork f = n /\ Fetcher.active f = false /\
  (exists i, ParseDuration (Config.FetchInterval c) = Some i /\ interval f = fix_interval i) /\
  (forall s ps, sourcePeers f !! s = Some ps -> s = BuiltinSource /\ BuiltinSource ∈ Sources c /\ getBuiltinPeers Decode builtinData = Some ps) /\
  Autopeer.IsStarted m = ap_Enabled c /\ (t = StartFetcher <-> ap_Enabled c = true) /\ has_core m = true /\
  0 < Autopeer.CheckInterval (Autopeer.config m) /\
  Autopeer.MinimumConnected (Autopeer.config m) = Config.MinimumConnected c /\
  Autopeer.MinimumConnectedFromFetch (Autopeer.config m) = Config.MinimumConnectedFromFetch c /\
  Autopeer.Countries (Autopeer.config m) = Config.Countries c /\ Autopeer.TransportSchemes (Autopeer.config m) = Config.TransportSchemes c.
Proof.
  unfold start_autopeer. destruct (ParseDuration (Config.FetchInterval c)) as [i|] eqn:Ei; [|done]. cbn [mbind option_bind].
  destruct (ParseDuration (ap_CheckInterval c)) as [k|]; [|done]. cbn [mbind option_bind]. cbv zeta.
  assert (Hd : exists f, fst (fst (SetSources Decode builtinData (Sources c) (fst (fst (SetDefaultNetwork Decode builtinData n (NewFetcher i)))))) = f /\
    sourceOrder f = Sources c /\ Fetcher.defaultNetwork f = n /\ Fetcher.active f = false /\ interval f = fix_interval i /\
    (forall s ps, sourcePeers f !! s = Some ps -> s = BuiltinSource /\ BuiltinSource ∈ Sources c /\ getBuiltinPeers Decode builtinData = Some ps)).
  { eexists. split; [reflexivity|]. unfold SetSources, SetDefaultNetwork, reconciled.
    pose proof (reconcile_keeps (set_networks n (sourceNetworks (NewFetcher i)) (NewFetcher i))) as H1. cbv zeta in H1.
    destruct (reconcileLocked Decode builtinData (set_networks _ _ _)) as [f1 c1]. cbn [fst] in *. destruct H1 as (_ & H1b & H1c & H1d & H1e).
    pose proof (reconcile_keeps (set_sources (Sources c) f1)) as H2. cbv zeta in H2.
    destruct (reconcileLocked Decode builtinData (set_sources _ _)) as [f2 c2]. cbn [fst] in *. destruct H2 as (H2a & H2b & H2c & H2d & H2e).
    cbn in H1b, H1c, H1d, H1e, H2a, H2b, H2c, H2d. rewrite H2a, H2b, H2c, H2d. split_and!; [done|done|done|done|].
    assert (He : sourcePeers f1 = ∅) by (rewrite H1e, bool_decide_false by apply not_elem_of_nil; by rewrite map_filter_empty, delete_empty).
    intros s ps. rewrite H2e. cbn [set_sources sourceOrder sourcePeers]. rewrite He, map_filter_empty.
    destruct (bool_decide (BuiltinSource ∈ Sources c)) eqn:Hb; [apply bool_decide_eq_true in Hb|by rewrite delete_empty, lookup_empty]. destruct (getBuiltinPeers Decode builtinData) as [bs|].
    - rewrite lookup_insert_Some, lookup_empty. intros [[<- <-]|[_ ?]]; done.
    - by rewrite delete_empty, lookup_empty. }
  destruct Hd as (f0 & -> & H1 & H2 & H3 & H4 & H5). destruct (ap_Enabled c); intros [= <- <- <-]; (split_and!; [done|done|done|by exists i|done|..]); try done;
    cbn; unfold fix_config; cbn [Autopeer.CheckInterval]; destruct (Z.leb_spec k 0); cbn; done || lia.
Qed.
End Managers_theorems.

Section Multicast_theorems.
Context {N : Type} (Compile : string -> option (string -> bool)).

Lemma apply_options_split (c : multicastConfig N) ifs : fold_left _applyOption (map OptMulticastInterface ifs) c =
  mkMulticastConfig (mc_interfaces c ++ ifs) (mc_groupAddr c) (mc_version c) (mc_network c).
Proof.
  revert c. induction ifs as [|i ifs IH]; intros c; cbn [map fold_left]; [rewrite app_nil_r; by destruct c|].
  rewrite IH. cbn. by rewrite <-(assoc_L (++)).
Qed.

(** The interface of the module that an entry of the configuration stands for. *)
Definition configures (i : MulticastInterfaceConfig) (m : MulticastInterface) : Prop :=
  Compile (Config.Regex i) = Some (Multicast.Regex m) /\ Multicast.Beacon m = Config.Beacon i /\ Multicast.Listen m = Listen_on i /\
  cfg_Port m = Port i /\ Multicast.Priority m = Config.Priority i mod 256 /\ Multicast.Password m = Config.Password i.

(** The daemon starts multicast discovery with its protocol version, which is
    never refused, on the default network when there is one, with the interfaces of
    the configuration in order, their priorities modulo 256; it runs exactly when
    one of them announces or listens and the socket was opened. *)
Theorem multicast_as_configured native d l opts sock_ok : multicast_options Compile d l = Some opts ->
  let c := apply_multicast (N := N) native opts in
  mc_version c = (ProtocolVersionMajor, ProtocolVersionMinor) /\ mc_groupAddr c = "[ff02::114]:9001"%string /\ mc_network c = default native d /\
  Forall2 configures l (mc_interfaces c) /\
  fst (Multicast._start (mc_version c) (mc_interfaces c) sock_ok Multicast.empty) = sock_ok || negb (existsb (fun i => Config.Beacon i || Listen_on i) l) /\
  running (Multicast.New (mc_version c) (mc_interfaces c) sock_ok) = sock_ok && existsb (fun i => Config.Beacon i || Listen_on i) l.
Proof.
  unfold multicast_options. destruct (mapM (interface_option Compile) l) as [ifs|] eqn:E; [|done]. cbn [mbind option_bind]. intros Ho.
  assert (Hc : apply_multicast native (map OptMulticastInterface ifs ++ [OptProtocolVersion ProtocolVersionMajor ProtocolVersionMinor] ++
            match d with Some n => [OptNetwork (Some n)] | None => [] end) =
          mkMulticastConfig ifs "[ff02::114]:9001" (ProtocolVersionMajor, ProtocolVersionMinor) (default native d)).
  { unfold apply_multicast. rewrite fold_left_app, apply_options_split. by destruct d. }
  assert (Hf : Forall2 configures l ifs).
  { apply mapM_Some in E. eapply Forall2_impl; [exact E|]. intros i m H. unfold interface_option in H. destruct (Compile (Config.Regex i)) eqn:Er; [|done].
    cbn [mbind option_bind] in H. injection H as <-. by unfold configures. }
  cbv zeta. apply (inj Some) in Ho. rewrite Ho in Hc. rewrite Hc. cbn [mc_version mc_groupAddr mc_network mc_interfaces]. split_and!; [done|done|done|done|..].
  all: unfold Multicast.New, Multicast._start; cbn [running Multicast.empty]; rewrite bool_decide_false by done;
    assert (existsb (fun i => Multicast.Beacon i || Multicast.Listen i) ifs = existsb (fun i => Config.Beacon i || Listen_on i) l) as ->
      by (clear -Hf; induction Hf as [|i m l ifs (_ & Hb & Hl & _) Hf IH]; [done|]; cbn; by rewrite IH, Hb, Hl);
    destruct (existsb _ l), sock_ok; done.
Qed.
End Multicast_theorems.

(** Which of the configurations an interface uses that match it is left to the
    order in which a range over the map of them runs: any of them may be it. *)
Theorem any_matching_configuration blake2b public i cfgs k c info :
  cfgs !! k = Some c -> make_info blake2b public i c = Some info -> allowed_flags (if_Flags i) = true ->
  _getAllowedInterfaces blake2b public cfgs (Some [(i, [k])]) = {[if_Name i := info]}.
Proof.
  intros Hk Hinfo Hf. assert (Hr : ranged cfgs [k] = c :: cfgs) by (unfold ranged; cbn; by rewrite Hk).
  unfold _getAllowedInterfaces. cbn [fold_left]. rewrite Hf, Hr. cbn [first_info]. by rewrite Hinfo.
Qed.

Definition demo_ParseDuration (s : string) : option Z := if bool_decide (s = "1m"%string) then Some 60000000000 else None.
Definition demo_autopeer : AutoPeerConfig := mkAutoPeerConfig true ["http://peers"]%string "1m" "1m" 2 1 ["germany"]%string [].
Lemma autopeer_as_configured_witness :
  exists f m t, start_autopeer demo_ParseDuration (fun _ => None) [] None demo_autopeer = Some (f, m, t) /\ t = StartFetcher /\ Autopeer.IsStarted m = true.
Proof.
  assert (exists f m t, start_autopeer demo_ParseDuration (fun _ => None) [] None demo_autopeer = Some (f, m, t)) as (f & m & t & H)
    by (eexists _, _, _; vm_compute; reflexivity).
  exists f, m, t. split; [done|].
  destruct (autopeer_as_configured demo_ParseDuration (fun _ => None) [] None demo_autopeer f m t H) as (_ & _ & _ & _ & _ & Hs & [_ Ht] & _).
  split; [by apply Ht|done].
Defined.

Definition demo_interfaces : list MulticastInterfaceConfig := [mkMulticast "en.*" true false 9001 300 ""; mkMulticast ".*" false true 0 1 "p"].
Lemma multicast_as_configured_witness :
  exists opts, multicast_options (N := Z) (fun _ => Some (fun _ => true)) None demo_interfaces = Some opts /\
  map Multicast.Priority (mc_interfaces (apply_multicast 0 opts)) = [44; 1] /\
  running (Multicast.New (mc_version (apply_multicast 0 opts)) (mc_interfaces (apply_multicast 0 opts)) true) = true.
Proof.
  assert (exists opts, multicast_options (N := Z) (fun _ => Some (fun _ => true)) None demo_interfaces = Some opts) as [opts H] by (eexists; reflexivity).
  exists opts. split; [done|].
  destruct (multicast_as_configured (fun _ => Some (fun _ => true)) 0 None demo_interfaces opts true H) as (_ & _ & _ & Hf & _ & Hr). split; [|done].
  remember (mc_interfaces (apply_multicast 0 opts)) as l eqn:El. clear El Hr H.
  inversion Hf as [|? m1 ? ? (_ & _ & _ & _ & Hp1 & _) Hf1]; subst. inversion Hf1 as [|? m2 ? ? (_ & _ & _ & _ & Hp2 & _) Hf2]; subst.
  inversion Hf2; subst. cbn. by rewrite Hp1, Hp2.
Defined.

Definition demo_match (password : string) : MulticastInterface := mkMulticastInterface (fun _ => true) true true 0 0 password.
Definition demo_lan : NetworkInterface := mkNetworkInterface "lan" 51 None.
Lemma any_matching_configuration_witness :
  exists info info', ii_password info = "a"%string /\ ii_password info' = "b"%string /\
  _getAllowedInterfaces (fun _ _ => [1]) (replicate 32 7) [demo_match "a"; demo_match "b"] (Some [(demo_lan, [0%nat])]) = {["lan"%string := info]} /\
  _getAllowedInterfaces (fun _ _ => [1]) (replicate 32 7) [demo_match "a"; demo_match "b"] (Some [(demo_lan, [1%nat])]) = {["lan"%string := info']}.
Proof.
  eexists _, _. split; [|split; [|split; [eapply (any_matching_configuration _ _ demo_lan _ 0); reflexivity|eapply (any_matching_configuration _ _ demo_lan _ 1); reflexivity]]];
    reflexivity.
Defined.
