(* ===== verification/WebStatic.v ===== *)
(** * WebStatic: the pages of the web interface (ygglib/admin/web.go)

    [spaFileServer] over http.FileServer of the standard library: which file a
    request gets, and where a redirect sends the browser.  The file system is a
    parameter: whether a name is there, and is a directory. *)

From Stdlib Require Import Ascii.
From S2P Require Import Prelude GoStd Json.

(** ** path.Clean and path.Base, for paths that begin with a slash *)

Fixpoint clean (l acc : list string) : list string :=
  match l with
  | [] => rev acc
  | s :: l => if bool_decide (s = ""%string) || bool_decide (s = "."%string) then clean l acc
              else if bool_decide (s = ".."%string) then clean l (tail acc) else clean l (s :: acc)
  end.
Definition segments (p : string) : list string := clean (Split p "/") [].
Definition path_Clean (p : string) : string := String.append "/" (String.concat "/" (segments p)).
Fixpoint drop_slashes (l : chars) : chars := match l with "/"%char :: l => drop_slashes l | _ => l end.
Definition path_Base (p : string) : string :=
  match rev (drop_slashes (rev (to_chars p))) with
  | [] => "/"
  | l => of_chars (match cut_last l "/" with Some (_, base) => base | None => l end)
  end.
Example path_Clean_1 : map path_Clean ["/"; "/a//b/."; "/../a/../b"]%string = ["/"; "/a/b"; "/b"]%string. Proof. reflexivity. Qed.
Example path_Base_1 : map path_Base ["/"; "/a/b//"; "/a/."]%string = ["/"; "b"; "."]%string. Proof. reflexivity. Qed.

(** ** http.FileServer *)

(** Where a redirect goes: to the directory of the page (./), to the page with a
    slash, or to it without one. *)
Inductive redirect := Here | WithSlash | WithoutSlash.
Inductive response := MethodNotAllowed | NotFound | NotAFile | Redirect (r : redirect) | File (name : string) | Listing (name : string).

Section Server.
(** The name of a file below the root, with the root itself as "."; [Some true]
    is a directory. *)
Context (stat : string -> option bool).

Definition ends_with_slash (p : string) : bool := HasSuffix p "/".
(** The name that http.FS asks for. *)
Definition fs_name (name : string) : string := if bool_decide (name = "/"%string) then "." else TrimPrefix name "/".

Definition FileServer (p : string) : response :=
  let upath := if HasPrefix p "/" then p else String.append "/" p in
  let name := path_Clean upath in
  if HasSuffix upath "/index.html" then Redirect Here
  else match stat (fs_name name) with
       | None => NotFound
       | Some true =>
           if negb (ends_with_slash upath) then Redirect WithSlash
           else let index := fs_name (String.append (TrimSuffix name "/") "/index.html") in
                match stat index with
                | Some false => File index
                | Some true => Listing index
                | None => Listing (fs_name name)
                end
       | Some false =>
           if ends_with_slash upath
           then if bool_decide (path_Base upath ∈ ["/"; "."]%string) then NotAFile else Redirect WithoutSlash
           else File (fs_name name)
       end.

(** ** The handler *)

Definition requested_name (p : string) : string :=
  let name := TrimPrefix (path_Clean (String.append "/" p)) "/" in
  if bool_decide (name = EmptyString) then "index.html" else name.

Definition spaFileServer (m : string) (p : string) : response :=
  if negb (bool_decide (m ∈ ["GET"; "HEAD"]%string)) then MethodNotAllowed
  else FileServer (if bool_decide (stat (requested_name p) = None) then "/index.html" else p).

(** ** A browser that follows redirects *)

Definition directory_of (p : string) : string :=
  match cut_last (to_chars p) "/" with Some (d, _) => String.append (of_chars d) "/" | None => "/" end.
Definition resolve (p : string) (r : redirect) : string :=
  match r with Here => directory_of p | WithSlash => String.append p "/" | WithoutSlash => TrimSuffix p "/" end.
(** [None]: still redirected after [n] requests. *)
Fixpoint follow (n : nat) (p : string) : option response :=
  match n with
  | O => None
  | S n => match spaFileServer "GET" p with Redirect r => follow n (resolve p r) | resp => Some resp end
  end.
End Server.

(** ** Theorems *)

(** A segment that names something in its directory. *)
Definition proper (s : string) : Prop := s <> ""%string /\ s <> "."%string /\ s <> ".."%string /\ "/"%char ∉ to_chars s.

Lemma clean_proper l : forall acc, Forall (fun s => "/"%char ∉ to_chars s) l -> Forall proper acc -> Forall proper (clean l acc).
Proof.
  induction l as [|s l IH]; intros acc Hl Ha; cbn [clean]; [by apply Forall_rev|]. apply Forall_cons in Hl as [Hs Hl].
  destruct (bool_decide (s = ""%string)) eqn:E1; cbn [orb]; [by apply IH|]. destruct (bool_decide (s = "."%string)) eqn:E2; [by apply IH|].
  apply bool_decide_eq_false in E1, E2. destruct (bool_decide (s = ".."%string)) eqn:E3; apply IH; try done.
  - by destruct Ha.
  - constructor; [|done]. by apply bool_decide_eq_false in E3.
Qed.

Lemma segments_proper p : Forall proper (segments p).
Proof.
  apply clean_proper; [|constructor]. unfold Split. apply Forall_map. apply Forall_forall. intros x Hx. cbn. rewrite to_of_chars.
  by eapply split_chars_no_sep; [apply not_elem_of_nil|].
Qed.

(** Proper segments are left alone. *)
Lemma clean_id l acc : Forall proper l -> clean l acc = rev acc ++ l.
Proof.
  intros H. revert acc. induction H as [|s l (H1 & H2 & H3 & _) Hl IH]; intros acc; cbn [clean]; [by rewrite app_nil_r|].
  rewrite !bool_decide_false by done. cbn [orb]. rewrite IH. cbn [rev]. by rewrite <-(assoc_L (++)).
Qed.

Lemma to_chars_cons c s : to_chars (String c s) = c :: to_chars s.
Proof. done. Qed.
Lemma Split_slash p : Split (String.append "/" p) "/" = ""%string :: Split p "/".
Proof. reflexivity. Qed.
Lemma segments_slash p : segments (String.append "/" p) = segments p.
Proof. reflexivity. Qed.

Lemma segments_concat l : l <> [] -> Forall proper l -> segments (String.concat "/" l) = l.
Proof.
  intros Hne H. unfold segments. change "/"%string with (String "/" EmptyString). rewrite Split_concat; [by rewrite clean_id|done|].
  eapply Forall_impl; [exact H|by intros s (_ & _ & _ & ?)].
Qed.

Lemma TrimPrefix_slash s : TrimPrefix (String.append "/" s) "/" = s.
Proof. transitivity (of_chars (to_chars s)); [reflexivity|apply of_to_chars]. Qed.

(** The name of what is at these segments below the root. *)
Definition name_below (l : list string) : string := match l with [] => "." | _ => String.concat "/" l end.
Lemma fs_name_clean p : fs_name (path_Clean p) = name_below (segments p).
Proof.
  unfold fs_name, path_Clean. destruct (segments p) as [|s l] eqn:E; [done|]. pose proof (segments_proper p) as H. rewrite E in H.
  apply Forall_cons in H as [(Hs & _) _]. rewrite bool_decide_false.
  - by rewrite TrimPrefix_slash.
  - intros Hc. injection Hc as Hc. destruct l; cbn in Hc; [done|]. by destruct s.
Qed.

Lemma requested_name_clean p : requested_name p = match segments p with [] => "index.html"%string | l => String.concat "/" l end.
Proof.
  unfold requested_name, path_Clean. rewrite segments_slash. cbv zeta. rewrite TrimPrefix_slash.
  destruct (segments p) as [|s l] eqn:E; [done|]. pose proof (segments_proper p) as H. rewrite E in H.
  apply Forall_cons in H as [(Hs & _) _]. rewrite bool_decide_false; [done|]. destruct l; cbn; [done|]. by destruct s.
Qed.

Lemma concat_snoc l x : l <> [] -> String.concat "/" (l ++ [x]) = String.append (String.concat "/" l) (String.append "/" x).
Proof.
  intros Hne. induction l as [|y l IH]; [done|]. destruct l as [|z l]; [done|].
  change (String.concat "/" ((y :: z :: l) ++ [x])) with (String.append y (String.append "/" (String.concat "/" ((z :: l) ++ [x])))).
  change (String.concat "/" (y :: z :: l)) with (String.append y (String.append "/" (String.concat "/" (z :: l)))).
  rewrite IH by done. apply to_chars_inj. rewrite !to_chars_app. by rewrite <-!(assoc_L (++)).
Qed.

(** A text that ends in another character than a slash. *)
Lemma TrimSuffix_slash s r c : to_chars s = r ++ [c] -> c <> "/"%char -> TrimSuffix s "/" = s.
Proof. intros E Hc. unfold TrimSuffix. rewrite E, rev_app_distr. cbn. by rewrite decide_False by congruence. Qed.
Lemma concat_ends l : l <> [] -> Forall proper l -> exists r c, to_chars (String.concat "/" l) = r ++ [c] /\ c <> "/"%char.
Proof.
  intros Hne H. destruct l as [|x l _] using rev_ind; [done|]. apply Forall_app in H as [_ [(Hx & _ & _ & Hs) _]%Forall_cons].
  destruct (to_chars x) as [|c k _] eqn:Ek using rev_ind; [by destruct x|]. assert (c <> "/"%char) as Hc by set_solver.
  destruct l as [|y l]; [by exists k, c|]. rewrite concat_snoc, !to_chars_app, Ek by done.
  exists (to_chars (String.concat "/" (y :: l)) ++ to_chars "/" ++ k), c. split; [|done]. by rewrite <-!(assoc_L (++)).
Qed.

Lemma index_name p : fs_name (String.append (TrimSuffix (path_Clean p) "/") "/index.html") = String.concat "/" (segments p ++ ["index.html"%string]).
Proof.
  unfold path_Clean. pose proof (segments_proper p) as H. destruct (segments p) as [|s l] eqn:E; [reflexivity|].
  destruct (concat_ends (s :: l)) as (r & c & Er & Hc); [done|done|].
  rewrite (TrimSuffix_slash _ ("/"%char :: r) c) by (rewrite ?to_chars_app, ?Er; done). rewrite concat_snoc by done.
  unfold fs_name. rewrite bool_decide_false; [|intros Hx; apply (f_equal (fun s => length (to_chars s))) in Hx; rewrite !to_chars_app, !length_app in Hx;
    change (length (to_chars "/")) with 1%nat in Hx; change (length (to_chars "/index.html")) with 11%nat in Hx; lia].
  change (String.append (String.append "/" ?x) ?y) with (String.append "/" (String.append x y)). apply TrimPrefix_slash.
Qed.

Section Theorems.
Context (stat : string -> option bool).

(** The name that a response tells the file system to open. *)
Definition opened (r : response) : option string := match r with File n | Listing n => Some n | _ => None end.

(** Nothing outside of the root is served: a request, whatever its path, gets only
    what is there under a name without empty, "." and ".." segments, or the root. *)
Theorem stays_inside m p n : opened (spaFileServer stat m p) = Some n ->
  (n = "."%string \/ Forall proper (Split n "/")) /\ is_Some (stat n).
Proof.
  unfold spaFileServer. destruct (negb _); [done|]. set (q := if bool_decide _ then _ else p). clearbody q. clear p.
  unfold FileServer. set (u := if HasPrefix q "/" then q else String.append "/" q). clearbody u. cbv zeta.
  destruct (HasSuffix u "/index.html"); [done|]. rewrite fs_name_clean. pose proof (segments_proper u) as Hp.
  assert (Hsplit : forall l, l <> [] -> Forall proper l -> Split (String.concat "/" l) "/" = l).
  { intros l Hne H. change "/"%string with (String "/" EmptyString). apply Split_concat; [done|]. eapply Forall_impl; [exact H|by intros s (_ & _ & _ & ?)]. }
  assert (Hname : forall l, Forall proper l -> name_below l = "."%string \/ Forall proper (Split (name_below l) "/")).
  { intros [|s l] Hl; [by left|right]. unfold name_below. by rewrite Hsplit. }
  assert (Hindex : Forall proper (Split (String.concat "/" (segments u ++ ["index.html"%string])) "/")).
  { assert (Hall : Forall proper (segments u ++ ["index.html"%string])).
    { apply Forall_app. split; [done|]. constructor; [|constructor]. repeat (split; [done|]). by_computation. }
    rewrite Hsplit; [exact Hall|by intros [_ ?]%app_eq_nil|exact Hall]. }
  specialize (Hname _ Hp). set (name := name_below (segments u)) in *. rewrite index_name.
  destruct (stat name) as [[]|] eqn:En; [| |done].
  - destruct (negb (ends_with_slash u)); [done|]. destruct (stat (String.concat _ _)) as [[]|] eqn:Ei; intros [= <-]; rewrite ?En, ?Ei; eauto.
  - destruct (ends_with_slash u); [by case_bool_decide|]. intros [= <-]. rewrite En. eauto.
Qed.
End Theorems.

Lemma split_chars_app l sep k acc : split_chars (l ++ sep :: k) sep acc = split_chars l sep acc ++ split_chars k sep [].
Proof.
  revert acc. induction l as [|c l IH]; intros acc; cbn [app split_chars]; [by rewrite decide_True|].
  destruct (decide (c = sep)); cbn; by rewrite IH.
Qed.
Lemma clean_last l acc : clean (l ++ [""%string]) acc = clean l acc.
Proof. revert acc. induction l as [|s l IH]; intros acc; cbn; [done|]. destruct (_ || _); [done|]. destruct (bool_decide _); apply IH. Qed.

(** A slash at the end changes nothing. *)
Lemma segments_slash_end p : segments (String.append p "/") = segments p.
Proof.
  unfold segments, Split. rewrite to_chars_app. change (to_chars "/") with ("/"%char :: []). rewrite split_chars_app, map_app. apply clean_last.
Qed.

Definition path_of (l : list string) : string := String.append "/" (String.concat "/" l).
Lemma segments_path_of l : l <> [] -> Forall proper l -> segments (path_of l) = l.
Proof. intros. unfold path_of. rewrite segments_slash. by apply segments_concat. Qed.

Lemma directory_of_path_of l b : l <> [] -> proper b -> directory_of (path_of (l ++ [b])) = String.append (path_of l) "/".
Proof.
  intros Hne (_ & _ & _ & Hb). unfold directory_of, path_of. rewrite concat_snoc by done.
  assert (E : to_chars (String.append "/" (String.append (String.concat "/" l) (String.append "/" b))) = to_chars (String.append "/" (String.concat "/" l)) ++ "/"%char :: to_chars b).
  { rewrite !to_chars_app, <-(assoc_L (++)). done. }
  rewrite (proj2 (cut_last_Some _ _ _ _) (conj E Hb)). by rewrite of_to_chars.
Qed.
Lemma directory_of_slash p : directory_of (String.append p "/") = String.append p "/".
Proof.
  unfold directory_of. assert (E : to_chars (String.append p "/") = to_chars p ++ "/"%char :: []) by by rewrite to_chars_app.
  rewrite (proj2 (cut_last_Some _ _ _ _) (conj E (not_elem_of_nil _))). by rewrite of_to_chars.
Qed.

(** The path of a page whose name is not index.html does not end like one. *)
Lemma not_an_index l : l <> [] -> Forall proper l -> last l <> Some "index.html"%string -> HasSuffix (path_of l) "/index.html" = false.
Proof.
  intros Hne Hp Hl. apply not_true_iff_false. intros [r E]%HasSuffix_spec. apply Hl.
  assert (Hs : Split (path_of l) "/" = ""%string :: l).
  { unfold path_of. rewrite Split_slash. f_equal. change "/"%string with (String "/" EmptyString). apply Split_concat; [done|].
    eapply Forall_impl; [exact Hp|by intros s (_ & _ & _ & ?)]. }
  unfold Split in Hs. rewrite E in Hs. change (to_chars "/index.html") with ("/"%char :: to_chars "index.html") in Hs. rewrite split_chars_app, map_app in Hs.
  change (map of_chars (split_chars (to_chars "index.html") "/" [])) with ["index.html"%string] in Hs.
  apply (f_equal last) in Hs. rewrite last_snoc in Hs. destruct l; [done|]. by rewrite Hs.
Qed.

Section Serving.
Context (stat : string -> option bool).

(** A file that is there is served under its path. *)
Theorem file_is_served l : l <> [] -> Forall proper l -> last l <> Some "index.html"%string ->
  stat (String.concat "/" l) = Some false -> spaFileServer stat "GET" (path_of l) = File (String.concat "/" l).
Proof.
  intros Hne Hp Hlast Hs. unfold spaFileServer. rewrite bool_decide_true by set_solver. cbn [negb].
  assert (Hr : requested_name (path_of l) = String.concat "/" l) by (rewrite requested_name_clean, segments_path_of by done; by destruct l).
  rewrite Hr, Hs. rewrite bool_decide_false by done. unfold FileServer. assert (HasPrefix (path_of l) "/" = true) as -> by (by apply HasPrefix_spec; eexists; unfold path_of; rewrite to_chars_app).
  cbv zeta. rewrite not_an_index by done. rewrite fs_name_clean, segments_path_of by done.
  assert (name_below l = String.concat "/" l) as -> by by destruct l. rewrite Hs.
  assert (ends_with_slash (path_of l) = false) as ->; [|done].
  apply not_true_iff_false. intros [r E]%HasSuffix_spec. destruct (concat_ends l Hne Hp) as (r' & c & E' & Hc).
  unfold path_of in E. rewrite to_chars_app, E', (assoc_L (++)) in E. change (to_chars "/") with ["/"%char] in E at 2. by apply app_inj_tail in E as [_ ->].
Qed.

(** What is not there is answered with a redirect to the directory of its path. *)
Lemma missing_redirects p : stat (requested_name p) = None -> spaFileServer stat "GET" p = Redirect Here.
Proof. intros H. unfold spaFileServer. rewrite bool_decide_true by set_solver. cbn [negb]. by rewrite H, bool_decide_true. Qed.

(** A page that is not there gets the start page when it is asked for directly
    below the root. *)
Theorem fallback_reaches_index a n : proper a -> stat a = None -> stat "." = Some true -> stat "index.html" = Some false ->
  follow stat (S (S n)) (path_of [a]) = Some (File "index.html").
Proof.
  intros Ha H Hroot Hindex. cbn [follow]. rewrite missing_redirects.
  - assert (directory_of (path_of [a]) = "/"%string) as Hd.
    { unfold directory_of, path_of. destruct Ha as (_ & _ & _ & Ha). assert (E : to_chars (String.append "/" (String.concat "/" [a])) = [] ++ "/"%char :: to_chars a) by done.
      by rewrite (proj2 (cut_last_Some _ _ _ _) (conj E Ha)). }
    cbn [resolve]. rewrite Hd. unfold spaFileServer. cbn [negb]. rewrite bool_decide_true by set_solver. cbn [negb].
    change (requested_name "/") with "index.html"%string. rewrite Hindex. rewrite bool_decide_false by done.
    unfold FileServer. change (HasPrefix "/" "/") with true. cbv zeta iota. change (HasSuffix "/" "/index.html") with false. cbv iota.
    change (fs_name (path_Clean "/")) with "."%string. rewrite Hroot. change (ends_with_slash "/") with true. cbn [negb].
    change (fs_name (String.append (TrimSuffix (path_Clean "/") "/") "/index.html")) with "index.html"%string. by rewrite Hindex.
  - rewrite requested_name_clean, segments_path_of; [done|done|by constructor].
Qed.

(** A page below a directory that is not there gets redirects without end: the file
    server turns the path of the start page into its directory, which the browser
    takes to be that of the page it asked for. *)
Theorem fallback_loops l b n : l <> [] -> Forall proper l -> proper b ->
  stat (String.concat "/" l) = None -> stat (String.concat "/" (l ++ [b])) = None -> follow stat n (path_of (l ++ [b])) = None.
Proof.
  intros Hne Hl Hb Hdir Hpage. assert (Hloop : forall n, follow stat n (String.append (path_of l) "/") = None).
  { intros k. induction k as [|k IH]; [done|]. cbn [follow]. rewrite missing_redirects; [cbn [resolve]; by rewrite directory_of_slash|].
    rewrite requested_name_clean, segments_slash_end, segments_path_of by done. by destruct l. }
  destruct n as [|n]; [done|]. cbn [follow]. rewrite missing_redirects; [cbn [resolve]; by rewrite directory_of_path_of|].
  assert (Hlb : Forall proper (l ++ [b])) by (apply Forall_app; split; [done|by constructor]).
  rewrite requested_name_clean, segments_path_of by (done || by intros [_ ?]%app_eq_nil). by destruct l.
Qed.
End Serving.

(** The files of the built-in interface. *)
Definition demo_static (name : string) : option bool :=
  if bool_decide (name = "."%string) then Some true
  else if bool_decide (name ∈ ["index.html"; "app.js"; "style.css"]%string) then Some false else None.
Lemma proper_by_test s : bool_decide (s <> ""%string /\ s <> "."%string /\ s <> ".."%string /\ "/"%char ∉ to_chars s) = true -> proper s.
Proof. by intros H%bool_decide_eq_true. Qed.

Lemma stays_inside_witness :
  opened (spaFileServer demo_static "GET" "/../x/../app.js") = Some "app.js"%string /\ is_Some (demo_static "app.js").
Proof.
  assert (opened (spaFileServer demo_static "GET" "/../x/../app.js") = Some "app.js"%string) as H by reflexivity.
  split; [done|]. exact (proj2 (stays_inside demo_static "GET" "/../x/../app.js" "app.js" H)).
Defined.
Lemma file_is_served_witness : spaFileServer demo_static "GET" "/app.js" = File "app.js".
Proof.
  apply (file_is_served demo_static ["app.js"%string]); [done|constructor; [by apply proper_by_test|constructor]|done|reflexivity].
Defined.
Lemma fallback_reaches_index_witness : follow demo_static 5 "/peers" = Some (File "index.html").
Proof. apply (fallback_reaches_index demo_static "peers" 3); [by apply proper_by_test|reflexivity|reflexivity|reflexivity]. Defined.
Lemma fallback_loops_witness : follow demo_static 20 "/peers/add" = None.
Proof.
  apply (fallback_loops demo_static ["peers"%string] "add" 20); [done|constructor; [by apply proper_by_test|constructor]|by apply proper_by_test|reflexivity|reflexivity].
Defined.
